(* ===== verification/_CoqProject ===== *)
-Q . S2P
Prelude.v
GoLib.v
Float64.v
GoText.v
GoTime.v
Columns.v
GoFlag.v
Model.v
Cluster.v
Fixtures.v
WorkingPlacement.v
PlacementFacts.v
IndexFacts.v
FeasibilityFacts.v
CapacityFacts.v
PlacementProps.v
Analyzer.v
AnalyzerFacts.v
AnalyzerProps.v
Planner.v
PlannerFacts.v
PlanReplay.v
PlannerProps.v
Impact.v
ImpactProps.v
Safety.v
SafetyProps.v
Window.v
WindowProps.v
Store.v
Effects.v
Executor.v
ExecutorFacts.v
RunFacts.v
Simulation.v
ExecutorProps.v
RecoveryProps.v
TerminationProps.v
RunStore.v
RunStoreProps.v
Reclaim.v
ReclaimProps.v
PlanStore.v
PlanStoreProps.v
Samples.v
SamplesProps.v
Recommend.v
RecommendProps.v
Schemas.v
Dialect.v
Dsn.v
DialectProps.v
Auth.v
AuthProps.v
Admission.v
AdmissionProps.v
AgentTools.v
Reports.v
ReportsProps.v
AgentToolsProps.v
Publish.v
PublishProps.v
Graph.v
Broker.v
BrokerProps.v
Kube.v
Collect.v
CollectProps.v
CliArgs.v
CliArgsProps.v
Api.v
Settings.v
CliConnect.v
CliClient.v
CliRender.v
CliCommands.v
CliProps.v
CliApiProps.v
ApiProps.v
SettingsProps.v
