(* ===== verification/Prelude.v ===== *)
(** * k8s-dencer: a verification library

k8s-dencer watches a Kubernetes cluster, plans which nodes could be drained so
that their pods fit on fewer nodes, shows the plan to an operator, and performs
the drains the operator approves.  It is four programs over shared packages: a
planner loop (cmd/planner), an API with a user interface (cmd/ui-backend), an
executor (cmd/executor) and a command line (cmd/dencer).  They share a database:
the planner writes plans, the API reads them and queues runs, the executor
claims runs and writes what it did.

This library models the packages that decide something, as executable
definitions that keep the names of the Go code (one Module per Go type, its
fields as the fields of the record [t], one definition per function), and proves
what they promise one another.

** Parts and files

- The language: [Prelude] (strings, sorting, lists, 64-bit integers, instants),
  [GoLib] (SHA-256, durations, strings, ranging over maps), [Float64] (doubles),
  [GoText] (cutting, padding, numbers as text), [GoTime] (parsing and formatting
  times), [GoFlag] (the flag package, ParseFloat).
- The data (internal/model): [Model], [Cluster]; concrete clusters and the generator
  of clusters in [Fixtures].
- Reading the cluster (internal/cluster): [Kube] has the API objects, [Collect]
  their conversion, the reader over the informer cache and the direct one.
- Where a pod can go (internal/constraints): [WorkingPlacement] is the mutable
  assignment, bare ([Core]) and with memoised spread counts ([Placement]), both
  behind the interface [PlacementOps]; [Analyzer] derives what holds each pod.
  The clients, analyzer, planner and guard, are written against the interface.
- What to drain (internal/planner, internal/impact): [Planner], [Impact].
- What must never happen (internal/safety, internal/window, api/v1alpha1):
  [Safety] is the guard before every step and every eviction, [Window] decides
  when a maintenance window authorises a Red step.
- Acting (internal/executor): [Executor] over the calls of [Effects]; the adapter to
  the API server is with the readers, in [Collect].
- Remembering (internal/store): [Store] and [RunStore] for runs and their audit
  trail, [PlanStore] for the plan history, [Samples] for measurements,
  [Reclaim] for what became of drained nodes; [Schemas] has the texts of the
  schema versions, [Dialect] their migration and the two SQL dialects, [Dsn]
  which database the environment names, [Columns] how instants and blobs are
  written to columns and read from them.
- The planning cycle (internal/publish, internal/notify): [Publish].
- The API (internal/auth, internal/api/rest, internal/api/graph,
  internal/recommend, internal/pricing): [Auth] for who may do what, [Admission]
  for the requests that queue runs, [Reports], [Recommend] (with the prices) and
  [Graph] for what it computes, [Broker] for the events browsers are sent, [Api] for the
  routes and a request from the guard to its answer; [AgentTools]
  (internal/api/agenttools) for what the conversational agent is told.
- The command line (internal/cli, cmd/dencer): [CliArgs] for arguments and lists of
  steps, [CliConnect] for finding the backend and a token, [CliClient] for the
  documents and the requests to the API, as programs
  over calls ([CliClient.prog]), [CliRender] for everything printed, [CliCommands]
  for the prompts and each command from its arguments to its exit status.
- The services (cmd/planner, cmd/executor, cmd/ui-backend, internal/httpserver):
  [Settings] for what their environment decides and how each starts.

** How the parts meet

A cycle ([Publisher.Cycle]) reads a snapshot ([Collector.Snapshot]), analyses it,
plans, classifies the steps, records measurements and departures, and saves the
plan ([PlanStore.Save]).  A request ([Api.serve]) passes [Auth.Require]; one that
asks for a run validates it against the stored plan ([Admission.admit_execute])
and inserts a pending row ([RunStore.Enqueue]).  [Executor.Poll] claims a row
([RunStore.Claim]) and performs it: before each cordon a fresh snapshot and
[Safety.CheckStep], before each eviction a fresh snapshot and
[Safety.CheckEviction], after each drain [Reclaim.Ledger.RecordDrain].  The command
line ([CliCommands.dencer]) reads plans from the API, shows what it would ask for,
asks for consent ([Confirm]), sends the request that queues the run and follows it
([Client.Wait]).

** What is proved

- [PlacementProps]: the memoised placement answers as the bare one
  ([index_changes_no_answer], a refinement); [CanPlace] is the conjunction of the
  declarative conditions of every hard constraint ([canplace_iff_feasible]);
  capacity is never oversold.  Facts in [PlacementFacts], [IndexFacts],
  [FeasibilityFacts], [CapacityFacts].
- [AnalyzerProps]: the analysis is complete, and when a pod is movable and a node
  drainable.
- [PlannerProps] (with [PlannerFacts], [PlanReplay]): a plan replays, respects
  policy and the packing ceiling, and does not depend on the memoisation.
- [ImpactProps], [SafetyProps], [WindowProps]: the exact conditions of a rating, of
  the guard's consent, and of an open window.
- [ExecutorProps], [RecoveryProps], [TerminationProps] (with [ExecutorFacts],
  [RunFacts]): over every history of calls and answers, cut short anywhere,
  nothing is cordoned or evicted unchecked; no node is left stranded; a run
  closes once; a drain that is reported complete has settled; polling returns.
  [whole_life_checked] is of the whole life of an executor, one poll after another.
- [RunStoreProps], [PlanStoreProps], [SamplesProps], [ReclaimProps]: the tables keep
  their keys under any interleaving of operations; no run is handed out twice;
  saving and reading a plan round-trip; pruning keeps the audit trail.
- [PublishProps]: the invariants of the cycle, with any call of the store failing.
- [AuthProps], [AdmissionProps], [ApiProps]: exactly which requests reach a handler;
  what a queued run is; that changing anything takes the grant, end to end.
- [ReportsProps], [RecommendProps]: the reports against the analyzer and the
  classifier they quote.
- [CollectProps]: the planner's and the executor's readers see one cluster, whole when
  every page of it was read; what they read after a cordon; the footprint of a pod against the rule of the scheduler.
- [Columns]: every stored instant is read back, the calendar included, and the order of
  the texts against that of the instants, from which [RunStoreProps] has which request
  a claim can pass over; blobs of every age.  [Fixtures]: a generated cluster is one.
  [Recommend]: the price table as it was written.
- [BrokerProps]: publications, arrivals and departures in any interleaving.
- [DialectProps]: what PostgreSQL is sent in place of SQLite's placeholders and
  types; migrations by any number of replicas that fail anywhere.
- [AgentToolsProps]: the agent against the API and the analyzer.
- [CliArgsProps], [CliProps], [CliApiProps]: arguments in any order; nothing is asked
  of the API without a shown question and an explicit yes; success only of runs
  seen to succeed; what the client asks is what the API serves and queues.
  [CliConnect], [CliRender]: tokens, backends and sizes.
- [Dsn]: the connection string read back.  [SettingsProps]: no environment
  opens the API, or lets the executor cordon for a Red step without a window; the
  executor rates as the planner; nothing is planned on half a cluster.

Some theorems say what the code does where it is not what is meant; their doc
comments say so.

** Choices of the model

- Integers: [int64] is [Z] with its wrap-around written out ([int64_add]); counters
  that cannot overflow are plain [Z].  [float64] is IEEE 754 by the Standard
  Library's [SpecFloat] at 53 bits.
- Maps are [gmap]; where the order of a [range] over a map can show, it is an
  argument ([MapRange]): any permutation of the keys.
- Times are nanoseconds since Go's zero instant; the stores compare them as the
  text they are stored as, which [Columns] proves to hold them.  The clock is read
  where the code reads it, each reading an argument or an answer.
- Contexts show only in the errors they make calls return.  Logs and metrics are
  left out.
- Each SQL statement is atomic, columns round-trip, and a failed call changes
  nothing; the clients of a store interleave as sequences of operations.
- Code outside the repository is an argument with its documented behaviour as
  named hypotheses: cron and time zones ([Calendar]), quantities ([Quantities]),
  the API server's reviews ([TokenReviews], [AccessReviews]), the cluster and the
  stores of the executor (the answers of [Effects]), the HTTP client of a webhook.
- JSON and URL matching are the standard library's: requests arrive decoded, and
  [CliApiProps] relates the fields that the client names to those the handlers read.

** Fuel and bounds

Only [Effects.run] has fuel, for the loops of the executor's waits: [enough_fuel]
is one more than the turns the settle timeout allows, and [poll_returns] proves it
enough in every world whose clock goes on.  The other recursions are
structural: over lists, or over a number fixed before, as [TrimSpace] and the
blocks of SHA-256 are over the length of their argument and the cube roots of
its constants over 40 bits.  [CliArgs.add_range] has the size of its range for
fuel, which is enough unless the range ends at the greatest integer, where the
code does not return either; [Client.Wait], which follows a run for as long as it
lasts, is bounded by a number of polls that the theorems are for all of, and
[Direct.pages] by a number of calls, which is enough when it is that of the pages.  Theorems on capacity assume quantities below 2^61,
two exbibytes.

** What is not modelled, and why

Logging, metrics, and the encoding of documents as JSON and YAML: input and output
only.  The compressor of blobs, the loading of a kubeconfig, the credential
plugins, the forwarding of a port, the informers and the source of random numbers:
libraries, arguments where their answers matter.  The deep copies and the
registration of the API types: generated. *)
From Stdlib Require Export ZArith Lia.
From Stdlib Require Export(notations) Ascii.
From stdpp Require Export base tactics list gmap sets strings pretty numbers sorting.

#[global] Set Default Goal Selector "!".
#[global] Open Scope Z_scope.

(** ** Strings: Go strings are byte strings, compared bytewise *)

Notation show := (pretty : Z → string) (only parsing).

Definition str_ltb (a b : string) : bool := String.ltb a b.

Lemma str_ltb_asym a b : str_ltb a b = true → str_ltb b a = false.
Proof.
  unfold str_ltb, String.ltb. rewrite String.compare_antisym.
  destruct (String.compare b a); done.
Qed.

Lemma str_ltb_total a b : str_ltb a b = false → str_ltb b a = false → a = b.
Proof.
  unfold str_ltb, String.ltb. rewrite String.compare_antisym.
  destruct (String.compare b a) eqn:E; try done. intros _ _. symmetry.
  by apply String.compare_eq_iff.
Qed.

Lemma str_ltb_cons c s c' s' :
  str_ltb (String c s) (String c' s') = true ↔
  (Ascii.N_of_ascii c < Ascii.N_of_ascii c')%N ∨ (c = c' ∧ str_ltb s s' = true).
Proof.
  unfold str_ltb, String.ltb. simpl. unfold Ascii.compare.
  destruct (N.compare_spec (Ascii.N_of_ascii c) (Ascii.N_of_ascii c')) as [He|Hl|Hg].
  - assert (c = c') as ->.
    { rewrite <- (Ascii.ascii_N_embedding c), He. apply Ascii.ascii_N_embedding. }
    split; [by right|]. intros [?|[_ ?]]; [lia|done].
  - split; [by left|done].
  - split; [done|]. intros [?|[-> _]]; lia.
Qed.

Lemma str_ltb_trans a b c : str_ltb a b = true → str_ltb b c = true → str_ltb a c = true.
Proof.
  revert b c. induction a as [|x a IH]; intros [|y b] [|z c]; try done.
  rewrite !str_ltb_cons. intros [H1|[-> H1]] [H2|[-> H2]]; [left; lia|by left..|].
  right. split; [done|]. by eapply IH.
Qed.

(** "Not before" is transitive, as sorting needs. *)
Lemma str_nltb_trans a b c : str_ltb b a = false → str_ltb c b = false → str_ltb c a = false.
Proof.
  intros H1 H2. apply not_true_iff_false. intros H3.
  destruct (str_ltb a b) eqn:Hab.
  - rewrite (str_ltb_trans c a b) in H2; done.
  - by rewrite (str_ltb_total a b Hab H1) in H3; congruence.
Qed.

(** Text first, then a number: the order of rows by a timestamp kept as text and
a sequence number. *)
Definition text_order (a b : string * Z) : bool :=
  str_ltb a.1 b.1 || ((a.1 =? b.1)%string && (a.2 <? b.2)).

Lemma text_order_asym a b : text_order a b = true → text_order b a = false.
Proof.
  destruct a as [s m], b as [t n]. unfold text_order. cbn [fst snd].
  rewrite orb_true_iff, andb_true_iff, orb_false_iff, andb_false_iff, String.eqb_eq, Z.ltb_lt.
  assert (Hs : ∀ x, str_ltb x x = false).
  { intros x. destruct (str_ltb x x) eqn:E; [|done]. pose proof (str_ltb_asym _ _ E). congruence. }
  intros [Hl|[-> Hl]].
  - split; [by apply str_ltb_asym|]. left. apply String.eqb_neq. intros ->. by rewrite Hs in Hl.
  - split; [apply Hs|right; apply Z.ltb_ge; lia].
Qed.

Lemma text_order_trans a b c : text_order b a = false → text_order c b = false → text_order c a = false.
Proof.
  destruct a as [s m], b as [t n], c as [u o]. unfold text_order. cbn [fst snd].
  rewrite !orb_false_iff, !andb_false_iff, !String.eqb_neq, !Z.ltb_ge.
  intros [H1 H2] [H3 H4]. split; [by eapply str_nltb_trans|].
  destruct (decide (u = s)) as [->|]; [|by left]. right.
  assert (s = t) as <- by (by apply str_ltb_total).
  destruct H2 as [|H2]; [done|]. destruct H4 as [|H4]; [done|]. lia.
Qed.

Lemma text_order_total a b : text_order a b = false → text_order b a = false → a = b.
Proof.
  destruct a as [s m], b as [t n]. unfold text_order. cbn [fst snd].
  rewrite !orb_false_iff, !andb_false_iff, !String.eqb_neq, !Z.ltb_ge. intros [H1 H2] [H3 H4].
  assert (s = t) as <- by (by apply str_ltb_total).
  destruct H2 as [|H2]; [done|]. destruct H4 as [|H4]; [done|]. f_equal. lia.
Qed.

(** The character that delimits strings, by its code. *)
Definition dquote : string := String (Ascii.ascii_of_nat 34) EmptyString.

#[local] Arguments String.append : simpl nomatch.

Lemma str_app_assoc (a b c : string) : (a +:+ b) +:+ c = a +:+ b +:+ c.
Proof. induction a as [|x a IH]; simpl; [done|]. by rewrite IH. Qed.

Lemma str_app_nil_r (a : string) : a +:+ "" = a.
Proof. induction a as [|x a IH]; simpl; [done|]. by rewrite IH. Qed.

Fixpoint join (sep : string) (l : list string) : string :=
  match l with
  | [] => ""
  | [s] => s
  | s :: l => s +:+ sep +:+ join sep l
  end.

Definition sconcat (l : list string) : string := foldr String.append "" l.

(** The [%q] verb: backslash escapes for quotes, backslashes and the control
characters; bytes from 128 on are left alone, as they are in printable UTF-8. *)
Definition hex_digit (n : N) : Ascii.ascii :=
  Ascii.ascii_of_N (if (n <? 10)%N then 48 + n else 87 + n)%N.

Definition quote_char (c : Ascii.ascii) : string :=
  let n := Ascii.N_of_ascii c in
  let esc (s : string) := String (Ascii.ascii_of_nat 92) s in
  match n with
  | 7 => esc "a" | 8 => esc "b" | 9 => esc "t" | 10 => esc "n"
  | 11 => esc "v" | 12 => esc "f" | 13 => esc "r"
  | 34 | 92 => esc (String c EmptyString)
  | _ =>
      if (n <? 32)%N || (n =? 127)%N
      then esc ("x" +:+ String (hex_digit (n / 16)) (String (hex_digit (n mod 16)) EmptyString))
      else String c EmptyString
  end%N.

Fixpoint quote_body (s : string) : string :=
  match s with
  | EmptyString => EmptyString
  | String c s => quote_char c +:+ quote_body s
  end.

Definition quoted (s : string) : string := dquote +:+ quote_body s +:+ dquote.

(** ** Maps of labels: a missing key reads as the zero value [""] *)

Definition label (m : gmap string string) (k : string) : string := default "" (m !! k).

(** ** Verdicts: the pair [(bool, string)] the predicates return *)

Abbreviation verdict := (bool * string)%type.

Definition pass : verdict := (true, "").
Definition refuse (reason : string) : verdict := (false, reason).

(** [if ok, reason := v; !ok { return false, reason }; k] *)
Definition and_then (v : verdict) (k : verdict) : verdict := if v.1 then k else v.

(** A loop that returns the first refusal. *)
Fixpoint check_all {A} (f : A → verdict) (l : list A) : verdict :=
  match l with
  | [] => pass
  | x :: l => and_then (f x) (check_all f l)
  end.

Lemma and_then_ok v k : (and_then v k).1 = v.1 && k.1.
Proof. destruct v as [[] s]; reflexivity. Qed.

Lemma check_all_ok {A} (f : A → verdict) l :
  (check_all f l).1 = forallb (λ x, (f x).1) l.
Proof. induction l as [|x l IH]; simpl; [done|]. by rewrite and_then_ok, IH. Qed.

(** ** State passing

The working placement memoises counts while it answers queries, so the
queries thread it through. *)

Definition State (S A : Type) : Type := S → A * S.

Definition st_ret {S A} (a : A) : State S A := λ s, (a, s).

Definition st_bind {S A B} (m : State S A) (k : A → State S B) : State S B :=
  λ s, let '(a, s) := m s in k a s.

Declare Scope state_scope.
Delimit Scope state_scope with state.
Notation "'let*' x ':=' m 'in' k" := (st_bind m (λ x, k))
  (at level 10, x name, m at level 200, k at level 200) : state_scope.

(** ** Machine integers

[int64] wraps around; [int32] conversions truncate. *)

Definition wrap64 (x : Z) : Z := (x + 2 ^ 63) mod 2 ^ 64 - 2 ^ 63.
Definition wrap32 (x : Z) : Z := (x + 2 ^ 31) mod 2 ^ 32 - 2 ^ 31.
Definition int64_add (x y : Z) : Z := wrap64 (x + y).
Definition int64_sub (x y : Z) : Z := wrap64 (x - y).

Definition in_int64 (x : Z) : Prop := - 2 ^ 63 <= x < 2 ^ 63.

Lemma wrap64_id x : in_int64 x → wrap64 x = x.
Proof. unfold in_int64, wrap64. intros H. rewrite Z.mod_small; lia. Qed.

Lemma wrap64_range x : in_int64 (wrap64 x).
Proof.
  unfold in_int64, wrap64.
  pose proof (Z.mod_pos_bound (x + 2 ^ 63) (2 ^ 64) ltac:(lia)). lia.
Qed.

Lemma wrap32_id x : - 2 ^ 31 <= x < 2 ^ 31 → wrap32 x = x.
Proof. unfold wrap32. intros H. rewrite Z.mod_small; lia. Qed.

(** ** Time

[time.Time] as nanoseconds since its zero value, so that [IsZero] is [= 0];
[time.Duration] as nanoseconds.  [Sub] saturates at the bounds of [int64]. *)

Abbreviation time := Z (only parsing).
Abbreviation duration := Z (only parsing).

Definition IsZeroTime (t : time) : bool := t =? 0.
Definition time_Sub (a b : time) : duration := Z.max (- 2 ^ 63) (Z.min (2 ^ 63 - 1) (a - b)).
Definition time_Add (a : time) (d : duration) : time := a + d.
Definition After (a b : time) : bool := b <? a.
Definition Before (a b : time) : bool := a <? b.

Definition Second : duration := 1000000000.
Definition Minute : duration := 60 * Second.
Definition Hour : duration := 60 * Minute.

(** ** Sorting

Go's [sort.SliceStable] with a strict weak order has one result, which
insertion sort computes. *)

Section sort.
Context {A : Type} (less : A → A → bool).

Fixpoint insert_by (x : A) (l : list A) : list A :=
  match l with
  | [] => [x]
  | y :: l => if less y x then y :: insert_by x l else x :: y :: l
  end.

Definition sort_by (l : list A) : list A := foldr insert_by [] l.

Lemma insert_by_perm x l : insert_by x l ≡ₚ x :: l.
Proof.
  induction l as [|y l IH]; simpl; [done|]. case_match; [|done].
  rewrite IH. constructor.
Qed.

Lemma sort_by_perm l : sort_by l ≡ₚ l.
Proof. induction l as [|x l IH]; simpl; [done|]. by rewrite insert_by_perm, IH. Qed.

Lemma elem_of_sort_by x l : x ∈ sort_by l ↔ x ∈ l.
Proof. by rewrite sort_by_perm. Qed.

Lemma length_sort_by l : length (sort_by l) = length l.
Proof. apply Permutation_length, sort_by_perm. Qed.

(** No element is followed at once by one that must come before it. *)
Definition in_order (a b : A) : Prop := less b a = false.

Context (less_asym : ∀ a b, less a b = true → less b a = false).

Lemma insert_by_sorted x l : Sorted in_order l → Sorted in_order (insert_by x l).
Proof.
  induction 1 as [|y l Hl IH Hhd]; simpl; [by repeat constructor|].
  destruct (less y x) eqn:Hyx.
  - constructor; [done|]. destruct l as [|z l]; simpl.
    + constructor. by apply less_asym.
    + inversion Hhd; subst. case_match; constructor; [done|by apply less_asym].
  - constructor; [by constructor|]. by constructor.
Qed.

Lemma sort_by_sorted l : Sorted in_order (sort_by l).
Proof. induction l; simpl; [constructor|]. by apply insert_by_sorted. Qed.
End sort.

Lemma Sorted_weaken {A} (R S : A → A → Prop) l : (∀ a b, R a b → S a b) → Sorted R l → Sorted S l.
Proof.
  intros HRS. induction 1 as [|x l Hl IH Hhd]; constructor; [done|].
  destruct Hhd; constructor. auto.
Qed.

Lemma Sorted_strongly {A} (R : A → A → Prop) l :
  (∀ a b c, a ∈ l → b ∈ l → c ∈ l → R a b → R b c → R a c) → Sorted R l → StronglySorted R l.
Proof.
  intros Ht. induction 1 as [|x l Hl IH Hx]; [constructor|].
  assert (Hs : StronglySorted R l) by (apply IH; intros a b c ???; apply Ht; by right).
  constructor; [done|]. destruct Hx as [|y l Hxy]; [constructor|]. constructor; [done|].
  apply StronglySorted_inv in Hs as [_ Hy]. apply Forall_forall. intros z Hz. rewrite Forall_forall in Hy.
  eapply (Ht x y z); [by left|by right; left|by right; right|done|by apply Hy].
Qed.

(** The head of a sorted list comes before every element, for an order whose
"not before" is transitive on the elements. *)
Lemma sort_by_head {A} (less : A → A → bool) (l : list A)
    (asym : ∀ a b, less a b = true → less b a = false)
    (trans : ∀ a b c, a ∈ l → b ∈ l → c ∈ l →
      less b a = false → less c b = false → less c a = false) :
  match sort_by less l with
  | [] => l = []
  | h :: _ => h ∈ l ∧ ∀ x, x ∈ l → less x h = false
  end.
Proof.
  induction l as [|x l IH]; simpl; [done|].
  assert (Hx : less x x = false).
  { destruct (less x x) eqn:E; [|done]. by rewrite (asym _ _ E) in E. }
  destruct (sort_by less l) as [|h t] eqn:Hs; simpl.
  - apply (f_equal length) in Hs. rewrite length_sort_by in Hs.
    apply nil_length_inv in Hs as ->. split; [by left|]. by intros y ->%list_elem_of_singleton.
  - destruct IH as [Hh Hall].
    { intros a b c ???. apply trans; by right. }
    destruct (less h x) eqn:Hhx; simpl.
    + split; [by right|]. intros y [->|Hy]%elem_of_cons; auto.
    + split; [by left|]. intros y [->|Hy]%elem_of_cons; [done|].
      apply (trans x h y); [by left|by right..|done|auto].
Qed.

(** Two lists with the same elements sort alike when the order is strict and
total: what makes the output independent of map iteration order. *)
Lemma sort_by_unique {A} (less : A → A → bool)
    (asym : ∀ a b, less a b = true → less b a = false)
    (trans : ∀ a b c, less b a = false → less c b = false → less c a = false)
    (total : ∀ a b, less a b = false → less b a = false → a = b) (l1 l2 : list A) :
  l1 ≡ₚ l2 → sort_by less l1 = sort_by less l2.
Proof.
  intros Hp.
  assert (Transitive (in_order less)) by (intros a b c ??; by eapply trans).
  assert (AntiSymm (=) (in_order less)) by (intros a b ??; by apply total).
  apply (Sorted_unique (in_order less)); [by apply sort_by_sorted..|].
  by rewrite !sort_by_perm.
Qed.

Lemma forallb_Forall {A} (f : A → bool) l : forallb f l = true ↔ Forall (λ x, f x = true) l.
Proof.
  induction l as [|x l IH]; simpl; [split; [constructor|done]|].
  by rewrite andb_true_iff, IH, Forall_cons.
Qed.

Lemma forallb_elem {A} (f : A → bool) l :
  forallb f l = true ↔ ∀ x, x ∈ l → f x = true.
Proof. by rewrite forallb_Forall, Forall_forall. Qed.

Lemma existsb_elem {A} (f : A → bool) l :
  existsb f l = true ↔ ∃ x, x ∈ l ∧ f x = true.
Proof. rewrite existsb_exists. by setoid_rewrite list_elem_of_In. Qed.

Lemma existsb_false_elem {A} (f : A → bool) l :
  existsb f l = false ↔ ∀ x, x ∈ l → f x = false.
Proof.
  rewrite <- not_true_iff_false, existsb_elem. split.
  - intros H x Hx. destruct (f x) eqn:E; [|done]. exfalso. eauto.
  - intros H (x & Hx & E). rewrite H in E; done.
Qed.

Lemma existsb_ext {A} (f g : A → bool) l : (∀ x, f x = g x) → existsb f l = existsb g l.
Proof. intros H. induction l as [|x l IH]; simpl; [done|]. by rewrite H, IH. Qed.

Lemma filter_elem {A} (f : A → bool) l x :
  x ∈ List.filter f l ↔ x ∈ l ∧ f x = true.
Proof. by rewrite !list_elem_of_In, filter_In. Qed.

(** Splits a conjunction of booleans and turns the string and integer tests of
a hypothesis or the goal into propositions. *)
Ltac bool_simpl :=
  repeat match goal with
  | H : _ && _ = true |- _ => apply andb_true_iff in H as [? ?]
  | H : negb _ = true |- _ => apply negb_true_iff in H
  | H : negb _ = false |- _ => apply negb_false_iff in H
  | H : (_ =? _)%string = true |- _ => apply String.eqb_eq in H
  | H : (_ =? _)%string = false |- _ => apply String.eqb_neq in H
  | H : _ || _ = false |- _ => apply orb_false_iff in H as [? ?]
  | H : bool_decide _ = true |- _ => apply bool_decide_eq_true in H
  | H : bool_decide _ = false |- _ => apply bool_decide_eq_false in H
  end.

(** An element of a list is identified by a projection without duplicates. *)
Lemma fmap_unique {A B} (f : A → B) l x y :
  NoDup (f <$> l) → x ∈ l → y ∈ l → f x = f y → x = y.
Proof.
  induction l as [|z l IH]; intros Hnd Hx Hy E; [by apply elem_of_nil in Hx|]. simpl in Hnd.
  apply NoDup_cons in Hnd as [Hz Hnd].
  apply elem_of_cons in Hx as [Hx|Hx]; apply elem_of_cons in Hy as [Hy|Hy]; subst; [done| | |auto].
  - destruct Hz. rewrite E. by apply list_elem_of_fmap_2.
  - destruct Hz. rewrite <- E. by apply list_elem_of_fmap_2.
Qed.

(** ** Filters, and sorting under a map *)

Lemma NoDup_filter_list {A B} (g : A → B) (f : A → bool) l :
  NoDup (g <$> l) → NoDup (g <$> List.filter f l).
Proof.
  induction l as [|x l IH]; [done|]. cbn. intros [Hx Hnd]%NoDup_cons.
  destruct (f x); [|by apply IH]. cbn. apply NoDup_cons. split; [|by apply IH].
  intros (y & E & Hy)%list_elem_of_fmap. apply filter_elem in Hy as [Hy _].
  apply Hx, list_elem_of_fmap. by exists y.
Qed.

Lemma filter_all {A} (f : A → bool) l : (∀ x, x ∈ l → f x = true) → List.filter f l = l.
Proof.
  induction l as [|x l IH]; intros H; cbn; [done|]. rewrite H by (by left).
  f_equal. apply IH. intros y Hy. apply H. by right.
Qed.

Lemma filter_none {A} (f : A → bool) l : (∀ x, x ∈ l → f x = false) → List.filter f l = [].
Proof.
  induction l as [|x l IH]; intros H; cbn; [done|]. rewrite H by (by left).
  apply IH. intros y Hy. apply H. by right.
Qed.

Lemma filter_filter {A} (f g : A → bool) l :
  (∀ x, x ∈ l → f x = true → g x = true) → List.filter f (List.filter g l) = List.filter f l.
Proof.
  induction l as [|x l IH]; intros H; [done|]. cbn.
  assert (Hx := H x (list_elem_of_here _ _)).
  assert (IH' : List.filter f (List.filter g l) = List.filter f l).
  { apply IH. intros y Hy. apply H. by right. }
  destruct (g x); cbn; [by rewrite IH'|]. destruct (f x); [by specialize (Hx eq_refl)|done].
Qed.

Lemma filter_perm {A} (f : A → bool) l l' : l ≡ₚ l' → List.filter f l ≡ₚ List.filter f l'.
Proof.
  induction 1 as [|x l l' _ IH|x y l|l1 l2 l3 _ IH1 _ IH2]; cbn; [done| | |by etransitivity].
  - destruct (f x); by rewrite IH.
  - destruct (f x), (f y); try done. apply Permutation_swap.
Qed.

Lemma filter_le {A} (f : A → bool) l : (length (List.filter f l) <= length l)%nat.
Proof. apply filter_length_le. Qed.

(** The element at a rank of the sorted list has no more than that many before it,
and no more than the rest after it. *)
Lemma sort_by_rank {A} (less : A → A → bool) l k m :
  (∀ a b, less a b = true → less b a = false) →
  (∀ a b c, a ∈ l → b ∈ l → c ∈ l → less b a = false → less c b = false → less c a = false) →
  sort_by less l !! k = Some m →
  m ∈ l ∧ (length (List.filter (λ x, less x m) l) <= k)%nat ∧
  (length (List.filter (less m) l) + k + 1 <= length l)%nat.
Proof.
  intros Hasym Htrans Hk. set (s := sort_by less l) in *.
  assert (Hs : StronglySorted (in_order less) s).
  { apply Sorted_strongly; [|by apply sort_by_sorted]. intros a b c. unfold s. rewrite !elem_of_sort_by. apply Htrans. }
  pose proof (sort_by_perm less l : s ≡ₚ l) as Hp.
  rewrite <- (Permutation_length (filter_perm (λ x, less x m) _ _ Hp)), <- (Permutation_length (filter_perm (less m) _ _ Hp)),
    <- (Permutation_length Hp), <- Hp. clearbody s. clear Htrans Hp l.
  split; [by eapply list_elem_of_lookup_2|].
  assert (Hmm : less m m = false) by (destruct (less m m) eqn:E; [by rewrite (Hasym _ _ E) in E|done]).
  revert k Hk. induction Hs as [|x s Hs IH Hx]; intros [|k]; cbn; [done|done| |].
  - intros [= ->]. rewrite Hmm. rewrite Forall_forall in Hx. split.
    + rewrite filter_none; [done|]. intros y Hy. by apply Hx.
    + pose proof (filter_le (less m) s). lia.
  - intros Hk. rewrite Forall_forall in Hx. assert (Hxm : less m x = false) by (apply Hx; by eapply list_elem_of_lookup_2).
    rewrite Hxm. destruct (IH k Hk) as [IH1 IH2]. split; [|lia]. destruct (less x m); cbn; lia.
Qed.

Lemma filter_partition {A} (f : A → bool) l :
  (length (List.filter (λ x, negb (f x)) l) + length (List.filter f l))%nat = length l.
Proof. induction l as [|x l IH]; [done|]. cbn. destruct (f x); cbn; lia. Qed.

Lemma sort_by_fmap {A B} (less : A → A → bool) (less' : B → B → bool) (f : A → B) l :
  (∀ a b, less' (f a) (f b) = less a b) → sort_by less' (f <$> l) = f <$> sort_by less l.
Proof.
  intros Hf. assert (Hi : ∀ x m, insert_by less' (f x) (f <$> m) = f <$> insert_by less x m).
  { intros x m. induction m as [|y m IH]; [done|]. cbn. rewrite Hf. destruct (less y x); [|done]. cbn. by rewrite IH. }
  unfold sort_by. induction l as [|x l IH]; [done|]. cbn [fmap list_fmap foldr] in *. by rewrite IH, Hi.
Qed.

Lemma sorted_strict l : Sorted (in_order Z.ltb) l → NoDup l → Sorted Z.lt l.
Proof.
  induction 1 as [|x l Hl IH Hhd]; intros Hnd; [constructor|]. apply NoDup_cons in Hnd as [Hx Hnd].
  constructor; [by apply IH|]. destruct Hhd as [|y l Hxy]; constructor.
  apply Z.ltb_ge in Hxy. assert (x ≠ y); [|lia]. intros ->. apply Hx. by left.
Qed.

(** ** Stable sorting of blocks

Where two elements are ordered one way or the other, it does not matter which of
them is inserted first; so lists whose elements are ordered against each other
may come in any order. *)

Section blocks.
Context {A : Type} (less : A → A → bool).
Context (asym : ∀ a b, less a b = true → less b a = false).
Context (trans : ∀ a b c, less b a = false → less c b = false → less c a = false).

Definition comparable (x y : A) : Prop := less x y = true ∨ less y x = true.

Lemma insert_by_comm_lt x y l :
  less x y = true → insert_by less x (insert_by less y l) = insert_by less y (insert_by less x l).
Proof.
  intros Hxy. pose proof (asym _ _ Hxy) as Hyx. induction l as [|z l IH]; cbn.
  { by rewrite Hxy, Hyx. }
  destruct (less z x) eqn:Hzx, (less z y) eqn:Hzy; cbn; rewrite ?Hzx, ?Hzy, ?Hxy, ?Hyx; cbn; rewrite ?Hzx, ?Hzy.
  - by rewrite IH.
  - by rewrite (trans _ _ _ Hyx Hzy) in Hzx.
  - done.
  - done.
Qed.

Lemma insert_by_comm x y l :
  comparable x y → insert_by less x (insert_by less y l) = insert_by less y (insert_by less x l).
Proof. intros [H|H]; [|symmetry]; by apply insert_by_comm_lt. Qed.

Lemma foldr_insert_comm x b l :
  Forall (comparable x) b →
  insert_by less x (foldr (insert_by less) l b) = foldr (insert_by less) (insert_by less x l) b.
Proof.
  induction 1 as [|y b Hy Hb IH]; [done|]. cbn. by rewrite insert_by_comm, IH.
Qed.

Lemma sort_by_swap b1 b2 l :
  Forall (λ x, Forall (comparable x) b2) b1 →
  sort_by less (b1 ++ b2 ++ l) = sort_by less (b2 ++ b1 ++ l).
Proof.
  unfold sort_by. rewrite !foldr_app. generalize (foldr (insert_by less) [] l) as m. clear l.
  intros m Hb. revert m. induction Hb as [|x b1 Hx Hb IH]; intros m; [done|]. cbn.
  by rewrite IH, foldr_insert_comm.
Qed.

(** The blocks of a list may be permuted. *)
Lemma sort_by_blocks {K} (block : K → list A) (ks ks' : list K) (l : list A) :
  NoDup ks → ks ≡ₚ ks' →
  (∀ k k' x y, k ∈ ks → k' ∈ ks → k ≠ k' → x ∈ block k → y ∈ block k' → comparable x y) →
  sort_by less (flat_map block ks ++ l) = sort_by less (flat_map block ks' ++ l).
Proof.
  intros Hnd Hp. revert Hnd. induction Hp as [|k ks ks' Hp IH|k k' ks|ks ks' ks'' Hp IH Hp' IH']; intros Hnd Hc; cbn.
  - done.
  - apply NoDup_cons in Hnd as [_ Hnd]. rewrite <- !app_assoc. unfold sort_by in *. rewrite !foldr_app.
    f_equal. rewrite <- !foldr_app. apply IH; [done|]. intros. eapply (Hc k0 k'); [by right|by right|done..].
  - apply NoDup_cons in Hnd as [Hk _]. rewrite <- !app_assoc. apply sort_by_swap.
    apply Forall_forall. intros x Hx. apply Forall_forall. intros y Hy.
    apply (Hc k' k); [by left|by right; left| |done..]. intros ->. apply Hk. by left.
  - rewrite IH by done. apply IH'; [by rewrite <- Hp|]. intros j j' x y Hj Hj'. apply Hc; by rewrite Hp.
Qed.
End blocks.
