(* ===== verification/GoLib.v ===== *)
(** * The Go standard library, as far as the program uses it

[crypto/sha256] with [encoding/hex], [time.Duration.String], and the string
functions of [strings]. *)
From S2P Require Import Prelude.

(** ** SHA-256 (FIPS 180-4), on lists of bytes *)

Module SHA256.

Definition word (x : Z) : Z := x mod 2 ^ 32.
Definition add (x y : Z) : Z := word (x + y).
Definition rotr (n x : Z) : Z := word (Z.lor (Z.shiftr x n) (Z.shiftl x (32 - n))).
Definition shr (n x : Z) : Z := Z.shiftr x n.

Definition Ch (x y z : Z) : Z := Z.lxor (Z.land x y) (Z.land (2 ^ 32 - 1 - x) z).
Definition Maj (x y z : Z) : Z := Z.lxor (Z.lxor (Z.land x y) (Z.land x z)) (Z.land y z).
Definition S0 (x : Z) : Z := Z.lxor (Z.lxor (rotr 2 x) (rotr 13 x)) (rotr 22 x).
Definition S1 (x : Z) : Z := Z.lxor (Z.lxor (rotr 6 x) (rotr 11 x)) (rotr 25 x).
Definition s0 (x : Z) : Z := Z.lxor (Z.lxor (rotr 7 x) (rotr 18 x)) (shr 3 x).
Definition s1 (x : Z) : Z := Z.lxor (Z.lxor (rotr 17 x) (rotr 19 x)) (shr 10 x).

(** The tables of the standard are the first 32 bits of the fractional parts of
the cube roots of the first 64 primes, and of the square roots of the first 8:
they are computed from the primes. *)
Definition is_prime (n : Z) : bool :=
  (2 <=? n) && forallb (λ d, negb (n mod d =? 0)) (seqZ 2 (n - 2)).

Definition primes (bound : Z) : list Z := List.filter is_prime (seqZ 2 bound).

(** The integer cube root of a number under [2 ^ (3 * bits)], bit by bit. *)
Fixpoint cbrt (bits : nat) (acc x : Z) : Z :=
  match bits with
  | O => acc
  | S bits =>
      let acc' := acc + 2 ^ Z.of_nat bits in
      cbrt bits (if acc' * acc' * acc' <=? x then acc' else acc) x
  end.

Definition K : list Z :=
  Eval vm_compute in (λ p, word (cbrt 40 0 (p * 2 ^ 96))) <$> take 64 (primes 320).

Definition H0 : list Z :=
  Eval vm_compute in (λ p, word (Z.sqrt (p * 2 ^ 64))) <$> take 8 (primes 20).

Fixpoint bytes_of (s : string) : list Z :=
  match s with
  | EmptyString => []
  | String c s => Z.of_N (Ascii.N_of_ascii c) :: bytes_of s
  end.

Definition be_bytes (n : nat) (x : Z) : list Z :=
  (λ i, Z.shiftr x (8 * Z.of_nat i) mod 256) <$> reverse (seq 0 n).

Definition pad (msg : list Z) : list Z :=
  let l := Z.of_nat (length msg) in
  msg ++ [128] ++ replicate (Z.to_nat ((55 - l) mod 64)) 0 ++ be_bytes 8 (8 * l).

Fixpoint be_words (n : nat) (l : list Z) : list Z * list Z :=
  match n, l with
  | S n, a :: b :: c :: d :: l =>
      let '(ws, rest) := be_words n l in
      (Z.lor (Z.shiftl a 24) (Z.lor (Z.shiftl b 16) (Z.lor (Z.shiftl c 8) d)) :: ws, rest)
  | _, _ => ([], l)
  end.

(** The message schedule, kept reversed: the last sixteen words decide the next. *)
Fixpoint schedule (n : nat) (w : list Z) : list Z :=
  match n with
  | O => w
  | S n =>
      let at' i := nth i w 0 in
      schedule n (add (add (s1 (at' 1%nat)) (at' 6%nat)) (add (s0 (at' 14%nat)) (at' 15%nat)) :: w)
  end.

Definition round (v : list Z) (kw : Z * Z) : list Z :=
  match v with
  | [a; b; c; d; e; f; g; h] =>
      let t1 := add (add (add h (S1 e)) (Ch e f g)) (add kw.1 kw.2) in
      let t2 := add (S0 a) (Maj a b c) in
      [add t1 t2; a; b; c; add d t1; e; f; g]
  | _ => v
  end.

Definition compress (v block : list Z) : list Z :=
  let w := reverse (schedule 48 (reverse block)) in
  zip_with add v (fold_left round (zip K w) v).

Fixpoint blocks (fuel : nat) (v : list Z) (msg : list Z) : list Z :=
  match fuel, msg with
  | O, _ | _, [] => v
  | S fuel, _ => let '(b, rest) := be_words 16 msg in blocks fuel (compress v b) rest
  end.

(** One unit of fuel per 64-byte block of the padded message. *)
Definition digest (s : string) : list Z :=
  let m := pad (bytes_of s) in
  blocks (length m / 64)%nat H0 m ≫= be_bytes 4.

Fixpoint hex (l : list Z) : string :=
  match l with
  | [] => ""
  | b :: l =>
      String (hex_digit (Z.to_N (b / 16))) (String (hex_digit (Z.to_N (b mod 16))) (hex l))
  end.

(** [hex.EncodeToString(sha256.Sum256(s))] *)
Definition sum_hex (s : string) : string := hex (digest s).

Example sum_hex_abc :
  sum_hex "abc" = "ba7816bf8f01cfea414140de5dae2223b00361a396177a9cb410ff61f20015ad".
Proof. vm_compute. reflexivity. Qed.

End SHA256.

(** ** time.Duration *)

(** The loop of [fmtFrac]: the digits printed so far, and the rest. *)
Fixpoint fmt_frac (prec : nat) (v : Z) (acc : string) : string * Z :=
  match prec with
  | O => ((if (acc =? "")%string then "" else "." +:+ acc), v)
  | S prec =>
      let digit := v mod 10 in
      let acc := if (acc =? "")%string && (digit =? 0) then "" else pretty digit +:+ acc in
      fmt_frac prec (v / 10) acc
  end.

Definition micro : string :=
  String (Ascii.ascii_of_nat 194) (String (Ascii.ascii_of_nat 181) "s").

(** [Duration.String] *)
Definition duration_string (d : Z) : string :=
  let u := Z.abs d in
  let body :=
    if u =? 0 then "0s"
    else if u <? 1000 then pretty u +:+ "ns"
    else if u <? 1000000 then let '(f, u) := fmt_frac 3 u "" in pretty u +:+ f +:+ micro
    else if u <? Second then let '(f, u) := fmt_frac 6 u "" in pretty u +:+ f +:+ "ms"
    else
      let '(f, u) := fmt_frac 9 u "" in
      let secs := pretty (u mod 60) +:+ f +:+ "s" in
      let m := u / 60 in
      if m =? 0 then secs
      else
        let mins := pretty (m mod 60) +:+ "m" +:+ secs in
        let h := m / 60 in
        if h =? 0 then mins else pretty h +:+ "h" +:+ mins in
  if d <? 0 then "-" +:+ body else body.

Example duration_string_examples :
  map duration_string [0; 1500000; 90 * Second; 10 * Minute; Hour + 30 * Second + 250000000] =
  ["0s"; "1.5ms"; "1m30s"; "10m0s"; "1h0m30.25s"].
Proof. reflexivity. Qed.

(** ** strings *)

Definition HasPrefix (s p : string) : bool := String.prefix p s.

Fixpoint str_take (n : nat) (s : string) : string :=
  match n, s with
  | S n, String c s => String c (str_take n s)
  | _, _ => ""
  end.

Fixpoint str_drop (n : nat) (s : string) : string :=
  match n, s with
  | S n, String _ s => str_drop n s
  | _, _ => s
  end.

(** [strings.Contains] *)
Definition str_contains (s sub : string) : bool :=
  match String.index 0 sub s with Some _ => true | None => false end.

Definition to_lower_char (c : Ascii.ascii) : Ascii.ascii :=
  let n := Ascii.N_of_ascii c in
  if (65 <=? n)%N && (n <=? 90)%N then Ascii.ascii_of_N (n + 32) else c.

(** [strings.ToLower], on ASCII *)
Fixpoint ToLower (s : string) : string :=
  match s with
  | EmptyString => EmptyString
  | String c s => String (to_lower_char c) (ToLower s)
  end.

(** The encodings of the runes that [unicode.IsSpace] accepts. *)
Definition spaces : list string :=
  (λ l, foldr (λ n s, String (Ascii.ascii_of_nat n) s) EmptyString l) <$>
  [[9]; [10]; [11]; [12]; [13]; [32]; [194; 133]; [194; 160]; [225; 154; 128];
   [226; 128; 128]; [226; 128; 129]; [226; 128; 130]; [226; 128; 131]; [226; 128; 132];
   [226; 128; 133]; [226; 128; 134]; [226; 128; 135]; [226; 128; 136]; [226; 128; 137];
   [226; 128; 138]; [226; 128; 168]; [226; 128; 169]; [226; 128; 175]; [226; 129; 159];
   [227; 128; 128]]%nat.

Definition leading_space (ss : list string) (s : string) : option nat :=
  String.length <$> head (List.filter (λ p, HasPrefix s p) ss).

(** The length of the string is fuel enough: every space removed has a byte. *)
Fixpoint trim_left (ss : list string) (fuel : nat) (s : string) : string :=
  match fuel with
  | O => s
  | S fuel =>
      match leading_space ss s with
      | Some n => trim_left ss fuel (str_drop n s)
      | None => s
      end
  end.

Fixpoint str_rev_app (s acc : string) : string :=
  match s with
  | EmptyString => acc
  | String c s => str_rev_app s (String c acc)
  end.

Definition str_rev (s : string) : string := str_rev_app s "".

(** [strings.TrimSpace] *)
Definition TrimSpace (s : string) : string :=
  let s := trim_left spaces (String.length s) s in
  str_rev (trim_left (str_rev <$> spaces) (String.length s) (str_rev s)).

(** [strings.Split(s, sep)] for a separator of one byte. *)
Fixpoint Split_on (sep : Ascii.ascii) (s : string) : list string :=
  match s with
  | EmptyString => [EmptyString]
  | String c s =>
      if Ascii.eqb c sep then EmptyString :: Split_on sep s
      else match Split_on sep s with
           | [] => [String c EmptyString]
           | w :: ws => String c w :: ws
           end
  end.

(** [strings.EqualFold] with a word that no rune outside ASCII folds to *)
Definition EqualFold (s t : string) : bool := (ToLower s =? ToLower t)%string.

(** ** Maps *)

(** Go visits the keys of a map in no set order. *)
Class MapRange : Type := {
  range : list string → list string;
  range_perm l : range l ≡ₚ l;
}.

(** The entries of a map in the order it is ranged over. *)
Definition entries `{MapRange} {V} (m : gmap string V) : list (string * V) :=
  omap (λ k, v ← m !! k; Some (k, v)) (range (map_to_list m).*1).

Lemma entries_perm `{MapRange} {V} (m : gmap string V) : entries m ≡ₚ map_to_list m.
Proof.
  unfold entries. rewrite range_perm.
  assert (Hs : ∀ l, (∀ kv, kv ∈ l → m !! kv.1 = Some kv.2) →
    omap (λ k, v ← m !! k; Some (k, v)) l.*1 = l).
  { induction l as [|[k v] l IH]; intros Hl; [done|]. cbn.
    pose proof (Hl (k, v) (list_elem_of_here _ _)) as E. cbn in E. rewrite E. cbn. f_equal. apply IH. intros kv Hkv. apply Hl. by right. }
  rewrite Hs; [done|]. intros [k v] Hkv. by apply elem_of_map_to_list in Hkv.
Qed.
