(* ===== verification/Float64.v ===== *)
(** * IEEE 754 double precision, as Go's [float64]

The planner ranks nodes by utilisation fractions and scales capacity by a
packing ceiling, both in [float64].  The Standard Library's [SpecFloat] gives
the operations with one rounding each (to nearest, ties to even), as integers
and no axioms; this file instantiates it at 53 bits of precision, adds the
conversions from and to [int64], the [%.1f] verb of [fmt], and the order
lemmas the sorting comparators need. *)
From Stdlib Require Import SpecFloat.
From S2P Require Import Prelude.

Abbreviation float64 := spec_float.

Module F64.

Definition of_Z (v : Z) : float64 := binary_normalize 53 1024 v 0 false.
Definition add (x y : float64) : float64 := SFadd 53 1024 x y.
Definition sub (x y : float64) : float64 := SFsub 53 1024 x y.
Definition mul (x y : float64) : float64 := SFmul 53 1024 x y.
Definition div (x y : float64) : float64 := SFdiv 53 1024 x y.
Definition ltb (x y : float64) : bool := SFltb x y.
Definition eqb (x y : float64) : bool := SFeqb x y.

(** A decimal literal [n / d] of the source, correctly rounded (both integers
are exact doubles in every use). *)
Definition lit (n d : Z) : float64 := div (of_Z n) (of_Z d).

Definition zero : float64 := S754_zero false.
Definition one : float64 := of_Z 1.

(** [int64(f)]: truncation towards zero.  Go leaves the result open for values
out of range, infinities and NaN; no caller reaches them. *)
Definition to_Z (f : float64) : Z :=
  match f with
  | S754_finite s m e =>
      let v := if 0 <=? e then Z.pos m * 2 ^ e else Z.pos m / 2 ^ (- e) in
      if s then - v else v
  | _ => 0
  end.

(** The [%.1f] verb on a non-negative finite value: the exact binary value
rounded half to even at the first decimal. *)
Definition tenths (f : float64) : Z :=
  match f with
  | S754_finite _ m e =>
      if 0 <=? e then 10 * Z.pos m * 2 ^ e
      else
        let d := 2 ^ (- e) in
        let q := (10 * Z.pos m) / d in
        let r := (10 * Z.pos m) mod d in
        if 2 * r <? d then q
        else if d <? 2 * r then q + 1
        else if Z.even q then q else q + 1
  | _ => 0
  end.

Definition fmt_1f (f : float64) : string :=
  pretty (tenths f / 10) +:+ "." +:+ pretty (tenths f mod 10).

(** ** The order *)

Definition is_nan (x : float64) : bool :=
  match x with S754_nan => true | _ => false end.

Lemma compare_antisym x y :
  SFcompare y x = option_map CompOpp (SFcompare x y).
Proof.
  destruct x as [[]|[]| |[] m e], y as [[]|[]| |[] m' e']; simpl; try done.
  - rewrite (Z.compare_antisym e e').
    destruct (e ?= e'); simpl; try done.
    change (Pos.compare_cont Eq m' m) with (m' ?= m)%positive.
    change (Pos.compare_cont Eq m m') with (m ?= m')%positive.
    by rewrite (Pos.compare_antisym m m').
  - rewrite (Z.compare_antisym e e').
    destruct (e ?= e'); simpl; try done.
    change (Pos.compare_cont Eq m' m) with (m' ?= m)%positive.
    change (Pos.compare_cont Eq m m') with (m ?= m')%positive.
    by rewrite (Pos.compare_antisym m m').
Qed.

Lemma ltb_irrefl x : ltb x x = false.
Proof.
  unfold ltb, SFltb. pose proof (compare_antisym x x) as H.
  destruct (SFcompare x x) as [[]|]; simpl in H; congruence.
Qed.

Lemma ltb_asym x y : ltb x y = true → ltb y x = false.
Proof.
  unfold ltb, SFltb. rewrite (compare_antisym x y).
  by destruct (SFcompare x y) as [[]|].
Qed.

Lemma eqb_sym x y : eqb x y = eqb y x.
Proof.
  unfold eqb, SFeqb. rewrite (compare_antisym x y).
  by destruct (SFcompare x y) as [[]|].
Qed.

Lemma eqb_not_ltb x y : eqb x y = true → ltb x y = false.
Proof. unfold eqb, ltb, SFeqb, SFltb. by destruct (SFcompare x y) as [[]|]. Qed.

(** Away from NaN the comparison is lexicographic on three integers. *)
Definition rank (x : float64) : Z * Z * Z :=
  match x with
  | S754_zero _ | S754_nan => (0, 0, 0)
  | S754_infinity s => ((if s then -2 else 2), 0, 0)
  | S754_finite s m e => if s then (-1, - e, Z.neg m) else (1, e, Z.pos m)
  end.

Definition lex (a b : Z * Z * Z) : comparison :=
  let '(a1, a2, a3) := a in
  let '(b1, b2, b3) := b in
  match a1 ?= b1 with
  | Eq => match a2 ?= b2 with Eq => a3 ?= b3 | c => c end
  | c => c
  end.

Lemma compare_rank x y :
  is_nan x = false → is_nan y = false → SFcompare x y = Some (lex (rank x) (rank y)).
Proof.
  intros Hx Hy.
  destruct x as [[]|[]| |[] m e], y as [[]|[]| |[] m' e']; try done; simpl.
  rewrite Z.compare_opp, (Z.compare_antisym e e').
  by destruct (e ?= e').
Qed.

Lemma lex_lt a b :
  lex a b = Lt ↔
  a.1.1 < b.1.1 ∨ (a.1.1 = b.1.1 ∧ (a.1.2 < b.1.2 ∨ (a.1.2 = b.1.2 ∧ a.2 < b.2))).
Proof.
  destruct a as [[a1 a2] a3], b as [[b1 b2] b3]. simpl.
  destruct (Z.compare_spec a1 b1), (Z.compare_spec a2 b2), (Z.compare_spec a3 b3);
    split; intros H'; try done; lia.
Qed.

Lemma lex_eq a b : lex a b = Eq ↔ a = b.
Proof.
  destruct a as [[a1 a2] a3], b as [[b1 b2] b3]. simpl.
  destruct (Z.compare_spec a1 b1), (Z.compare_spec a2 b2), (Z.compare_spec a3 b3);
    split; intros H'; subst; try done; simplify_eq; lia.
Qed.

Lemma ltb_lex x y :
  is_nan x = false → is_nan y = false → ltb x y = true ↔ lex (rank x) (rank y) = Lt.
Proof.
  intros Hx Hy. unfold ltb, SFltb. rewrite compare_rank by done.
  by destruct (lex (rank x) (rank y)).
Qed.

Lemma eqb_lex x y :
  is_nan x = false → is_nan y = false → eqb x y = true ↔ rank x = rank y.
Proof.
  intros Hx Hy. rewrite <- lex_eq. unfold eqb, SFeqb. rewrite compare_rank by done.
  by destruct (lex (rank x) (rank y)).
Qed.

Lemma eqb_rank_spec x y :
  is_nan x = false → is_nan y = false → reflect (rank x = rank y) (eqb x y).
Proof. intros Hx Hy. apply iff_reflect. symmetry. by apply eqb_lex. Qed.

Lemma ltb_rank_spec x y :
  is_nan x = false → is_nan y = false → reflect (lex (rank x) (rank y) = Lt) (ltb x y).
Proof. intros Hx Hy. apply iff_reflect. symmetry. by apply ltb_lex. Qed.

End F64.

Example f64_ceiling : F64.to_Z (F64.mul (F64.of_Z 8000) (F64.lit 85 100)) = 6800.
Proof. reflexivity. Qed.

Example f64_fmt : F64.fmt_1f (F64.div (F64.of_Z 1610612736) (F64.of_Z 1073741824)) = "1.5".
Proof. reflexivity. Qed.
