(* ===== verification/GoText.v ===== *)
(** * More of the standard library: text

The functions of [strings], [strconv], [fmt], [unicode/utf8] and [bufio] that the
command line, the agent tools and the configuration use, and lemmas on texts cut and
joined. *)
From Stdlib Require Import SpecFloat.
From S2P Require Import Prelude GoLib Float64.

(** ** strings *)

Definition newline : Ascii.ascii := Ascii.ascii_of_nat 10.
Definition nl : string := String newline EmptyString.

(** [strings.Cut(s, sep)] for a separator of one byte: what is before and after
its first occurrence. *)
Fixpoint Cut (s : string) (sep : Ascii.ascii) : option (string * string) :=
  match s with
  | EmptyString => None
  | String c s =>
      if Ascii.eqb c sep then Some (EmptyString, s)
      else '(before, after) ← Cut s sep; Some (String c before, after)
  end.

Definition in_set (cutset : string) (c : Ascii.ascii) : bool := existsb (Ascii.eqb c) (String.list_ascii_of_string cutset).

(** [strings.TrimLeft] and [TrimRight] for a cutset of ASCII. *)
Fixpoint TrimLeft (s cutset : string) : string :=
  match s with
  | EmptyString => EmptyString
  | String c rest => if in_set cutset c then TrimLeft rest cutset else s
  end.

Definition TrimRight (s cutset : string) : string := str_rev (TrimLeft (str_rev s) cutset).

Definition TrimPrefix (s prefix : string) : string :=
  if HasPrefix s prefix then str_drop (String.length prefix) s else s.

Definition to_upper_char (c : Ascii.ascii) : Ascii.ascii :=
  let n := Ascii.N_of_ascii c in
  if (97 <=? n)%N && (n <=? 122)%N then Ascii.ascii_of_N (n - 32) else c.

(** [strings.ToUpper], on ASCII *)
Fixpoint ToUpper (s : string) : string :=
  match s with
  | EmptyString => EmptyString
  | String c s => String (to_upper_char c) (ToUpper s)
  end.

(** ** strconv.Atoi *)

Fixpoint digits (acc : Z) (s : string) : option Z :=
  match s with
  | EmptyString => Some acc
  | String c s =>
      let n := Z.of_N (Ascii.N_of_ascii c) in
      if (48 <=? n) && (n <=? 57) then digits (10 * acc + (n - 48)) s else None
  end.

(** A number of at least one digit. *)
Definition unsigned (s : string) : option Z := if (s =? "")%string then None else digits 0 s.

Definition Atoi (s : string) : option Z :=
  v ← match s with
      | String c rest =>
          if Ascii.eqb c "-"%char then Z.opp <$> unsigned rest
          else if Ascii.eqb c "+"%char then unsigned rest else unsigned s
      | EmptyString => None
      end;
  if (- 2 ^ 63 <=? v) && (v <? 2 ^ 63) then Some v else None.

Example Atoi_examples :
  map Atoi ["7"; "-3"; "+5"; ""; "-"; "1x"; "9223372036854775807"; "9223372036854775808"] =
  [Some 7; Some (-3); Some 5; None; None; None; Some 9223372036854775807; None].
Proof. reflexivity. Qed.

(** ** unicode/utf8 *)

Definition byte (c : Ascii.ascii) : Z := Z.of_N (Ascii.N_of_ascii c).

(** Whether [s] goes on with [n] bytes 10xxxxxx, the first of them between [lo]
and [hi]. *)
Fixpoint continues (n : nat) (lo hi : Z) (s : string) : bool :=
  match n, s with
  | O, _ => true
  | S n, String c s => (lo <=? byte c) && (byte c <=? hi) && continues n 128 191 s
  | S _, EmptyString => false
  end.

(** The bytes of the first rune; one where the encoding is not valid. *)
Definition rune_size (c : Ascii.ascii) (rest : string) : nat :=
  let b := byte c in
  let seq (n : nat) (lo hi : Z) := if continues n lo hi rest then S n else 1%nat in
  if (194 <=? b) && (b <=? 223) then seq 1%nat 128 191
  else if b =? 224 then seq 2%nat 160 191
  else if b =? 237 then seq 2%nat 128 159
  else if (225 <=? b) && (b <=? 239) then seq 2%nat 128 191
  else if b =? 240 then seq 3%nat 144 191
  else if (241 <=? b) && (b <=? 243) then seq 3%nat 128 191
  else if b =? 244 then seq 3%nat 128 143
  else 1%nat.

(** [skip] bytes belong to the rune before. *)
Fixpoint runes_from (skip : nat) (s : string) : Z :=
  match s with
  | EmptyString => 0
  | String c rest =>
      match skip with
      | S skip => runes_from skip rest
      | O => 1 + runes_from (rune_size c rest - 1) rest
      end
  end.

Definition RuneCountInString (s : string) : Z := runes_from 0 s.

Example RuneCount_examples :
  map RuneCountInString [""; "abc"; "●"; "a…"; String (Ascii.ascii_of_nat 226) "ab"] = [0; 3; 1; 2; 3].
Proof. by vm_compute. Qed.

(** ** fmt *)

Fixpoint repeat_char (c : Ascii.ascii) (n : nat) : string :=
  match n with O => EmptyString | S n => String c (repeat_char c n) end.

Definition spaces_of (n : Z) : string := repeat_char " "%char (Z.to_nat n).

(** [%-8s] and the like: padded on the right to a width in runes. *)
Definition pad_right (width : Z) (s : string) : string := s +:+ spaces_of (width - RuneCountInString s).

(** [10^places * |f|], rounded half to even on the exact value. *)
Definition scaled (places : Z) (f : float64) : Z :=
  match f with
  | S754_finite _ m e =>
      let n := 10 ^ places * Z.pos m in
      if 0 <=? e then n * 2 ^ e
      else
        let d := 2 ^ (- e) in
        let q := n / d in
        let r := n mod d in
        if 2 * r <? d then q else if d <? 2 * r then q + 1 else if Z.even q then q else q + 1
  | _ => 0
  end.

(** A number below [10^places], with its leading zeros. *)
Definition zero_padded (places n : Z) : string :=
  repeat_char "0"%char (Z.to_nat places - String.length (pretty n)) +:+ pretty n.

(** [%.0f], [%.1f], [%.2f] *)
Definition fixed (places : Z) (f : float64) : string :=
  match f with
  | S754_nan => "NaN"
  | S754_infinity s => if s then "-Inf" else "+Inf"
  | S754_zero s | S754_finite s _ _ =>
      let n := scaled places f in
      (if s then "-" else "") +:+ pretty (n / 10 ^ places) +:+
      (if places =? 0 then "" else "." +:+ zero_padded places (n mod 10 ^ places))
  end.

Example fixed_examples :
  map (fixed 0) [F64.zero; F64.lit 1 2; F64.lit 3 2; F64.lit 455 10] = ["0"; "0"; "2"; "46"] ∧
  map (fixed 2) [F64.lit 5 1; F64.lit 1 100; F64.lit 123456 1000] = ["5.00"; "0.01"; "123.46"].
Proof. by vm_compute. Qed.

(** ** bufio *)

(** [bufio.NewReader(in).ReadString('\n')] on an input that ends after [s]: what is
read, up to the end of the first line and with it, and whether the input ended
first. *)
Fixpoint ReadString (s : string) : string * bool :=
  match s with
  | EmptyString => (EmptyString, true)
  | String c s =>
      if Ascii.eqb c newline then (nl, false)
      else let '(line, ended) := ReadString s in (String c line, ended)
  end.

(** * Texts cut and joined

A text without the separator in it, cut at the separator, and lists of texts joined
and split again. *)

#[local] Arguments String.append : simpl nomatch.

Fixpoint no_char (c : Ascii.ascii) (s : string) : bool :=
  match s with EmptyString => true | String c' s => negb (Ascii.eqb c' c) && no_char c s end.

Lemma no_char_app c a b : no_char c (a +:+ b) = no_char c a && no_char c b.
Proof. induction a as [|x a IH]; [done|]. cbn. by rewrite IH, andb_assoc. Qed.

Lemma Cut_none name c : no_char c name = true → Cut name c = None.
Proof.
  induction name as [|c' name IH]; [done|]. cbn. intros [Hc Hn]%andb_true_iff.
  rewrite (proj1 (negb_true_iff _) Hc). by rewrite IH.
Qed.

Lemma Cut_at name c v : no_char c name = true → Cut (name +:+ String c v) c = Some (name, v).
Proof.
  induction name as [|c' name IH]; cbn; [by rewrite Ascii.eqb_refl|]. intros [Hc Hn]%andb_true_iff.
  rewrite (proj1 (negb_true_iff _) Hc). by rewrite IH.
Qed.

Lemma in_set_no_char c s : in_set s c = negb (no_char c s).
Proof.
  unfold in_set. induction s as [|x s IH]; [done|]. cbn. rewrite IH, negb_andb, negb_involutive.
  by rewrite Ascii.eqb_sym.
Qed.

Lemma Split_on_app sep w s : no_char sep w = true → Split_on sep (w +:+ String sep s) = w :: Split_on sep s.
Proof.
  induction w as [|c w IH]; cbn; [by rewrite Ascii.eqb_refl|]. intros [Hc%negb_true_iff Hw]%andb_true_iff.
  by rewrite Hc, IH.
Qed.

Lemma Split_on_none sep w : no_char sep w = true → Split_on sep w = [w].
Proof.
  induction w as [|c w IH]; [done|]. cbn. intros [Hc%negb_true_iff Hw]%andb_true_iff. by rewrite Hc, IH.
Qed.

Lemma Split_on_join sep ws :
  ws ≠ [] → (∀ w, w ∈ ws → no_char sep w = true) → Split_on sep (join (String sep "") ws) = ws.
Proof.
  induction ws as [|w ws IH]; [done|]. intros _ Hws. destruct ws as [|w' ws].
  - apply Split_on_none, Hws. by left.
  - change (join (String sep "") (w :: w' :: ws)) with (w +:+ String sep (join (String sep "") (w' :: ws))).
    rewrite Split_on_app by (apply Hws; by left). f_equal. apply IH; [done|]. intros v Hv. apply Hws. by right.
Qed.
