(* ===== verification/GoTime.v ===== *)
(** * Parsing durations and formatting instants ([time] package)

[ParseDuration] as the standard library defines it, with its overflow checks,
and the RFC 3339 layout. *)
From S2P Require Import Prelude GoLib Float64.

(** ** ParseDuration *)

Definition is_digit (c : Ascii.ascii) : bool :=
  let n := Ascii.N_of_ascii c in (48 <=? n)%N && (n <=? 57)%N.

Definition digit (c : Ascii.ascii) : Z := Z.of_N (Ascii.N_of_ascii c) - 48.

(** [leadingInt]: [None] on overflow. *)
Fixpoint leadingInt (x : Z) (s : string) : option (Z * string) :=
  match s with
  | String c s' =>
      if is_digit c then
        if 2 ^ 63 / 10 <? x then None
        else
          let x := x * 10 + digit c in
          if 2 ^ 63 <? x then None else leadingInt x s'
      else Some (x, s)
  | EmptyString => Some (x, s)
  end.

(** [leadingFraction]: excess digits are dropped, not an error. *)
Fixpoint leadingFraction (x : Z) (scale : float64) (overflow : bool) (s : string) :
    Z * float64 * string :=
  match s with
  | String c s' =>
      if is_digit c then
        if overflow then leadingFraction x scale true s'
        else if (2 ^ 63 - 1) / 10 <? x then leadingFraction x scale true s'
        else
          let y := x * 10 + digit c in
          if 2 ^ 63 <? y then leadingFraction x scale true s'
          else leadingFraction y (F64.mul scale (F64.of_Z 10)) false s'
      else (x, scale, s)
  | EmptyString => (x, scale, s)
  end.

Fixpoint leadingUnit (s : string) : string * string :=
  match s with
  | String c s' =>
      if (Ascii.N_of_ascii c =? 46)%N || is_digit c then ("", s)
      else let '(u, rest) := leadingUnit s' in (String c u, rest)
  | EmptyString => ("", "")
  end.

Definition unitMap (u : string) : option Z :=
  let utf8_s a b := String (Ascii.ascii_of_nat a) (String (Ascii.ascii_of_nat b) "s") in
  if (u =? "ns")%string then Some 1
  else if (u =? "us")%string || (u =? utf8_s 194%nat 181%nat)%string || (u =? utf8_s 206%nat 188%nat)%string
  then Some 1000
  else if (u =? "ms")%string then Some 1000000
  else if (u =? "s")%string then Some Second
  else if (u =? "m")%string then Some Minute
  else if (u =? "h")%string then Some Hour
  else None.

Definition starts_number (s : string) : bool :=
  match s with String c _ => (Ascii.N_of_ascii c =? 46)%N || is_digit c | EmptyString => false end.

(** One round of the loop: the next quantity and its unit. *)
Definition parse_term (s : string) : option (Z * string) :=
  if negb (starts_number s) then None
  else
    '(v, s1) ← leadingInt 0 s;
    let pre := negb (String.length s =? String.length s1)%nat in
    let '(f, scale, s2, post) :=
      match s1 with
      | String c s' =>
          if (Ascii.N_of_ascii c =? 46)%N then
            let '(f, scale, s2) := leadingFraction 0 F64.one false s' in
            (f, scale, s2, negb (String.length s' =? String.length s2)%nat)
          else (0, F64.one, s1, false)
      | EmptyString => (0, F64.one, s1, false)
      end in
    if negb pre && negb post then None
    else
      let '(u, s3) := leadingUnit s2 in
      if (u =? "")%string then None
      else
        unit ← unitMap u;
        if 2 ^ 63 / unit <? v then None
        else
          let v := v * unit in
          let v := if 0 <? f
            then v + F64.to_Z (F64.mul (F64.of_Z f) (F64.div (F64.of_Z unit) scale)) else v in
          if 2 ^ 63 <? v then None else Some (v, s3).

(** Each round consumes at least one byte, so the length of the input is fuel
enough. *)
Fixpoint parse_terms (fuel : nat) (d : Z) (s : string) : option Z :=
  match s with
  | EmptyString => Some d
  | _ =>
      match fuel with
      | O => None
      | S fuel =>
          '(v, s) ← parse_term s;
          if 2 ^ 63 <? d + v then None else parse_terms fuel (d + v) s
      end
  end.

Definition ParseDuration (s : string) : option duration :=
  let '(neg, body) :=
    match s with
    | String c s' =>
        if (Ascii.N_of_ascii c =? 45)%N then (true, s')
        else if (Ascii.N_of_ascii c =? 43)%N then (false, s') else (false, s)
    | EmptyString => (false, s)
    end in
  if (body =? "0")%string then Some 0
  else if (body =? "")%string then None
  else
    d ← parse_terms (String.length body) 0 body;
    if neg then Some (- d) else if 2 ^ 63 - 1 <? d then None else Some d.

Example ParseDuration_examples :
  map ParseDuration ["4h"; "1h30m"; "1.5h"; "-90s"; "0"; ""; "h"; "3"; "1x"; "2562048h"] =
  [Some (4 * Hour); Some (90 * Minute); Some (90 * Minute); Some (-90 * Second); Some 0;
   None; None; None; None; None].
Proof. by vm_compute. Qed.

(** ** RFC 3339 *)

(** Days since 0001-01-01 to year, month, day in the proleptic Gregorian
calendar. *)
Definition civil (days : Z) : Z * Z * Z :=
  let z := days + 306 in
  let era := z / 146097 in
  let doe := z - era * 146097 in
  let yoe := (doe - doe / 1460 + doe / 36524 - doe / 146096) / 365 in
  let doy := doe - (365 * yoe + yoe / 4 - yoe / 100) in
  let mp := (5 * doy + 2) / 153 in
  let d := doy - (153 * mp + 2) / 5 + 1 in
  let m := if mp <? 10 then mp + 3 else mp - 9 in
  (yoe + era * 400 + (if m <=? 2 then 1 else 0), m, d).

Definition pad2 (n : Z) : string := if n <? 10 then "0" +:+ pretty n else pretty n.

Definition pad4 (n : Z) : string :=
  if n <? 10 then "000" +:+ pretty n
  else if n <? 100 then "00" +:+ pretty n
  else if n <? 1000 then "0" +:+ pretty n else pretty n.

(** [offset] is the zone's offset from UTC in seconds. *)
Definition zone_suffix (offset : Z) : string :=
  if offset =? 0 then "Z"
  else
    let o := Z.abs offset / 60 in
    (if offset <? 0 then "-" else "+") +:+ pad2 (o / 60) +:+ ":" +:+ pad2 (o mod 60).

Definition date_time (s : Z) : string :=
  let '(y, m, d) := civil (s / 86400) in
  let tod := s mod 86400 in
  pad4 y +:+ "-" +:+ pad2 m +:+ "-" +:+ pad2 d +:+ "T" +:+ pad2 (tod / 3600) +:+ ":" +:+
  pad2 (tod / 60 mod 60) +:+ ":" +:+ pad2 (tod mod 60).

Definition format_rfc3339 (offset : Z) (t : time) : string :=
  date_time (t / Second + offset) +:+ zone_suffix offset.

(** [t.UTC().Format(time.RFC3339Nano)]: the fraction loses its trailing zeros. *)
Definition format_rfc3339nano (t : time) : string :=
  date_time (t / Second) +:+ (fmt_frac 9 (t mod Second) "").1 +:+ "Z".

(** The Unix epoch on this scale. *)
Definition unix_epoch : time := 62135596800 * Second.

Example format_rfc3339_examples :
  [format_rfc3339 0 0; format_rfc3339 0 unix_epoch;
   format_rfc3339 3600 (unix_epoch + 1709164800 * Second)] =
  ["0001-01-01T00:00:00Z"; "1970-01-01T00:00:00Z"; "2024-02-29T01:00:00+01:00"].
Proof. by vm_compute. Qed.

Example format_rfc3339nano_examples :
  [format_rfc3339nano (unix_epoch + 500000000); format_rfc3339nano unix_epoch;
   format_rfc3339nano (unix_epoch + 120000001)] =
  ["1970-01-01T00:00:00.5Z"; "1970-01-01T00:00:00Z"; "1970-01-01T00:00:00.120000001Z"].
Proof. by vm_compute. Qed.
