(* ===== verification/Columns.v ===== *)
(** * What columns hold (internal/store/sqlstore/sqlstore.go)

Instants are stored as RFC 3339 text and read back with [parseTime]; snapshots and
analyses as compressed JSON.  Here are the reading and the writing, that nothing is
lost between them, and how the order of the texts relates to that of the instants. *)
From S2P Require Import Prelude GoLib Float64 GoText GoTime.

#[local] Arguments String.append : simpl nomatch.
#[local] Ltac Zify.zify_post_hook ::= Z.to_euclidean_division_equations.

(** ** time.Parse

[parseRFC3339], which [time.Parse] tries first for both layouts.  [min] is the value
of a field that is no number of its range; the whole is refused then. *)

Fixpoint all_digits (x : Z) (s : string) : option Z :=
  match s with
  | EmptyString => Some x
  | String c s => if is_digit c then all_digits (x * 10 + digit c) s else None
  end.

Definition parseUint (lo hi : Z) (s : string) : option Z :=
  match all_digits 0 s with
  | Some x => if (x <? lo) || (hi <? x) then None else Some x
  | None => None
  end.

Definition isLeap (year : Z) : bool :=
  (year mod 4 =? 0) && (negb (year mod 100 =? 0) || (year mod 400 =? 0)).

(** [daysBefore]: days of a common year before the month. *)
Definition daysBefore (month : Z) : Z :=
  match month with
  | 1 => 0 | 2 => 31 | 3 => 59 | 4 => 90 | 5 => 120 | 6 => 151 | 7 => 181 | 8 => 212
  | 9 => 243 | 10 => 273 | 11 => 304 | 12 => 334 | _ => 365
  end.

Definition daysIn (month year : Z) : Z :=
  if (month =? 2) && isLeap year then 29 else daysBefore (month + 1) - daysBefore month.

(** [time.Date] at midnight of a valid date, in days since 0001-01-01. *)
Definition days_of (year month day : Z) : Z :=
  let y := year - 1 in
  365 * y + y / 4 - y / 100 + y / 400 +
  daysBefore month + (if isLeap year && (3 <=? month) then 1 else 0) + (day - 1).

Definition slice (a b : nat) (s : string) : string := str_take (b - a) (str_drop a s).

Definition at_ (n : nat) (c : Ascii.ascii) (s : string) : bool :=
  match str_drop n s with String c' _ => Ascii.eqb c c' | EmptyString => false end.

(** The digits [s] begins with, and what follows them. *)
Fixpoint leading_digits (s : string) : string * string :=
  match s with
  | String c s' => if is_digit c then let '(ds, rest) := leading_digits s' in (String c ds, rest) else ("", s)
  | EmptyString => ("", "")
  end.

(** [parseNanoseconds] after the point: nine digits count. *)
Definition nanoseconds (ds : string) : Z :=
  let ds := str_take 9 ds in default 0 (all_digits 0 ds) * 10 ^ (9 - Z.of_nat (String.length ds)).

Definition fraction (s : string) : Z * string :=
  match s with
  | String p (String c _ as s') =>
      if Ascii.eqb p "."%char && is_digit c then
        let '(ds, rest) := leading_digits s' in (nanoseconds ds, rest)
      else (0, s)
  | _ => (0, s)
  end.

(** The offset of the zone in seconds. *)
Definition zone (s : string) : option Z :=
  if (s =? "Z")%string then Some 0
  else if negb (String.length s =? 6)%nat then None
  else
    hr ← parseUint 0 23 (slice 1 3 s);
    mm ← parseUint 0 59 (slice 4 6 s);
    if (at_ 0 "-" s || at_ 0 "+" s) && at_ 3 ":" s then
      let offset := (hr * 60 + mm) * 60 in Some (if at_ 0 "-" s then - offset else offset)
    else None.

Definition parseRFC3339 (s : string) : option time :=
  if (String.length s <? 19)%nat then None
  else
    year ← parseUint 0 9999 (slice 0 4 s);
    month ← parseUint 1 12 (slice 5 7 s);
    day ← parseUint 1 (daysIn month year) (slice 8 10 s);
    hour ← parseUint 0 23 (slice 11 13 s);
    minute ← parseUint 0 59 (slice 14 16 s);
    sec ← parseUint 0 59 (slice 17 19 s);
    if negb (at_ 4 "-" s && at_ 7 "-" s && at_ 10 "T" s && at_ 13 ":" s && at_ 16 ":" s) then None
    else
      let '(nsec, rest) := fraction (str_drop 19 s) in
      offset ← zone rest;
      Some (((days_of year month day * 86400 + hour * 3600 + minute * 60 + sec) - offset) * Second + nsec).

Definition RFC3339Nano : string := "2006-01-02T15:04:05.999999999Z07:00".
Definition RFC3339 : string := "2006-01-02T15:04:05Z07:00".

(** [general] is the parser for any layout, which takes some texts that are not
RFC 3339 as well. *)
Definition Parse (general : string → string → option time) (layout value : string) : option time :=
  match parseRFC3339 value with Some t => Some t | None => general layout value end.

(** Text that no layout reads is the zero time, which is no error. *)
Definition parseTime (general : string → string → option time) (s : string) : time :=
  match Parse general RFC3339Nano s with
  | Some t => t
  | None => match Parse general RFC3339 s with Some t => t | None => 0 end
  end.

Definition boolToInt (b : bool) : Z := if b then 1 else 0.

(** ** Blobs

[Unmarshal] reads a whole text and [Decode] the first value of what a reader gives:
the bytes it has, and the error it ends with if it is not the end of the data. *)
Module Codec.

Record t (A : Type) : Type := mk {
  Marshal : A → string + string;
  Unmarshal : string → string + A;
  Gzip : string → string;
  NewReader : string → string + (string * option string);
  Decode : string * option string → string + A;
}.

End Codec.

Arguments Codec.Marshal {A}.
Arguments Codec.Unmarshal {A}.
Arguments Codec.Gzip {A}.
Arguments Codec.NewReader {A}.
Arguments Codec.Decode {A}.

(** The compressor fails only where its buffer does, and a [bytes.Buffer] takes
everything. *)
Definition encodeBlob {A} (c : Codec.t A) (v : A) : string + string :=
  match Codec.Marshal c v with
  | inl err => inl err
  | inr raw => inr (Codec.Gzip c raw)
  end.

Definition gzipped (data : string) : bool :=
  match data with
  | String a (String b _) => (Ascii.N_of_ascii a =? 31)%N && (Ascii.N_of_ascii b =? 139)%N
  | _ => false
  end.

Definition decodeBlob {A} (c : Codec.t A) (data : string) : string + A :=
  if gzipped data then
    match Codec.NewReader c data with
    | inl err => inl err
    | inr zr => Codec.Decode c zr
    end
  else Codec.Unmarshal c data.

Example parse_examples :
  map parseRFC3339 ["1970-01-01T00:00:00Z"; "2024-02-29T01:00:00+01:00"; "0001-01-01T00:00:00.5Z";
                    "0001-01-01T00:00:00.1234567899Z"] =
    [Some unix_epoch; Some (unix_epoch + 1709164800 * Second); Some 500000000; Some 123456789] ∧
  map parseRFC3339 [""; "2023-02-29T00:00:00Z"; "2024-13-01T00:00:00Z"; "2024-01-01T24:00:00Z";
                    "2024-01-01 00:00:00Z"; "2024-01-01T00:00:00"; "2024-01-01T00:00:00,5Z"] = replicate 7 None.
Proof. by vm_compute. Qed.

(** ** Numbers of a fixed width *)

Definition digit_char (d : Z) : Ascii.ascii := pretty_N_char (Z.to_N d).

(** The last [k] digits of a number. *)
Fixpoint fixed_digits (k : nat) (n : Z) : string :=
  match k with
  | O => ""
  | S k => String (digit_char (n / 10 ^ Z.of_nat k mod 10)) (fixed_digits k n)
  end.

(** What can be tried one by one. *)
Lemma one_by_one (P : Z → Prop) a k : Forall P (seqZ a k) → ∀ n, a <= n < a + k → P n.
Proof. intros HP n Hn. rewrite Forall_forall in HP. apply HP, elem_of_seqZ. lia. Qed.

Lemma digit_char_spec d : 0 <= d < 10 → is_digit (digit_char d) = true ∧ digit (digit_char d) = d.
Proof. revert d. refine (one_by_one _ 0 10 _). repeat constructor. Qed.

Lemma mod10_range x : 0 <= x mod 10 < 10.
Proof. lia. Qed.

Lemma pretty_N_go_app x s : pretty_N_go x s = pretty_N_go x "" +:+ s.
Proof.
  revert s. induction (N.lt_wf_0 x) as [x _ IH]. intros s.
  destruct (decide (x = 0)%N) as [->|Hx]; [by rewrite !pretty_N_go_0|].
  rewrite !(pretty_N_go_step x) by lia.
  rewrite IH by (apply N.div_lt; lia). symmetry. rewrite IH by (apply N.div_lt; lia).
  by rewrite str_app_assoc.
Qed.

Lemma pretty_Z_N n : 0 <= n → pretty n = pretty (Z.to_N n).
Proof. by destruct n. Qed.

Lemma pretty_N_pos x : (0 < x)%N → pretty x = pretty_N_go x "".
Proof. intros Hx. unfold pretty, pretty_N. by rewrite decide_False by lia. Qed.

(** A number is printed as its tenth and its last digit. *)
Lemma pretty_snoc n : 10 <= n → pretty n = pretty (n / 10) +:+ String (digit_char (n mod 10)) "".
Proof.
  intros Hn. rewrite (pretty_Z_N n), (pretty_Z_N (n / 10)) by lia.
  rewrite !pretty_N_pos by lia. rewrite pretty_N_go_step, pretty_N_go_app by lia.
  unfold digit_char. rewrite Z2N.inj_div, Z2N.inj_mod by lia. done.
Qed.

Lemma all_digits_app x s s' : all_digits x (s +:+ s') = all_digits x s ≫= λ y, all_digits y s'.
Proof. revert x. induction s as [|c s IH]; intros x; cbn; [done|]. destruct (is_digit c); [apply IH|done]. Qed.

(** A number that is printed is read as itself. *)
Lemma pretty_value n : 0 <= n → all_digits 0 (pretty n) = Some n.
Proof.
  revert n. apply Zlt_0_ind. intros n IH Hn. destruct (Z.lt_ge_cases n 10) as [Hl|Hl].
  - refine (one_by_one (λ n, all_digits 0 (pretty n) = Some n) 0 10 _ n _); [|lia].
    repeat constructor.
  - rewrite pretty_snoc, all_digits_app, IH by lia. cbn [mbind option_bind all_digits].
    destruct (digit_char_spec (n mod 10) (mod10_range n)) as [-> ->]. f_equal. lia.
Qed.

Lemma fixed_digits_snoc k n :
  fixed_digits (S k) n = fixed_digits k (n / 10) +:+ String (digit_char (n mod 10)) "".
Proof.
  induction k as [|k IH]; [cbn; by rewrite Z.div_1_r|].
  change (fixed_digits (S (S k)) n) with (String (digit_char (n / 10 ^ Z.of_nat (S k) mod 10)) (fixed_digits (S k) n)).
  rewrite IH. cbn [fixed_digits String.append]. f_equal. f_equal. rewrite Z.div_div by lia.
  by rewrite Nat2Z.inj_succ, Z.pow_succ_r by lia.
Qed.

Lemma length_fixed_digits k n : String.length (fixed_digits k n) = k.
Proof. induction k; cbn; congruence. Qed.

Lemma pretty_fixed_digit n : 0 <= n < 10 → pretty n = String (digit_char n) "".
Proof. revert n. refine (one_by_one _ 0 10 _). repeat constructor. Qed.

(** Leading zeros fill what a number is short of. *)
Lemma pretty_fixed k n :
  0 <= n → 10 ^ Z.of_nat k <= n < 10 ^ Z.of_nat (S k) → pretty n = fixed_digits (S k) n.
Proof.
  revert n. induction k as [|k IH]; intros n H0 Hn.
  - rewrite pretty_fixed_digit by lia. cbn. by rewrite Z.div_1_r, Z.mod_small by lia.
  - rewrite !Nat2Z.inj_succ, !Z.pow_succ_r in Hn by lia. rewrite fixed_digits_snoc.
    assert (0 < 10 ^ Z.of_nat k) by (apply Z.pow_pos_nonneg; lia).
    rewrite pretty_snoc by lia. rewrite IH; [done|lia|]. rewrite Nat2Z.inj_succ, Z.pow_succ_r by lia. lia.
Qed.

Lemma pad2_fixed n : 0 <= n < 100 → pad2 n = fixed_digits 2 n.
Proof.
  intros Hn. unfold pad2. destruct (Z.ltb_spec n 10).
  - rewrite pretty_fixed_digit by lia. cbn. by rewrite Z.div_1_r, Z.div_small, (Z.mod_small n) by lia.
  - by rewrite (pretty_fixed 1) by (cbn; lia).
Qed.

Lemma fixed_digits_zero k n : 0 <= n < 10 ^ Z.of_nat k → fixed_digits (S k) n = String "0" (fixed_digits k n).
Proof. intros Hn. cbn. by rewrite Z.div_small. Qed.

Lemma pad4_fixed n : 0 <= n < 10000 → pad4 n = fixed_digits 4 n.
Proof.
  intros Hn. unfold pad4. destruct (Z.ltb_spec n 10); [|destruct (Z.ltb_spec n 100); [|destruct (Z.ltb_spec n 1000)]].
  - rewrite 2!fixed_digits_zero, <-pad2_fixed by (cbn; lia). unfold pad2. by rewrite (proj2 (Z.ltb_lt _ _)).
  - rewrite 2!fixed_digits_zero by (cbn; lia). by rewrite (pretty_fixed 1) by (cbn; lia).
  - rewrite fixed_digits_zero by (cbn; lia). by rewrite (pretty_fixed 2) by (cbn; lia).
  - by rewrite (pretty_fixed 3) by (cbn; lia).
Qed.

(** Read back, a number of a fixed width is the number. *)
Lemma all_digits_fixed k n x s :
  0 <= n → all_digits x (fixed_digits k n +:+ s) = all_digits (x * 10 ^ Z.of_nat k + n mod 10 ^ Z.of_nat k) s.
Proof.
  revert x. induction k as [|k IH]; intros x Hn; cbn [fixed_digits String.append all_digits].
  - f_equal. cbn. rewrite Z.mod_1_r. lia.
  - destruct (digit_char_spec (n / 10 ^ Z.of_nat k mod 10)) as [-> ->]; [lia|]. rewrite IH by done. f_equal.
    rewrite Nat2Z.inj_succ, Z.pow_succ_r by lia. rewrite (Z.mul_comm 10), Z.rem_mul_r by (try apply Z.pow_nonzero; lia). lia.
Qed.

Lemma parseUint_fixed lo hi k n :
  lo <= n <= hi → 0 <= n < 10 ^ Z.of_nat k → parseUint lo hi (fixed_digits k n) = Some n.
Proof.
  intros Hb Hn. unfold parseUint. rewrite <-(str_app_nil_r (fixed_digits k n)), all_digits_fixed by lia.
  rewrite Z.mod_small by done. cbn [all_digits]. rewrite Z.mul_0_l, Z.add_0_l. destruct (Z.ltb_spec n lo), (Z.ltb_spec hi n); lia || done.
Qed.

(** ** The calendar *)

(** Days before year [y] of an era that begins in March. *)
Definition year_start (y : Z) : Z := 365 * y + y / 4 - y / 100.

Lemma year_of_day doe :
  0 <= doe < 146097 →
  let yoe := (doe - doe / 1460 + doe / 36524 - doe / 146096) / 365 in
  0 <= yoe < 400 ∧ year_start yoe <= doe ∧ (doe < year_start (yoe + 1) ∨ doe = 146096 ∧ yoe = 399).
Proof.
  intros Hd yoe. unfold yoe, year_start.
  assert (Hc : doe / 36524 = 0 ∨ doe / 36524 = 1 ∨ doe / 36524 = 2 ∨ doe / 36524 = 3 ∨ doe / 36524 = 4) by lia.
  assert (He : doe / 146096 = 0 ∨ doe = 146096) by lia.
  destruct He as [He| ->]; [|vm_compute; intuition discriminate].
  rewrite He. destruct Hc as [Hc|[Hc|[Hc|[Hc|Hc]]]]; rewrite Hc; lia.
Qed.

Lemma leap_count y :
  y / 4 - y / 100 + y / 400 = (y - 1) / 4 - (y - 1) / 100 + (y - 1) / 400 + (if isLeap y then 1 else 0).
Proof.
  unfold isLeap. destruct (Z.eqb_spec (y mod 4) 0), (Z.eqb_spec (y mod 100) 0), (Z.eqb_spec (y mod 400) 0); cbn; lia.
Qed.

(** The last day of a year that begins in March is that of a February of 29 days. *)
Lemma day_of_year doe era yoe :
  0 <= doe < 146097 → 0 <= yoe < 400 → year_start yoe <= doe →
  doe < year_start (yoe + 1) ∨ doe = 146096 ∧ yoe = 399 →
  0 <= doe - year_start yoe <= 365 ∧
  (doe - year_start yoe = 365 → isLeap (yoe + era * 400 + 1) = true).
Proof.
  unfold year_start, isLeap. intros Hd Hy Hs He.
  destruct (Z.eqb_spec ((yoe + era * 400 + 1) mod 4) 0), (Z.eqb_spec ((yoe + era * 400 + 1) mod 100) 0),
    (Z.eqb_spec ((yoe + era * 400 + 1) mod 400) 0); cbn; split; try done; lia.
Qed.

Lemma month_of_day doy :
  0 <= doy <= 365 →
  let mp := (5 * doy + 2) / 153 in
  0 <= mp <= 11 ∧ (153 * mp + 2) / 5 <= doy < (153 * (mp + 1) + 2) / 5.
Proof. intros Hd mp. unfold mp. lia. Qed.

(** The months of a year that begins in March: where they are in a calendar year. *)
Definition month_facts (mp : Z) : bool :=
  let m := if mp <? 10 then mp + 3 else mp - 9 in
  let start := (153 * mp + 2) / 5 in
  (1 <=? m) && (m <=? 12) && Bool.eqb (m <=? 2) (10 <=? mp) && Bool.eqb (3 <=? m) (mp <? 10) &&
  (daysBefore m =? (if mp <? 10 then start + 59 else start - 306)) &&
  Bool.eqb (m =? 2) (mp =? 11) &&
  (daysBefore (m + 1) - daysBefore m =? (if mp =? 11 then 28 else (153 * (mp + 1) + 2) / 5 - start)).

Lemma months mp : 0 <= mp <= 11 → month_facts mp = true.
Proof. intros Hm. refine (one_by_one (λ mp, month_facts mp = true) 0 12 _ mp _); [repeat constructor|lia]. Qed.

(** Every day has a date, which is valid and is of that day. *)
Lemma civil_spec days y m d :
  civil days = (y, m, d) → 1 <= m <= 12 ∧ 1 <= d <= daysIn m y ∧ days_of y m d = days.
Proof.
  unfold civil. set (era := (days + 306) / 146097). set (doe := days + 306 - era * 146097).
  assert (Hdoe : 0 <= doe < 146097) by (unfold doe, era; lia).
  destruct (year_of_day doe Hdoe) as (Hy & Hs & He).
  set (yoe := (doe - doe / 1460 + doe / 36524 - doe / 146096) / 365) in *.
  destruct (day_of_year doe era yoe Hdoe Hy Hs He) as [Hdoy Hleap].
  replace (doe - (365 * yoe + yoe / 4 - yoe / 100)) with (doe - year_start yoe) by (unfold year_start; lia).
  set (doy := doe - year_start yoe) in *.
  destruct (month_of_day doy Hdoy) as [Hmp Hd]. set (mp := (5 * doy + 2) / 153) in *. intros [= <- <- <-].
  assert (Hdays : days = era * 146097 + year_start yoe + doy - 306) by (unfold doy, doe; lia).
  clearbody mp doy yoe doe era. subst days. clear Hdoe Hs He.
  pose proof (leap_count (yoe + era * 400)) as HL. pose proof (months mp Hmp) as HM. unfold month_facts in HM.
  set (m := if mp <? 10 then mp + 3 else mp - 9) in *. clearbody m.
  rewrite !andb_true_iff, !Z.leb_le, !Z.eqb_eq, !eqb_true_iff in HM.
  destruct HM as ((((((Hm1 & Hm2) & Hm3) & Hm4) & Hm5) & Hm6) & Hm7).
  unfold days_of, daysIn, year_start in *. rewrite Hm7, Hm6, Hm5, Hm4, Hm3.
  destruct (Z.leb_spec 10 mp), (Z.ltb_spec mp 10), (Z.eqb_spec mp 11); try lia; rewrite ?Z.add_simpl_r, ?andb_false_r, ?andb_true_r, ?Z.add_0_r.
  - subst mp. rewrite andb_true_l. destruct (isLeap (yoe + era * 400 + 1)); lia.
  - rewrite andb_false_l. lia.
  - rewrite andb_false_l. lia.
Qed.

(** ** Fractions of a second *)

(** The last [k] digits of [n] without the zeros at the end. *)
Fixpoint trimmed (k : nat) (n : Z) : string :=
  match k with
  | O => ""
  | S k => if n mod 10 ^ Z.of_nat (S k) =? 0 then "" else String (digit_char (n / 10 ^ Z.of_nat k mod 10)) (trimmed k n)
  end.

Lemma pow10_S k : 10 ^ Z.of_nat (S k) = 10 * 10 ^ Z.of_nat k.
Proof. rewrite Nat2Z.inj_succ, Z.pow_succ_r by lia. done. Qed.

Lemma pow10_pos k : 0 < 10 ^ Z.of_nat k.
Proof. apply Z.pow_pos_nonneg; lia. Qed.

Lemma mod_pow10_S k n : n mod 10 ^ Z.of_nat (S k) = n mod 10 + 10 * ((n / 10) mod 10 ^ Z.of_nat k).
Proof. rewrite pow10_S. pose proof (pow10_pos k). rewrite Z.rem_mul_r by lia. lia. Qed.

Lemma trimmed_snoc k n :
  trimmed (S k) n =
  if n mod 10 =? 0 then trimmed k (n / 10) else fixed_digits k (n / 10) +:+ String (digit_char (n mod 10)) "".
Proof.
  induction k as [|k IH].
  - cbn [trimmed fixed_digits]. rewrite mod_pow10_S, Z.div_1_r, Z.mod_1_r, Z.mul_0_r, Z.add_0_r. done.
  - change (trimmed (S (S k)) n) with
      (if n mod 10 ^ Z.of_nat (S (S k)) =? 0 then ""
       else String (digit_char (n / 10 ^ Z.of_nat (S k) mod 10)) (trimmed (S k) n)).
    rewrite IH. change (trimmed (S k) (n / 10)) with
      (if n / 10 mod 10 ^ Z.of_nat (S k) =? 0 then ""
       else String (digit_char (n / 10 / 10 ^ Z.of_nat k mod 10)) (trimmed k (n / 10))).
    pose proof (pow10_pos k). rewrite mod_pow10_S, Z.div_div, <-pow10_S by lia.
    destruct (Z.eqb_spec (n mod 10) 0) as [->|Hn].
    + destruct (Z.eqb_spec (n / 10 mod 10 ^ Z.of_nat (S k)) 0) as [->|Hk]; [done|].
      by rewrite (proj2 (Z.eqb_neq _ _)) by lia.
    + pose proof (Z.mod_pos_bound (n / 10) _ (pow10_pos (S k))). rewrite (proj2 (Z.eqb_neq _ _)) by lia.
      cbn [fixed_digits String.append]. by rewrite Z.div_div, <-pow10_S by lia.
Qed.

Lemma fmt_frac_digits k n acc :
  acc ≠ "" → (fmt_frac k n acc).1 = "." +:+ fixed_digits k n +:+ acc.
Proof.
  revert n acc. induction k as [|k IH]; intros n acc Ha.
  - cbn. by destruct (String.eqb_spec acc "").
  - cbn [fmt_frac]. destruct (String.eqb_spec acc "") as [->|_]; [done|]. rewrite andb_false_l.
    pose proof (mod10_range n). rewrite IH, (pretty_fixed_digit (n mod 10)) by (done || by destruct (pretty _)).
    rewrite fixed_digits_snoc, str_app_assoc. done.
Qed.

(** [fmtFrac] prints them after a point, and nothing when there are none. *)
Lemma fmt_frac_trimmed k n :
  (fmt_frac k n "").1 = if (trimmed k n =? "")%string then "" else "." +:+ trimmed k n.
Proof.
  revert n. induction k as [|k IH]; intros n; [done|]. rewrite trimmed_snoc. cbn [fmt_frac].
  destruct (Z.eqb_spec (n mod 10) 0) as [->|Hn]; [apply IH|]. cbn [andb].
  pose proof (mod10_range n). rewrite pretty_fixed_digit by lia. rewrite fmt_frac_digits by done.
  by destruct (fixed_digits k (n / 10)).
Qed.

(** Read back, they are the number again. *)
Lemma trimmed_value k n x :
  ∃ v, all_digits x (trimmed k n) = Some v ∧ (String.length (trimmed k n) <= k)%nat ∧
    v * 10 ^ (Z.of_nat k - Z.of_nat (String.length (trimmed k n))) = x * 10 ^ Z.of_nat k + n mod 10 ^ Z.of_nat k.
Proof.
  revert x. induction k as [|k IH]; intros x.
  - exists x. split_and!; [done|done|]. change (10 ^ Z.of_nat 0) with 1. rewrite Z.mod_1_r.
    change (Z.of_nat 0 - Z.of_nat (String.length (trimmed 0 n))) with 0. lia.
  - cbn [trimmed]. destruct (Z.eqb_spec (n mod 10 ^ Z.of_nat (S k)) 0) as [->|Hn].
    + exists x. cbn [all_digits String.length]. change (Z.of_nat 0) with 0. rewrite Z.sub_0_r.
      split_and!; [done|lia|lia].
    + destruct (IH (x * 10 + n / 10 ^ Z.of_nat k mod 10)) as (v & Hv & Hl & He). exists v.
      cbn [all_digits String.length]. destruct (digit_char_spec (n / 10 ^ Z.of_nat k mod 10)) as [-> ->]; [apply mod10_range|].
      split_and!; [done|lia|].
      replace (Z.of_nat (S k) - Z.of_nat (S (String.length (trimmed k n)))) with
        (Z.of_nat k - Z.of_nat (String.length (trimmed k n))) by lia.
      rewrite He, pow10_S, (Z.mul_comm 10 (10 ^ _)), Z.rem_mul_r by (pose proof (pow10_pos k); lia). lia.
Qed.

Lemma leading_trimmed k n s : leading_digits (trimmed k n +:+ String "Z" s) = (trimmed k n, String "Z" s).
Proof.
  induction k as [|k IH]; [done|]. cbn [trimmed]. destruct (_ =? 0); [done|].
  cbn [String.append leading_digits]. destruct (digit_char_spec (n / 10 ^ Z.of_nat k mod 10)) as [-> _]; [apply mod10_range|].
  by rewrite IH.
Qed.

Lemma str_take_all k s : (String.length s <= k)%nat → str_take k s = s.
Proof. revert s. induction k as [|k IH]; intros [|c s]; cbn; try done; [lia|]. intros H. by rewrite IH by lia. Qed.

Lemma fraction_printed ns :
  0 <= ns < 10 ^ 9 → fraction ((fmt_frac 9 ns "").1 +:+ "Z") = (ns, "Z").
Proof.
  intros Hns. rewrite fmt_frac_trimmed. destruct (trimmed_value 9 ns 0) as (v & Hv & Hl & He).
  rewrite Z.mod_small in He by done. unfold fraction.
  destruct (trimmed 9 ns) as [|c ds] eqn:E.
  - cbn in Hv, He |- *. injection Hv as <-. f_equal. lia.
  - pose proof (leading_trimmed 9 ns "") as HL. rewrite E in HL. cbn [String.eqb String.append] in *.
    assert (is_digit c = true) as -> by (cbn in HL; destruct (is_digit c); [done|congruence]).
    cbn [Ascii.eqb Bool.eqb andb]. rewrite HL. f_equal. unfold nanoseconds. rewrite str_take_all by done.
    rewrite Hv. cbn [default]. rewrite Z.mul_0_l, Z.add_0_l in He. exact He.
Qed.

(** ** Instants through a column *)

(** The first instant that needs a fifth digit for its year. *)
Definition year_10000 : time := 315537897600 * Second.

(** Days before a year, and before a month of it. *)
Definition year_days (y : Z) : Z := 365 * (y - 1) + (y - 1) / 4 - (y - 1) / 100 + (y - 1) / 400.
Definition month_days (y m : Z) : Z := daysBefore m + (if isLeap y && (3 <=? m) then 1 else 0).

Definition valid_date (y m d : Z) : Prop := 1 <= m <= 12 ∧ 1 <= d <= daysIn m y.

Lemma year_days_next y : year_days (y + 1) = year_days y + 365 + (if isLeap y then 1 else 0).
Proof. unfold year_days. pose proof (leap_count y). rewrite Z.add_simpl_r. lia. Qed.

Lemma year_days_mono y y' : y <= y' → year_days y <= year_days y'.
Proof. unfold year_days. intros H. lia. Qed.

Lemma daysIn_bounds m y : 1 <= m <= 12 → 28 <= daysIn m y <= 31.
Proof.
  intros Hm. refine (one_by_one (λ m, 28 <= daysIn m y <= 31) 1 12 _ m _); [|lia].
  unfold daysIn. destruct (isLeap y); repeat constructor; done.
Qed.

Lemma month_days_next y m : 1 <= m <= 12 → month_days y (m + 1) = month_days y m + daysIn m y.
Proof.
  intros Hm. refine (one_by_one (λ m, month_days y (m + 1) = month_days y m + daysIn m y) 1 12 _ m _); [|lia].
  unfold month_days, daysIn. destruct (isLeap y); repeat constructor.
Qed.

Lemma month_days_mono y m m' : 1 <= m → m <= m' → m' <= 13 → month_days y m <= month_days y m'.
Proof.
  intros H1 Hm H2. replace m' with (m + Z.of_nat (Z.to_nat (m' - m))) in * by lia.
  induction (Z.to_nat (m' - m)) as [|k IH]; [rewrite Z.add_0_r; lia|].
  rewrite Nat2Z.inj_succ, Z.add_succ_r, <-Z.add_1_r in *. rewrite month_days_next by lia.
  pose proof (daysIn_bounds (m + Z.of_nat k) y ltac:(lia)). lia.
Qed.

Lemma days_of_parts y m d : days_of y m d = year_days y + month_days y m + (d - 1).
Proof. unfold days_of, year_days, month_days. lia. Qed.

Lemma days_in_year y m d : valid_date y m d → year_days y <= days_of y m d < year_days (y + 1).
Proof.
  intros [Hm Hd]. rewrite days_of_parts, year_days_next. pose proof (month_days_next y m Hm).
  pose proof (month_days_mono y 1 m ltac:(lia) ltac:(lia) ltac:(lia)).
  pose proof (month_days_mono y (m + 1) 13 ltac:(lia) ltac:(lia) ltac:(lia)).
  assert (month_days y 1 = 0) by (unfold month_days; cbn; by rewrite andb_false_r).
  assert (month_days y 13 = 365 + (if isLeap y then 1 else 0)) by (unfold month_days; cbn; by rewrite andb_true_r).
  lia.
Qed.

(** The order of dates is that of year, month and day. *)
Lemma days_of_order y m d y' m' d' :
  valid_date y m d → valid_date y' m' d' →
  days_of y m d < days_of y' m' d' ↔ y < y' ∨ y = y' ∧ (m < m' ∨ m = m' ∧ d < d').
Proof.
  intros [Hm Hd] [Hm' Hd'].
  pose proof (days_in_year y m d (conj Hm Hd)). pose proof (days_in_year y' m' d' (conj Hm' Hd')).
  rewrite !days_of_parts in *.
  destruct (Z.lt_trichotomy y y') as [Hy|[->|Hy]].
  - pose proof (year_days_mono (y + 1) y' ltac:(lia)). lia.
  - pose proof (month_days_next y' m Hm). pose proof (month_days_next y' m' Hm').
    destruct (Z.lt_trichotomy m m') as [Hl|[->|Hl]]; [| lia |].
    + pose proof (month_days_mono y' (m + 1) m' ltac:(lia) ltac:(lia) ltac:(lia)). lia.
    + pose proof (month_days_mono y' (m' + 1) m ltac:(lia) ltac:(lia) ltac:(lia)). lia.
  - pose proof (year_days_mono (y' + 1) y ltac:(lia)). lia.
Qed.

(** The text of a second, field by field. *)
Definition second_text (y m d h mi s : Z) (rest : string) : string :=
  fixed_digits 4 y +:+ "-" +:+ fixed_digits 2 m +:+ "-" +:+ fixed_digits 2 d +:+ "T" +:+
  fixed_digits 2 h +:+ ":" +:+ fixed_digits 2 mi +:+ ":" +:+ fixed_digits 2 s +:+ rest.

Lemma date_time_text s rest :
  0 <= s < 315537897600 →
  ∃ y m d, valid_date y m d ∧ 1 <= y <= 9999 ∧ days_of y m d = s / 86400 ∧
    date_time s +:+ rest =
    second_text y m d (s mod 86400 / 3600) (s mod 86400 / 60 mod 60) (s mod 86400 mod 60) rest.
Proof.
  intros Hs. unfold date_time. destruct (civil (s / 86400)) as [[y m] d] eqn:Hc.
  destruct (civil_spec _ _ _ _ Hc) as (Hm & Hd & Hdays). exists y, m, d.
  assert (Hv : valid_date y m d) by done. pose proof (days_in_year y m d Hv) as Hy. rewrite Hdays in Hy.
  assert (1 <= y <= 9999) as Hyr.
  { change 315537897600 with (86400 * year_days 10000) in Hs.
    destruct (Z.le_gt_cases y 0); [pose proof (year_days_mono (y + 1) 1 ltac:(lia)); change (year_days 1) with 0 in *; lia|].
    destruct (Z.le_gt_cases 10000 y); [pose proof (year_days_mono 10000 y ltac:(lia)); lia|]. lia. }
  do 3 (split; [done|]). pose proof (daysIn_bounds m y Hm).
  unfold second_text. rewrite pad4_fixed, !pad2_fixed by lia. by rewrite !str_app_assoc.
Qed.

Lemma fields y m d h mi s rest :
  let text := second_text y m d h mi s rest in
  slice 0 4 text = fixed_digits 4 y ∧ slice 5 7 text = fixed_digits 2 m ∧ slice 8 10 text = fixed_digits 2 d ∧
  slice 11 13 text = fixed_digits 2 h ∧ slice 14 16 text = fixed_digits 2 mi ∧ slice 17 19 text = fixed_digits 2 s ∧
  at_ 4 "-" text && at_ 7 "-" text && at_ 10 "T" text && at_ 13 ":" text && at_ 16 ":" text = true ∧
  str_drop 19 text = rest ∧ (String.length text <? 19)%nat = false.
Proof. intros text. repeat (split; [done|]). done. Qed.

(** A stored instant of the years up to 9999 is read back as it was written. *)
Lemma parse_printed_time t :
  0 <= t < year_10000 → parseRFC3339 (format_rfc3339nano t) = Some t.
Proof.
  unfold year_10000, format_rfc3339nano. intros Ht. assert (Hs : 0 <= t / Second < 315537897600) by (unfold Second in *; lia).
  destruct (date_time_text (t / Second) ((fmt_frac 9 (t mod Second) "").1 +:+ "Z") Hs) as (y & m & d & [Hm Hd] & Hy & Hdays & ->).
  pose proof (daysIn_bounds m y Hm).
  destruct (fields y m d (t / Second mod 86400 / 3600) (t / Second mod 86400 / 60 mod 60) (t / Second mod 86400 mod 60)
              ((fmt_frac 9 (t mod Second) "").1 +:+ "Z")) as (E1 & E2 & E3 & E4 & E5 & E6 & E7 & E8 & E9).
  unfold parseRFC3339. rewrite E9, E1, E2, E3, E4, E5, E6, E7, E8. clear E1 E2 E3 E4 E5 E6 E7 E8 E9.
  rewrite (parseUint_fixed 0 9999 4 y) by (cbn; lia). cbn [mbind option_bind].
  rewrite (parseUint_fixed 1 12 2 m) by (cbn; lia). cbn [mbind option_bind].
  rewrite (parseUint_fixed 1 (daysIn m y) 2 d) by (cbn; lia). cbn [mbind option_bind].
  rewrite (parseUint_fixed 0 23 2) by (cbn; lia). cbn [mbind option_bind].
  rewrite !(parseUint_fixed 0 59 2) by (cbn; lia). cbn [mbind option_bind negb].
  rewrite fraction_printed by (unfold Second; lia). cbn [mbind option_bind zone String.eqb Ascii.eqb Bool.eqb].
  f_equal. rewrite Hdays. unfold Second. lia.
Qed.

(** C39: an instant that a store has written is the one that it reads, whatever else the
general parser takes: of the years up to 9999, to the nanosecond. *)
Theorem stored_instant_survives general t :
  0 <= t < year_10000 → parseTime general (format_rfc3339nano t) = t.
Proof. intros Ht. unfold parseTime, Parse. by rewrite parse_printed_time. Qed.

Lemma stored_instant_survives_witness :
  0 <= unix_epoch + 1 < year_10000 ∧
  parseTime (λ _ _, None) (format_rfc3339nano (unix_epoch + 1)) = unix_epoch + 1.
Proof.
  assert (Ht : 0 <= unix_epoch + 1 < year_10000) by (vm_compute; split; [discriminate|reflexivity]).
  split; [exact Ht|]. apply (stored_instant_survives (λ _ _, None) (unix_epoch + 1) Ht).
Defined.

(** Two instants are never the same text. *)
Lemma format_inj a b :
  0 <= a < year_10000 → 0 <= b < year_10000 → format_rfc3339nano a = format_rfc3339nano b → a = b.
Proof. intros Ha%parse_printed_time Hb%parse_printed_time He. congruence. Qed.

(** ** The order of stored instants

Queries compare the texts. *)

Lemma digit_code d : 0 <= d < 10 → Z.of_N (Ascii.N_of_ascii (digit_char d)) = 48 + d.
Proof. intros Hd. destruct (digit_char_spec d Hd) as [_ He]. unfold digit in He. lia. Qed.

Lemma str_ltb_digit d d' s s' :
  0 <= d < 10 → 0 <= d' < 10 →
  str_ltb (String (digit_char d) s) (String (digit_char d') s') = true ↔ d < d' ∨ d = d' ∧ str_ltb s s' = true.
Proof.
  intros Hd Hd'. pose proof (digit_code d Hd). pose proof (digit_code d' Hd'). rewrite str_ltb_cons.
  split; (intros [Hl|[He Hs]]; [left; lia|right; split; [|done]]); [|by rewrite He].
  rewrite He in *. lia.
Qed.

Lemma str_ltb_same c s s' : str_ltb (String c s) (String c s') = true ↔ str_ltb s s' = true.
Proof. rewrite str_ltb_cons. split; [intros [Hl|[_ Hs]]; [lia|done]|by right]. Qed.

Lemma split_digit k n : 0 <= n < 10 ^ Z.of_nat (S k) →
  0 <= n / 10 ^ Z.of_nat k < 10 ∧ (n / 10 ^ Z.of_nat k) mod 10 = n / 10 ^ Z.of_nat k ∧
  0 <= n mod 10 ^ Z.of_nat k < 10 ^ Z.of_nat k ∧
  n = 10 ^ Z.of_nat k * (n / 10 ^ Z.of_nat k) + n mod 10 ^ Z.of_nat k.
Proof.
  rewrite pow10_S. intros Hn. pose proof (pow10_pos k) as Hp.
  assert (0 <= n / 10 ^ Z.of_nat k < 10).
  { split; [apply Z.div_pos; lia|]. apply Z.div_lt_upper_bound; lia. }
  split; [done|]. split; [by apply Z.mod_small|]. split; [apply Z.mod_pos_bound; lia|]. apply Z.div_mod. lia.
Qed.

Lemma digit_mod j k n : (j < k)%nat → n mod 10 ^ Z.of_nat k / 10 ^ Z.of_nat j mod 10 = n / 10 ^ Z.of_nat j mod 10.
Proof.
  intros Hj. replace (Z.of_nat k) with (Z.of_nat j + (1 + Z.of_nat (k - S j))) by lia. rewrite !Z.pow_add_r by lia.
  pose proof (pow10_pos j). pose proof (pow10_pos (k - S j)).
  rewrite Z.rem_mul_r by lia. rewrite (Z.mul_comm (10 ^ Z.of_nat j)), Z.div_add by lia.
  rewrite Z.div_small by (apply Z.mod_pos_bound; lia). change (10 ^ 1) with 10.
  rewrite Z.add_0_l, Z.rem_mul_r by lia. rewrite (Z.mul_comm 10), Z.mod_add by lia. apply Z.mod_mod. lia.
Qed.

Lemma mod_mod_pow10 j k n : (j <= k)%nat → (n mod 10 ^ Z.of_nat k) mod 10 ^ Z.of_nat j = n mod 10 ^ Z.of_nat j.
Proof.
  intros Hj. replace (Z.of_nat k) with (Z.of_nat j + Z.of_nat (k - j)) by lia. rewrite Z.pow_add_r by lia.
  pose proof (pow10_pos j). pose proof (pow10_pos (k - j)).
  rewrite Z.rem_mul_r, (Z.mul_comm (10 ^ Z.of_nat j)), Z.mod_add by lia. apply Z.mod_mod. lia.
Qed.

(** Only the last [k] digits matter. *)
Lemma fixed_digits_mod k n : fixed_digits k (n mod 10 ^ Z.of_nat k) = fixed_digits k n.
Proof.
  assert (H : ∀ j, (j <= k)%nat → fixed_digits j (n mod 10 ^ Z.of_nat k) = fixed_digits j n); [|by apply H].
  induction j as [|j IH]; [done|]. intros Hj. cbn [fixed_digits]. by rewrite IH, digit_mod by lia.
Qed.

Lemma trimmed_mod k n : trimmed k (n mod 10 ^ Z.of_nat k) = trimmed k n.
Proof.
  assert (H : ∀ j, (j <= k)%nat → trimmed j (n mod 10 ^ Z.of_nat k) = trimmed j n); [|by apply H].
  induction j as [|j IH]; [done|]. intros Hj. cbn [trimmed]. by rewrite IH, digit_mod, mod_mod_pow10 by lia.
Qed.

Lemma str_ltb_fixed k n n' s s' :
  0 <= n < 10 ^ Z.of_nat k → 0 <= n' < 10 ^ Z.of_nat k →
  str_ltb (fixed_digits k n +:+ s) (fixed_digits k n' +:+ s') = true ↔ n < n' ∨ n = n' ∧ str_ltb s s' = true.
Proof.
  revert n n'. induction k as [|k IH]; intros n n' Hn Hn'.
  { change (10 ^ Z.of_nat 0) with 1 in *. cbn. intuition lia. }
  destruct (split_digit k n Hn) as (H1 & H2 & H3 & H4), (split_digit k n' Hn') as (H1' & H2' & H3' & H4').
  cbn [fixed_digits String.append]. rewrite H2, H2', str_ltb_digit by done.
  rewrite <-(fixed_digits_mod k n), <-(fixed_digits_mod k n'), IH by done.
  revert H1 H1' H3 H3' H4 H4'. generalize (n / 10 ^ Z.of_nat k) (n' / 10 ^ Z.of_nat k)
    (n mod 10 ^ Z.of_nat k) (n' mod 10 ^ Z.of_nat k). clear. intros q q' r r' H1 H1' H3 H3' -> ->.
  destruct (Z.lt_trichotomy q q') as [Hq|[->|Hq]]; [|intuition lia|].
  - assert (10 ^ Z.of_nat k * (q + 1) <= 10 ^ Z.of_nat k * q') by nia. intuition lia.
  - assert (10 ^ Z.of_nat k * (q' + 1) <= 10 ^ Z.of_nat k * q) by nia. intuition lia.
Qed.

Lemma clock_order u v (P : Prop) :
  0 <= u < 86400 → 0 <= v < 86400 →
  (u / 3600 < v / 3600 ∨ u / 3600 = v / 3600 ∧
     (u / 60 mod 60 < v / 60 mod 60 ∨ u / 60 mod 60 = v / 60 mod 60 ∧
        (u mod 60 < v mod 60 ∨ u mod 60 = v mod 60 ∧ P))) ↔ u < v ∨ u = v ∧ P.
Proof.
  assert (Hu : ∀ u, 0 <= u < 86400 → u = 3600 * (u / 3600) + 60 * (u / 60 mod 60) + u mod 60 ∧
    0 <= u / 60 mod 60 < 60 ∧ 0 <= u mod 60 < 60) by (intros; lia).
  intros H1%Hu H2%Hu. revert H1 H2. generalize (u / 3600) (u / 60 mod 60) (u mod 60) (v / 3600) (v / 60 mod 60) (v mod 60).
  clear Hu. intros h mi s h' mi' s' (-> & ? & ?) (-> & ? & ?). split.
  - intros [?|[-> [?|[-> [?|[-> HP]]]]]]; [left; lia..|by right].
  - intros [Hl|[He HP]].
    + destruct (Z.lt_trichotomy h h') as [?|[->|?]]; [by left|right; split; [done|]|lia].
      destruct (Z.lt_trichotomy mi mi') as [?|[->|?]]; [by left|right; split; [done|]|lia]. left; lia.
    + assert (h = h' ∧ mi = mi' ∧ s = s') as (-> & -> & ->) by lia. do 3 (right; split; [done|]). done.
Qed.

(** Seconds, as texts, are in their own order. *)
Lemma second_text_order a b x x' :
  0 <= a < 315537897600 → 0 <= b < 315537897600 →
  str_ltb (date_time a +:+ x) (date_time b +:+ x') = true ↔ a < b ∨ a = b ∧ str_ltb x x' = true.
Proof.
  intros Ha Hb. destruct (date_time_text a x Ha) as (y & m & d & Hv & Hy & Hd & ->).
  destruct (date_time_text b x' Hb) as (y' & m' & d' & Hv' & Hy' & Hd' & ->).
  pose proof (days_of_order y m d y' m' d' Hv Hv') as H1. pose proof (days_of_order y' m' d' y m d Hv' Hv) as H2.
  destruct Hv as [Hm Hdd], Hv' as [Hm' Hdd'].
  pose proof (daysIn_bounds m y Hm). pose proof (daysIn_bounds m' y' Hm'). rewrite Hd, Hd' in H1, H2.
  unfold second_text. repeat (rewrite str_ltb_fixed by (cbn; lia); cbn [String.append]; rewrite ?str_ltb_same).
  rewrite (clock_order (a mod 86400) (b mod 86400)) by lia.
  assert (He : y = y' ∧ m = m' ∧ d = d' ↔ a / 86400 = b / 86400) by (split; [intros (-> & -> & ->)|]; lia).
  generalize (str_ltb x x' = true) as P. intros P. clear Hd Hd' Hy Hy' Hdd Hdd' Hm Hm' H H0. split.
  - intros Hl. assert (a / 86400 < b / 86400 ∨ a / 86400 = b / 86400 ∧ (a mod 86400 < b mod 86400 ∨ a mod 86400 = b mod 86400 ∧ P))
      as [?|[? [?|[? HP]]]] by (rewrite H1, <-He; tauto); [left; lia..|right; split; [lia|done]].
  - intros Hl. assert (a / 86400 < b / 86400 ∨ a / 86400 = b / 86400 ∧ (a mod 86400 < b mod 86400 ∨ a mod 86400 = b mod 86400 ∧ P))
      as Hl' by (destruct Hl as [?|[-> HP]]; [destruct (decide (a / 86400 = b / 86400)); [right; split; [done|left]|left]; lia|tauto]).
    rewrite H1, <-He in Hl'. tauto.
Qed.

Lemma cut_at k j q r : (j <= k)%nat → 0 <= r < 10 ^ Z.of_nat k →
  (10 ^ Z.of_nat k * q + r) / 10 ^ Z.of_nat j = 10 ^ Z.of_nat (k - j) * q + r / 10 ^ Z.of_nat j ∧
  (10 ^ Z.of_nat k * q + r) mod 10 ^ Z.of_nat j = r mod 10 ^ Z.of_nat j ∧ 0 <= r / 10 ^ Z.of_nat j < 10 ^ Z.of_nat (k - j).
Proof.
  intros Hj Hr. assert (He : 10 ^ Z.of_nat k = 10 ^ Z.of_nat (k - j) * 10 ^ Z.of_nat j).
  { rewrite <-Z.pow_add_r by lia. f_equal. lia. }
  pose proof (pow10_pos j). rewrite He in *.
  replace (10 ^ Z.of_nat (k - j) * 10 ^ Z.of_nat j * q + r) with (r + 10 ^ Z.of_nat (k - j) * q * 10 ^ Z.of_nat j) by lia.
  rewrite Z.div_add, Z.mod_add by lia. split; [lia|]. split; [done|].
  split; [apply Z.div_pos; lia|]. apply Z.div_lt_upper_bound; lia.
Qed.

Lemma same_parts p q x q' x' : 0 <= x < p → 0 <= x' < p → p * q + x = p * q' + x' → q = q' ∧ x = x'.
Proof. intros Hx Hx' He. by apply (Z.div_mod_unique p); [left..|]. Qed.

(** The text of [n] is before that of the smaller [n'] exactly if [n'] is [n] cut to
the digits that [n'] has. *)
Lemma trimmed_order k n n' :
  0 <= n' < n → n < 10 ^ Z.of_nat k →
  str_ltb (trimmed k n +:+ "Z") (trimmed k n' +:+ "Z") = true ↔
  ∃ j, (j <= k)%nat ∧ n' mod 10 ^ Z.of_nat j = 0 ∧ n / 10 ^ Z.of_nat j = n' / 10 ^ Z.of_nat j.
Proof.
  revert n n'. induction k as [|k IH]; intros n n' Hn Hk; [change (10 ^ Z.of_nat 0) with 1 in Hk; lia|].
  destruct (split_digit k n ltac:(lia)) as (H1 & H2 & H3 & H4), (split_digit k n' ltac:(lia)) as (H1' & H2' & H3' & H4').
  cbn [trimmed]. rewrite H2, H2', !Z.mod_small by lia. rewrite (proj2 (Z.eqb_neq n 0)) by lia.
  rewrite <-(trimmed_mod k n), <-(trimmed_mod k n').
  destruct (Z.eqb_spec n' 0) as [->|Hn'].
  - split; [intros _|intros _].
    + exists (S k). rewrite !Z.div_small by lia. done.
    + cbn [String.append]. rewrite str_ltb_cons. left. pose proof (digit_code _ H1).
      change (Ascii.N_of_ascii "Z"%char) with 90%N. lia.
  - cbn [String.append]. rewrite str_ltb_digit by done.
    revert H1 H1' H3 H3' H4 H4'. generalize (n / 10 ^ Z.of_nat k) (n' / 10 ^ Z.of_nat k)
      (n mod 10 ^ Z.of_nat k) (n' mod 10 ^ Z.of_nat k). intros q q' r r' H1 H1' H3 H3' H4 H4'.
    assert (Hq : q' <= q) by nia. split.
    + intros [Hl|[-> Hs]]; [lia|]. rewrite IH in Hs by lia. destruct Hs as (j & Hj & H0 & He). exists j.
      destruct (cut_at k j q' r Hj H3) as (D & M & _), (cut_at k j q' r' Hj H3') as (D' & M' & _).
      rewrite H4, H4', M', D, D'. split; [by apply le_S|]. split; [done|by rewrite He].
    + intros (j & Hj & H0 & He). destruct (decide (j = S k)) as [->|Hj'].
      { by rewrite (Z.mod_small n') in H0 by lia. }
      assert (Hjk : (j <= k)%nat) by (clear - Hj Hj'; lia).
      destruct (cut_at k j q r Hjk H3) as (D & M & B), (cut_at k j q' r' Hjk H3') as (D' & M' & B').
      rewrite H4', M' in H0. rewrite H4, H4', D, D' in He.
      destruct (same_parts _ _ _ _ _ B B' He) as [-> Hr].
      right. split; [done|]. apply IH; [clear - H3' H4 H4' Hn; lia|clear - H3; lia|]. by exists j.
Qed.

(** The fraction as it is stored. *)
Lemma fraction_order n n' :
  0 <= n' < n → n < 10 ^ 9 →
  str_ltb ((fmt_frac 9 n "").1 +:+ "Z") ((fmt_frac 9 n' "").1 +:+ "Z") = str_ltb (trimmed 9 n +:+ "Z") (trimmed 9 n' +:+ "Z").
Proof.
  intros Hn Hk. rewrite !fmt_frac_trimmed.
  assert (Hz : ∀ n, 0 <= n < 10 ^ 9 → (trimmed 9 n =? "")%string = (n =? 0)).
  { intros m Hm. change (trimmed 9 m) with
      (if m mod 10 ^ 9 =? 0 then "" else String (digit_char (m / 10 ^ 8 mod 10)) (trimmed 8 m)).
    rewrite Z.mod_small by done. by destruct (m =? 0). }
  rewrite !Hz by lia. rewrite (proj2 (Z.eqb_neq n 0)) by lia. destruct (Z.eqb_spec n' 0) as [->|Hn'].
  - symmetry. apply (proj2 (trimmed_order 9 n 0 ltac:(lia) ltac:(lia))). exists 9%nat.
    change (10 ^ Z.of_nat 9) with (10 ^ 9). rewrite !Z.div_small by lia. done.
  - apply eq_true_iff_eq. rewrite !str_app_assoc. cbn [String.append]. apply str_ltb_same.
Qed.

(** The query that sorts by a stored instant puts the later one first exactly if the
earlier is the later cut to a number of digits. *)
Lemma text_misorders_iff a b :
  0 <= b < a → a < year_10000 →
  str_ltb (format_rfc3339nano a) (format_rfc3339nano b) = true ↔
  ∃ k, (k <= 9)%nat ∧ b mod 10 ^ Z.of_nat k = 0 ∧ a / 10 ^ Z.of_nat k = b / 10 ^ Z.of_nat k.
Proof.
  unfold year_10000, format_rfc3339nano. intros Hb Ha.
  assert (HS : ∀ t, t = 10 ^ Z.of_nat 9 * (t / Second) + t mod Second ∧ 0 <= t mod Second < 10 ^ Z.of_nat 9)
    by (intros t; unfold Second; change (10 ^ Z.of_nat 9) with 1000000000; lia).
  destruct (HS a) as [Ea Ra], (HS b) as [Eb Rb]. rewrite second_text_order by (unfold Second in *; lia). split.
  - intros [Hl|[He Hs]]; [unfold Second in Hl; lia|].
    rewrite fraction_order, (trimmed_order 9) in Hs by (clear - Hb Ea Eb He Ra Rb; lia). destruct Hs as (j & Hj & H0 & Hd). exists j.
    destruct (cut_at 9 j (a / Second) (a mod Second) Hj Ra) as (D & _), (cut_at 9 j (b / Second) (b mod Second) Hj Rb) as (D' & M' & _).
    rewrite Ea, Eb, M', D, D', He. split; [done|]. split; [done|by rewrite Hd].
  - intros (j & Hj & H0 & Hd).
    destruct (cut_at 9 j (a / Second) (a mod Second) Hj Ra) as (D & _ & B), (cut_at 9 j (b / Second) (b mod Second) Hj Rb) as (D' & M' & B').
    rewrite Eb, M' in H0. rewrite Ea, Eb, D, D' in Hd.
    destruct (same_parts _ _ _ _ _ B B' Hd) as [He Hr]. right. split; [done|].
    rewrite fraction_order, (trimmed_order 9) by (clear - Hb Ea Eb He Ra Rb; lia). by exists j.
Qed.

(** ** Blobs of every age *)

(** What the libraries promise one another: a value is read back from its JSON,
alone or at the head of a stream; compressed data begin with the magic number and
hold what was compressed; and JSON begins with a character that can be printed, or
white space, of which 31 is none. *)
Class CodecLaws {A} (c : Codec.t A) : Prop := {
  read_back : ∀ v raw, Codec.Marshal c v = inr raw → Codec.Unmarshal c raw = inr v;
  decode_whole : ∀ v raw, Codec.Unmarshal c raw = inr v → Codec.Decode c (raw, None) = inr v;
  magic : ∀ raw, gzipped (Codec.Gzip c raw) = true;
  inflate : ∀ raw, Codec.NewReader c (Codec.Gzip c raw) = inr (raw, None);
  json_text : ∀ v raw, Codec.Marshal c v = inr raw → gzipped raw = false;
}.

(** What is written is read back, and so is a row of before the compression. *)
Lemma blob_round_trip {A} (c : Codec.t A) `{!CodecLaws c} v data :
  encodeBlob c v = inr data ∨ Codec.Marshal c v = inr data → decodeBlob c data = inr v.
Proof.
  unfold encodeBlob, decodeBlob. intros [He|He].
  - destruct (Codec.Marshal c v) as [err|raw] eqn:Hm; [done|]. injection He as <-.
    rewrite magic, inflate. by apply decode_whole, read_back.
  - rewrite (json_text v data He). by apply read_back.
Qed.

(** Numbers in decimal, and a compressor that only adds the magic number. *)
Definition toy : Codec.t Z :=
  Codec.mk Z (λ v, if v <? 0 then inl "negative" else inr (pretty v))
    (λ s, match unsigned s with Some v => inr v | None => inl "not a number" end)
    (λ s, String (Ascii.ascii_of_nat 31) (String (Ascii.ascii_of_nat 139) s))
    (λ s, inr (str_drop 2 s, None))
    (λ s, match unsigned s.1 with Some v => inr v | None => inl "not a number" end).

Example blobs_of_every_age :
  decodeBlob toy (default "" (match encodeBlob toy 42 with inr d => Some d | inl _ => None end)) = inr 42 ∧
  decodeBlob toy "42" = inr 42 ∧ decodeBlob toy "4x" = inl "not a number".
Proof. by vm_compute. Qed.
