(* ===== verification/GoFlag.v ===== *)
(** * The flag package

[flag.FlagSet] as the command line uses it: flags of four types, parsed from the
left until the first argument that is no flag; and ParseFloat. *)
From Stdlib Require Import SpecFloat.
From S2P Require Import Prelude GoLib Float64 GoText GoTime.

(** ** Values *)

Inductive kind : Type := KString | KBool | KInt | KDuration.

#[global] Instance kind_eq_dec : EqDecision kind.
Proof. solve_decision. Defined.

Inductive value : Type :=
| VString (s : string)
| VBool (b : bool)
| VInt (n : Z)
| VDuration (d : duration).

Definition ParseBool (s : string) : option bool :=
  if existsb (String.eqb s) ["1"; "t"; "T"; "TRUE"; "true"; "True"] then Some true
  else if existsb (String.eqb s) ["0"; "f"; "F"; "FALSE"; "false"; "False"] then Some false
  else None.

(** [strconv.underscoreOK] after the sign: an underscore stands between digits, or
after the prefix of a base.  [prev] is the class of the character before: ["_"], a
digit ["0"], the beginning ["^"], anything else ["!"]. *)
Definition lower (c : Ascii.ascii) : Ascii.ascii := to_lower_char c.

Definition is_hex_letter (c : Ascii.ascii) : bool := let n := byte (lower c) in (97 <=? n) && (n <=? 102).

Fixpoint underscores_ok (hex : bool) (prev : Ascii.ascii) (s : string) : bool :=
  match s with
  | EmptyString => negb (Ascii.eqb prev "_"%char)
  | String c s =>
      if is_digit c || hex && is_hex_letter c then underscores_ok hex "0"%char s
      else if Ascii.eqb c "_"%char then Ascii.eqb prev "0"%char && underscores_ok hex "_"%char s
      else negb (Ascii.eqb prev "_"%char) && underscores_ok hex "!"%char s
  end.

Definition underscoreOK (s : string) : bool :=
  match s with
  | String z (String x rest) =>
      if Ascii.eqb z "0"%char && existsb (Ascii.eqb (lower x)) ["b"%char; "o"%char; "x"%char]
      then underscores_ok (Ascii.eqb (lower x) "x"%char) "0"%char rest
      else underscores_ok false "^"%char s
  | _ => underscores_ok false "^"%char s
  end.

(** The value of a digit in base 36. *)
Definition digit_value (c : Ascii.ascii) : option Z :=
  let n := byte (lower c) in
  if is_digit c then Some (n - 48) else if (97 <=? n) && (n <=? 122) then Some (n - 87) else None.

(** The digits of a number; in base 0 an underscore is passed over. *)
Fixpoint digits_in (base acc : Z) (s : string) : option Z :=
  match s with
  | EmptyString => Some acc
  | String c s =>
      if Ascii.eqb c "_"%char then digits_in base acc s
      else v ← digit_value c; if v <? base then digits_in base (acc * base + v) s else None
  end.

(** [strconv.ParseUint(s, 0, _)], unbounded. *)
Definition parse_unsigned (s : string) : option Z :=
  let '(base, rest) :=
    match s with
    | String z (String x (String d rest)) =>
        if negb (Ascii.eqb z "0"%char) then (10, s)
        else if Ascii.eqb (lower x) "b"%char then (2, String d rest)
        else if Ascii.eqb (lower x) "o"%char then (8, String d rest)
        else if Ascii.eqb (lower x) "x"%char then (16, String d rest)
        else (8, String x (String d rest))
    | String z (String x EmptyString) => if Ascii.eqb z "0"%char then (8, String x EmptyString) else (10, s)
    | _ => (10, s)
    end in
  if (s =? "")%string then None
  else v ← digits_in base 0 rest; if underscoreOK s then Some v else None.

(** [strconv.ParseInt(s, 0, 64)] *)
Definition ParseInt (s : string) : option Z :=
  v ← match s with
      | String c rest =>
          if Ascii.eqb c "-"%char then Z.opp <$> parse_unsigned rest
          else if Ascii.eqb c "+"%char then parse_unsigned rest else parse_unsigned s
      | EmptyString => None
      end;
  if (- 2 ^ 63 <=? v) && (v <? 2 ^ 63) then Some v else None.

Example ParseInt_examples :
  map ParseInt ["5"; "-1"; "0x1F"; "0b101"; "017"; "1_000"; "_1"; "0x_1"; "09"; "0"; ""; "5s"; "0x"] =
  [Some 5; Some (-1); Some 31; Some 5; Some 15; Some 1000; None; Some 1; None; Some 0; None; None; None].
Proof. by vm_compute. Qed.

(** [Value.Set] *)
Definition set_value (k : kind) (s : string) : option value :=
  match k with
  | KString => Some (VString s)
  | KBool => VBool <$> ParseBool s
  | KInt => VInt <$> ParseInt s
  | KDuration => VDuration <$> ParseDuration s
  end.

(** ** Flag sets *)

Abbreviation FlagSet := (list (string * kind)).

Definition Lookup (fs : FlagSet) (name : string) : option kind :=
  snd <$> List.find (λ f, (f.1 =? name)%string) fs.

Definition IsBoolFlag (k : kind) : bool := match k with KBool => true | _ => false end.

Inductive parse_error : Type :=
| BadSyntax (arg : string)
| NotDefined (name : string)
| Help
| Invalid (value name : string)
| NeedsArgument (name : string).

(** The flags set, in order, and the arguments that are left. *)
Abbreviation parsed := (list (string * value) * list string)%type.

Definition starts_with (c : Ascii.ascii) (s : string) : bool :=
  match s with String c' _ => Ascii.eqb c' c | EmptyString => false end.

(** An argument taken apart, as [parseOne] does before it looks the flag up. *)
Inductive shape : Type :=
| NoFlag
| Terminator
| Malformed
| FlagName (name : string) (given : option string).

Definition shape_of (arg : string) : shape :=
  match arg with
  | String d (String c rest) =>
      if negb (Ascii.eqb d "-"%char) then NoFlag
      else
        let two := Ascii.eqb c "-"%char in
        if two && (rest =? "")%string then Terminator
        else
          let name := if two then rest else String c rest in
          if (name =? "")%string || starts_with "-" name || starts_with "=" name then Malformed
          else match Cut name "="%char with
               | Some (name, v) => FlagName name (Some v)
               | None => FlagName name None
               end
  | _ => NoFlag
  end.

Definition cons_flag (name : string) (v : value) (r : parse_error + parsed) : parse_error + parsed :=
  match r with
  | inl e => inl e
  | inr (flags, args) => inr ((name, v) :: flags, args)
  end.

(** [FlagSet.Parse] *)
Fixpoint Parse (fs : FlagSet) (args : list string) : parse_error + parsed :=
  match args with
  | [] => inr ([], [])
  | arg :: rest =>
      match shape_of arg with
      | NoFlag => inr ([], args)
      | Terminator => inr ([], rest)
      | Malformed => inl (BadSyntax arg)
      | FlagName name given =>
          match Lookup fs name with
          | None => inl (if existsb (String.eqb name) ["help"; "h"] then Help else NotDefined name)
          | Some k =>
              match given with
              | Some s =>
                  match set_value k s with
                  | Some v => cons_flag name v (Parse fs rest)
                  | None => inl (Invalid s name)
                  end
              | None =>
                  if IsBoolFlag k then cons_flag name (VBool true) (Parse fs rest)
                  else match rest with
                       | [] => inl (NeedsArgument name)
                       | s :: rest =>
                           match set_value k s with
                           | Some v => cons_flag name v (Parse fs rest)
                           | None => inl (Invalid s name)
                           end
                       end
              end
          end
      end
  end.

(** ** Reading the flags: the last setting of any of the names counts *)

Definition last_of (names : list string) (flags : list (string * value)) : option value :=
  snd <$> last (List.filter (λ f, existsb (String.eqb f.1) names) flags).

Definition get_string (names : list string) (default : string) (flags : list (string * value)) : string :=
  match last_of names flags with Some (VString s) => s | _ => default end.

Definition get_bool (name : string) (default : bool) (flags : list (string * value)) : bool :=
  match last_of [name] flags with Some (VBool b) => b | _ => default end.

Definition get_int (name : string) (default : Z) (flags : list (string * value)) : Z :=
  match last_of [name] flags with Some (VInt n) => n | _ => default end.

Definition get_duration (name : string) (default : duration) (flags : list (string * value)) : duration :=
  match last_of [name] flags with Some (VDuration d) => d | _ => default end.

(** * strconv.ParseFloat

Decimal and hexadecimal numbers, infinities and NaN, correctly rounded to double
precision. *)

(** [n / d], rounded once. *)
Definition ratio (neg : bool) (n d : Z) : float64 :=
  match n, d with
  | Z.pos n, Z.pos d => F64.div (S754_finite neg n 0) (S754_finite false d 0)
  | _, _ => S754_zero neg
  end.

(** The mantissa: its digits as one number, how many of them follow the point,
whether there were any, and the rest.  [dot]: the point has been read. *)
Fixpoint mantissa (hex dot saw : bool) (m frac : Z) (s : string) : Z * Z * bool * string :=
  match s with
  | EmptyString => (m, frac, saw, s)
  | String c rest =>
      if Ascii.eqb c "_"%char then mantissa hex dot saw m frac rest
      else if Ascii.eqb c "."%char then
        if dot then (m, frac, saw, s) else mantissa hex true saw m frac rest
      else if is_digit c || hex && is_hex_letter c then
        mantissa hex dot true (m * (if hex then 16 else 10) + default 0 (digit_value c))
          (if dot then frac + 1 else frac) rest
      else (m, frac, saw, s)
  end.

(** The digits of an exponent, which stops growing at ten thousand. *)
Fixpoint exponent_digits (e : Z) (s : string) : Z * string :=
  match s with
  | String c rest =>
      if Ascii.eqb c "_"%char then exponent_digits e rest
      else if is_digit c then exponent_digits (if e <? 10000 then e * 10 + (byte c - 48) else e) rest
      else (e, s)
  | EmptyString => (e, s)
  end.

Definition exponent (s : string) : option (Z * string) :=
  let '(neg, s) := match s with
                   | String c rest =>
                       if Ascii.eqb c "+"%char then (false, rest)
                       else if Ascii.eqb c "-"%char then (true, rest) else (false, s)
                   | EmptyString => (false, s)
                   end in
  match s with
  | String c _ =>
      if is_digit c then let '(e, s) := exponent_digits 0 s in Some (if neg then - e else e, s) else None
  | EmptyString => None
  end.

(** [m] times [base] to the power [k] and two to the power [e] *)
Definition scaled_float (neg : bool) (m base k e : Z) : float64 :=
  ratio neg (m * base ^ Z.max 0 k * 2 ^ Z.max 0 e) (base ^ Z.max 0 (- k) * 2 ^ Z.max 0 (- e)).

(** [readFloat] and the conversion, of all of [s] after the sign. *)
Definition read_float (neg : bool) (s : string) : option float64 :=
  let '(hex, digits) := match s with
                        | String z (String x ((String _ _) as rest)) =>
                            if Ascii.eqb z "0"%char && Ascii.eqb (lower x) "x"%char then (true, rest) else (false, s)
                        | _ => (false, s)
                        end in
  let '(m, frac, saw, rest) := mantissa hex false false 0 0 digits in
  if negb saw then None
  else
    e ← match rest with
        | EmptyString => if hex then None else Some (0, EmptyString)
        | String c rest => if Ascii.eqb (lower c) (if hex then "p" else "e")%char then exponent rest else None
        end;
    if negb (e.2 =? "")%string || negb (underscoreOK s) then None
    else Some (if hex then scaled_float neg m 16 (- frac) e.1 else scaled_float neg m 10 (e.1 - frac) 0).

(** A value out of range is an error. *)
Definition ParseFloat (s : string) : option float64 :=
  let '(neg, body) := match s with
                      | String c rest =>
                          if Ascii.eqb c "+"%char then (false, rest)
                          else if Ascii.eqb c "-"%char then (true, rest) else (false, s)
                      | EmptyString => (false, s)
                      end in
  let word := ToLower body in
  if (word =? "inf")%string || (word =? "infinity")%string then Some (S754_infinity neg)
  else if (ToLower s =? "nan")%string then Some S754_nan
  else v ← read_float neg body; match v with S754_infinity _ => None | _ => Some v end.

Example ParseFloat_examples :
  map ParseFloat ["0.85"; "1"; "-0"; ".5"; "1e-1"; "0x1p-1"; "1_0.0"; "NaN"; "-inf"] =
  [Some (F64.lit 85 100); Some F64.one; Some (S754_zero true); Some (F64.lit 1 2); Some (F64.lit 1 10);
   Some (F64.lit 1 2); Some (F64.of_Z 10); Some S754_nan; Some (S754_infinity true)] ∧
  map ParseFloat [""; "."; "1e"; "0x1"; "1__0"; "85%"; "1e400"; "0,85"] = replicate 8 None.
Proof. by vm_compute. Qed.
