(* ===== verification/Model.v ===== *)
(** * The domain model (internal/model)

Plain data and the predicates on it, as [internal/model] declares them: one
Module per Go type, named after the type, its fields as the fields of the
record [t].  Labels and selectors are [gmap string string] (a nil map reads
like an empty one); pointers are options; enumerations that Kubernetes owns
stay strings with their constants, as in Go, because values outside the
constants reach the [default] branches; enumerations this program owns are
inductive types.  [int64] quantities are [Z] with the wrap-around of Go's
arithmetic written out ([int64_add], [int64_sub]). *)
From S2P Require Import Prelude Float64.

(** ** resources.go *)

Definition max64 (a b : Z) : Z := if b <? a then a else b.

Definition ratio (v capacity : Z) : float64 :=
  if capacity <=? 0 then F64.zero else F64.div (F64.of_Z v) (F64.of_Z capacity).

Definition math3 (a b c : float64) : float64 :=
  let m := a in
  let m := if F64.ltb m b then b else m in
  if F64.ltb m c then c else m.

(** The loop of [humanBytes]: [n], [div] and [exp] as it updates them.  Six
rounds suffice for an [int64]: [2^63 / 1024^6 < 1024]. *)
Fixpoint humanBytes_loop (fuel : nat) (n dv exp : Z) : Z * Z :=
  match fuel with
  | O => (dv, exp)
  | S fuel =>
      if 1024 <=? n then humanBytes_loop fuel (n / 1024) (dv * 1024) (exp + 1)
      else (dv, exp)
  end.

Definition unit_letter (exp : Z) : string :=
  match exp with
  | 0 => "K" | 1 => "M" | 2 => "G" | 3 => "T" | 4 => "P" | _ => "E"
  end.

Definition humanBytes (b : Z) : string :=
  if b <? 1024 then pretty b +:+ "B"
  else
    let '(dv, exp) := humanBytes_loop 6 (b / 1024) 1024 0 in
    F64.fmt_1f (F64.div (F64.of_Z b) (F64.of_Z dv)) +:+ unit_letter exp +:+ "iB".

Module Resources.

Record t : Type := mk { MilliCPU : Z; MemoryBytes : Z; Pods : Z }.

#[global] Instance eq_dec : EqDecision t.
Proof. solve_decision. Defined.

(** The zero value, and the one-pod vector [Resources{Pods: 1}]. *)
Definition empty : t := mk 0 0 0.
Definition one_pod : t := mk 0 0 1.

Definition Add (r o : t) : t :=
  mk (int64_add (MilliCPU r) (MilliCPU o))
     (int64_add (MemoryBytes r) (MemoryBytes o))
     (int64_add (Pods r) (Pods o)).

Definition Sub (r o : t) : t :=
  mk (max64 (int64_sub (MilliCPU r) (MilliCPU o)) 0)
     (max64 (int64_sub (MemoryBytes r) (MemoryBytes o)) 0)
     (max64 (int64_sub (Pods r) (Pods o)) 0).

Definition Fits (r capacity : t) : bool :=
  (MilliCPU r <=? MilliCPU capacity) && (MemoryBytes r <=? MemoryBytes capacity) &&
  (Pods r <=? Pods capacity).

Definition IsZero (r : t) : bool :=
  (MilliCPU r =? 0) && (MemoryBytes r =? 0) && (Pods r =? 0).

Definition Ratio (r capacity : t) : float64 * float64 * float64 :=
  (ratio (MilliCPU r) (MilliCPU capacity),
   ratio (MemoryBytes r) (MemoryBytes capacity),
   ratio (Pods r) (Pods capacity)).

Definition DominantRatio (r capacity : t) : float64 :=
  let '(cpu, mem, pods) := Ratio r capacity in math3 cpu mem pods.

(** [Resources.String] *)
Definition to_string (r : t) : string :=
  pretty (MilliCPU r) +:+ "m cpu / " +:+ humanBytes (MemoryBytes r) +:+ " / " +:+
  pretty (Pods r) +:+ " pods".

End Resources.

(** ** constraints.go: taints, tolerations and selectors *)

Definition TaintEffectNoSchedule : string := "NoSchedule".
Definition TaintEffectPreferNoSchedule : string := "PreferNoSchedule".
Definition TaintEffectNoExecute : string := "NoExecute".

Module Taint.
Record t : Type := mk { Key : string; Value : string; Effect : string }.
End Taint.

Definition TolerationOpExists : string := "Exists".
Definition TolerationOpEqual : string := "Equal".

Module Toleration.

Record t : Type := mk { Key : string; Operator : string; Value : string; Effect : string }.

Definition ToleratesTaint (t : t) (taint : Taint.t) : bool :=
  if negb (Effect t =? "")%string && negb (Effect t =? Taint.Effect taint)%string then false
  else if (Key t =? "")%string then (Operator t =? TolerationOpExists)%string
  else if negb (Key t =? Taint.Key taint)%string then false
  else if (Operator t =? TolerationOpExists)%string then true
  else if (Operator t =? TolerationOpEqual)%string || (Operator t =? "")%string
  then (Value t =? Taint.Value taint)%string
  else false.

End Toleration.

Definition SelectorOpIn : string := "In".
Definition SelectorOpNotIn : string := "NotIn".
Definition SelectorOpExists : string := "Exists".
Definition SelectorOpDoesNotExist : string := "DoesNotExist".
Definition SelectorOpGt : string := "Gt".
Definition SelectorOpLt : string := "Lt".

Fixpoint contains (haystack : list string) (needle : string) : bool :=
  match haystack with
  | [] => false
  | s :: haystack => if (s =? needle)%string then true else contains haystack needle
  end.

Module SelectorRequirement.

Record t : Type := mk { Key : string; Operator : string; Values : list string }.

#[global] Instance eq_dec : EqDecision t.
Proof. solve_decision. Defined.

(** [SelectorRequirement.matches] *)
Definition matches (r : t) (labels : gmap string string) : bool :=
  let v := label labels (Key r) in
  let present := bool_decide (is_Some (labels !! Key r)) in
  if (Operator r =? SelectorOpExists)%string then present
  else if (Operator r =? SelectorOpDoesNotExist)%string then negb present
  else if (Operator r =? SelectorOpIn)%string then present && contains (Values r) v
  else if (Operator r =? SelectorOpNotIn)%string then negb present || negb (contains (Values r) v)
  else if (Operator r =? SelectorOpGt)%string || (Operator r =? SelectorOpLt)%string then false
  else false.

End SelectorRequirement.

Module LabelSelector.

Record t : Type := mk {
  MatchLabels : gmap string string;
  MatchExpressions : list SelectorRequirement.t;
}.

#[global] Instance eq_dec : EqDecision t.
Proof. solve_decision. Defined.

(** The methods take the pointer: [None] is the nil selector. *)
Definition IsEmpty (s : option t) : bool :=
  match s with
  | None => true
  | Some s => bool_decide (size (MatchLabels s) = 0%nat) && bool_decide (length (MatchExpressions s) = 0%nat)
  end.

(** The two loops return at the first failure, so the result is a conjunction;
the order in which Go ranges over the map cannot be observed. *)
Definition Matches (s : option t) (labels : gmap string string) : bool :=
  match s with
  | None => true
  | Some s =>
      forallb (λ kv, (label labels kv.1 =? kv.2)%string) (map_to_list (MatchLabels s)) &&
      forallb (λ req, SelectorRequirement.matches req labels) (MatchExpressions s)
  end.

End LabelSelector.

Module NodeSelectorTerm.
Record t : Type := mk {
  MatchExpressions : list SelectorRequirement.t;
  MatchFields : list SelectorRequirement.t;
}.
End NodeSelectorTerm.

Module NodeAffinity.
Record t : Type := mk { RequiredTerms : list NodeSelectorTerm.t }.
End NodeAffinity.

Module PodAffinityTerm.
Record t : Type := mk {
  LabelSelector : option LabelSelector.t;
  TopologyKey : string;
  Namespaces : list string;
}.
End PodAffinityTerm.

Module PodAffinity.
Record t : Type := mk {
  RequiredAffinity : list PodAffinityTerm.t;
  RequiredAntiAffinity : list PodAffinityTerm.t;
}.
End PodAffinity.

Definition DoNotSchedule : string := "DoNotSchedule".
Definition ScheduleAnyway : string := "ScheduleAnyway".

Module TopologySpreadConstraint.

Record t : Type := mk {
  MaxSkew : Z;
  TopologyKey : string;
  WhenUnsatisfiable : string;
  LabelSelector : option LabelSelector.t;
  MinDomains : option Z;
}.

Definition IsHard (t : t) : bool := (WhenUnsatisfiable t =? DoNotSchedule)%string.

End TopologySpreadConstraint.
