(* ===== verification/Cluster.v ===== *)
(** * Cluster snapshots and plans (internal/model/cluster.go, plan.go)

The immutable view of a cluster the planner reasons about, and the plan it
produces: again one Module per Go type. *)
From S2P Require Import Prelude Float64 Model.

(** ** cluster.go *)

Definition LabelZone : string := "topology.kubernetes.io/zone".
Definition LabelRegion : string := "topology.kubernetes.io/region".
Definition LabelHostname : string := "kubernetes.io/hostname".

Module Node.

Record t : Type := mk {
  Name : string;
  Labels : gmap string string;
  Annotations : gmap string string;
  Taints : list Taint.t;
  Capacity : Resources.t;
  Allocatable : Resources.t;
  Unschedulable : bool;
  Ready : bool;
  CreatedAt : time;
  Usage : option Resources.t;
}.

Definition Zone (n : t) : string := label (Labels n) LabelZone.

Definition InstanceType (n : t) : string :=
  label (Labels n) "node.kubernetes.io/instance-type".

Definition pool_labels : list string :=
  ["cloud.google.com/gke-nodepool"; "eks.amazonaws.com/nodegroup";
   "karpenter.sh/nodepool"; "karpenter.sh/provisioner-name";
   "kubernetes.azure.com/agentpool"; "agentpool";
   "node.kubernetes.io/instancegroup"].

Fixpoint first_label (labels : gmap string string) (ks : list string) : string :=
  match ks with
  | [] => ""
  | k :: ks =>
      let v := label labels k in
      if negb (v =? "")%string then v else first_label labels ks
  end.

Definition Pool (n : t) : string := first_label (Labels n) pool_labels.

Definition DoNotDisrupt (n : t) : bool :=
  (label (Annotations n) "karpenter.sh/do-not-disrupt" =? "true")%string.

Definition CapacityType (n : t) : string :=
  let l := label (Labels n) in
  if (l "karpenter.sh/capacity-type" =? "spot")%string
     || (l "cloud.google.com/gke-spot" =? "true")%string
     || (l "cloud.google.com/gke-preemptible" =? "true")%string
     || (l "eks.amazonaws.com/capacityType" =? "SPOT")%string
     || (l "kubernetes.azure.com/scalesetpriority" =? "spot")%string
  then "spot"
  else if negb (l "karpenter.sh/capacity-type" =? "")%string
     || negb (l "eks.amazonaws.com/capacityType" =? "")%string
  then "on-demand"
  else if negb (InstanceType n =? "")%string then "on-demand"
  else "".

End Node.

Definition PodPending : string := "Pending".
Definition PodRunning : string := "Running".
Definition PodSucceeded : string := "Succeeded".
Definition PodFailed : string := "Failed".

Module OwnerRef.
Record t : Type := mk { Kind : string; Name : string }.
End OwnerRef.

Module Pod.

Record t : Type := mk {
  Namespace : string;
  Name : string;
  NodeName : string;
  Labels : gmap string string;
  Phase : string;
  CreatedAt : time;
  Requests : Resources.t;
  NodeSelector : gmap string string;
  Tolerations : list Toleration.t;
  NodeAffinity : option NodeAffinity.t;
  PodAffinity : option PodAffinity.t;
  TopologySpread : list TopologySpreadConstraint.t;
  Ready : bool;
  Owner : option OwnerRef.t;
  PriorityClass : string;
  Priority : Z;
  Terminating : bool;
  HasPersistentVol : bool;
  DoNotDisrupt : bool;
  Usage : option Resources.t;
}.

(** The assignment [pod.NodeName = n] on a copy. *)
Definition set_NodeName (n : string) (p : t) : t :=
  mk (Namespace p) (Name p) n (Labels p) (Phase p) (CreatedAt p) (Requests p)
    (NodeSelector p) (Tolerations p) (NodeAffinity p) (PodAffinity p)
    (TopologySpread p) (Ready p) (Owner p) (PriorityClass p) (Priority p)
    (Terminating p) (HasPersistentVol p) (DoNotDisrupt p) (Usage p).

Definition Key (p : t) : string := Namespace p +:+ "/" +:+ Name p.

Definition owner_kind_is (k : string) (p : t) : bool :=
  match Owner p with Some o => (OwnerRef.Kind o =? k)%string | None => false end.

Definition IsMirrorPod (p : t) : bool := owner_kind_is "Node" p.

Definition PinnedToNode (p : t) : bool :=
  match Owner p with
  | None => false
  | Some o => (OwnerRef.Kind o =? "DaemonSet")%string || (OwnerRef.Kind o =? "Node")%string
  end.

Definition finished (p : t) : bool :=
  (Phase p =? PodSucceeded)%string || (Phase p =? PodFailed)%string.

Definition IsMovable (p : t) : bool :=
  if Terminating p || (Phase p =? PodSucceeded)%string || (Phase p =? PodFailed)%string then false
  else if PinnedToNode p then false
  else if DoNotDisrupt p then false
  else true.

Definition IsSingleton (p : t) : bool :=
  match Owner p with
  | None => true
  | Some o => (OwnerRef.Kind o =? "StatefulSet")%string
  end.

End Pod.

Module PodDisruptionBudget.

Record t : Type := mk {
  Namespace : string;
  Name : string;
  Selector : option LabelSelector.t;
  DisruptionsAllowed : Z;
  CurrentHealthy : Z;
  DesiredHealthy : Z;
  ExpectedPods : Z;
}.

Definition Key (p : t) : string := Namespace p +:+ "/" +:+ Name p.

Definition Blocks (p : t) : bool := DisruptionsAllowed p <=? 0.

(** The test every reader of budgets makes: the budget selects the pod's
labels, and an empty selector covers nothing. *)
Definition covers (p : t) (labels : gmap string string) : bool :=
  negb (LabelSelector.IsEmpty (Selector p) || negb (LabelSelector.Matches (Selector p) labels)).

End PodDisruptionBudget.

Module ClusterSnapshot.

Record t : Type := mk {
  TakenAt : time;
  Nodes : list Node.t;
  Pods : list Pod.t;
  PDBs : list PodDisruptionBudget.t;
  HasUsageData : bool;
}.

Definition NodeByName (s : t) (name : string) : option Node.t :=
  List.find (λ n, (Node.Name n =? name)%string) (Nodes s).

Definition PodsOnNode (s : t) (nodeName : string) : list Pod.t :=
  List.filter (λ p, (Pod.NodeName p =? nodeName)%string) (Pods s).

Definition RequestedOnNode (s : t) (nodeName : string) : Resources.t :=
  fold_left (λ total p,
    if negb (Pod.NodeName p =? nodeName)%string then total
    else if (Pod.Phase p =? PodSucceeded)%string || (Pod.Phase p =? PodFailed)%string then total
    else Resources.Add (Resources.Add total (Pod.Requests p)) Resources.one_pod)
    (Pods s) Resources.empty.

Definition Totals (s : t) : Resources.t * Resources.t :=
  (fold_left (λ a n, Resources.Add a (Node.Allocatable n)) (Nodes s) Resources.empty,
   fold_left (λ r n, Resources.Add r (RequestedOnNode s (Node.Name n))) (Nodes s) Resources.empty).

End ClusterSnapshot.

(** ** plan.go *)

(** [ImpactOther ""] is the rating of a step no classifier has seen; any other
string comes from an unvalidated request. *)
Inductive ImpactRating : Type :=
| ImpactGreen
| ImpactYellow
| ImpactRed
| ImpactOther (s : string).

#[global] Instance ImpactRating_eq_dec : EqDecision ImpactRating.
Proof. solve_decision. Defined.

#[global] Instance ImpactRating_countable : Countable ImpactRating.
Proof.
  refine (inj_countable'
    (λ r, match r with
          | ImpactGreen => inl (inl (inl ())) | ImpactYellow => inl (inl (inr ()))
          | ImpactRed => inl (inr ()) | ImpactOther s => inr s end)
    (λ x, match x with
          | inl (inl (inl _)) => ImpactGreen | inl (inl (inr _)) => ImpactYellow
          | inl (inr _) => ImpactRed | inr s => ImpactOther s end) _).
  by intros [].
Defined.

Definition rating_string (r : ImpactRating) : string :=
  match r with
  | ImpactGreen => "Green" | ImpactYellow => "Yellow" | ImpactRed => "Red"
  | ImpactOther s => s
  end.

Definition RequiresMaintenanceWindow (r : ImpactRating) : bool :=
  bool_decide (r = ImpactRed).

Inductive PlanStatus : Type := PlanValid | PlanStale | PlanInvalid.

Module ImpactReason.
Record t : Type := mk { Kind : string; Subject : string; Detail : string }.

#[global] Instance eq_dec : EqDecision t.
Proof. solve_decision. Defined.
End ImpactReason.

Module Move.
Record t : Type := mk {
  Namespace : string;
  Pod : string;
  FromNode : string;
  ToNode : string;
  CPUMilli : Z;
  MemoryBytes : Z;
}.

#[global] Instance eq_dec : EqDecision t.
Proof. solve_decision. Defined.
End Move.

Module PlanStep.

Record t : Type := mk {
  ID : string;
  SequenceNumber : Z;
  TargetNode : string;
  Moves : list Move.t;
  Impact : ImpactRating;
  Rationale : string;
  Reasons : list ImpactReason.t;
}.

Definition set_ID (id : string) (s : t) : t :=
  mk id (SequenceNumber s) (TargetNode s) (Moves s) (Impact s) (Rationale s) (Reasons s).

Definition set_rating (r : ImpactRating) (why : string) (rs : list ImpactReason.t) (s : t) : t :=
  mk (ID s) (SequenceNumber s) (TargetNode s) (Moves s) r why rs.

(** The composite literal with the three fields the planner sets. *)
Definition fresh (seq : Z) (target : string) (moves : list Move.t) : t :=
  mk "" seq target moves (ImpactOther "") "" [].

End PlanStep.

Module Plan.

Record t : Type := mk {
  ID : string;
  GeneratedAt : time;
  Status : PlanStatus;
  SnapshotTakenAt : time;
  Steps : list PlanStep.t;
  NodesBefore : Z;
  NodesAfter : Z;
  AlreadyReclaimable : Z;
  PackCeiling : float64;
}.

Definition set_Steps (steps : list PlanStep.t) (p : t) : t :=
  mk (ID p) (GeneratedAt p) (Status p) (SnapshotTakenAt p) steps (NodesBefore p)
    (NodesAfter p) (AlreadyReclaimable p) (PackCeiling p).

Definition ReclaimedNodes (p : t) : Z :=
  if NodesBefore p <=? NodesAfter p then 0 else NodesBefore p - NodesAfter p.

Definition CountByRating (p : t) : gmap ImpactRating Z :=
  fold_left (λ out s,
    <[PlanStep.Impact s := default 0 (out !! PlanStep.Impact s) + 1]> out)
    (Steps p)
    (<[ImpactGreen := 0]> (<[ImpactYellow := 0]> (<[ImpactRed := 0]> ∅))).

(** [ReclaimableCapacity]: with duplicate node names the last one wins, as in
the map the code builds. *)
Definition ReclaimableCapacity (plan : t) (snap : ClusterSnapshot.t) : Z * Z :=
  let byName := fold_left (λ m n, <[Node.Name n := n]> m)
                  (ClusterSnapshot.Nodes snap) (∅ : gmap string Node.t) in
  fold_left (λ '(cpu, mem) step,
    match byName !! PlanStep.TargetNode step with
    | Some n => (int64_add cpu (Resources.MilliCPU (Node.Allocatable n)),
                 int64_add mem (Resources.MemoryBytes (Node.Allocatable n)))
    | None => (cpu, mem)
    end) (Steps plan) (0, 0).

End Plan.
