(* ===== verification/Fixtures.v ===== *)
(** * Concrete clusters

Small inputs the witnesses evaluate the definitions on: three nodes in two
zones, a web pod spread over zones, a database with a peer it avoids.  And the
generator of clusters of any size. *)
From S2P Require Import Prelude Float64 GoText GoTime Model Cluster.
From S2P Require Columns.

Definition ex_labels (zone : string) : gmap string string :=
  <[LabelZone := zone]> (<["pool" := "default"]> ∅).

Definition ex_node (name zone : string) : Node.t :=
  Node.mk name (ex_labels zone) ∅ [] (Resources.mk 4000 8000000 110)
    (Resources.mk 4000 8000000 110) false true 0 None.

Definition app_selector (app : string) : option LabelSelector.t :=
  Some (LabelSelector.mk (<["app" := app]> ∅) []).

Definition ex_spread (app : string) : TopologySpreadConstraint.t :=
  TopologySpreadConstraint.mk 1 LabelZone DoNotSchedule (app_selector app) None.

(** A running pod of a Deployment, with the given node, app and requests. *)
Definition ex_pod (name node app : string) (cpu mem : Z)
    (spread : list TopologySpreadConstraint.t) (affinity : option PodAffinity.t) : Pod.t :=
  Pod.mk "shop" name node (<["app" := app]> ∅) PodRunning 0 (Resources.mk cpu mem 0) ∅ [] None
    affinity spread true (Some (OwnerRef.mk "ReplicaSet" "rs")) "" 0 false false false None.

Definition web (name node : string) : Pod.t :=
  ex_pod name node "web" 500 1000000 [ex_spread "web"] None.

Definition avoid_db : PodAffinity.t :=
  PodAffinity.mk [] [PodAffinityTerm.mk (app_selector "db") LabelHostname []].

Definition db (name node : string) : Pod.t :=
  ex_pod name node "db" 1000 2000000 [] (Some avoid_db).

Definition ex_nodes : list Node.t := [ex_node "a" "z1"; ex_node "b" "z2"; ex_node "c" "z2"].

Definition ex_snapshot (pods : list Pod.t) : ClusterSnapshot.t :=
  ClusterSnapshot.mk 1000 ex_nodes pods [] false.

Definition shop : ClusterSnapshot.t :=
  ex_snapshot [web "w1" "a"; web "w2" "b"; db "d1" "c"; db "d2" "b"].

(** * Generated clusters (internal/model/synthetic.go)

A cluster of any size, from a seed.  The source of random numbers is an argument:
[Float64] and [Intn] draw from it. *)
Module Synthetic.

Record Options : Type := mkOptions {
  Nodes : Z; PodsPerNode : Z; Zones : Z; PDBFraction : float64; AntiAffinityFraction : float64;
  SpreadFraction : float64; DaemonSetsPerNode : Z; Utilization : float64; Seed : Z;
}.

Definition DefaultSynthetic (nodes : Z) : Options :=
  mkOptions nodes 30 3 (F64.lit 30 100) (F64.lit 10 100) (F64.lit 15 100) 2 (F64.lit 45 100) 1.

Record workload : Type := mkWorkload {
  name : string; namespace : string; hasPDB : bool; antiAffinity : bool; spread : bool; cpu : Z;
}.

Definition nodeCPU : Z := 8000.
Definition nodeMem : Z := 32 * 2 ^ 30.

Definition pool (i : Z) : string :=
  match i mod 4 with 0 => "batch" | 1 => "web" | _ => "general" end.

Definition node_name (i : Z) : string := "node-" +:+ zero_padded 5 i.

Definition TakenAt : time := unix_epoch + 1750000000 * Second.

Definition node (zones i : Z) : Node.t :=
  let full := Resources.mk nodeCPU nodeMem 110 in
  Node.mk (node_name i)
    (<[LabelZone := "zone-" +:+ pretty (i mod zones)]> (<[LabelHostname := node_name i]> (<["pool" := pool i]> ∅)))
    ∅ [] full full false true (TakenAt - 24 * Hour) None.

Definition app_labels (app : string) : gmap string string := <["app" := app]> ∅.
Definition selects (app : string) : option LabelSelector.t := Some (LabelSelector.mk (app_labels app) []).

(** What the options leave unset takes a default of its own. *)
Definition positive (n fallback : Z) : Z := if n <=? 0 then fallback else n.

Definition perNodeBudget (o : Options) : Z := F64.to_Z (F64.mul (F64.of_Z nodeCPU) (Utilization o)).

Definition base (o : Options) : Z := max64 10 (Z.quot (perNodeBudget o) (positive (PodsPerNode o) 10)).

Definition ladder (b : Z) : list Z := [Z.quot b 2; Z.quot b 2; b; b; b; b * 2; b * 3].

Definition agent (node : string) (d : Z) : Pod.t :=
  let app := "agent-" +:+ pretty d in
  Pod.mk "kube-system" (app +:+ "-" +:+ node) node (app_labels app) PodRunning 0
    (Resources.mk 50 (64 * 2 ^ 20) 0) ∅ [] None None [] true (Some (OwnerRef.mk "DaemonSet" app)) "" 0
    false false false None.

Definition pod (w : workload) (node : string) (n : Z) : Pod.t :=
  Pod.mk (namespace w) (name w +:+ "-" +:+ node +:+ "-" +:+ pretty n) node (app_labels (name w)) PodRunning 0
    (Resources.mk (cpu w) (cpu w * 2 ^ 20 * 2) 0) ∅ [] None
    (if antiAffinity w then Some (PodAffinity.mk [] [PodAffinityTerm.mk (selects (name w)) LabelHostname []]) else None)
    (if spread w then [TopologySpreadConstraint.mk 1 LabelZone DoNotSchedule (selects (name w)) None] else [])
    true (Some (OwnerRef.mk "ReplicaSet" (name w))) "" 0 false false false None.

Definition budget (w : workload) : PodDisruptionBudget.t :=
  PodDisruptionBudget.mk (namespace w) (name w) (selects (name w)) 1 3 2 3.

(** [0], [1] and so on below [n]. *)
Definition range (n : Z) : list Z := seqZ 0 n.

Section rng.
Context {G : Type} (Float64 : G → float64 * G) (Intn : Z → G → Z * G).

Definition chance (p : float64) (g : G) : bool * G := let '(x, g) := Float64 g in (F64.ltb x p, g).

(** One workload: its draws in the order of the fields of the literal. *)
Definition kind (o : Options) (w : Z) (g : G) : workload * G :=
  let '(hasPDB, g) := chance (PDBFraction o) g in
  let '(rung, g) := Intn (Z.of_nat (length (ladder (base o)))) g in
  let '(antiAffinity, g) := chance (AntiAffinityFraction o) g in
  let '(spread, g) := chance (SpreadFraction o) g in
  (mkWorkload ("app-" +:+ zero_padded 4 w) ("ns-" +:+ zero_padded 2 (w mod 20)) hasPDB antiAffinity spread
     (nth (Z.to_nat rung) (ladder (base o)) 0), g).

Fixpoint kinds (o : Options) (ws : list Z) (g : G) : list workload * G :=
  match ws with
  | [] => ([], g)
  | w :: ws => let '(k, g) := kind o w g in let '(ks, g) := kinds o ws g in (k :: ks, g)
  end.

(** The pods of a node from number [n] on, with [used] requested so far; an index out
of range, which [Intn] never gives, takes a workload of nothing. *)
Fixpoint fill (ks : list workload) (limit : Z) (node : string) (todo : nat) (n used : Z) (g : G) : list Pod.t * G :=
  match todo with
  | O => ([], g)
  | S todo =>
      let '(i, g) := Intn (Z.of_nat (length ks)) g in
      let w := nth (Z.to_nat i) ks (mkWorkload "" "" false false false 0) in
      if (limit <? used + cpu w) && (0 <? n) then ([], g)
      else
        let '(ps, g) := fill ks limit node todo (n + 1) (used + cpu w) g in
        (pod w node n :: ps, g)
  end.

Fixpoint populate (o : Options) (ks : list workload) (nodes : list Z) (g : G) : list Pod.t * G :=
  match nodes with
  | [] => ([], g)
  | i :: nodes =>
      let '(ps, g) := fill ks (perNodeBudget o) (node_name i) (Z.to_nat (positive (PodsPerNode o) 10)) 0 0 g in
      let '(rest, g) := populate o ks nodes g in
      ((agent (node_name i) <$> range (DaemonSetsPerNode o)) ++ ps ++ rest, g)
  end.

(** [rand.New(rand.NewSource(o.Seed))] is [source (Seed o)]. *)
Definition Synthesize (source : Z → G) (o : Options) : ClusterSnapshot.t :=
  let nodes := positive (Nodes o) 1 in
  let workloads := Z.max 1 (Z.quot (wrap64 (nodes * positive (PodsPerNode o) 10)) 12) in
  let '(ks, g) := kinds o (range workloads) (source (Seed o)) in
  let '(ps, _) := populate o ks (range nodes) g in
  ClusterSnapshot.mk TakenAt (node (positive (Zones o) 1) <$> range nodes) ps (budget <$> List.filter hasPDB ks) false.

End rng.

End Synthetic.

(** ** They are clusters *)

Module SyntheticFacts.
Import Synthetic.
#[local] Arguments String.append : simpl nomatch.

Lemma all_digits_no_dash x s v : Columns.all_digits x s = Some v → no_char "-" s = true.
Proof.
  revert x. induction s as [|c s IH]; intros x; [done|]. cbn. destruct (is_digit c) eqn:Ec; [|done]. intros Hs.
  rewrite (IH _ Hs), andb_true_r, negb_true_iff. by destruct (Ascii.eqb_spec c "-") as [->|].
Qed.

Lemma padded_value places n : 0 <= n → Columns.all_digits 0 (zero_padded places n) = Some n.
Proof.
  intros Hn. unfold zero_padded. induction (Z.to_nat places - String.length (pretty n))%nat as [|k IH]; [|done].
  by apply Columns.pretty_value.
Qed.

(** A text is cut at its last dash in one way. *)
Lemma last_dash a b c d :
  no_char "-" b = true → no_char "-" d = true → a +:+ "-" +:+ b = c +:+ "-" +:+ d → a = c ∧ b = d.
Proof.
  intros Hb Hd. revert c. induction a as [|x a IH]; intros [|y c]; cbn.
  - by intros [= ->].
  - intros [= <- ->]. by rewrite no_char_app in Hb; cbn in Hb; rewrite andb_false_r in Hb.
  - intros [= -> <-]. by rewrite no_char_app in Hd; cbn in Hd; rewrite andb_false_r in Hd.
  - intros [= -> He]. by destruct (IH c He) as [-> ->].
Qed.

Lemma node_name_dash a i : a +:+ "-" +:+ node_name i = (a +:+ "-node") +:+ "-" +:+ zero_padded 5 i.
Proof. unfold node_name. by rewrite !str_app_assoc. Qed.

Lemma padded_dash a c i i' :
  0 <= i → 0 <= i' → a +:+ "-" +:+ zero_padded 5 i = c +:+ "-" +:+ zero_padded 5 i' → a = c ∧ i = i'.
Proof.
  intros Hi Hi' He. pose proof (padded_value 5 i Hi) as Vi. pose proof (padded_value 5 i' Hi') as Vi'.
  destruct (last_dash _ _ _ _ (all_digits_no_dash _ _ _ Vi) (all_digits_no_dash _ _ _ Vi') He) as [-> Hz].
  rewrite Hz in Vi. split; [done|congruence].
Qed.

Lemma node_name_inj i i' : 0 <= i → 0 <= i' → node_name i = node_name i' → i = i'.
Proof. intros Hi Hi' He. by apply (padded_dash "node" "node") in He as [_ ->]. Qed.

Lemma pod_key w i n :
  Pod.Key (pod w (node_name i) n) =
  ((namespace w +:+ "/" +:+ name w +:+ "-node") +:+ "-" +:+ zero_padded 5 i) +:+ "-" +:+ pretty n.
Proof. unfold Pod.Key, node_name. cbn [Pod.Namespace Pod.Name pod]. by rewrite !str_app_assoc. Qed.

Lemma agent_key i d :
  Pod.Key (agent (node_name i) d) = ("kube-system/agent-" +:+ pretty d +:+ "-node") +:+ "-" +:+ zero_padded 5 i.
Proof. unfold Pod.Key, node_name. cbn [Pod.Namespace Pod.Name agent]. by rewrite !str_app_assoc. Qed.

(** The node and the number of a pod can be read off its key. *)
Lemma pod_key_inj w w' i i' n n' :
  0 <= i → 0 <= i' → 0 <= n → 0 <= n' →
  Pod.Key (pod w (node_name i) n) = Pod.Key (pod w' (node_name i') n') → i = i' ∧ n = n'.
Proof.
  intros Hi Hi' Hn Hn'. rewrite !pod_key. intros He.
  pose proof (Columns.pretty_value n Hn) as Vn. pose proof (Columns.pretty_value n' Hn') as Vn'.
  apply last_dash in He as [He Hp]; [|by eapply all_digits_no_dash..]. rewrite Hp in Vn.
  apply padded_dash in He as [_ ->]; [|done..]. split; [done|congruence].
Qed.

Lemma agent_key_inj i i' d d' :
  0 <= i → 0 <= i' → Pod.Key (agent (node_name i) d) = Pod.Key (agent (node_name i') d') → i = i' ∧ d = d'.
Proof.
  intros Hi Hi'. rewrite !agent_key. intros He. apply padded_dash in He as [He ->]; [|done..].
  split; [done|]. cbn in He. injection He as He.
  by apply (last_dash (pretty d) "node" (pretty d') "node") in He as [He%(inj pretty) _].
Qed.

(** Where a pod sits: on which node, and as which agent or which of the others. *)
Definition sits (p : Pod.t) (seat : Z * (Z + Z)) : Prop :=
  0 <= seat.1 ∧
  match seat.2 with
  | inl d => p = agent (node_name seat.1) d
  | inr n => 0 <= n ∧ ∃ w, p = pod w (node_name seat.1) n
  end.

Lemma agent_no_pod w i i' d n :
  0 <= i → 0 <= i' → 0 <= n → Pod.Key (agent (node_name i) d) ≠ Pod.Key (pod w (node_name i') n).
Proof.
  intros Hi Hi' Hn. rewrite agent_key, pod_key. intros He.
  pose proof (padded_value 5 i Hi) as V. pose proof (padded_value 5 i' Hi') as V'. pose proof (Columns.pretty_value n Hn) as Vn.
  apply last_dash in He as [He _]; [|by eapply all_digits_no_dash..].
  apply (last_dash ("kube-system/agent-" +:+ pretty d) "node") in He as [_ He]; [|done|by eapply all_digits_no_dash].
  by rewrite <-He in V'.
Qed.

(** The seat can be read off the key. *)
Lemma sits_inj p p' s s' : sits p s → sits p' s' → Pod.Key p = Pod.Key p' → s = s'.
Proof.
  destruct s as [i [d|n]], s' as [i' [d'|n']]; intros [Hi H1] [Hi' H2] He; cbn in Hi, Hi', H1, H2.
  - subst. by apply agent_key_inj in He as [-> ->].
  - destruct H2 as (Hn' & w & ->). subst. by apply agent_no_pod in He.
  - destruct H1 as (Hn & w & ->). subst. by symmetry in He; apply agent_no_pod in He.
  - destruct H1 as (Hn & w & ->), H2 as (Hn' & w' & ->). by apply pod_key_inj in He as [-> ->].
Qed.

Lemma seated_distinct ps seats : Forall2 sits ps seats → NoDup seats → NoDup (Pod.Key <$> ps).
Proof.
  induction 1 as [|p s ps seats Hs Hps IH]; intros Hd; [constructor|]. apply NoDup_cons in Hd as [Hn Hd].
  rewrite fmap_cons. apply NoDup_cons. split; [|by apply IH]. intros (q & Hk & Hq)%list_elem_of_fmap.
  apply list_elem_of_lookup in Hq as [k Hq]. destruct (Forall2_lookup_l _ _ _ _ _ Hps Hq) as (s' & Hs' & Hsit).
  apply Hn. rewrite (sits_inj p q s s' Hs Hsit Hk). by eapply list_elem_of_lookup_2.
Qed.

Section facts.
Context {G : Type} (Float64 : G → float64 * G) (Intn : Z → G → Z * G).

(** A node is filled with pods numbered from [n] on. *)
Lemma fill_numbers ks limit nd todo n used g :
  ∃ ws, (fill Intn ks limit nd todo n used g).1 = zip_with (λ w j, pod w nd j) ws (seqZ n (Z.of_nat (length ws))).
Proof.
  revert n used g. induction todo as [|todo IH]; intros n used g; [by exists []|]. cbn [fill].
  destruct (Intn _ g) as [i g']. destruct (_ && _); [by exists []|].
  destruct (IH (n + 1) (used + cpu (nth (Z.to_nat i) ks (mkWorkload "" "" false false false 0))) g') as [ws Hws].
  destruct (fill Intn ks limit nd todo (n + 1) _ g') as [ps g'']. cbn in Hws |- *. rewrite Hws.
  eexists (_ :: ws). cbn [length]. rewrite (seqZ_cons n) by lia. cbn [zip_with].
  by rewrite Nat2Z.inj_succ, Z.pred_succ, <-Z.add_1_r.
Qed.

Lemma fill_budget ks limit nd todo n used g :
  0 < n → used <= limit →
  used + foldr Z.add 0 ((λ p, Resources.MilliCPU (Pod.Requests p)) <$> (fill Intn ks limit nd todo n used g).1) <= limit.
Proof.
  revert n used g. induction todo as [|todo IH]; intros n used g Hn Hu; [cbn; lia|]. cbn [fill].
  destruct (Intn _ g) as [i g']. set (w := nth _ ks _). destruct ((limit <? used + cpu w) && (0 <? n)) eqn:E; [cbn; lia|].
  specialize (IH (n + 1) (used + cpu w) g' ltac:(lia)). destruct (fill Intn ks limit nd todo (n + 1) _ g') as [ps g''].
  cbn in IH |- *. apply andb_false_iff in E as [E|E]; [apply Z.ltb_ge in E|apply Z.ltb_ge in E; lia].
  specialize (IH E). lia.
Qed.

(** All that is requested on a node, but for its agents, is within the budget, unless
it is one pod. *)
Lemma fill_within ks limit nd todo g :
  (∀ w, w ∈ ks → 0 <= cpu w) → 0 <= limit →
  let ps := (fill Intn ks limit nd todo 0 0 g).1 in
  (length ps <= 1)%nat ∨ foldr Z.add 0 ((λ p, Resources.MilliCPU (Pod.Requests p)) <$> ps) <= limit.
Proof.
  intros Hks Hlim. assert (Hcpu : ∀ i, 0 <= cpu (nth i ks (mkWorkload "" "" false false false 0))).
  { intros i. destruct (nth_in_or_default i ks (mkWorkload "" "" false false false 0)) as [Hi| ->]; [|done].
    by apply Hks, list_elem_of_In. }
  destruct todo as [|todo]; [left; cbn; lia|]. cbn [fill]. destruct (Intn _ g) as [i g'].
  rewrite andb_false_r. pose proof (Hcpu (Z.to_nat i)) as Hi. set (w := nth (Z.to_nat i) ks _) in *.
  destruct (Z.le_gt_cases (0 + cpu w) limit) as [Hl|Hl].
  - right. pose proof (fill_budget ks limit nd todo (0 + 1) (0 + cpu w) g' ltac:(lia) Hl) as Hb.
    destruct (fill Intn ks limit nd todo (0 + 1) (0 + cpu w) g') as [ps g'']. cbn in Hb |- *. lia.
  - left. destruct todo as [|todo]; [cbn; lia|]. cbn [fill]. destruct (Intn _ g') as [j g''].
    pose proof (Hcpu (Z.to_nat j)) as Hj. set (w' := nth (Z.to_nat j) ks _) in *.
    rewrite (proj2 (Z.ltb_lt limit _)) by lia. change (0 <? 0 + 1) with true. cbn. lia.
Qed.

(** Every pod has a seat of its own, on one of the nodes. *)
Lemma node_seats ks limit i count todo g :
  0 <= i →
  ∃ seats, Forall2 sits ((agent (node_name i) <$> range count) ++ (fill Intn ks limit (node_name i) todo 0 0 g).1) seats ∧
    NoDup seats ∧ ∀ s, s ∈ seats → s.1 = i.
Proof.
  intros Hi. destruct (fill_numbers ks limit (node_name i) todo 0 0 g) as [ws ->].
  exists (((λ d, (i, inl d)) <$> range count) ++ ((λ n, (i, inr n)) <$> seqZ 0 (Z.of_nat (length ws)))). split_and!.
  - apply Forall2_app.
    + apply Forall2_fmap, Forall_Forall2_diag, Forall_forall. by intros d _.
    + apply Forall2_fmap_r. rewrite Forall2_lookup. intros k. rewrite lookup_zip_with.
      destruct (seqZ 0 (Z.of_nat (length ws)) !! k) as [n|] eqn:En.
      * pose proof En as [-> Hk]%lookup_seqZ. destruct (lookup_lt_is_Some_2 ws k ltac:(lia)) as [w Hw]. rewrite Hw. cbn.
        constructor. split; [done|]. cbn. split; [lia|]. by exists w.
      * destruct (ws !! k); constructor.
  - apply NoDup_app. split_and!.
    + apply (NoDup_fmap_2 _), NoDup_seqZ.
    + intros s (d & -> & _)%list_elem_of_fmap (n & Hn & _)%list_elem_of_fmap. done.
    + apply (NoDup_fmap_2 _), NoDup_seqZ.
  - intros s [(d & -> & _)%list_elem_of_fmap|(n & -> & _)%list_elem_of_fmap]%elem_of_app; done.
Qed.

Lemma populate_seats o ks nodes g :
  (∀ i, i ∈ nodes → 0 <= i) → NoDup nodes →
  ∃ seats, Forall2 sits (populate Intn o ks nodes g).1 seats ∧ NoDup seats ∧ ∀ s, s ∈ seats → s.1 ∈ nodes.
Proof.
  revert g. induction nodes as [|i nodes IH]; intros g Hpos Hd.
  { exists []. split_and!; [constructor|constructor|by intros s ?%elem_of_nil]. }
  apply NoDup_cons in Hd as [Hi Hd]. cbn [populate].
  destruct (node_seats ks (perNodeBudget o) i (DaemonSetsPerNode o) (Z.to_nat (positive (PodsPerNode o) 10)) g
              (Hpos i (list_elem_of_here _ _))) as (s1 & F1 & D1 & I1).
  destruct (fill _ ks _ _ _ 0 0 g) as [ps g'].
  assert (Hpos' : ∀ j, j ∈ nodes → 0 <= j) by (intros j Hj; by apply Hpos, list_elem_of_further).
  destruct (IH g' Hpos' Hd) as (s2 & F2 & D2 & I2).
  destruct (populate _ o ks nodes g') as [rest g'']. cbn in F1, F2 |- *. exists (s1 ++ s2). split_and!.
  - rewrite app_assoc. by apply Forall2_app.
  - apply NoDup_app. split_and!; [done| |done]. intros s H1 H2. apply Hi. rewrite <-(I1 s H1). by apply I2.
  - intros s [H1|H2]%elem_of_app; [rewrite (I1 s H1); apply list_elem_of_here|by apply list_elem_of_further, I2].
Qed.

(** Whatever the random source gives: the nodes of a generated cluster have names of
their own, the pods keys of their own, and every pod is on one of the nodes. *)
Theorem synthesized_is_a_cluster source o :
  let snap := Synthesize Float64 Intn source o in
  NoDup (Node.Name <$> ClusterSnapshot.Nodes snap) ∧ NoDup (Pod.Key <$> ClusterSnapshot.Pods snap) ∧
  ∀ p, p ∈ ClusterSnapshot.Pods snap → Pod.NodeName p ∈ (Node.Name <$> ClusterSnapshot.Nodes snap).
Proof.
  cbn zeta. unfold Synthesize. destruct (kinds _ _ o _ _) as [ks g].
  set (nodes := range (positive (Nodes o) 1)).
  assert (Hpos : ∀ i, i ∈ nodes → 0 <= i) by (intros i Hi%elem_of_seqZ; lia).
  destruct (populate_seats o ks nodes g Hpos (NoDup_seqZ _ _)) as (seats & HF & Hd & Hin).
  destruct (populate _ o ks nodes g) as [ps g']. cbn in HF |- *. rewrite <-list_fmap_compose. split_and!.
  - assert (H : ∀ l, (∀ i, i ∈ l → 0 <= i) → NoDup l → NoDup (Node.Name ∘ node (positive (Zones o) 1) <$> l)).
    { clear. intros l Hl Hd. apply NoDup_fmap_2_strong; [|done]. intros i j Hi Hj He. by apply node_name_inj in He; auto. }
    apply H; [done|apply NoDup_seqZ].
  - by eapply seated_distinct.
  - intros p Hp. apply list_elem_of_lookup in Hp as [k Hk].
    destruct (Forall2_lookup_l _ _ _ _ _ HF Hk) as (s & Hs & [Hi Hsit]). apply list_elem_of_lookup_2 in Hs.
    apply list_elem_of_fmap. exists s.1. split; [|by apply Hin].
    destruct s.2 as [d|n]; [by subst p|by destruct Hsit as (_ & w & ->)].
Qed.

End facts.

(** Two nodes, from a source of remainders. *)
Example two_nodes :
  let snap := Synthesize (λ g : Z, (F64.lit (g mod 10) 10, g * 7 + 3)) (λ n g, ((g / 3) mod n, g * 5 + 1)) id
                (DefaultSynthetic 2) in
  length (ClusterSnapshot.Pods snap) = 64%nat ∧ length (ClusterSnapshot.PDBs snap) = 1%nat ∧
  Pod.Key <$> take 4 (ClusterSnapshot.Pods snap) =
    ["kube-system/agent-0-node-00000"; "kube-system/agent-1-node-00000";
     "ns-01/app-0001-node-00000-0"; "ns-00/app-0000-node-00000-1"].
Proof. by vm_compute. Qed.

End SyntheticFacts.
