(* ===== verification/WorkingPlacement.v ===== *)
(** * The working placement (internal/constraints/placement.go, spreadindex.go)

A mutable assignment of pods to nodes against which the analyzer, the planner
and the safety guard ask "could this pod go there?".  Module [Core] is the
assignment itself, nodes with their free capacity and occupants, and the
feasibility predicates that only read it.  Module [Placement] adds the spread
index, which memoises the pod counts per topology domain: it is filled by
queries and adjusted by [Place] and [Remove].  Both implement the interface
[PlacementOps] the clients are written against; [IndexFacts] proves that
the index changes no answer. *)
From S2P Require Import Prelude Float64 Model Cluster.

#[local] Open Scope state_scope.

(** ** Pure helpers *)

Definition valueSuffix (v : string) : string :=
  if (v =? "")%string then "" else "=" +:+ v.

Definition sameKey (a b : Pod.t) : bool :=
  (Pod.Namespace a =? Pod.Namespace b)%string && (Pod.Name a =? Pod.Name b)%string.

Definition termMatchesPod (term : PodAffinityTerm.t) (candidate : Pod.t)
    (defaultNamespace : string) : bool :=
  let namespaces :=
    match PodAffinityTerm.Namespaces term with [] => [defaultNamespace] | l => l end in
  if negb (contains namespaces (Pod.Namespace candidate)) then false
  else LabelSelector.Matches (PodAffinityTerm.LabelSelector term) (Pod.Labels candidate).

Definition fitsTaints (pod : Pod.t) (node : Node.t) : verdict :=
  check_all (λ taint,
    if (Taint.Effect taint =? TaintEffectPreferNoSchedule)%string then pass
    else if existsb (λ tol, Toleration.ToleratesTaint tol taint) (Pod.Tolerations pod) then pass
    else refuse ("Node " +:+ Node.Name node +:+ " carries taint " +:+ Taint.Key taint +:+
      valueSuffix (Taint.Value taint) +:+ ":" +:+ Taint.Effect taint +:+
      " which this pod does not tolerate.")) (Node.Taints node).

(** Go ranges over the selector in an unspecified order, so which missing
label the refusal names is unspecified; the verdict is not. *)
Definition fitsNodeSelector (pod : Pod.t) (node : Node.t) : verdict :=
  check_all (λ '(k, v),
    if negb (label (Node.Labels node) k =? v)%string
    then refuse ("Node " +:+ Node.Name node +:+ " does not carry the required label " +:+
      k +:+ "=" +:+ v +:+ ".")
    else pass) (map_to_list (Pod.NodeSelector pod)).

Definition term_selects (node : Node.t) (term : NodeSelectorTerm.t) : bool :=
  LabelSelector.Matches
    (Some (LabelSelector.mk ∅ (NodeSelectorTerm.MatchExpressions term))) (Node.Labels node).

Definition fitsNodeAffinity (pod : Pod.t) (node : Node.t) : verdict :=
  match Pod.NodeAffinity pod with
  | None => pass
  | Some a =>
      match NodeAffinity.RequiredTerms a with
      | [] => pass
      | terms =>
          if existsb (term_selects node) terms then pass
          else refuse ("Node " +:+ Node.Name node +:+
            " does not satisfy the pod's required node affinity.")
      end
  end.

(** [selectorFingerprint]: a stable rendering, keys and values sorted. *)
Definition expr_fingerprint (e : SelectorRequirement.t) : string :=
  SelectorRequirement.Key e +:+ " " +:+ SelectorRequirement.Operator e +:+ " [" +:+
  join "|" (sort_by str_ltb (SelectorRequirement.Values e)) +:+ "]".

Definition labels_fingerprint (m : gmap string string) : string :=
  sconcat ((λ k, k +:+ "=" +:+ label m k +:+ ",") <$> sort_by str_ltb ((map_to_list m).*1)).

Definition selectorFingerprint (s : option LabelSelector.t) : string :=
  match s with
  | None => ""
  | Some s =>
      let b := labels_fingerprint (LabelSelector.MatchLabels s) in
      match LabelSelector.MatchExpressions s with
      | [] => b
      | exprs => b +:+ ";" +:+ join ";" (sort_by str_ltb (expr_fingerprint <$> exprs))
      end
  end.

(** ** The assignment *)

Module NodeState.
Record t : Type := mk { node : Node.t; free : Resources.t; occupants : list Pod.t }.
End NodeState.

(** What one pod takes from a node. *)
Definition footprint (pod : Pod.t) : Resources.t :=
  Resources.Add (Pod.Requests pod) Resources.one_pod.

(** The first occupant with the pod's key, and the others. *)
Fixpoint take_pod (pod : Pod.t) (occupants : list Pod.t) : option (Pod.t * list Pod.t) :=
  match occupants with
  | [] => None
  | o :: occupants =>
      if sameKey o pod then Some (o, occupants)
      else '(o', rest) ← take_pod pod occupants; Some (o', o :: rest)
  end.

Module Core.

Record t : Type := mk { nodes : gmap string NodeState.t; nodeOrder : list string }.

Definition capacity_basis (ceiling : float64) (n : Node.t) : Resources.t :=
  let free := Node.Allocatable n in
  if F64.ltb F64.zero ceiling && F64.ltb ceiling F64.one
  then Resources.mk
         (F64.to_Z (F64.mul (F64.of_Z (Resources.MilliCPU free)) ceiling))
         (F64.to_Z (F64.mul (F64.of_Z (Resources.MemoryBytes free)) ceiling))
         (Resources.Pods free)
  else free.

Definition add_node (ceiling : float64) (p : t) (n : Node.t) : t :=
  mk (<[Node.Name n := NodeState.mk n (capacity_basis ceiling n) []]> (nodes p))
     (nodeOrder p ++ [Node.Name n]).

(** One iteration of the second loop of [NewPlacementCeiling]. *)
Definition add_pod (p : t) (pod : Pod.t) : t :=
  if (Pod.NodeName pod =? "")%string then p
  else match nodes p !! Pod.NodeName pod with
       | None => p
       | Some ns =>
           mk (<[Pod.NodeName pod :=
                  NodeState.mk (NodeState.node ns)
                    (Resources.Sub (NodeState.free ns) (footprint pod))
                    (NodeState.occupants ns ++ [pod])]> (nodes p))
              (nodeOrder p)
       end.

Definition NewPlacementCeiling (snap : ClusterSnapshot.t) (ceiling : float64) : t :=
  fold_left add_pod (ClusterSnapshot.Pods snap)
    (fold_left (add_node ceiling) (ClusterSnapshot.Nodes snap) (mk ∅ [])).

Definition NodeNames (p : t) : list string := nodeOrder p.

Definition Free (p : t) (nodeName : string) : Resources.t :=
  match nodes p !! nodeName with Some ns => NodeState.free ns | None => Resources.empty end.

Definition Occupants (p : t) (nodeName : string) : list Pod.t :=
  match nodes p !! nodeName with Some ns => NodeState.occupants ns | None => [] end.

Definition Place (pod : Pod.t) (nodeName : string) (p : t) : t :=
  match nodes p !! nodeName with
  | None => p
  | Some ns =>
      let pod := Pod.set_NodeName nodeName pod in
      mk (<[nodeName :=
             NodeState.mk (NodeState.node ns)
               (Resources.Sub (NodeState.free ns) (footprint pod))
               (NodeState.occupants ns ++ [pod])]> (nodes p))
         (nodeOrder p)
  end.

(** The occupant [Remove] takes off, when there is one. *)
Definition removed (pod : Pod.t) (p : t) : option (NodeState.t * Pod.t * list Pod.t) :=
  ns ← nodes p !! Pod.NodeName pod;
  '(o, rest) ← take_pod pod (NodeState.occupants ns);
  Some (ns, o, rest).

Definition Remove (pod : Pod.t) (p : t) : t :=
  match removed pod p with
  | None => p
  | Some (ns, o, rest) =>
      mk (<[Pod.NodeName pod :=
             NodeState.mk (NodeState.node ns)
               (Resources.Add (Resources.Add (NodeState.free ns) (Pod.Requests pod))
                  Resources.one_pod)
               rest]> (nodes p))
         (nodeOrder p)
  end.

(** *** The predicates that read the assignment *)

Definition node_label (p : t) (nodeName key : string) : option string :=
  ns ← nodes p !! nodeName; Node.Labels (NodeState.node ns) !! key.

Definition inSameTopologyDomain (p : t) (a b topologyKey : string) : bool :=
  if (topologyKey =? LabelHostname)%string then (a =? b)%string
  else match node_label p a topologyKey, node_label p b topologyKey with
       | Some va, Some vb => (va =? vb)%string
       | _, _ => false
       end.

Definition fitsResources (pod : Pod.t) (ns : NodeState.t) : verdict :=
  if Resources.Fits (footprint pod) (NodeState.free ns) then pass
  else refuse ("Node " +:+ Node.Name (NodeState.node ns) +:+ " has " +:+
    Resources.to_string (NodeState.free ns) +:+ " free, which cannot hold this pod's " +:+
    Resources.to_string (Pod.Requests pod) +:+ ".").

(** An occupant that a required anti-affinity term of [pod] collides with. *)
Definition repels (pod : Pod.t) (term : PodAffinityTerm.t) (occupant : Pod.t) : bool :=
  negb (sameKey pod occupant) && termMatchesPod term occupant (Pod.Namespace pod).

Definition conflictInDomain (p : t) (pod : Pod.t) (node : Node.t) (term : PodAffinityTerm.t) : string :=
  match Node.Labels node !! PodAffinityTerm.TopologyKey term with
  | None => ""
  | Some domain =>
      let siblings := List.filter (λ name,
        negb (name =? Node.Name node)%string &&
        (default "" (node_label p name (PodAffinityTerm.TopologyKey term)) =? domain)%string)
        (nodeOrder p) in
      match List.find (repels pod term) (siblings ≫= Occupants p) with
      | Some occupant =>
          "Required anti-affinity on " +:+ PodAffinityTerm.TopologyKey term +:+ "=" +:+ domain +:+
          ": " +:+ Pod.Key occupant +:+ " already runs in that domain."
      | None => ""
      end
  end.

Definition fitsPodAntiAffinity (p : t) (pod : Pod.t) (ns : NodeState.t) : verdict :=
  match Pod.PodAffinity pod with
  | None => pass
  | Some a =>
      check_all (λ term,
        let key := PodAffinityTerm.TopologyKey term in
        and_then
          (check_all (λ occupant,
             if sameKey pod occupant then pass
             else if negb (inSameTopologyDomain p (Node.Name (NodeState.node ns))
                             (Pod.NodeName occupant) key) then pass
             else if negb (termMatchesPod term occupant (Pod.Namespace pod)) then pass
             else refuse ("Required anti-affinity on " +:+ key +:+ ": " +:+ Pod.Key occupant +:+
               " already runs there and matches this pod's selector."))
             (NodeState.occupants ns))
          (if negb (key =? LabelHostname)%string then
             let conflict := conflictInDomain p pod (NodeState.node ns) term in
             if negb (conflict =? "")%string then refuse conflict else pass
           else pass))
        (PodAffinity.RequiredAntiAffinity a)
  end.

(** The nodes a required affinity term may find its partner on. *)
Definition affinity_scope (p : t) (ns : NodeState.t) (key : string) : list string :=
  List.filter (λ name,
    if (key =? LabelHostname)%string then (name =? Node.Name (NodeState.node ns))%string
    else match Node.Labels (NodeState.node ns) !! key with
         | None => false
         | Some domain => (default "" (node_label p name key) =? domain)%string
         end) (nodeOrder p).

Definition fitsPodAffinity (p : t) (pod : Pod.t) (ns : NodeState.t) : verdict :=
  match Pod.PodAffinity pod with
  | None => pass
  | Some a =>
      check_all (λ term,
        let key := PodAffinityTerm.TopologyKey term in
        if existsb (repels pod term) (affinity_scope p ns key ≫= Occupants p) then pass
        else refuse ("Required pod affinity on " +:+ key +:+ " is not satisfied at node " +:+
          Node.Name (NodeState.node ns) +:+ ": no matching pod in that domain."))
        (PodAffinity.RequiredAffinity a)
  end.

(** *** Counting a topology domain, without the index *)

Definition counted (namespace : string) (sel : option LabelSelector.t) (o : Pod.t) : bool :=
  (Pod.Namespace o =? namespace)%string && LabelSelector.Matches sel (Pod.Labels o).

(** One round of the first-use pass of [spreadCounts]. *)
Definition count_node (p : t) (namespace key : string) (sel : option LabelSelector.t)
    (counts : gmap string Z) (name : string) : gmap string Z :=
  match node_label p name key with
  | None => counts
  | Some domain =>
      let counts := match counts !! domain with None => <[domain := 0]> counts | Some _ => counts end in
      fold_left (λ counts o,
        if counted namespace sel o then <[domain := default 0 (counts !! domain) + 1]> counts
        else counts) (Occupants p name) counts
  end.

Definition count_domains (p : t) (namespace key : string) (sel : option LabelSelector.t) :
    gmap string Z :=
  fold_left (count_node p namespace key sel) (nodeOrder p) ∅.

(** The tail of [domainCounts]: the pod must not count toward the spread it is
being moved out of. *)
Definition discount (p : t) (pod : Pod.t) (tsc : TopologySpreadConstraint.t)
    (counts : gmap string Z) : gmap string Z :=
  match nodes p !! Pod.NodeName pod with
  | None => counts
  | Some ns =>
      match Node.Labels (NodeState.node ns) !! TopologySpreadConstraint.TopologyKey tsc with
      | None => counts
      | Some domain =>
          if existsb (λ o, sameKey pod o &&
               LabelSelector.Matches (TopologySpreadConstraint.LabelSelector tsc) (Pod.Labels o) &&
               (Pod.Namespace o =? Pod.Namespace pod)%string) (NodeState.occupants ns)
          then <[domain := default 0 (counts !! domain) - 1]> counts
          else counts
      end
  end.

(** The minimum over the domains, [-1] marking "none seen yet". *)
Definition min_count (counts : gmap string Z) : Z :=
  let m := fold_left (λ m c, if (m =? -1) || (c <? m) then c else m)
             ((map_to_list counts).*2) (-1) in
  if m <? 0 then 0 else m.

(** The body of the loop of [fitsTopologySpread] once the counts are known. *)
Definition spread_verdict (tsc : TopologySpreadConstraint.t) (targetDomain : string)
    (counts : gmap string Z) : verdict :=
  let counts := <[targetDomain := default 0 (counts !! targetDomain) + 1]> counts in
  let skew := default 0 (counts !! targetDomain) - min_count counts in
  if TopologySpreadConstraint.MaxSkew tsc <? wrap32 skew
  then refuse ("Topology spread on " +:+ TopologySpreadConstraint.TopologyKey tsc +:+
    " would reach skew " +:+ pretty skew +:+ " in domain " +:+ quoted targetDomain +:+
    ", exceeding maxSkew " +:+ pretty (TopologySpreadConstraint.MaxSkew tsc) +:+ ".")
  else pass.

Definition no_domain (nodeName key : string) : verdict :=
  refuse ("Node " +:+ nodeName +:+ " has no " +:+ key +:+
    " label, required by a topology spread constraint.").

Definition fitsTopologySpread (p : t) (pod : Pod.t) (nodeName : string) : verdict :=
  check_all (λ tsc,
    let key := TopologySpreadConstraint.TopologyKey tsc in
    if negb (TopologySpreadConstraint.IsHard tsc) then pass
    else match nodes p !! nodeName with
         | None => pass
         | Some target =>
             match Node.Labels (NodeState.node target) !! key with
             | None => no_domain nodeName key
             | Some targetDomain =>
                 spread_verdict tsc targetDomain
                   (discount p pod tsc
                      (count_domains p (Pod.Namespace pod) key
                         (TopologySpreadConstraint.LabelSelector tsc)))
             end
         end) (Pod.TopologySpread pod).

(** The checks of [CanPlace] up to topology spread, in the code's order. *)
Definition fitsStatic (p : t) (pod : Pod.t) (nodeName : string) (ns : NodeState.t) : verdict :=
  let node := NodeState.node ns in
  if Node.Unschedulable node then refuse ("Node " +:+ nodeName +:+ " is cordoned.")
  else if negb (Node.Ready node) then refuse ("Node " +:+ nodeName +:+ " is not Ready.")
  else and_then (fitsTaints pod node)
      (and_then (fitsNodeSelector pod node)
      (and_then (fitsNodeAffinity pod node)
      (and_then (fitsResources pod ns)
      (and_then (fitsPodAntiAffinity p pod ns)
                (fitsPodAffinity p pod ns))))).

Definition absent (nodeName : string) : verdict :=
  refuse ("Node " +:+ nodeName +:+ " is not in the snapshot.").

(** [CanPlace] with every count recomputed. *)
Definition CanPlace (p : t) (pod : Pod.t) (nodeName : string) : verdict :=
  match nodes p !! nodeName with
  | None => absent nodeName
  | Some ns => and_then (fitsStatic p pod nodeName ns) (fitsTopologySpread p pod nodeName)
  end.

End Core.

(** ** The spread index (spreadindex.go) *)

Module spreadKey.
Record t : Type := mk { topologyKey : string; namespace : string; selector : string }.

#[global] Instance eq_dec : EqDecision t.
Proof. solve_decision. Defined.

#[global] Instance countable : Countable t.
Proof.
  refine (inj_countable'
    (λ k, (topologyKey k, namespace k, selector k))
    (λ '(a, b, c), mk a b c) _).
  by intros [].
Defined.
End spreadKey.

Module spreadEntry.
Record t : Type := mk { counts : gmap string Z; selector : option LabelSelector.t }.
End spreadEntry.

Definition spreadIndex : Type := gmap spreadKey.t spreadEntry.t.

(** [spreadIndex.clone] *)
Definition spread_clone (s : spreadIndex) : spreadIndex :=
  (λ e, spreadEntry.mk (spreadEntry.counts e) (spreadEntry.selector e)) <$> s.

Module Placement.

Record t : Type := mk { core : Core.t; spread : spreadIndex }.

Definition NewPlacementCeiling (snap : ClusterSnapshot.t) (ceiling : float64) : t :=
  mk (Core.NewPlacementCeiling snap ceiling) ∅.

Definition NewPlacement (snap : ClusterSnapshot.t) : t := NewPlacementCeiling snap F64.zero.

Definition Clone (p : t) : t :=
  mk (Core.mk
        ((λ ns, NodeState.mk (NodeState.node ns) (NodeState.free ns) (NodeState.occupants ns))
           <$> Core.nodes (core p))
        (Core.nodeOrder (core p)))
     (spread_clone (spread p)).

Definition key_of (namespace : string) (tsc : TopologySpreadConstraint.t) : spreadKey.t :=
  spreadKey.mk (TopologySpreadConstraint.TopologyKey tsc) namespace
    (selectorFingerprint (TopologySpreadConstraint.LabelSelector tsc)).

Definition spreadCounts (namespace : string) (tsc : TopologySpreadConstraint.t) :
    State t (gmap string Z) := λ p,
  let key := key_of namespace tsc in
  match spread p !! key with
  | Some e => (spreadEntry.counts e, p)
  | None =>
      let counts := Core.count_domains (core p) namespace
        (TopologySpreadConstraint.TopologyKey tsc)
        (TopologySpreadConstraint.LabelSelector tsc) in
      (counts, mk (core p)
        (<[key := spreadEntry.mk counts (TopologySpreadConstraint.LabelSelector tsc)]> (spread p)))
  end.

Definition domainCounts (pod : Pod.t) (tsc : TopologySpreadConstraint.t) :
    State t (gmap string Z) :=
  let* cached := spreadCounts (Pod.Namespace pod) tsc in
  λ p, (Core.discount (core p) pod tsc cached, p).

Fixpoint fitsTopologySpread (pod : Pod.t) (nodeName : string)
    (tscs : list TopologySpreadConstraint.t) : State t verdict :=
  match tscs with
  | [] => st_ret pass
  | tsc :: tscs =>
      let key := TopologySpreadConstraint.TopologyKey tsc in
      if negb (TopologySpreadConstraint.IsHard tsc) then fitsTopologySpread pod nodeName tscs
      else λ p,
        match Core.nodes (core p) !! nodeName with
        | None => fitsTopologySpread pod nodeName tscs p
        | Some target =>
            match Node.Labels (NodeState.node target) !! key with
            | None => (Core.no_domain nodeName key, p)
            | Some targetDomain =>
                (let* counts := domainCounts pod tsc in
                 let v := Core.spread_verdict tsc targetDomain counts in
                 if negb v.1 then st_ret v else fitsTopologySpread pod nodeName tscs) p
            end
        end
  end.

Definition CanPlace (pod : Pod.t) (nodeName : string) : State t verdict := λ p,
  match Core.nodes (core p) !! nodeName with
  | None => (Core.absent nodeName, p)
  | Some ns =>
      let v := Core.fitsStatic (core p) pod nodeName ns in
      if negb v.1 then (v, p)
      else fitsTopologySpread pod nodeName (Pod.TopologySpread pod) p
  end.

(** One iteration of [adjustSpread]. *)
Definition adjust_entry (node : Node.t) (pod : Pod.t) (delta : Z)
    (key : spreadKey.t) (entry : spreadEntry.t) : spreadEntry.t :=
  if negb (spreadKey.namespace key =? Pod.Namespace pod)%string then entry
  else match Node.Labels node !! spreadKey.topologyKey key with
       | None => entry
       | Some domain =>
           if negb (LabelSelector.Matches (spreadEntry.selector entry) (Pod.Labels pod))
           then entry
           else spreadEntry.mk
                  (<[domain := default 0 (spreadEntry.counts entry !! domain) + delta]>
                     (spreadEntry.counts entry))
                  (spreadEntry.selector entry)
       end.

Definition adjustSpread (pod : Pod.t) (nodeName : string) (delta : Z) (p : t) : t :=
  match Core.nodes (core p) !! nodeName with
  | None => p
  | Some ns =>
      mk (core p)
         (map_imap (λ key e, Some (adjust_entry (NodeState.node ns) pod delta key e)) (spread p))
  end.

Definition Place (pod : Pod.t) (nodeName : string) (p : t) : t :=
  match Core.nodes (core p) !! nodeName with
  | None => p
  | Some _ =>
      adjustSpread (Pod.set_NodeName nodeName pod) nodeName 1
        (mk (Core.Place pod nodeName (core p)) (spread p))
  end.

Definition Remove (pod : Pod.t) (p : t) : t :=
  match Core.removed pod (core p) with
  | None => p
  | Some (_, occupant, _) =>
      adjustSpread occupant (Pod.NodeName pod) (-1)
        (mk (Core.Remove pod (core p)) (spread p))
  end.

End Placement.

(** ** The interface

What the analyzer, the planner and the safety guard use of a placement.
[CanPlace] is the only query that may change the representation. *)

Class PlacementOps (P : Type) : Type := {
  new_placement : ClusterSnapshot.t → float64 → P;
  NodeNames : P → list string;
  Free : P → string → Resources.t;
  Occupants : P → string → list Pod.t;
  CanPlace : Pod.t → string → State P verdict;
  Place : Pod.t → string → P → P;
  Remove : Pod.t → P → P;
  Clone : P → P;
}.

#[global] Instance core_ops : PlacementOps Core.t := {|
  new_placement := Core.NewPlacementCeiling;
  NodeNames := Core.NodeNames;
  Free := Core.Free;
  Occupants := Core.Occupants;
  CanPlace pod nodeName p := (Core.CanPlace p pod nodeName, p);
  Place := Core.Place;
  Remove := Core.Remove;
  Clone p := p;
|}.

#[global] Instance placement_ops : PlacementOps Placement.t := {|
  new_placement := Placement.NewPlacementCeiling;
  NodeNames p := Core.NodeNames (Placement.core p);
  Free p := Core.Free (Placement.core p);
  Occupants p := Core.Occupants (Placement.core p);
  CanPlace := Placement.CanPlace;
  Place := Placement.Place;
  Remove := Placement.Remove;
  Clone := Placement.Clone;
|}.

Section derived.
Context {P : Type} `{PlacementOps P}.

Definition IsEmpty (p : P) (nodeName : string) : bool :=
  negb (existsb Pod.IsMovable (Occupants p nodeName)).

(** The loop of [CandidateNodes], threading the placement. *)
Fixpoint candidates (pod : Pod.t) (names : list string) : State P (list string) :=
  match names with
  | [] => st_ret []
  | name :: names =>
      if (name =? Pod.NodeName pod)%string then candidates pod names
      else let* v := CanPlace pod name in
           let* rest := candidates pod names in
           st_ret (if v.1 then name :: rest else rest)
  end.

Definition CandidateNodes (pod : Pod.t) : State P (list string) :=
  λ p, candidates pod (NodeNames p) p.
End derived.

(** ** Well-formed selectors

The syntax Kubernetes validates label keys, values and operators against
excludes the characters the fingerprint separates its fields with, and its
validation requires values for [In] and [NotIn]. *)

Definition separators : list Ascii.ascii := String.list_ascii_of_string "=,; []|".

Fixpoint plain (s : string) : bool :=
  match s with
  | EmptyString => true
  | String c s => negb (existsb (Ascii.eqb c) separators) && plain s
  end.

Definition wf_requirement (e : SelectorRequirement.t) : bool :=
  plain (SelectorRequirement.Key e) && plain (SelectorRequirement.Operator e) &&
  forallb plain (SelectorRequirement.Values e) &&
  (negb ((SelectorRequirement.Operator e =? SelectorOpIn)%string
         || (SelectorRequirement.Operator e =? SelectorOpNotIn)%string)
   || negb (bool_decide (SelectorRequirement.Values e = []))).

Definition wf_selector (s : option LabelSelector.t) : bool :=
  match s with
  | None => true
  | Some s =>
      forallb (λ kv, plain kv.1 && plain kv.2) (map_to_list (LabelSelector.MatchLabels s)) &&
      forallb wf_requirement (LabelSelector.MatchExpressions s)
  end.

Definition wf_pod (pod : Pod.t) : bool :=
  forallb (λ tsc, wf_selector (TopologySpreadConstraint.LabelSelector tsc)) (Pod.TopologySpread pod).

Definition wf_snapshot (snap : ClusterSnapshot.t) : bool :=
  bool_decide (NoDup (Node.Name <$> ClusterSnapshot.Nodes snap)) &&
  forallb wf_pod (ClusterSnapshot.Pods snap).

(** ** The laws

[to_core] reads a representation back as the bare assignment; on [valid]
representations every operation does to it what [Core] does. *)

Class PlacementLaws (P : Type) `{PlacementOps P} : Type := {
  to_core : P → Core.t;
  valid : P → Prop;
  new_core snap c : to_core (new_placement snap c) = Core.NewPlacementCeiling snap c;
  new_valid snap c : wf_snapshot snap = true → valid (new_placement snap c);
  names_core p : NodeNames p = Core.NodeNames (to_core p);
  free_core p n : Free p n = Core.Free (to_core p) n;
  occupants_core p n : Occupants p n = Core.Occupants (to_core p) n;
  occupants_wf p n : valid p → Forall (λ o, wf_pod o = true) (Occupants p n);
  canplace_core pod n p : valid p → wf_pod pod = true →
    (CanPlace pod n p).1 = Core.CanPlace (to_core p) pod n;
  canplace_keeps pod n p : to_core (CanPlace pod n p).2 = to_core p;
  canplace_valid pod n p : valid p → wf_pod pod = true → valid (CanPlace pod n p).2;
  place_core pod n p : to_core (Place pod n p) = Core.Place pod n (to_core p);
  place_valid pod n p : valid p → wf_pod pod = true → valid (Place pod n p);
  remove_core pod p : to_core (Remove pod p) = Core.Remove pod (to_core p);
  remove_valid pod p : valid p → valid (Remove pod p);
  clone_core p : to_core (Clone p) = to_core p;
  clone_valid p : valid p → valid (Clone p);
}.

Create HintDb placement.
Create Rewrite HintDb placement.
#[export] Hint Rewrite @new_core @names_core @free_core @occupants_core @canplace_keeps
  @place_core @remove_core @clone_core : placement.
#[export] Hint Resolve new_valid occupants_wf canplace_valid place_valid remove_valid clone_valid
  : placement.
