(* ===== verification/PlacementFacts.v ===== *)
(** * What the assignment does

Facts about [WorkingPlacement.Core]: its well-formedness and that every
operation keeps it, the closed form of the domain counts, the declarative
reading of [CanPlace], and the accounting of capacity. *)
From S2P Require Import Prelude Float64 Model Cluster WorkingPlacement.

(** ** Well-formed assignments *)

Definition sits (n : string) (ns : NodeState.t) : Prop :=
  Node.Name (NodeState.node ns) = n ∧
  Forall (λ o, Pod.NodeName o = n) (NodeState.occupants ns).

Record core_wf (p : Core.t) : Prop := {
  wf_order : NoDup (Core.nodeOrder p);
  wf_dom n : n ∈ Core.nodeOrder p ↔ is_Some (Core.nodes p !! n);
  wf_sits n ns : Core.nodes p !! n = Some ns → sits n ns;
}.

(** Every operation leaves the nodes and their labels alone. *)
Definition same_nodes (p q : Core.t) : Prop :=
  Core.nodeOrder p = Core.nodeOrder q ∧
  ∀ n, NodeState.node <$> Core.nodes p !! n = NodeState.node <$> Core.nodes q !! n.

#[global] Instance same_nodes_equiv : Equivalence same_nodes.
Proof.
  split.
  - done.
  - intros p q [??]; split; by symmetry.
  - intros p q r [E1 H1] [E2 H2]; split; [congruence|]. intros n. by rewrite H1.
Qed.

(** Writing one node back with the same [node] field. *)
Lemma same_nodes_insert p n ns ns' :
  Core.nodes p !! n = Some ns → NodeState.node ns' = NodeState.node ns →
  same_nodes p (Core.mk (<[n := ns']> (Core.nodes p)) (Core.nodeOrder p)).
Proof.
  intros Hn He. split; [done|]. intros m. simpl.
  destruct (decide (n = m)) as [->|]; [|by rewrite lookup_insert_ne].
  by rewrite lookup_insert_eq, Hn; simpl; rewrite He.
Qed.

Lemma core_wf_insert p n ns ns' :
  core_wf p → Core.nodes p !! n = Some ns → sits n ns' →
  core_wf (Core.mk (<[n := ns']> (Core.nodes p)) (Core.nodeOrder p)).
Proof.
  intros [Ho Hd Hs] Hn Hs'. split; simpl; [done| |].
  - intros m. rewrite Hd, lookup_insert_is_Some'. split; [auto|].
    intros [->|?]; [eauto|done].
  - intros m ms. rewrite lookup_insert_Some. intros [[-> <-]|[_ ?]]; eauto.
Qed.

Lemma take_pod_spec pod os o rest :
  take_pod pod os = Some (o, rest) → o ∈ os ∧ sameKey o pod = true ∧ os ≡ₚ o :: rest.
Proof.
  revert o rest. induction os as [|x os IH]; intros o rest; simpl; [done|].
  destruct (sameKey x pod) eqn:Hk.
  - intros [= <- <-]. repeat split; [by constructor|done|done].
  - destruct (take_pod pod os) as [[o' r']|]; simpl; [|done]. intros [= -> <-].
    destruct (IH o r' eq_refl) as (?&?&Hp). repeat split; [by constructor|done|].
    rewrite Hp. by constructor.
Qed.

Lemma take_pod_None pod os :
  take_pod pod os = None ↔ ∀ o, o ∈ os → sameKey o pod = false.
Proof.
  induction os as [|x os IH]; simpl; [split; [intros _ o; by rewrite elem_of_nil|done]|].
  destruct (sameKey x pod) eqn:Hk.
  - split; [done|]. intros H. specialize (H x). rewrite H in Hk; [done|by constructor].
  - destruct (take_pod pod os) as [[o' r']|] eqn:Ht; simpl.
    + split; [done|]. intros H. enough (Some (o', r') = None) by done.
      apply IH. intros o ?. apply H. by constructor.
    + split; [|done]. intros _ o [->|?]%elem_of_cons; [done|]. by apply IH.
Qed.

Lemma place_wf pod n p : core_wf p → core_wf (Core.Place pod n p).
Proof.
  intros Hw. unfold Core.Place. destruct (Core.nodes p !! n) as [ns|] eqn:Hn; [|done].
  eapply core_wf_insert; [done..|]. destruct (wf_sits _ Hw _ _ Hn) as [? ?].
  split; simpl; [done|]. apply Forall_app; split; [done|]. by repeat constructor.
Qed.

Lemma place_same_nodes pod n p : same_nodes p (Core.Place pod n p).
Proof.
  unfold Core.Place. destruct (Core.nodes p !! n) as [ns|] eqn:Hn; [|done].
  by eapply same_nodes_insert.
Qed.

Lemma removed_spec pod p ns o rest :
  Core.removed pod p = Some (ns, o, rest) →
  Core.nodes p !! Pod.NodeName pod = Some ns ∧
  take_pod pod (NodeState.occupants ns) = Some (o, rest).
Proof.
  unfold Core.removed. destruct (Core.nodes p !! _) as [ns'|]; simpl; [|done].
  destruct (take_pod pod (NodeState.occupants ns')) as [[??]|] eqn:?; simpl; [|done].
  by intros [= -> -> ->].
Qed.

Lemma remove_wf pod p : core_wf p → core_wf (Core.Remove pod p).
Proof.
  intros Hw. unfold Core.Remove. destruct (Core.removed pod p) as [[[ns o] rest]|] eqn:Hr; [|done].
  apply removed_spec in Hr as [Hn Ht].
  eapply core_wf_insert; [done..|]. destruct (wf_sits _ Hw _ _ Hn) as [? Hf].
  split; simpl; [done|]. apply take_pod_spec in Ht as (_&_&Hp).
  rewrite Hp in Hf. by inversion Hf.
Qed.

Lemma remove_same_nodes pod p : same_nodes p (Core.Remove pod p).
Proof.
  unfold Core.Remove. destruct (Core.removed pod p) as [[[ns o] rest]|] eqn:Hr; [|done].
  apply removed_spec in Hr as [Hn Ht]. by eapply same_nodes_insert.
Qed.

Lemma add_pod_wf p pod : core_wf p → core_wf (Core.add_pod p pod).
Proof.
  intros Hw. unfold Core.add_pod. case_match; [done|].
  destruct (Core.nodes p !! Pod.NodeName pod) as [ns|] eqn:Hn; [|done].
  eapply core_wf_insert; [done..|]. destruct (wf_sits _ Hw _ _ Hn) as [? ?].
  split; simpl; [done|]. apply Forall_app; split; [done|]. by repeat constructor.
Qed.

Lemma add_node_wf c p n :
  Node.Name n ∉ Core.nodeOrder p → core_wf p → core_wf (Core.add_node c p n).
Proof.
  intros Hn [Ho Hd Hs]. split; simpl.
  - apply NoDup_app. repeat split; [done| |by apply NoDup_singleton].
    intros x Hx ->%list_elem_of_singleton. done.
  - intros m. rewrite elem_of_app, list_elem_of_singleton, Hd, lookup_insert_is_Some'.
    split; [intros [?| ->]; auto|intros [->|?]; auto].
  - intros m ms. rewrite lookup_insert_Some. intros [[<- <-]|[_ ?]]; [|eauto].
    split; simpl; [done|constructor].
Qed.

Lemma add_nodes_wf c ns p :
  NoDup (Node.Name <$> ns) → (∀ n, n ∈ ns → Node.Name n ∉ Core.nodeOrder p) →
  core_wf p → core_wf (fold_left (Core.add_node c) ns p).
Proof.
  revert p. induction ns as [|n ns IH]; intros p Hd Hf Hw; simpl; [done|].
  inversion Hd as [|?? Hn Hd']; subst. apply IH; [done| |].
  - intros m Hm. simpl. rewrite elem_of_app, list_elem_of_singleton.
    intros [?|He]; [by eapply Hf; [right|]|].
    apply Hn. rewrite <- He. by apply list_elem_of_fmap_2.
  - apply add_node_wf; [|done]. apply Hf. by left.
Qed.

Lemma empty_wf : core_wf (Core.mk ∅ []).
Proof.
  split; simpl; [constructor| |].
  - intros n. rewrite lookup_empty. split; [by rewrite elem_of_nil|by intros []].
  - intros n ns. by rewrite lookup_empty.
Qed.

Lemma new_wf snap c :
  NoDup (Node.Name <$> ClusterSnapshot.Nodes snap) → core_wf (Core.NewPlacementCeiling snap c).
Proof.
  intros Hd. unfold Core.NewPlacementCeiling.
  assert (Hw : core_wf (fold_left (Core.add_node c) (ClusterSnapshot.Nodes snap) (Core.mk ∅ []))).
  { apply add_nodes_wf; [done| |apply empty_wf]. intros n _. apply not_elem_of_nil. }
  revert Hw. generalize (fold_left (Core.add_node c) (ClusterSnapshot.Nodes snap) (Core.mk ∅ [])).
  induction (ClusterSnapshot.Pods snap) as [|pod pods IH]; intros p Hw; simpl; [done|].
  apply IH. by apply add_pod_wf.
Qed.

#[export] Hint Resolve place_wf remove_wf add_pod_wf new_wf place_same_nodes remove_same_nodes
  : placement.

(** ** The domain counts in closed form *)

Definition tally (p : Core.t) (namespace : string) (sel : option LabelSelector.t)
    (name : string) : Z :=
  Z.of_nat (length (List.filter (Core.counted namespace sel) (Core.Occupants p name))).

Definition in_domain (p : Core.t) (key d name : string) : bool :=
  bool_decide (Core.node_label p name key = Some d).

Fixpoint domain_sum (p : Core.t) (namespace key : string) (sel : option LabelSelector.t)
    (d : string) (names : list string) : Z :=
  match names with
  | [] => 0
  | name :: names =>
      (if in_domain p key d name then tally p namespace sel name else 0) +
      domain_sum p namespace key sel d names
  end.

Lemma count_occupants_lookup namespace sel domain os (m : gmap string Z) z :
  m !! domain = Some z →
  fold_left (λ counts o,
    if Core.counted namespace sel o then <[domain := default 0 (counts !! domain) + 1]> counts
    else counts) os m
  = <[domain := z + Z.of_nat (length (List.filter (Core.counted namespace sel) os))]> m.
Proof.
  revert m z. induction os as [|o os IH]; intros m z Hm; simpl.
  - by rewrite Z.add_0_r, insert_id.
  - case_match; simpl; [|by apply IH].
    rewrite Hm; simpl. rewrite (IH _ (z + 1)) by apply lookup_insert_eq.
    rewrite insert_insert_eq. f_equal. lia.
Qed.

Lemma count_node_lookup p namespace key sel m name d :
  Core.count_node p namespace key sel m name !! d =
  if in_domain p key d name then Some (default 0 (m !! d) + tally p namespace sel name)
  else m !! d.
Proof.
  unfold Core.count_node, in_domain, tally.
  destruct (Core.node_label p name key) as [dom|].
  2:{ by rewrite bool_decide_eq_false_2. }
  set (m' := match m !! dom with None => _ | Some _ => _ end).
  assert (Hm : m' = <[dom := default 0 (m !! dom)]> m).
  { unfold m'. destruct (m !! dom) eqn:E; [|done]. by rewrite insert_id. }
  rewrite (count_occupants_lookup _ _ _ _ _ (default 0 (m !! dom))).
  2:{ rewrite Hm. apply lookup_insert_eq. }
  rewrite Hm, insert_insert_eq.
  destruct (decide (dom = d)) as [->|Hne].
  - by rewrite lookup_insert_eq, bool_decide_eq_true_2.
  - rewrite lookup_insert_ne by done. rewrite bool_decide_eq_false_2; [done|congruence].
Qed.

Lemma count_fold_lookup p namespace key sel names m d :
  fold_left (Core.count_node p namespace key sel) names m !! d =
  if existsb (in_domain p key d) names
  then Some (default 0 (m !! d) + domain_sum p namespace key sel d names)
  else m !! d.
Proof.
  revert m. induction names as [|name names IH]; intros m; simpl; [done|].
  rewrite IH, count_node_lookup. destruct (in_domain p key d name); simpl.
  - case_match eqn:E; f_equal; [lia|].
    assert (domain_sum p namespace key sel d names = 0) as ->; [|lia].
    clear -E. induction names as [|x names IH]; simpl in *; [done|].
    apply orb_false_iff in E as [-> ?]. by rewrite IH.
  - by case_match; rewrite ?Z.add_0_l.
Qed.

Lemma count_domains_lookup p namespace key sel d :
  Core.count_domains p namespace key sel !! d =
  if existsb (in_domain p key d) (Core.nodeOrder p)
  then Some (domain_sum p namespace key sel d (Core.nodeOrder p)) else None.
Proof. apply count_fold_lookup. Qed.

Lemma same_nodes_label p q n k :
  same_nodes p q → Core.node_label p n k = Core.node_label q n k.
Proof.
  intros [_ H]. unfold Core.node_label. specialize (H n).
  destruct (Core.nodes p !! n), (Core.nodes q !! n); simpl in *; [|done..].
  injection H as H. by rewrite H.
Qed.

(** When the tallies of one node change by [delta], so does its domain, and
nothing else. *)
Lemma domain_sum_shift p q namespace key sel n delta d names :
  same_nodes p q → NoDup names →
  (∀ m, tally q namespace sel m = tally p namespace sel m + if (m =? n)%string then delta else 0) →
  domain_sum q namespace key sel d names =
  domain_sum p namespace key sel d names +
  if bool_decide (n ∈ names) && in_domain p key d n then delta else 0.
Proof.
  intros Hs Hd Ht. induction Hd as [|m names Hm Hd IH]; simpl.
  { done. }
  rewrite IH. assert (in_domain q key d m = in_domain p key d m) as ->.
  { unfold in_domain. by rewrite (same_nodes_label p q). }
  rewrite Ht. destruct (String.eqb_spec m n) as [->|Hne].
  - rewrite (bool_decide_eq_false_2 _ Hm), bool_decide_eq_true_2 by by left.
    clear. destruct (in_domain p key d n); simpl; lia.
  - erewrite (bool_decide_ext (n ∈ m :: names) (n ∈ names)).
    2:{ rewrite elem_of_cons. split; [intros [?|?]; [congruence|done]|by right]. }
    rewrite Z.add_0_r, Z.add_assoc. done.
Qed.

Lemma count_domains_shift p q namespace key sel n delta :
  core_wf p → same_nodes p q →
  (∀ m, tally q namespace sel m = tally p namespace sel m + if (m =? n)%string then delta else 0) →
  Core.count_domains q namespace key sel =
  match Core.node_label p n key with
  | None => Core.count_domains p namespace key sel
  | Some dom =>
      <[dom := default 0 (Core.count_domains p namespace key sel !! dom) + delta]>
        (Core.count_domains p namespace key sel)
  end.
Proof.
  intros Hw Hs Ht. apply map_eq. intros d.
  assert (Hin : ∀ d, n ∈ Core.nodeOrder p ∨ in_domain p key d n = false).
  { intros d'. unfold in_domain, Core.node_label.
    destruct (Core.nodes p !! n) as [ns|] eqn:E; simpl.
    - left. rewrite (wf_dom _ Hw), E. eauto.
    - by right. }
  rewrite count_domains_lookup. rewrite <- (proj1 Hs).
  assert (Hex : existsb (in_domain q key d) (Core.nodeOrder p) =
                existsb (in_domain p key d) (Core.nodeOrder p)).
  { apply existsb_ext. intros x. unfold in_domain. by rewrite (same_nodes_label p q). }
  rewrite Hex, (domain_sum_shift p q _ _ _ n delta) by (try apply Hw; done).
  destruct (Core.node_label p n key) as [dom|] eqn:Hl.
  - destruct (decide (dom = d)) as [->|Hne].
    + rewrite lookup_insert_eq, count_domains_lookup.
      assert (Hd : in_domain p key d n = true) by (by apply bool_decide_eq_true_2).
      destruct (Hin d) as [Hi|?]; [|congruence].
      rewrite (proj2 (existsb_elem _ _)) by eauto. rewrite bool_decide_eq_true_2 by done.
      by rewrite Hd.
    + rewrite lookup_insert_ne, count_domains_lookup by done.
      assert (in_domain p key d n = false) as ->.
      { apply bool_decide_eq_false_2. congruence. }
      by rewrite andb_false_r, Z.add_0_r.
  - rewrite count_domains_lookup. assert (in_domain p key d n = false) as ->.
    { apply bool_decide_eq_false_2. congruence. }
    by rewrite andb_false_r, Z.add_0_r.
Qed.

Definition flag (b : bool) : Z := if b then 1 else 0.

Lemma tally_place p pod n namespace sel m :
  is_Some (Core.nodes p !! n) →
  tally (Core.Place pod n p) namespace sel m =
  tally p namespace sel m +
  if (m =? n)%string then flag (Core.counted namespace sel pod) else 0.
Proof.
  intros [ns Hn]. unfold tally, Core.Occupants, Core.Place. rewrite Hn. simpl.
  destruct (String.eqb_spec m n) as [->|Hne].
  - rewrite lookup_insert_eq, Hn. simpl. rewrite List.filter_app, length_app. simpl.
    assert (Core.counted namespace sel (Pod.set_NodeName n pod) =
            Core.counted namespace sel pod) as -> by done.
    unfold flag. case_match; simpl; lia.
  - rewrite lookup_insert_ne by done. lia.
Qed.

Lemma filter_length_perm {A} (f : A → bool) l1 l2 :
  l1 ≡ₚ l2 → length (List.filter f l1) = length (List.filter f l2).
Proof.
  induction 1; simpl; [done|case_match; simpl; congruence|repeat case_match; done|congruence].
Qed.

Lemma tally_remove p pod ns o rest namespace sel m :
  Core.removed pod p = Some (ns, o, rest) →
  tally (Core.Remove pod p) namespace sel m =
  tally p namespace sel m +
  if (m =? Pod.NodeName pod)%string then - flag (Core.counted namespace sel o) else 0.
Proof.
  intros Hr. unfold tally, Core.Occupants, Core.Remove. rewrite Hr. simpl.
  apply removed_spec in Hr as [Hn (_&_&Hp)%take_pod_spec].
  destruct (String.eqb_spec m (Pod.NodeName pod)) as [->|Hne].
  - rewrite lookup_insert_eq, Hn. simpl. rewrite (filter_length_perm _ _ _ Hp). simpl.
    unfold flag. case_match; simpl; lia.
  - rewrite lookup_insert_ne by done. lia.
Qed.
