(* ===== verification/IndexFacts.v ===== *)
(** * The spread index changes no answer

The fingerprint that keys the index determines which pods a selector matches
(for selectors in the syntax Kubernetes accepts); every entry of the index
equals the count it stands for after any sequence of queries and moves; hence
[WorkingPlacement.Placement] obeys the laws of [PlacementLaws] and answers as
the bare assignment does. *)
From S2P Require Import Prelude Float64 Model Cluster WorkingPlacement PlacementFacts.

#[local] Arguments String.append : simpl nomatch.

(** ** Fields separated by characters they do not contain *)

Fixpoint avoids (c : Ascii.ascii) (s : string) : bool :=
  match s with
  | EmptyString => true
  | String c' s => negb (Ascii.eqb c' c) && avoids c s
  end.

Lemma plain_avoids c s :
  existsb (Ascii.eqb c) separators = true → plain s = true → avoids c s = true.
Proof.
  intros Hc. induction s as [|c' s IH]; simpl; [done|].
  intros [Hn Hp]%andb_true_iff. rewrite IH by done. rewrite andb_true_r.
  destruct (Ascii.eqb_spec c' c) as [->|]; [|done].
  change (negb (existsb (Ascii.eqb c) separators) = true) in Hn. by rewrite Hc in Hn.
Qed.

Lemma avoids_app c s t : avoids c (s +:+ t) = avoids c s && avoids c t.
Proof. induction s as [|c' s IH]; simpl; [done|]. by rewrite IH, andb_assoc. Qed.

Lemma split_at c s t x y :
  avoids c s = true → avoids c t = true →
  s +:+ String c x = t +:+ String c y → s = t ∧ x = y.
Proof.
  revert t. induction s as [|a s IH]; intros [|b t]; simpl.
  - by intros _ _ [= ->].
  - intros _ [Hb _]%andb_true_iff [= -> _]. by rewrite Ascii.eqb_refl in Hb.
  - intros [Hb _]%andb_true_iff _ [= -> _]. by rewrite Ascii.eqb_refl in Hb.
  - intros [_ Hs]%andb_true_iff [_ Ht]%andb_true_iff [= -> He].
    by destruct (IH t Hs Ht He) as [-> ->].
Qed.

(** A field that ends the string against one that does not. *)
Lemma avoids_no_split c s t x : avoids c s = true → s ≠ t +:+ String c x.
Proof.
  intros Hs ->. rewrite avoids_app in Hs. simpl in Hs.
  by rewrite Ascii.eqb_refl, andb_false_r in Hs.
Qed.

Lemma join_inj c l1 l2 :
  l1 ≠ [] → l2 ≠ [] →
  Forall (λ s, avoids c s = true) l1 → Forall (λ s, avoids c s = true) l2 →
  join (String c "") l1 = join (String c "") l2 → l1 = l2.
Proof.
  intros Hn1 Hn2 H1. revert l2 Hn1 Hn2.
  induction H1 as [|s l1 Hs H1 IH]; [done|]. intros l2 _ Hn2 H2.
  destruct H2 as [|t l2 Ht H2]; [done|].
  destruct l1 as [|s' l1], l2 as [|t' l2]; intros He.
  - by f_equal.
  - by apply avoids_no_split in He.
  - symmetry in He. by apply avoids_no_split in He.
  - apply split_at in He as [-> He]; [|done..]. f_equal. by apply IH.
Qed.

Lemma sort_strings_perm l1 l2 : sort_by str_ltb l1 = sort_by str_ltb l2 → l1 ≡ₚ l2.
Proof. intros H. by rewrite <- (sort_by_perm str_ltb l1), H, sort_by_perm. Qed.

Lemma Forall_sort {A} (less : A → A → bool) (P : A → Prop) l :
  Forall P l → Forall P (sort_by less l).
Proof. intros H. by rewrite sort_by_perm. Qed.

(** ** One requirement *)

Lemma contains_elem l s : contains l s = true ↔ s ∈ l.
Proof.
  induction l as [|x l IH]; simpl; [split; [done|by intros ?%elem_of_nil]|].
  rewrite elem_of_cons. destruct (String.eqb_spec x s) as [->|Hne].
  - split; [by left|done].
  - rewrite IH. split; [by right|intros [?|?]; [congruence|done]].
Qed.

Lemma contains_perm l1 l2 s : l1 ≡ₚ l2 → contains l1 s = contains l2 s.
Proof. intros Hp. apply eq_bool_prop_intro. rewrite !Is_true_true, !contains_elem. by rewrite Hp. Qed.

Definition same_requirement (e1 e2 : SelectorRequirement.t) : Prop :=
  SelectorRequirement.Key e1 = SelectorRequirement.Key e2 ∧
  SelectorRequirement.Operator e1 = SelectorRequirement.Operator e2 ∧
  (SelectorRequirement.Operator e1 = SelectorOpIn ∨
   SelectorRequirement.Operator e1 = SelectorOpNotIn →
   SelectorRequirement.Values e1 ≡ₚ SelectorRequirement.Values e2).

Lemma same_requirement_matches e1 e2 labels :
  same_requirement e1 e2 →
  SelectorRequirement.matches e1 labels = SelectorRequirement.matches e2 labels.
Proof.
  intros (Hk & Ho & Hv). unfold SelectorRequirement.matches. rewrite <- Hk, <- Ho.
  do 2 (case_match; [done|]).
  destruct (String.eqb_spec (SelectorRequirement.Operator e1) SelectorOpIn) as [He|].
  { by rewrite (contains_perm _ _ _ (Hv (or_introl He))). }
  destruct (String.eqb_spec (SelectorRequirement.Operator e1) SelectorOpNotIn) as [He|]; [|done].
  by rewrite (contains_perm _ _ _ (Hv (or_intror He))).
Qed.

Lemma plain_all_avoid c l :
  existsb (Ascii.eqb c) separators = true → forallb plain l = true →
  Forall (λ s, avoids c s = true) l.
Proof.
  intros Hc Hp. apply forallb_Forall in Hp. eapply Forall_impl; [done|].
  intros s Hs. by apply plain_avoids.
Qed.

Lemma avoids_join c d l :
  avoids c d = true → Forall (λ s, avoids c s = true) l → avoids c (join d l) = true.
Proof.
  intros Hd H. induction H as [|s l Hs H IH]; [done|].
  destruct l; [done|]. change (avoids c (s +:+ d +:+ join d (s0 :: l)) = true).
  by rewrite !avoids_app, Hs, Hd, IH.
Qed.

Lemma expr_fingerprint_inj e1 e2 :
  wf_requirement e1 = true → wf_requirement e2 = true →
  expr_fingerprint e1 = expr_fingerprint e2 → same_requirement e1 e2.
Proof.
  destruct e1 as [k1 o1 v1], e2 as [k2 o2 v2]. unfold wf_requirement, expr_fingerprint, same_requirement.
  simpl. intros [[[Hk1 Ho1]%andb_true_iff Hv1]%andb_true_iff Hn1]%andb_true_iff.
  intros [[[Hk2 Ho2]%andb_true_iff Hv2]%andb_true_iff Hn2]%andb_true_iff He.
  apply split_at in He as [-> He]; [|by apply plain_avoids..].
  apply split_at in He as [-> He]; [|by apply plain_avoids..].
  split; [done|]. split; [done|]. intros Hop.
  assert (Hop' : (o2 =? SelectorOpIn)%string || (o2 =? SelectorOpNotIn)%string = true).
  { destruct Hop as [-> | ->]; reflexivity. }
  rewrite Hop' in Hn1, Hn2. simpl in Hn1, Hn2. bool_simpl.
  injection He as He. apply split_at in He as [He _].
  2-3: apply avoids_join; [done|]; apply Forall_sort; by apply plain_all_avoid.
  apply sort_strings_perm. eapply join_inj; [| | | |exact He].
  1-2: intros Hnil; apply (f_equal length) in Hnil; rewrite length_sort_by in Hnil;
       by apply nil_length_inv in Hnil.
  1-2: apply Forall_sort; by apply plain_all_avoid.
Qed.

(** ** The labels *)

Definition fp_pairs (l : list (string * string)) : string :=
  sconcat ((λ kv, kv.1 +:+ "=" +:+ kv.2 +:+ ",") <$> l).

Definition sorted_labels (m : gmap string string) : list (string * string) :=
  (λ k, (k, label m k)) <$> sort_by str_ltb ((map_to_list m).*1).

Lemma labels_fingerprint_pairs m : labels_fingerprint m = fp_pairs (sorted_labels m).
Proof. unfold labels_fingerprint, fp_pairs, sorted_labels. by rewrite <- list_fmap_compose. Qed.

Lemma sorted_labels_perm m : sorted_labels m ≡ₚ map_to_list m.
Proof.
  unfold sorted_labels. rewrite sort_by_perm, <- list_fmap_compose.
  rewrite <- (list_fmap_id (map_to_list m)) at 2. apply Permutation_refl'.
  apply list_fmap_ext. intros i [k v] Hi. simpl.
  apply list_elem_of_lookup_2, elem_of_map_to_list in Hi. unfold label. by rewrite Hi.
Qed.

Definition plain_pairs (l : list (string * string)) : Prop :=
  Forall (λ kv, plain kv.1 && plain kv.2 = true) l.

Definition label_end (r : string) : Prop := r = "" ∨ ∃ r', r = String ";"%char r'.

(** A pair can start neither the empty string nor the expressions. *)
Lemma pair_not_end k x r : plain k = true → label_end r → k +:+ "=" +:+ x ≠ r.
Proof.
  intros Hk [-> | [r' ->]] He; [by destruct k|].
  destruct k as [|c k]; [done|]. simpl in *. injection He as -> _. done.
Qed.

Lemma fp_pairs_inj l1 l2 r1 r2 :
  plain_pairs l1 → plain_pairs l2 → label_end r1 → label_end r2 →
  fp_pairs l1 +:+ r1 = fp_pairs l2 +:+ r2 → l1 = l2 ∧ r1 = r2.
Proof.
  intros H1. revert l2. induction H1 as [|[k1 v1] l1 Hp1 H1 IH];
    intros l2 H2 Hr1 Hr2; destruct H2 as [|[k2 v2] l2 Hp2 H2].
  - done.
  - apply andb_true_iff in Hp2 as [Hk2 _]. unfold fp_pairs. simpl.
    rewrite !str_app_assoc. intros He. symmetry in He.
    by apply pair_not_end in He.
  - apply andb_true_iff in Hp1 as [Hk1 _]. unfold fp_pairs. simpl.
    rewrite !str_app_assoc. intros He. by apply pair_not_end in He.
  - apply andb_true_iff in Hp1 as [Hk1 Hv1]. apply andb_true_iff in Hp2 as [Hk2 Hv2].
    unfold fp_pairs. simpl in *. rewrite !str_app_assoc. intros He.
    apply split_at in He as [-> He]; [|by apply plain_avoids..].
    rewrite !str_app_assoc in He.
    apply split_at in He as [-> He]; [|by apply plain_avoids..].
    destruct (IH l2 H2 Hr1 Hr2 He) as [-> ->]. done.
Qed.

(** ** The whole selector *)

Definition expressions_part (es : list SelectorRequirement.t) : string :=
  match es with
  | [] => ""
  | es => ";" +:+ join ";" (sort_by str_ltb (expr_fingerprint <$> es))
  end.

Lemma fingerprint_parts s :
  selectorFingerprint (Some s) =
  fp_pairs (sorted_labels (LabelSelector.MatchLabels s)) +:+
  expressions_part (LabelSelector.MatchExpressions s).
Proof.
  unfold selectorFingerprint, expressions_part. rewrite labels_fingerprint_pairs.
  case_match; [|done]. by rewrite str_app_nil_r.
Qed.

Lemma expressions_part_end es : label_end (expressions_part es).
Proof. destruct es; [by left|right; simpl; eauto]. Qed.

Lemma plain_sorted_labels s :
  wf_selector (Some s) = true → plain_pairs (sorted_labels (LabelSelector.MatchLabels s)).
Proof.
  intros [H _]%andb_true_iff. unfold plain_pairs. rewrite sorted_labels_perm.
  by apply forallb_Forall.
Qed.

Lemma expr_avoids_semicolon e : wf_requirement e = true → avoids ";"%char (expr_fingerprint e) = true.
Proof.
  intros [[[Hk Ho]%andb_true_iff Hv]%andb_true_iff _]%andb_true_iff.
  unfold expr_fingerprint. rewrite !avoids_app, (plain_avoids _ (SelectorRequirement.Key e)),
    (plain_avoids _ (SelectorRequirement.Operator e)) by done. simpl.
  rewrite andb_true_r. apply avoids_join; [done|]. apply Forall_sort. by apply plain_all_avoid.
Qed.

Lemma expressions_part_inj es1 es2 :
  forallb wf_requirement es1 = true → forallb wf_requirement es2 = true →
  expressions_part es1 = expressions_part es2 →
  expr_fingerprint <$> es1 ≡ₚ expr_fingerprint <$> es2.
Proof.
  intros H1 H2. destruct es1 as [|e1 es1], es2 as [|e2 es2]; [done..|].
  intros He. apply (inj (String.append _)) in He. apply sort_strings_perm. apply join_inj in He; [done|..].
  1-2: intros Hnil; apply (f_equal length) in Hnil; by rewrite length_sort_by in Hnil.
  - apply Forall_sort, Forall_fmap. apply forallb_Forall in H1.
    eapply Forall_impl; [exact H1|]. apply expr_avoids_semicolon.
  - apply Forall_sort, Forall_fmap. apply forallb_Forall in H2.
    eapply Forall_impl; [exact H2|]. apply expr_avoids_semicolon.
Qed.

Lemma forallb_matches_half es1 es2 labels :
  forallb wf_requirement es1 = true → forallb wf_requirement es2 = true →
  expr_fingerprint <$> es1 ≡ₚ expr_fingerprint <$> es2 →
  forallb (λ r, SelectorRequirement.matches r labels) es1 = true →
  forallb (λ r, SelectorRequirement.matches r labels) es2 = true.
Proof.
  rewrite !forallb_elem. intros Hw1 Hw2 Hp H1 e2 He2.
  assert (Hin : expr_fingerprint e2 ∈ expr_fingerprint <$> es1).
  { rewrite Hp. by apply list_elem_of_fmap_2. }
  apply list_elem_of_fmap in Hin as (e1 & Hf & He1).
  rewrite <- (same_requirement_matches e1 e2); [auto|].
  apply expr_fingerprint_inj; auto.
Qed.

Lemma fingerprint_faithful_some s1 s2 labels :
  wf_selector (Some s1) = true → wf_selector (Some s2) = true →
  selectorFingerprint (Some s1) = selectorFingerprint (Some s2) →
  LabelSelector.Matches (Some s1) labels = LabelSelector.Matches (Some s2) labels.
Proof.
  intros Hw1 Hw2. rewrite !fingerprint_parts. intros He.
  apply fp_pairs_inj in He as [Hl He];
    [|by apply plain_sorted_labels|by apply plain_sorted_labels|apply expressions_part_end..].
  assert (Hm : map_to_list (LabelSelector.MatchLabels s1) ≡ₚ map_to_list (LabelSelector.MatchLabels s2)).
  { by rewrite <- !sorted_labels_perm, Hl. }
  apply map_to_list_inj in Hm. unfold LabelSelector.Matches. rewrite Hm. f_equal.
  apply andb_true_iff in Hw1 as [_ Hw1], Hw2 as [_ Hw2].
  apply expressions_part_inj in He; [|done..].
  apply eq_bool_prop_intro. rewrite !Is_true_true.
  split; apply forallb_matches_half; done.
Qed.

Lemma empty_fingerprint_matches s labels :
  wf_selector (Some s) = true → selectorFingerprint (Some s) = "" →
  LabelSelector.Matches (Some s) labels = true.
Proof.
  intros Hw He. rewrite (fingerprint_faithful_some s (LabelSelector.mk ∅ [])); done.
Qed.

(** The key of the index separates selectors that match differently. *)
Lemma fingerprint_faithful s1 s2 labels :
  wf_selector s1 = true → wf_selector s2 = true →
  selectorFingerprint s1 = selectorFingerprint s2 →
  LabelSelector.Matches s1 labels = LabelSelector.Matches s2 labels.
Proof.
  destruct s1 as [s1|], s2 as [s2|]; intros Hw1 Hw2 He.
  - by apply fingerprint_faithful_some.
  - by apply empty_fingerprint_matches.
  - symmetry. apply empty_fingerprint_matches; [done|]. by rewrite <- He.
  - done.
Qed.

(** ** Coherence of the index *)

Record entry_ok (p : Core.t) (key : spreadKey.t) (e : spreadEntry.t) : Prop := {
  entry_wf : wf_selector (spreadEntry.selector e) = true;
  entry_key : selectorFingerprint (spreadEntry.selector e) = spreadKey.selector key;
  entry_counts : spreadEntry.counts e =
    Core.count_domains p (spreadKey.namespace key) (spreadKey.topologyKey key)
      (spreadEntry.selector e);
}.

Definition occupants_ok (p : Core.t) : Prop :=
  ∀ n, Forall (λ o, wf_pod o = true) (Core.Occupants p n).

Record coherent (p : Placement.t) : Prop := {
  coherent_wf : core_wf (Placement.core p);
  coherent_occupants : occupants_ok (Placement.core p);
  coherent_entries key e : Placement.spread p !! key = Some e →
    entry_ok (Placement.core p) key e;
}.

Lemma fold_left_ext {A B} (f g : A → B → A) l a :
  (∀ a b, f a b = g a b) → fold_left f l a = fold_left g l a.
Proof. intros H. revert a. induction l as [|b l IH]; intros a; simpl; [done|]. by rewrite H. Qed.

Lemma count_domains_ext p ns key s1 s2 :
  (∀ labels, LabelSelector.Matches s1 labels = LabelSelector.Matches s2 labels) →
  Core.count_domains p ns key s1 = Core.count_domains p ns key s2.
Proof.
  intros H. apply fold_left_ext. intros m name. unfold Core.count_node. case_match; [|done].
  apply fold_left_ext. intros m' o. unfold Core.counted. by rewrite H.
Qed.

(** A lookup, hit or miss, yields the recomputed count. *)
Lemma spreadCounts_correct ns tsc p :
  coherent p → wf_selector (TopologySpreadConstraint.LabelSelector tsc) = true →
  (Placement.spreadCounts ns tsc p).1 =
    Core.count_domains (Placement.core p) ns (TopologySpreadConstraint.TopologyKey tsc)
      (TopologySpreadConstraint.LabelSelector tsc) ∧
  Placement.core (Placement.spreadCounts ns tsc p).2 = Placement.core p ∧
  coherent (Placement.spreadCounts ns tsc p).2.
Proof.
  intros Hc Hw. unfold Placement.spreadCounts.
  destruct (Placement.spread p !! Placement.key_of ns tsc) as [e|] eqn:He; simpl.
  - destruct (coherent_entries _ Hc _ _ He) as [Hew Hek Hec]. split; [|done].
    rewrite Hec. simpl. apply count_domains_ext. intros labels. by apply fingerprint_faithful.
  - split; [done|]. split; [done|]. destruct Hc as [H1 H2 H3]. split; [done..|]. simpl.
    intros key e'. unfold spreadIndex. rewrite lookup_insert_Some. intros [[<- <-]|[_ ?]]; [by split|eauto].
Qed.

Lemma fitsTopologySpread_correct pod n tscs p :
  coherent p →
  Forall (λ tsc, wf_selector (TopologySpreadConstraint.LabelSelector tsc) = true) tscs →
  (Placement.fitsTopologySpread pod n tscs p).1 =
    check_all (λ tsc,
      let key := TopologySpreadConstraint.TopologyKey tsc in
      if negb (TopologySpreadConstraint.IsHard tsc) then pass
      else match Core.nodes (Placement.core p) !! n with
           | None => pass
           | Some target =>
               match Node.Labels (NodeState.node target) !! key with
               | None => Core.no_domain n key
               | Some targetDomain =>
                   Core.spread_verdict tsc targetDomain
                     (Core.discount (Placement.core p) pod tsc
                        (Core.count_domains (Placement.core p) (Pod.Namespace pod) key
                           (TopologySpreadConstraint.LabelSelector tsc)))
               end
           end) tscs ∧
  Placement.core (Placement.fitsTopologySpread pod n tscs p).2 = Placement.core p ∧
  coherent (Placement.fitsTopologySpread pod n tscs p).2.
Proof.
  intros Hc Hw. revert p Hc. induction Hw as [|tsc tscs Hw Hws IH]; intros p Hc; simpl; [done|].
  destruct (TopologySpreadConstraint.IsHard tsc); simpl; [|by apply IH].
  destruct (Core.nodes (Placement.core p) !! n) as [target|] eqn:Hn.
  2:{ destruct (IH p Hc) as (H1&H2&H3). by rewrite Hn in H1. }
  destruct (Node.Labels (NodeState.node target) !! _) as [d|] eqn:Hd; [|done].
  destruct (spreadCounts_correct (Pod.Namespace pod) tsc p Hc Hw) as (H1&H2&H3).
  unfold Placement.domainCounts, st_bind.
  destruct (Placement.spreadCounts (Pod.Namespace pod) tsc p) as [m q]; simpl in *. subst m.
  rewrite H2. unfold and_then. destruct (Core.spread_verdict _ _ _) as [[] r]; simpl.
  - destruct (IH q H3) as (I1&I2&I3). rewrite H2, Hn in *. by rewrite I1, I2.
  - by rewrite H2.
Qed.

Lemma canplace_correct pod n p :
  coherent p → wf_pod pod = true →
  (Placement.CanPlace pod n p).1 = Core.CanPlace (Placement.core p) pod n ∧
  coherent (Placement.CanPlace pod n p).2.
Proof.
  intros Hc Hw. unfold Placement.CanPlace, Core.CanPlace.
  destruct (Core.nodes (Placement.core p) !! n) as [ns|]; [|done].
  unfold and_then. destruct (Core.fitsStatic _ pod n ns) as [[] r]; simpl; [|done].
  apply forallb_Forall in Hw.
  by destruct (fitsTopologySpread_correct pod n _ p Hc Hw) as (H1&_&H3).
Qed.

(** Queries never touch the assignment, coherent or not. *)
Lemma spreadCounts_keeps ns tsc p :
  Placement.core (Placement.spreadCounts ns tsc p).2 = Placement.core p.
Proof. unfold Placement.spreadCounts. by case_match. Qed.

Lemma canplace_keeps_core pod n p :
  Placement.core (Placement.CanPlace pod n p).2 = Placement.core p.
Proof.
  unfold Placement.CanPlace. repeat (case_match; simpl; [|done]).
  case_match; [done|]. generalize (Pod.TopologySpread pod) as tscs. intros tscs. clear.
  revert p. induction tscs as [|tsc tscs IH]; intros p; simpl; [done|].
  case_match; [by apply IH|]. case_match; [|by apply IH]. case_match; [|done].
  unfold Placement.domainCounts, st_bind.
  pose proof (spreadCounts_keeps (Pod.Namespace pod) tsc p).
  destruct (Placement.spreadCounts (Pod.Namespace pod) tsc p) as [m q]; simpl in *.
  case_match; [done|]. by rewrite IH.
Qed.

(** ** [adjustSpread] follows the assignment *)

Lemma adjust_entry_ok p q n ns pod delta key e :
  core_wf p → same_nodes p q → Core.nodes p !! n = Some ns →
  (∀ namespace sel m, tally q namespace sel m =
     tally p namespace sel m +
     if (m =? n)%string then delta * flag (Core.counted namespace sel pod) else 0) →
  entry_ok p key e → entry_ok q key (Placement.adjust_entry (NodeState.node ns) pod delta key e).
Proof.
  intros Hw Hs Hn Ht [He1 He2 He3].
  pose proof (count_domains_shift p q (spreadKey.namespace key) (spreadKey.topologyKey key)
    (spreadEntry.selector e) n _ Hw Hs (Ht _ _)) as Hshift.
  unfold Core.node_label in Hshift. rewrite Hn in Hshift. simpl in Hshift.
  unfold Placement.adjust_entry.
  destruct (String.eqb_spec (spreadKey.namespace key) (Pod.Namespace pod)) as [Hns|Hns]; simpl.
  - destruct (Node.Labels (NodeState.node ns) !! spreadKey.topologyKey key) as [d|] eqn:Hl.
    + unfold Core.counted in Hshift. rewrite Hns, String.eqb_refl in Hshift.
      destruct (LabelSelector.Matches (spreadEntry.selector e) (Pod.Labels pod)) eqn:Hm; simpl.
      * split; simpl; [done..|]. rewrite He3, Hns, Hshift. simpl. by rewrite Z.mul_1_r.
      * split; [done..|]. rewrite He3, Hns, Hshift. simpl. rewrite Z.mul_0_r, Z.add_0_r.
        destruct (Core.count_domains p (Pod.Namespace pod) (spreadKey.topologyKey key)
          (spreadEntry.selector e) !! d) as [z|] eqn:Hd; [by rewrite insert_id|].
        exfalso. rewrite count_domains_lookup in Hd.
        rewrite (proj2 (existsb_elem _ _)) in Hd; [done|]. exists n. split.
        -- rewrite (wf_dom _ Hw). by rewrite Hn.
        -- apply bool_decide_eq_true_2. unfold Core.node_label. by rewrite Hn.
    + split; [done..|]. by rewrite He3, Hshift.
  - split; [done..|]. rewrite He3, Hshift.
    destruct (Node.Labels _ !! _) as [d|] eqn:Hl; [|done].
    unfold Core.counted. rewrite (proj2 (String.eqb_neq _ _)) by congruence. simpl.
    rewrite Z.mul_0_r, Z.add_0_r.
    destruct (Core.count_domains p (spreadKey.namespace key) (spreadKey.topologyKey key)
      (spreadEntry.selector e) !! d) as [z|] eqn:Hd; [by rewrite insert_id|].
    exfalso. rewrite count_domains_lookup in Hd.
    rewrite (proj2 (existsb_elem _ _)) in Hd; [done|]. exists n. split.
    + rewrite (wf_dom _ Hw). by rewrite Hn.
    + apply bool_decide_eq_true_2. unfold Core.node_label. by rewrite Hn.
Qed.

Lemma adjustSpread_entries p q spread n ns pod delta key e :
  core_wf p → same_nodes p q → Core.nodes p !! n = Some ns →
  (∀ namespace sel m, tally q namespace sel m =
     tally p namespace sel m +
     if (m =? n)%string then delta * flag (Core.counted namespace sel pod) else 0) →
  (∀ key e, spread !! key = Some e → entry_ok p key e) →
  Placement.spread (Placement.adjustSpread pod n delta (Placement.mk q spread)) !! key = Some e →
  entry_ok q key e.
Proof.
  intros Hw Hs Hn Ht Hall. unfold Placement.adjustSpread. simpl.
  pose proof (proj2 Hs n) as Hq. rewrite Hn in Hq.
  destruct (Core.nodes q !! n) as [ns'|]; [|done]. simpl in *. injection Hq as Hq.
  unfold spreadIndex. rewrite map_lookup_imap. intros (e' & He' & [= <-])%bind_Some. rewrite <- Hq.
  eapply adjust_entry_ok; eauto.
Qed.

Lemma adjustSpread_core pod n delta p :
  Placement.core (Placement.adjustSpread pod n delta p) = Placement.core p.
Proof. unfold Placement.adjustSpread. by case_match. Qed.

Lemma place_core_eq pod n p :
  Placement.core (Placement.Place pod n p) = Core.Place pod n (Placement.core p).
Proof.
  unfold Placement.Place. destruct (Core.nodes (Placement.core p) !! n) eqn:Hn.
  - by rewrite adjustSpread_core.
  - unfold Core.Place. by rewrite Hn.
Qed.

Lemma remove_core_eq pod p :
  Placement.core (Placement.Remove pod p) = Core.Remove pod (Placement.core p).
Proof.
  unfold Placement.Remove. destruct (Core.removed pod (Placement.core p)) as [[[ns o] rest]|] eqn:Hr.
  - by rewrite adjustSpread_core.
  - unfold Core.Remove. by rewrite Hr.
Qed.

Lemma occupants_ok_place pod n p :
  occupants_ok p → wf_pod pod = true → occupants_ok (Core.Place pod n p).
Proof.
  intros Ho Hw m. specialize (Ho m). revert Ho. unfold Core.Place, Core.Occupants.
  destruct (Core.nodes p !! n) as [ns|] eqn:Hn; [|done]. simpl.
  destruct (decide (n = m)) as [->|]; [|by rewrite lookup_insert_ne].
  rewrite lookup_insert_eq, Hn. simpl. intros Ho. apply Forall_app. split; [done|].
  by repeat constructor.
Qed.

Lemma occupants_ok_remove pod p : occupants_ok p → occupants_ok (Core.Remove pod p).
Proof.
  intros Ho m. specialize (Ho m). revert Ho. unfold Core.Remove, Core.Occupants.
  destruct (Core.removed pod p) as [[[ns o] rest]|] eqn:Hr; [|done].
  apply removed_spec in Hr as [Hn (_&_&Hp)%take_pod_spec]. simpl.
  destruct (decide (Pod.NodeName pod = m)) as [<-|]; [|by rewrite lookup_insert_ne].
  rewrite lookup_insert_eq, Hn, Hp. simpl. by inversion 1.
Qed.

Lemma place_coherent pod n p :
  coherent p → wf_pod pod = true → coherent (Placement.Place pod n p).
Proof.
  intros [H1 H2 H3] Hw. split; rewrite ?place_core_eq.
  - by apply place_wf.
  - by apply occupants_ok_place.
  - intros key e. unfold Placement.Place.
    destruct (Core.nodes (Placement.core p) !! n) as [ns|] eqn:Hn.
    + apply (adjustSpread_entries (Placement.core p) _ _ _ ns); eauto using place_same_nodes.
      intros ns' sel m. rewrite tally_place by eauto. by rewrite Z.mul_1_l.
    + intros He. unfold Core.Place. rewrite Hn. by apply H3.
Qed.

Lemma remove_coherent pod p : coherent p → coherent (Placement.Remove pod p).
Proof.
  intros [H1 H2 H3]. split; rewrite ?remove_core_eq.
  - by apply remove_wf.
  - by apply occupants_ok_remove.
  - intros key e. unfold Placement.Remove.
    destruct (Core.removed pod (Placement.core p)) as [[[ns o] rest]|] eqn:Hr.
    + pose proof (removed_spec _ _ _ _ _ Hr) as [Hn _].
      apply (adjustSpread_entries (Placement.core p) _ _ _ ns); eauto using remove_same_nodes.
      intros ns' sel m. rewrite (tally_remove _ _ _ _ _ _ _ _ Hr).
      case_match; [|done]. lia.
    + intros He. unfold Core.Remove. rewrite Hr. by apply H3.
Qed.

Lemma clone_id p : Placement.Clone p = p.
Proof.
  destruct p as [[nodes order] spread]. unfold Placement.Clone, spread_clone. simpl.
  f_equal; [f_equal|]; rewrite <- map_fmap_id; apply map_fmap_ext; by intros ? [] ?.
Qed.

Lemma occupants_add_pod p pod :
  occupants_ok p → wf_pod pod = true → occupants_ok (Core.add_pod p pod).
Proof.
  intros Ho Hw m. specialize (Ho m). revert Ho. unfold Core.add_pod, Core.Occupants.
  destruct (Pod.NodeName pod =? "")%string; [done|].
  destruct (Core.nodes p !! Pod.NodeName pod) as [ns|] eqn:Hn; [|done]. simpl.
  destruct (decide (Pod.NodeName pod = m)) as [<-|]; [|by rewrite lookup_insert_ne].
  rewrite lookup_insert_eq, Hn. simpl. intros Ho. apply Forall_app. split; [done|].
  by repeat constructor.
Qed.

Lemma new_occupants_ok snap c :
  wf_snapshot snap = true → occupants_ok (Core.NewPlacementCeiling snap c).
Proof.
  intros [_ Hp]%andb_true_iff. apply forallb_Forall in Hp. unfold Core.NewPlacementCeiling.
  assert (H0 : occupants_ok (fold_left (Core.add_node c) (ClusterSnapshot.Nodes snap) (Core.mk ∅ []))).
  { assert (Hb : occupants_ok (Core.mk ∅ [])).
    { intros m. unfold Core.Occupants. simpl. by rewrite lookup_empty. }
    revert Hb. generalize (Core.mk ∅ []). clear.
    induction (ClusterSnapshot.Nodes snap) as [|n ns IH]; intros p Hb; simpl; [done|].
    apply IH. intros m. unfold Core.Occupants. simpl.
    destruct (decide (Node.Name n = m)) as [<-|]; [by rewrite lookup_insert_eq; simpl|].
    rewrite lookup_insert_ne by done. apply Hb. }
  revert H0. generalize (fold_left (Core.add_node c) (ClusterSnapshot.Nodes snap) (Core.mk ∅ [])).
  induction Hp as [|pod pods Hpod Hp IH]; intros p H0; simpl; [done|].
  apply IH. by apply occupants_add_pod.
Qed.

Lemma new_coherent snap c :
  wf_snapshot snap = true → coherent (Placement.NewPlacementCeiling snap c).
Proof.
  intros Hw. split; simpl; [|by apply new_occupants_ok|].
  - apply new_wf. by apply andb_true_iff in Hw as [?%bool_decide_eq_true _].
  - intros key e. by unfold spreadIndex; rewrite lookup_empty.
Qed.

(** ** The laws hold *)

#[local] Obligation Tactic := idtac.

#[global] Program Instance placement_laws : PlacementLaws Placement.t := {|
  to_core := Placement.core;
  valid := coherent;
|}.
Next Obligation. done. Qed.
Next Obligation. apply new_coherent. Qed.
Next Obligation. done. Qed.
Next Obligation. done. Qed.
Next Obligation. done. Qed.
Next Obligation. intros p n Hc. apply Hc. Qed.
Next Obligation. intros. by apply canplace_correct. Qed.
Next Obligation. intros. apply canplace_keeps_core. Qed.
Next Obligation. intros. by apply canplace_correct. Qed.
Next Obligation. intros. apply place_core_eq. Qed.
Next Obligation. intros. by apply place_coherent. Qed.
Next Obligation. intros. apply remove_core_eq. Qed.
Next Obligation. intros. by apply remove_coherent. Qed.
Next Obligation. intros p. exact (f_equal Placement.core (clone_id p)). Qed.
Next Obligation. intros p Hc. exact (eq_ind_r coherent Hc (clone_id p)). Qed.

#[global] Program Instance core_laws : PlacementLaws Core.t := {|
  to_core p := p;
  valid p := core_wf p ∧ occupants_ok p;
  new_core _ _ := eq_refl;
  names_core _ := eq_refl;
  free_core _ _ := eq_refl;
  occupants_core _ _ := eq_refl;
  canplace_core _ _ _ _ _ := eq_refl;
  canplace_keeps _ _ _ := eq_refl;
  canplace_valid _ _ _ H _ := H;
  place_core _ _ _ := eq_refl;
  remove_core _ _ := eq_refl;
  clone_core _ := eq_refl;
  clone_valid _ H := H;
|}.
Next Obligation.
  intros snap c Hw. split; [|by apply new_occupants_ok].
  apply new_wf. by apply andb_true_iff in Hw as [?%bool_decide_eq_true _].
Qed.
Next Obligation. intros p n [_ Ho]. apply Ho. Qed.
Next Obligation. intros pod n p [??] ?. split; [by apply place_wf|by apply occupants_ok_place]. Qed.
Next Obligation. intros pod p [??]. split; [by apply remove_wf|by apply occupants_ok_remove]. Qed.

(** ** Clients see the bare assignment *)

Section client.
Context {P : Type} `{PlacementLaws P}.

Lemma candidates_core pod names (p : P) :
  valid p → wf_pod pod = true →
  (candidates pod names p).1 =
    List.filter (λ n, negb (n =? Pod.NodeName pod)%string &&
                      (Core.CanPlace (to_core p) pod n).1) names ∧
  to_core (candidates pod names p).2 = to_core p ∧ valid (candidates pod names p).2.
Proof.
  intros Hv Hw. revert p Hv. induction names as [|n names IH]; intros p Hv; simpl; [done|].
  destruct (String.eqb_spec n (Pod.NodeName pod)); simpl; [by apply IH|].
  unfold st_bind. pose proof (canplace_core pod n p Hv Hw) as H1.
  pose proof (canplace_keeps pod n p) as H2. pose proof (canplace_valid pod n p Hv Hw) as H3.
  destruct (CanPlace pod n p) as [v q]. simpl in *. subst v.
  destruct (IH q H3) as (I1&I2&I3). rewrite H2 in I1.
  destruct (candidates pod names q) as [rest r]. simpl in *. subst rest.
  rewrite I2. by case_match.
Qed.

(** Questions and updates in any order. *)
Inductive op : Type :=
| AskCanPlace (pod : Pod.t) (n : string)
| AskCandidates (pod : Pod.t)
| DoPlace (pod : Pod.t) (n : string)
| DoRemove (pod : Pod.t)
| DoClone.

Definition op_pod (o : op) : option Pod.t :=
  match o with
  | AskCanPlace pod _ | AskCandidates pod | DoPlace pod _ => Some pod
  | DoRemove _ | DoClone => None
  end.

Definition op_ok (o : op) : bool :=
  match op_pod o with Some pod => wf_pod pod | None => true end.

Fixpoint answers (ops : list op) (p : P) : list (verdict + list string) :=
  match ops with
  | [] => []
  | AskCanPlace pod n :: ops =>
      let '(v, p) := CanPlace pod n p in inl v :: answers ops p
  | AskCandidates pod :: ops =>
      let '(l, p) := CandidateNodes pod p in inr l :: answers ops p
  | DoPlace pod n :: ops => answers ops (Place pod n p)
  | DoRemove pod :: ops => answers ops (Remove pod p)
  | DoClone :: ops => answers ops (Clone p)
  end.
End client.

Lemma answers_core {P} `{PlacementLaws P} ops (p : P) :
  valid p → valid (P:=Core.t) (to_core p) → forallb op_ok ops = true →
  answers ops p = answers ops (to_core p).
Proof.
  intros Hv Hc. revert p Hv Hc. induction ops as [|o ops IH]; intros p Hv Hc; simpl; [done|].
  intros [Ho Hops]%andb_true_iff. unfold op_ok in Ho. destruct o; simpl in Ho.
  - pose proof (canplace_core pod n p Hv Ho) as H1. pose proof (canplace_keeps pod n p) as H2.
    pose proof (canplace_valid pod n p Hv Ho) as H3.
    destruct (CanPlace pod n p) as [v q]; simpl in *. subst v. f_equal. rewrite IH; congruence.
  - unfold CandidateNodes.
    destruct (candidates_core pod (NodeNames p) p Hv Ho) as (H1&H2&H3).
    destruct (candidates_core pod (NodeNames (to_core p)) (to_core p) Hc Ho) as (I1&I2&I3).
    destruct (candidates pod (NodeNames p) p) as [l q].
    destruct (candidates pod (NodeNames (to_core p)) (to_core p)) as [l' q']. simpl in *.
    rewrite names_core in H1. subst l l' q'. f_equal. rewrite IH; congruence.
  - rewrite <- place_core. apply IH; [by apply place_valid| |done].
    rewrite place_core. exact (place_valid (P:=Core.t) pod n _ Hc Ho).
  - rewrite <- remove_core. apply IH; [by apply remove_valid| |done].
    rewrite remove_core. exact (remove_valid (P:=Core.t) pod _ Hc).
  - change (answers ops (Clone p) = answers ops (to_core p)).
    rewrite <- (clone_core p). apply IH; [by apply clone_valid| |done].
    by rewrite clone_core.
Qed.
