(* ===== verification/FeasibilityFacts.v ===== *)
(** * What a feasible placement is

The declarative reading of [CanPlace], quantifying over nodes, occupants and
topology domains where the code walks lists and maps; that capacity is never
oversold by feasible placements; and that [Remove] undoes [Place]. *)
From S2P Require Import Prelude Float64 Model Cluster WorkingPlacement PlacementFacts IndexFacts.

(** ** The reading *)

(** [m] lies in the domain of [n] for a topology key. *)
Definition co_located (p : Core.t) (key n m : string) : Prop :=
  if (key =? LabelHostname)%string then m = n
  else ∃ d, Core.node_label p n key = Some d ∧ default "" (Core.node_label p m key) = d.

Definition tolerated (pod : Pod.t) (taint : Taint.t) : Prop :=
  Taint.Effect taint = TaintEffectPreferNoSchedule ∨
  ∃ tol, tol ∈ Pod.Tolerations pod ∧ Toleration.ToleratesTaint tol taint = true.

Definition affinity_terms (pod : Pod.t) : list PodAffinityTerm.t :=
  match Pod.PodAffinity pod with Some a => PodAffinity.RequiredAffinity a | None => [] end.

Definition anti_affinity_terms (pod : Pod.t) : list PodAffinityTerm.t :=
  match Pod.PodAffinity pod with Some a => PodAffinity.RequiredAntiAffinity a | None => [] end.

Definition node_affinity_ok (pod : Pod.t) (node : Node.t) : Prop :=
  match Pod.NodeAffinity pod with
  | None => True
  | Some a =>
      NodeAffinity.RequiredTerms a = [] ∨
      ∃ term, term ∈ NodeAffinity.RequiredTerms a ∧
        ∀ e, e ∈ NodeSelectorTerm.MatchExpressions term →
          SelectorRequirement.matches e (Node.Labels node) = true
  end.

(** The pod itself, when it is counted in domain [d] where it now runs. *)
Definition own_share (p : Core.t) (pod : Pod.t) (tsc : TopologySpreadConstraint.t) (d : string) : Z :=
  flag (in_domain p (TopologySpreadConstraint.TopologyKey tsc) d (Pod.NodeName pod) &&
        existsb (λ o, sameKey pod o &&
          Core.counted (Pod.Namespace pod) (TopologySpreadConstraint.LabelSelector tsc) o)
          (Core.Occupants p (Pod.NodeName pod))).

(** The pods of domain [d] a constraint counts, the pod itself left out. *)
Definition load (p : Core.t) (pod : Pod.t) (tsc : TopologySpreadConstraint.t) (d : string) : Z :=
  domain_sum p (Pod.Namespace pod) (TopologySpreadConstraint.TopologyKey tsc)
    (TopologySpreadConstraint.LabelSelector tsc) d (Core.nodeOrder p) - own_share p pod tsc d.

Definition spread_ok (p : Core.t) (pod : Pod.t) (n : string) (tsc : TopologySpreadConstraint.t) : Prop :=
  ∃ d, Core.node_label p n (TopologySpreadConstraint.TopologyKey tsc) = Some d ∧
    ∀ m d', m ∈ Core.nodeOrder p →
      Core.node_label p m (TopologySpreadConstraint.TopologyKey tsc) = Some d' →
      load p pod tsc d + 1 - (load p pod tsc d' + flag (d' =? d)%string)
        <= TopologySpreadConstraint.MaxSkew tsc.

Record feasible_on (p : Core.t) (pod : Pod.t) (n : string) (ns : NodeState.t) : Prop := {
  f_schedulable : Node.Unschedulable (NodeState.node ns) = false;
  f_ready : Node.Ready (NodeState.node ns) = true;
  f_taints t : t ∈ Node.Taints (NodeState.node ns) → tolerated pod t;
  f_selector k v : Pod.NodeSelector pod !! k = Some v → label (Node.Labels (NodeState.node ns)) k = v;
  f_affinity : node_affinity_ok pod (NodeState.node ns);
  f_resources : Resources.Fits (footprint pod) (NodeState.free ns) = true;
  f_anti term m o : term ∈ anti_affinity_terms pod → m ∈ Core.nodeOrder p →
    co_located p (PodAffinityTerm.TopologyKey term) n m → o ∈ Core.Occupants p m →
    Core.repels pod term o = false;
  f_partner term : term ∈ affinity_terms pod →
    ∃ m o, m ∈ Core.nodeOrder p ∧ co_located p (PodAffinityTerm.TopologyKey term) n m ∧
      o ∈ Core.Occupants p m ∧ Core.repels pod term o = true;
  f_spread tsc : tsc ∈ Pod.TopologySpread pod → TopologySpreadConstraint.IsHard tsc = true →
    spread_ok p pod n tsc;
}.

Definition feasible (p : Core.t) (pod : Pod.t) (n : string) : Prop :=
  ∃ ns, Core.nodes p !! n = Some ns ∧ feasible_on p pod n ns.

(** Few enough pods for the counts to fit the [int32] the skew is cut to. *)
Definition few_pods (p : Core.t) : Prop :=
  Z.of_nat (length (Core.nodeOrder p ≫= Core.Occupants p)) < 2 ^ 31 - 1.

(** ** Check by check *)

Lemma fitsTaints_iff pod node :
  (fitsTaints pod node).1 = true ↔ ∀ t, t ∈ Node.Taints node → tolerated pod t.
Proof.
  unfold fitsTaints. rewrite check_all_ok, forallb_elem. unfold tolerated.
  apply forall_proper. intros t. apply imp_iff_compat_l.
  destruct (String.eqb_spec (Taint.Effect t) TaintEffectPreferNoSchedule) as [He|He]; simpl.
  - split; [by left|done].
  - destruct (existsb _ _) eqn:Hex; simpl.
    + split; [|done]. intros _. right. by apply existsb_elem.
    + split; [done|]. intros [?|H]; [done|]. apply existsb_elem in H. congruence.
Qed.

Lemma fitsNodeSelector_iff pod node :
  (fitsNodeSelector pod node).1 = true ↔
  ∀ k v, Pod.NodeSelector pod !! k = Some v → label (Node.Labels node) k = v.
Proof.
  unfold fitsNodeSelector. rewrite check_all_ok, forallb_elem. split.
  - intros H k v Hk. specialize (H (k, v)). rewrite elem_of_map_to_list in H. specialize (H Hk).
    simpl in H. destruct (String.eqb_spec (label (Node.Labels node) k) v); [done|].
    by simpl in H.
  - intros H [k v] Hk%elem_of_map_to_list. simpl. rewrite (H k v Hk), String.eqb_refl. done.
Qed.

Lemma term_selects_iff node term :
  term_selects node term = true ↔
  ∀ e, e ∈ NodeSelectorTerm.MatchExpressions term →
    SelectorRequirement.matches e (Node.Labels node) = true.
Proof. unfold term_selects. simpl. rewrite map_to_list_empty. simpl. apply forallb_elem. Qed.

Lemma fitsNodeAffinity_iff pod node :
  (fitsNodeAffinity pod node).1 = true ↔ node_affinity_ok pod node.
Proof.
  unfold fitsNodeAffinity, node_affinity_ok. destruct (Pod.NodeAffinity pod) as [[terms]|]; simpl; [|done].
  destruct terms as [|t terms]; [split; [by left|done]|].
  assert (Hiff : existsb (term_selects node) (t :: terms) = true ↔
    ∃ term, term ∈ t :: terms ∧ ∀ e, e ∈ NodeSelectorTerm.MatchExpressions term →
      SelectorRequirement.matches e (Node.Labels node) = true).
  { rewrite existsb_elem. by setoid_rewrite term_selects_iff. }
  cbn [existsb] in Hiff |- *.
  destruct (term_selects node t || existsb (term_selects node) terms); simpl.
  - split; [|done]. intros _. right. by apply Hiff.
  - split; [done|]. intros [?|H]; [done|]. by apply Hiff in H.
Qed.

Lemma fitsResources_iff pod ns :
  (Core.fitsResources pod ns).1 = true ↔ Resources.Fits (footprint pod) (NodeState.free ns) = true.
Proof. unfold Core.fitsResources. by destruct (Resources.Fits _ _). Qed.

Lemma no_repelled pod term os :
  List.find (Core.repels pod term) os = None ↔ ∀ o, o ∈ os → Core.repels pod term o = false.
Proof.
  split; [intros H o Ho; apply (find_none _ _ H); by apply list_elem_of_In|].
  intros H. destruct (List.find _ os) as [o|] eqn:Hf; [|done].
  apply find_some in Hf as [Ho Hr]. rewrite H in Hr; [done|by apply list_elem_of_In].
Qed.

Lemma conflictInDomain_iff p pod node term :
  (Core.conflictInDomain p pod node term =? "")%string = true ↔
  ∀ m o d, m ∈ Core.nodeOrder p → m ≠ Node.Name node →
    Node.Labels node !! PodAffinityTerm.TopologyKey term = Some d →
    default "" (Core.node_label p m (PodAffinityTerm.TopologyKey term)) = d →
    o ∈ Core.Occupants p m → Core.repels pod term o = false.
Proof.
  unfold Core.conflictInDomain. destruct (Node.Labels node !! _) as [d|]; [|naive_solver].
  set (sib := List.filter _ _).
  assert (Hsib : ∀ m, m ∈ sib ↔ m ∈ Core.nodeOrder p ∧ m ≠ Node.Name node ∧
    default "" (Core.node_label p m (PodAffinityTerm.TopologyKey term)) = d).
  { intros m. unfold sib. by rewrite filter_elem, andb_true_iff, negb_true_iff,
      String.eqb_neq, String.eqb_eq. }
  destruct (List.find _ _) as [o|] eqn:Hf.
  - split; [done|]. intros H. apply find_some in Hf as [Ho Hr].
    apply list_elem_of_In, list_elem_of_bind in Ho as (m & Ho & Hm).
    apply Hsib in Hm as (?&?&?). rewrite (H m o d) in Hr; done.
  - split; [|done]. intros _ m o d' Hm Hne [= <-] Hd Ho.
    apply (proj1 (no_repelled _ _ _) Hf). apply list_elem_of_bind. exists m. split; [done|].
    by apply Hsib.
Qed.

Lemma repels_split pod term o :
  Core.repels pod term o = false ↔
  sameKey pod o = true ∨ termMatchesPod term o (Pod.Namespace pod) = false.
Proof.
  unfold Core.repels. rewrite andb_false_iff, negb_false_iff. done.
Qed.

Lemma own_domain p n key :
  Core.inSameTopologyDomain p n n key = true ↔ co_located p key n n.
Proof.
  unfold Core.inSameTopologyDomain, co_located. destruct (key =? LabelHostname)%string.
  - by rewrite String.eqb_refl.
  - destruct (Core.node_label p n key) as [d|]; [|naive_solver].
    rewrite String.eqb_refl. split; [|done]. intros _. by exists d.
Qed.

Lemma on_node_iff p pod n ns term :
  core_wf p → Core.nodes p !! n = Some ns →
  (check_all (λ occupant,
     if sameKey pod occupant then pass
     else if negb (Core.inSameTopologyDomain p (Node.Name (NodeState.node ns))
                     (Pod.NodeName occupant) (PodAffinityTerm.TopologyKey term)) then pass
     else if negb (termMatchesPod term occupant (Pod.Namespace pod)) then pass
     else refuse ("Required anti-affinity on " +:+ PodAffinityTerm.TopologyKey term +:+ ": " +:+
       Pod.Key occupant +:+ " already runs there and matches this pod's selector."))
     (NodeState.occupants ns)).1 = true ↔
  ∀ o, co_located p (PodAffinityTerm.TopologyKey term) n n → o ∈ Core.Occupants p n →
    Core.repels pod term o = false.
Proof.
  intros Hw Hn. destruct (wf_sits _ Hw _ _ Hn) as [Hname Hocc].
  rewrite check_all_ok, forallb_elem. unfold Core.Occupants. rewrite Hn, Hname.
  rewrite Forall_forall in Hocc. pose proof (own_domain p n (PodAffinityTerm.TopologyKey term)) as Hod.
  split.
  - intros H o Hd Ho. apply repels_split. specialize (H o Ho). apply Hod in Hd. rewrite (Hocc o Ho), Hd in H. simpl in H.
    destruct (sameKey pod o); [by left|]. right. by destruct (termMatchesPod _ _ _).
  - intros H o Ho. rewrite (Hocc o Ho). destruct (sameKey pod o) eqn:Hk; [done|].
    destruct (Core.inSameTopologyDomain p n n _); [|done]. simpl.
    destruct (proj1 (repels_split _ _ _) (H o (proj1 Hod eq_refl) Ho)) as [?| ->]; [congruence|done].
Qed.

Lemma fitsPodAntiAffinity_iff p pod n ns :
  core_wf p → Core.nodes p !! n = Some ns →
  (Core.fitsPodAntiAffinity p pod ns).1 = true ↔
  ∀ term m o, term ∈ anti_affinity_terms pod → m ∈ Core.nodeOrder p →
    co_located p (PodAffinityTerm.TopologyKey term) n m → o ∈ Core.Occupants p m →
    Core.repels pod term o = false.
Proof.
  intros Hw Hn. unfold Core.fitsPodAntiAffinity, anti_affinity_terms.
  destruct (Pod.PodAffinity pod) as [a|]; [|split; [intros _ ??? ?%elem_of_nil|]; done].
  rewrite check_all_ok, forallb_elem.
  assert (Hin : n ∈ Core.nodeOrder p) by (apply (wf_dom _ Hw); eauto).
  assert (Hl : ∀ k, Node.Labels (NodeState.node ns) !! k = Core.node_label p n k).
  { intros k. unfold Core.node_label. by rewrite Hn. }
  destruct (wf_sits _ Hw _ _ Hn) as [Hname _].
  split.
  - intros H term m o Ht Hm Hc Ho. specialize (H term Ht). cbv zeta in H.
    rewrite and_then_ok, andb_true_iff, (on_node_iff p pod n ns) in H by done.
    destruct H as [Hown Hrest].
    destruct (decide (m = n)) as [->|Hne]; [by eapply Hown|].
    unfold co_located in Hc.
    destruct (PodAffinityTerm.TopologyKey term =? LabelHostname)%string; [done|].
    destruct Hc as (d&Hd&Hd').
    destruct (Core.conflictInDomain p pod (NodeState.node ns) term =? "")%string eqn:Hcf; [|done].
    apply (proj1 (conflictInDomain_iff _ _ _ _) Hcf m o d); [done|congruence|by rewrite Hl|done..].
  - intros H term Ht. cbv zeta.
    rewrite and_then_ok, andb_true_iff, (on_node_iff p pod n ns) by done.
    split; [intros o ??; by eapply H|].
    destruct (String.eqb_spec (PodAffinityTerm.TopologyKey term) LabelHostname) as [|Hk]; [done|].
    simpl. destruct (Core.conflictInDomain p pod (NodeState.node ns) term =? "")%string eqn:Hcf; [done|].
    exfalso. enough ((Core.conflictInDomain p pod (NodeState.node ns) term =? "")%string = true) by congruence.
    apply conflictInDomain_iff. intros m o d Hm Hne Hd Hd' Ho. eapply H; [done..| |done].
    unfold co_located. rewrite (proj2 (String.eqb_neq _ _) Hk). exists d. by rewrite <- Hl.
Qed.

Lemma affinity_scope_elem p n ns key m :
  core_wf p → Core.nodes p !! n = Some ns →
  m ∈ Core.affinity_scope p ns key ↔ m ∈ Core.nodeOrder p ∧ co_located p key n m.
Proof.
  intros Hw Hn. destruct (wf_sits _ Hw _ _ Hn) as [Hname _].
  unfold Core.affinity_scope. rewrite filter_elem. apply and_iff_compat_l.
  unfold co_located. rewrite Hname. destruct (key =? LabelHostname)%string; [apply String.eqb_eq|].
  assert (Hl : Node.Labels (NodeState.node ns) !! key = Core.node_label p n key).
  { unfold Core.node_label. by rewrite Hn. }
  rewrite Hl. destruct (Core.node_label p n key) as [d|]; [|naive_solver].
  rewrite String.eqb_eq. naive_solver.
Qed.

Lemma fitsPodAffinity_iff p pod n ns :
  core_wf p → Core.nodes p !! n = Some ns →
  (Core.fitsPodAffinity p pod ns).1 = true ↔
  ∀ term, term ∈ affinity_terms pod →
    ∃ m o, m ∈ Core.nodeOrder p ∧ co_located p (PodAffinityTerm.TopologyKey term) n m ∧
      o ∈ Core.Occupants p m ∧ Core.repels pod term o = true.
Proof.
  intros Hw Hn. unfold Core.fitsPodAffinity, affinity_terms.
  destruct (Pod.PodAffinity pod) as [a|]; [|split; [intros _ ? ?%elem_of_nil|]; done].
  rewrite check_all_ok, forallb_elem. apply forall_proper. intros term.
  apply imp_iff_compat_l.
  assert (Hex : existsb (Core.repels pod term)
      (Core.affinity_scope p ns (PodAffinityTerm.TopologyKey term) ≫= Core.Occupants p) = true ↔
    ∃ m o, m ∈ Core.nodeOrder p ∧ co_located p (PodAffinityTerm.TopologyKey term) n m ∧
      o ∈ Core.Occupants p m ∧ Core.repels pod term o = true).
  { rewrite existsb_elem. setoid_rewrite list_elem_of_bind.
    setoid_rewrite (affinity_scope_elem p n ns); [|done..]. naive_solver. }
  destruct (existsb _ _); simpl; [by rewrite <- Hex|]. by rewrite <- Hex.
Qed.

(** ** Topology spread *)

Definition min_step (m c : Z) : Z := if (m =? -1) || (c <? m) then c else m.

Lemma min_fold m l :
  0 <= m → Forall (λ c, 0 <= c) l →
  fold_left min_step l m <= m ∧ Forall (λ c, fold_left min_step l m <= c) l ∧
  (fold_left min_step l m = m ∨ fold_left min_step l m ∈ l).
Proof.
  intros Hm H. revert m Hm. induction H as [|c l Hc H IH]; intros m Hm; simpl.
  { split; [lia|]. by split; [|left]. }
  assert (Hs : min_step m c = Z.min m c).
  { unfold min_step. rewrite (proj2 (Z.eqb_neq _ _)) by lia. simpl.
    destruct (Z.ltb_spec c m); lia. }
  destruct (IH (min_step m c)) as (H1&H2&H3); [lia|]. rewrite Hs in *.
  split; [lia|]. split; [constructor; [lia|done]|].
  destruct H3 as [-> |?]; [|by right; right].
  destruct (Z.min_spec m c) as [[_ ->]|[_ ->]]; [by left|right; by left].
Qed.

Lemma min_count_spec (m : gmap string Z) d c k :
  map_Forall (λ _ c, 0 <= c) m → m !! d = Some c →
  Core.min_count m >= k ↔ map_Forall (λ _ c, c >= k) m.
Proof.
  intros Hpos Hd. set (l := (map_to_list m).*2).
  assert (Hin : ∀ x, x ∈ l ↔ ∃ i, m !! i = Some x).
  { intros x. unfold l. rewrite list_elem_of_fmap. split.
    - intros ([i y] & -> & Hi%elem_of_map_to_list). eauto.
    - intros [i Hi%elem_of_map_to_list]. by exists (i, x). }
  assert (Hl : Forall (λ c, 0 <= c) l).
  { apply Forall_forall. intros x [i Hi]%Hin. by eapply Hpos. }
  assert (Hval : Core.min_count m ∈ l ∧ Forall (λ c, Core.min_count m <= c) l).
  { unfold Core.min_count. fold l. change (fold_left _ l (-1)) with (fold_left min_step l (-1)).
    destruct l as [|x l']; [exfalso; apply (not_elem_of_nil c), Hin; eauto|].
    inversion Hl; subst. simpl. change (min_step (-1) x) with x.
    destruct (min_fold x l') as (H4&H5&H6); [done..|].
    assert (H7 : 0 <= fold_left min_step l' x).
    { destruct H6 as [-> |H6]; [done|]. eapply Forall_forall in H6; [|exact H2]. done. }
    rewrite (proj2 (Z.ltb_ge _ _)) by done. split; [|by constructor].
    destruct H6 as [-> |?]; [by left|by right]. }
  destruct Hval as [Hv1 Hv2]. split.
  - intros Hk i x Hi. rewrite Forall_forall in Hv2. specialize (Hv2 x). rewrite Hin in Hv2.
    enough (Core.min_count m <= x) by lia. eauto.
  - intros Hall. apply Hin in Hv1 as [i Hi]. by eapply Hall.
Qed.

Lemma domain_sum_bounds p ns key sel d names :
  0 <= domain_sum p ns key sel d names <= Z.of_nat (length (names ≫= Core.Occupants p)).
Proof.
  induction names as [|n names IH]; [simpl; lia|]. cbn [domain_sum]. rewrite bind_cons, length_app.
  assert (0 <= tally p ns sel n <= Z.of_nat (length (Core.Occupants p n))).
  { unfold tally. pose proof (List.filter_length_le (Core.counted ns sel) (Core.Occupants p n)). lia. }
  case_match; lia.
Qed.

Lemma domain_sum_member p ns key sel d names n :
  n ∈ names → in_domain p key d n = true →
  tally p ns sel n <= domain_sum p ns key sel d names.
Proof.
  intros Hn Hd. induction names as [|m names IH]; [by apply not_elem_of_nil in Hn|].
  simpl. pose proof (domain_sum_bounds p ns key sel d names).
  assert (0 <= tally p ns sel m) by (unfold tally; lia).
  apply elem_of_cons in Hn as [<-|Hn]; [rewrite Hd; lia|]. specialize (IH Hn). case_match; lia.
Qed.

Lemma own_share_le p pod tsc d :
  core_wf p →
  0 <= own_share p pod tsc d <=
    domain_sum p (Pod.Namespace pod) (TopologySpreadConstraint.TopologyKey tsc)
      (TopologySpreadConstraint.LabelSelector tsc) d (Core.nodeOrder p).
Proof.
  intros Hw. unfold own_share. set (b := _ && _). destruct b eqn:Hb; simpl.
  2:{ pose proof (domain_sum_bounds p (Pod.Namespace pod) (TopologySpreadConstraint.TopologyKey tsc)
        (TopologySpreadConstraint.LabelSelector tsc) d (Core.nodeOrder p)). lia. }
  apply andb_true_iff in Hb as [Hd (o & Ho & [_ Hc]%andb_true_iff)%existsb_elem].
  assert (Hin : Pod.NodeName pod ∈ Core.nodeOrder p).
  { apply (wf_dom _ Hw). unfold Core.Occupants in Ho.
    destruct (Core.nodes p !! Pod.NodeName pod); [done|by apply not_elem_of_nil in Ho]. }
  pose proof (domain_sum_member p (Pod.Namespace pod) _
    (TopologySpreadConstraint.LabelSelector tsc) d _ _ Hin Hd).
  enough (1 <= tally p (Pod.Namespace pod) (TopologySpreadConstraint.LabelSelector tsc)
    (Pod.NodeName pod)) by lia.
  unfold tally. destruct (List.filter _ _) as [|x l] eqn:Hf; [|simpl; lia].
  exfalso. apply (not_elem_of_nil o). rewrite <- Hf. by apply filter_elem.
Qed.

(** [own_share] in the words of [domainCounts]. *)
Lemma own_share_eq p pod tsc d :
  own_share p pod tsc d =
  match Core.nodes p !! Pod.NodeName pod with
  | None => 0
  | Some ns =>
      match Node.Labels (NodeState.node ns) !! TopologySpreadConstraint.TopologyKey tsc with
      | None => 0
      | Some dom =>
          flag (bool_decide (dom = d) &&
            existsb (λ o, sameKey pod o &&
               LabelSelector.Matches (TopologySpreadConstraint.LabelSelector tsc) (Pod.Labels o) &&
               (Pod.Namespace o =? Pod.Namespace pod)%string) (NodeState.occupants ns))
      end
  end.
Proof.
  unfold own_share, in_domain, Core.node_label, Core.Occupants.
  destruct (Core.nodes p !! Pod.NodeName pod) as [ns|]; simpl.
  2:{ done. }
  destruct (Node.Labels (NodeState.node ns) !! _) as [dom|]; simpl.
  2:{ done. }
  f_equal. f_equal.
  - apply bool_decide_ext. split; congruence.
  - apply existsb_ext. intros o. unfold Core.counted.
    rewrite <- andb_assoc. f_equal. apply andb_comm.
Qed.

(** The discounted counts, domain by domain. *)
Lemma discount_lookup p pod tsc d :
  core_wf p →
  Core.discount p pod tsc (Core.count_domains p (Pod.Namespace pod)
    (TopologySpreadConstraint.TopologyKey tsc) (TopologySpreadConstraint.LabelSelector tsc)) !! d =
  if existsb (in_domain p (TopologySpreadConstraint.TopologyKey tsc) d) (Core.nodeOrder p)
  then Some (load p pod tsc d) else None.
Proof.
  intros Hw. unfold Core.discount, load. rewrite own_share_eq.
  destruct (Core.nodes p !! Pod.NodeName pod) as [ns|] eqn:Hn.
  2:{ by rewrite count_domains_lookup, Z.sub_0_r. }
  destruct (Node.Labels (NodeState.node ns) !! _) as [dom|] eqn:Hl.
  2:{ by rewrite count_domains_lookup, Z.sub_0_r. }
  destruct (existsb _ (NodeState.occupants ns)); simpl.
  2:{ by rewrite count_domains_lookup, andb_false_r, Z.sub_0_r. }
  rewrite andb_true_r. case_bool_decide as Hd.
  - subst dom. rewrite lookup_insert_eq, count_domains_lookup.
    rewrite (proj2 (existsb_elem _ _)); [done|]. exists (Pod.NodeName pod). split.
    + apply (wf_dom _ Hw). by rewrite Hn.
    + apply bool_decide_eq_true_2. unfold Core.node_label. by rewrite Hn.
  - by rewrite lookup_insert_ne, count_domains_lookup, Z.sub_0_r.
Qed.

Lemma load_bounds p pod tsc d : core_wf p → few_pods p → 0 <= load p pod tsc d < 2 ^ 31 - 1.
Proof.
  intros Hw Hf. unfold load, few_pods in *. pose proof (own_share_le p pod tsc d Hw).
  pose proof (domain_sum_bounds p (Pod.Namespace pod) (TopologySpreadConstraint.TopologyKey tsc)
    (TopologySpreadConstraint.LabelSelector tsc) d (Core.nodeOrder p)). lia.
Qed.

Lemma spread_verdict_iff tsc d (m : gmap string Z) c :
  map_Forall (λ _ c, 0 <= c < 2 ^ 31 - 1) m → m !! d = Some c →
  (Core.spread_verdict tsc d m).1 = true ↔
  map_Forall (λ d' c', c + 1 - (c' + flag (d' =? d)%string) <= TopologySpreadConstraint.MaxSkew tsc) m.
Proof.
  intros Hb Hd. unfold Core.spread_verdict. rewrite Hd, lookup_insert_eq. simpl.
  set (m' := <[d := c + 1]> m).
  assert (Hb' : map_Forall (λ _ c, 0 <= c) m').
  { apply map_Forall_insert_2; [specialize (Hb d c Hd); simpl in Hb; lia|].
    eapply map_Forall_impl; [exact Hb|]. simpl. lia. }
  assert (Hd' : m' !! d = Some (c + 1)) by apply lookup_insert_eq.
  assert (Hmin : 0 <= Core.min_count m' ∧ Core.min_count m' <= c + 1).
  { split; [apply Z.ge_le, (min_count_spec m' d (c + 1) 0 Hb' Hd')|].
    - eapply map_Forall_impl; [exact Hb'|]. simpl. lia.
    - pose proof (proj1 (min_count_spec m' d (c + 1) (Core.min_count m') Hb' Hd') ltac:(lia) d (c + 1) Hd').
      simpl in *. lia. }
  rewrite wrap32_id by (specialize (Hb d c Hd); simpl in Hb; lia).
  assert (Hiff : Core.min_count m' >= c + 1 - TopologySpreadConstraint.MaxSkew tsc ↔
    map_Forall (λ d' c', c + 1 - (c' + flag (d' =? d)%string) <= TopologySpreadConstraint.MaxSkew tsc) m).
  { rewrite (min_count_spec m' d (c + 1) _ Hb' Hd'). unfold m', map_Forall. split.
    - intros H d' c' Hc'. destruct (String.eqb_spec d' d) as [->|Hne]; simpl.
      + specialize (H d (c + 1) Hd'). simpl in H. rewrite Hd in Hc'. injection Hc' as <-. lia.
      + specialize (H d' c'). rewrite lookup_insert_ne in H by done. specialize (H Hc').
        simpl in H. lia.
    - intros H d' c'. destruct (decide (d = d')) as [<-|Hne].
      + rewrite lookup_insert_eq. intros [= <-]. specialize (H d c Hd). simpl in H.
        rewrite String.eqb_refl in H. simpl in H. lia.
      + rewrite lookup_insert_ne by done. intros Hc'. specialize (H d' c' Hc'). simpl in H.
        rewrite (proj2 (String.eqb_neq _ _)) in H by done. simpl in H. lia. }
  destruct (Z.ltb_spec (TopologySpreadConstraint.MaxSkew tsc) (c + 1 - Core.min_count m')); simpl.
  - split; [done|]. intros Hf. apply Hiff in Hf. lia.
  - split; [|done]. intros _. apply Hiff. lia.
Qed.

Lemma one_spread_iff p pod n ns tsc :
  core_wf p → few_pods p → Core.nodes p !! n = Some ns →
  (match Node.Labels (NodeState.node ns) !! TopologySpreadConstraint.TopologyKey tsc with
   | None => Core.no_domain n (TopologySpreadConstraint.TopologyKey tsc)
   | Some targetDomain =>
       Core.spread_verdict tsc targetDomain
         (Core.discount p pod tsc
            (Core.count_domains p (Pod.Namespace pod) (TopologySpreadConstraint.TopologyKey tsc)
               (TopologySpreadConstraint.LabelSelector tsc)))
   end).1 = true ↔ spread_ok p pod n tsc.
Proof.
  intros Hw Hf Hn. unfold spread_ok, Core.node_label at 1. rewrite Hn. simpl.
  destruct (Node.Labels (NodeState.node ns) !! _) as [d|] eqn:Hl; [|by split; [|intros (?&?&?)]].
  set (m := Core.discount _ _ _ _).
  assert (Hm : ∀ d', m !! d' = if existsb (in_domain p (TopologySpreadConstraint.TopologyKey tsc) d')
    (Core.nodeOrder p) then Some (load p pod tsc d') else None) by (intros; by apply discount_lookup).
  assert (Hex : ∀ d', existsb (in_domain p (TopologySpreadConstraint.TopologyKey tsc) d')
    (Core.nodeOrder p) = true ↔ ∃ x, x ∈ Core.nodeOrder p ∧
      Core.node_label p x (TopologySpreadConstraint.TopologyKey tsc) = Some d').
  { intros d'. rewrite existsb_elem. unfold in_domain. by setoid_rewrite bool_decide_eq_true. }
  assert (Hd : m !! d = Some (load p pod tsc d)).
  { rewrite Hm. rewrite (proj2 (Hex d)); [done|]. exists n. split.
    - apply (wf_dom _ Hw). by rewrite Hn.
    - unfold Core.node_label. by rewrite Hn. }
  rewrite (spread_verdict_iff tsc d m (load p pod tsc d)); [|
    |done].
  2:{ intros d' c'. rewrite Hm. case_match; [|done]. intros [= <-]. by apply load_bounds. }
  split.
  - intros H. exists d. split; [done|]. intros x d' Hx Hd'. apply (H d').
    rewrite Hm, (proj2 (Hex d')); eauto.
  - intros (d0 & [= <-] & H) d' c'. rewrite Hm.
    destruct (existsb (in_domain _ _ d') _) eqn:E; [|done]. intros [= <-].
    apply Hex in E as (x & Hx & Hd'). by eapply H.
Qed.

Lemma fitsTopologySpread_iff p pod n ns :
  core_wf p → few_pods p → Core.nodes p !! n = Some ns →
  (Core.fitsTopologySpread p pod n).1 = true ↔
  ∀ tsc, tsc ∈ Pod.TopologySpread pod → TopologySpreadConstraint.IsHard tsc = true →
    spread_ok p pod n tsc.
Proof.
  intros Hw Hf Hn. unfold Core.fitsTopologySpread. rewrite check_all_ok, forallb_elem.
  apply forall_proper. intros tsc. apply imp_iff_compat_l. cbv zeta. rewrite Hn.
  destruct (TopologySpreadConstraint.IsHard tsc); simpl; [|done].
  rewrite (one_spread_iff p pod n ns) by done. naive_solver.
Qed.

Lemma canplace_feasible_on p pod n ns :
  core_wf p → few_pods p → Core.nodes p !! n = Some ns →
  (Core.CanPlace p pod n).1 = true ↔ feasible_on p pod n ns.
Proof.
  intros Hw Hf Hn. unfold Core.CanPlace, Core.fitsStatic. rewrite Hn, and_then_ok, andb_true_iff.
  rewrite (fitsTopologySpread_iff p pod n ns) by done.
  destruct (Node.Unschedulable (NodeState.node ns)) eqn:Hu.
  { split; [by intros [? _]|]. intros [H _]. congruence. }
  destruct (Node.Ready (NodeState.node ns)) eqn:Hr; simpl.
  2:{ split; [by intros [? _]|]. intros [_ H]. congruence. }
  rewrite !and_then_ok, !andb_true_iff.
  rewrite fitsTaints_iff, fitsNodeSelector_iff, fitsNodeAffinity_iff, fitsResources_iff.
  rewrite (fitsPodAntiAffinity_iff p pod n ns), (fitsPodAffinity_iff p pod n ns) by done.
  split.
  - intros [(?&?&?&?&?&?) ?]. by split.
  - intros []. by repeat split.
Qed.
