(* ===== verification/CapacityFacts.v ===== *)
(** * Capacity accounting

On a node that starts within its capacity basis, the free capacity plus what
its occupants take is the basis, however pods are moved, as long as each move
was feasible when it was made; and [Remove] undoes [Place]. *)
From S2P Require Import Prelude Float64 Model Cluster WorkingPlacement PlacementFacts IndexFacts FeasibilityFacts.

(** ** The three dimensions *)

Definition dims : list (Resources.t → Z) :=
  [Resources.MilliCPU; Resources.MemoryBytes; Resources.Pods].

(** Quantities far from the bounds of [int64]: 2^61 bytes are two exbibytes. *)
Definition sane (r : Resources.t) : Prop := ∀ f, f ∈ dims → 0 <= f r < 2 ^ 61.

Definition sane_pod (pod : Pod.t) : Prop := sane (Pod.Requests pod).

Definition sane_b (r : Resources.t) : bool :=
  forallb (λ f : Resources.t → Z, (0 <=? f r) && (f r <? 2 ^ 61)) dims.

Lemma sane_b_sound r : sane_b r = true → sane r.
Proof.
  unfold sane_b. rewrite forallb_elem. intros H f Hf. specialize (H f Hf). simpl in H.
  apply andb_true_iff in H as [?%Z.leb_le ?%Z.ltb_lt]. lia.
Qed.

Ltac each_dim H :=
  unfold dims in H; rewrite !elem_of_cons, elem_of_nil in H;
  destruct H as [->|[->|[->|[]]]].

Lemma dim_add f r o :
  f ∈ dims → 0 <= f r < 2 ^ 62 → 0 <= f o < 2 ^ 62 → f (Resources.Add r o) = f r + f o.
Proof.
  intros Hf Hr Ho. each_dim Hf; simpl in *; unfold int64_add;
    apply wrap64_id; unfold in_int64; lia.
Qed.

Lemma dim_sub f r o :
  f ∈ dims → 0 <= f r < 2 ^ 62 → 0 <= f o < 2 ^ 62 →
  f (Resources.Sub r o) = Z.max (f r - f o) 0.
Proof.
  intros Hf Hr Ho. each_dim Hf; simpl in *; unfold int64_sub, max64;
    rewrite wrap64_id by (unfold in_int64; lia);
    match goal with |- context [?a <? ?b] => destruct (Z.ltb_spec a b) end; lia.
Qed.

Lemma dim_fits f r c : f ∈ dims → Resources.Fits r c = true → f r <= f c.
Proof.
  intros Hf H. unfold Resources.Fits in H.
  apply andb_true_iff in H as [[H1 H2]%andb_true_iff H3].
  apply Z.leb_le in H1, H2, H3. each_dim Hf; lia.
Qed.

Lemma one_pod_dim f : f ∈ dims → 0 <= f Resources.one_pod <= 1.
Proof. intros Hf. each_dim Hf; simpl; lia. Qed.

Lemma footprint_dim f pod :
  f ∈ dims → sane_pod pod →
  f (footprint pod) = f (Pod.Requests pod) + f Resources.one_pod ∧ 0 <= f (footprint pod) < 2 ^ 62.
Proof.
  intros Hf Hs. specialize (Hs f Hf). pose proof (one_pod_dim f Hf).
  unfold footprint. rewrite dim_add by (done || lia). lia.
Qed.

(** ** Accounts that balance *)

Definition total (f : Resources.t → Z) (os : list Pod.t) : Z :=
  foldr (λ o acc, f (footprint o) + acc) 0 os.

Lemma total_app f l1 l2 : total f (l1 ++ l2) = total f l1 + total f l2.
Proof. induction l1 as [|o l1 IH]; simpl; [done|]. rewrite IH. lia. Qed.

Lemma total_perm f l1 l2 : l1 ≡ₚ l2 → total f l1 = total f l2.
Proof. induction 1; simpl; lia. Qed.

Definition balanced (basis : Resources.t) (ns : NodeState.t) : Prop :=
  Forall sane_pod (NodeState.occupants ns) ∧
  ∀ f, f ∈ dims →
    0 <= f (NodeState.free ns) ∧
    f (NodeState.free ns) + total f (NodeState.occupants ns) = f basis.

Lemma total_nonneg f os : f ∈ dims → Forall sane_pod os → 0 <= total f os.
Proof.
  intros Hf. induction 1 as [|o os Ho Hos IH]; simpl; [done|].
  destruct (footprint_dim f o Hf Ho). lia.
Qed.

Lemma balanced_place b ns pod node :
  sane b → balanced b ns → sane_pod pod →
  Resources.Fits (footprint pod) (NodeState.free ns) = true →
  balanced b (NodeState.mk node (Resources.Sub (NodeState.free ns) (footprint pod))
    (NodeState.occupants ns ++ [pod])).
Proof.
  intros Hb [Hs Hbal] Hp Hfit. split; simpl; [apply Forall_app; split; [done|by apply Forall_singleton]|].
  intros f Hf. destruct (Hbal f Hf) as [H1 H2]. destruct (footprint_dim f pod Hf Hp) as [_ H3].
  pose proof (total_nonneg f _ Hf Hs). pose proof (dim_fits f _ _ Hf Hfit). specialize (Hb f Hf).
  rewrite dim_sub, total_app by (done || lia). simpl. lia.
Qed.

Lemma balanced_remove b ns pod rest node :
  sane b → balanced b ns → NodeState.occupants ns ≡ₚ pod :: rest →
  balanced b (NodeState.mk node
    (Resources.Add (Resources.Add (NodeState.free ns) (Pod.Requests pod)) Resources.one_pod) rest).
Proof.
  intros Hb [Hs Hbal] Hperm. rewrite Hperm in Hs. inversion Hs as [|?? Hp Hr]; subst.
  split; simpl; [done|]. intros f Hf. destruct (Hbal f Hf) as [H1 H2].
  rewrite (total_perm _ _ _ Hperm) in H2. simpl in H2.
  destruct (footprint_dim f pod Hf Hp) as [H3 H4]. specialize (Hp f Hf).
  pose proof (total_nonneg f _ Hf Hr). pose proof (one_pod_dim f Hf). specialize (Hb f Hf).
  rewrite !dim_add by (done || rewrite ?dim_add by (done || lia); lia). lia.
Qed.

(** Balance of a whole assignment against a basis per node. *)
Definition balanced_at (basis : string → Resources.t) (p : Core.t) : Prop :=
  ∀ n ns, Core.nodes p !! n = Some ns → balanced (basis n) ns.

Lemma place_balanced basis pod n p :
  (∀ n, sane (basis n)) → balanced_at basis p → sane_pod pod →
  (∀ ns, Core.nodes p !! n = Some ns → Resources.Fits (footprint pod) (NodeState.free ns) = true) →
  balanced_at basis (Core.Place pod n p).
Proof.
  intros Hb Hbal Hp Hfit. unfold Core.Place. destruct (Core.nodes p !! n) as [ns|] eqn:Hn; [|done].
  intros m ms. simpl. rewrite lookup_insert_Some. intros [[<- <-]|[_ Hm]]; [|by apply Hbal].
  apply balanced_place; [done|by apply Hbal|exact Hp|by apply Hfit].
Qed.

Lemma remove_balanced basis pod p ns rest :
  (∀ n, sane (basis n)) → balanced_at basis p →
  Core.removed pod p = Some (ns, pod, rest) → balanced_at basis (Core.Remove pod p).
Proof.
  intros Hb Hbal Hr. unfold Core.Remove. rewrite Hr.
  apply removed_spec in Hr as [Hn (_&_&Hperm)%take_pod_spec].
  intros m ms. simpl. rewrite lookup_insert_Some. intros [[<- <-]|[_ Hm]]; [|by apply Hbal].
  by apply balanced_remove; eauto.
Qed.

(** ** Moves *)

(** One relocation as the planner makes it: the pod is on its node, the
destination is another node that can take it, judged before the pod leaves. *)
Inductive move : Core.t → Core.t → Prop :=
| move_pod p pod n ns rest :
    Core.removed pod p = Some (ns, pod, rest) →
    n ≠ Pod.NodeName pod →
    (Core.CanPlace p pod n).1 = true →
    move p (Core.Place pod n (Core.Remove pod p)).

Lemma remove_other pod p n :
  n ≠ Pod.NodeName pod → Core.nodes (Core.Remove pod p) !! n = Core.nodes p !! n.
Proof.
  intros Hne. unfold Core.Remove. destruct (Core.removed pod p) as [[[ns o] rest]|]; [|done].
  simpl. by rewrite lookup_insert_ne.
Qed.

Lemma canplace_fits p pod n ns :
  (Core.CanPlace p pod n).1 = true → Core.nodes p !! n = Some ns →
  Resources.Fits (footprint pod) (NodeState.free ns) = true.
Proof.
  unfold Core.CanPlace, Core.fitsStatic. intros H Hn. rewrite Hn in H.
  rewrite and_then_ok, andb_true_iff in H. destruct H as [H _].
  revert H. destruct (Node.Unschedulable _); [done|].
  destruct (Node.Ready _); [|done]. simpl. intros H.
  rewrite !and_then_ok, !andb_true_iff in H.
  destruct H as (_&_&_&H&_). by apply fitsResources_iff.
Qed.

Lemma move_balanced basis p q :
  (∀ n, sane (basis n)) → balanced_at basis p → move p q → balanced_at basis q.
Proof.
  intros Hb Hbal Hm. destruct Hm as [p pod n ns rest Hr Hne Hok].
  apply place_balanced; [done|by eapply remove_balanced| |].
  - apply removed_spec in Hr as [Hn (Hin&_&_)%take_pod_spec].
    destruct (Hbal _ _ Hn) as [Hs _]. rewrite Forall_forall in Hs. by apply Hs.
  - intros ns' Hn'. rewrite remove_other in Hn' by done. by eapply canplace_fits.
Qed.

Lemma moves_balanced basis p q :
  (∀ n, sane (basis n)) → balanced_at basis p → rtc move p q → balanced_at basis q.
Proof.
  intros Hb H0 Hr. induction Hr as [|x y z Hxy Hr IH]; [done|]. apply IH. by eapply move_balanced.
Qed.

(** ** The initial assignment *)

(** The requests the snapshot puts on a node. *)
Definition demand (f : Resources.t → Z) (snap : ClusterSnapshot.t) (n : string) : Z :=
  total f (ClusterSnapshot.PodsOnNode snap n).

(** A snapshot whose nodes hold no more than their basis. *)
Record within (snap : ClusterSnapshot.t) (c : float64) : Prop := {
  within_pods : Forall sane_pod (ClusterSnapshot.Pods snap);
  within_basis n : n ∈ ClusterSnapshot.Nodes snap →
    sane (Core.capacity_basis c n) ∧
    ∀ f, f ∈ dims → demand f snap (Node.Name n) <= f (Core.capacity_basis c n);
}.

Definition basis_of (snap : ClusterSnapshot.t) (c : float64) (n : string) : Resources.t :=
  match ClusterSnapshot.NodeByName snap n with
  | Some node => Core.capacity_basis c node
  | None => Resources.empty
  end.

Lemma basis_sane snap c n : within snap c → sane (basis_of snap c n).
Proof.
  intros Hin. unfold basis_of. destruct (ClusterSnapshot.NodeByName snap n) as [x|] eqn:Hx.
  - apply List.find_some in Hx as [Hx _]. apply Hin. by apply list_elem_of_In.
  - intros g Hg. each_dim Hg; simpl; lia.
Qed.

Definition within_b (snap : ClusterSnapshot.t) (c : float64) : bool :=
  forallb (λ p, sane_b (Pod.Requests p)) (ClusterSnapshot.Pods snap) &&
  forallb (λ n, sane_b (Core.capacity_basis c n) &&
    forallb (λ f : Resources.t → Z,
      demand f snap (Node.Name n) <=? f (Core.capacity_basis c n)) dims)
    (ClusterSnapshot.Nodes snap).

Lemma within_b_sound snap c : within_b snap c = true → within snap c.
Proof.
  intros [Hp Hn]%andb_true_iff. rewrite forallb_elem in Hp. rewrite forallb_elem in Hn. split.
  - apply Forall_forall. intros p Hin. by apply sane_b_sound, Hp.
  - intros n Hin. specialize (Hn n Hin). apply andb_true_iff in Hn as [H1 H2].
    split; [by apply sane_b_sound|]. intros f Hf. rewrite forallb_elem in H2.
    by apply Z.leb_le, H2.
Qed.

Lemma find_unique ns n :
  NoDup (Node.Name <$> ns) → n ∈ ns →
  List.find (λ m, (Node.Name m =? Node.Name n)%string) ns = Some n.
Proof.
  induction ns as [|m ns IH]; intros Hd Hn; [by apply not_elem_of_nil in Hn|].
  inversion Hd as [|?? Hm Hd']; subst. simpl.
  destruct (String.eqb_spec (Node.Name m) (Node.Name n)) as [He|Hne].
  - apply elem_of_cons in Hn as [->|Hn]; [done|]. exfalso. apply Hm. rewrite He.
    by apply list_elem_of_fmap_2.
  - apply elem_of_cons in Hn as [->|Hn]; [done|]. by apply IH.
Qed.

Lemma add_nodes_balanced c nodes p basis :
  (∀ n, n ∈ nodes → sane (Core.capacity_basis c n) ∧ basis (Node.Name n) = Core.capacity_basis c n) →
  (∀ n ns, Core.nodes p !! n = Some ns → NodeState.occupants ns = [] ∧ balanced (basis n) ns) →
  ∀ n ns, Core.nodes (fold_left (Core.add_node c) nodes p) !! n = Some ns →
    NodeState.occupants ns = [] ∧ balanced (basis n) ns.
Proof.
  revert p. induction nodes as [|m nodes IH]; intros p Hb Hp; simpl; [done|].
  apply IH; [intros n Hn; apply Hb; by right|].
  intros n ns. simpl. rewrite lookup_insert_Some. intros [[<- <-]|[_ Hn]]; [|by apply Hp].
  destruct (Hb m) as [Hs He]; [by left|]. split; [done|]. split; [constructor|].
  intros f Hf. simpl. rewrite He. specialize (Hs f Hf). lia.
Qed.

Lemma add_nodes_named c l p n ns :
  Core.nodes (fold_left (Core.add_node c) l p) !! n = Some ns →
  is_Some (Core.nodes p !! n) ∨ ∃ m, m ∈ l ∧ Node.Name m = n.
Proof.
  revert p. induction l as [|m l IH]; intros p; simpl; [by left; eauto|].
  intros H. apply IH in H as [H|(x & Hx & He)]; [|right; exists x; split; [by right|done]].
  simpl in H. rewrite lookup_insert_is_Some' in H. destruct H as [<-|H]; [|by left].
  right. exists m. split; [by left|done].
Qed.

Lemma add_pods_balanced basis pods p :
  (∀ n, sane (basis n)) → Forall sane_pod pods →
  (∀ n ns, Core.nodes p !! n = Some ns → balanced (basis n) ns ∧
     ∀ f, f ∈ dims → total f (NodeState.occupants ns) +
       total f (List.filter (λ p, (Pod.NodeName p =? n)%string) pods) <= f (basis n)) →
  balanced_at basis (fold_left Core.add_pod pods p).
Proof.
  intros Hb Hs. revert p. induction Hs as [|pod pods Hpod Hs IH]; intros p Hp; simpl.
  { intros n ns Hn. by apply Hp. }
  assert (Hskip : ∀ n ns, Core.nodes p !! n = Some ns → balanced (basis n) ns ∧
    ∀ f, f ∈ dims → total f (NodeState.occupants ns) +
      total f (List.filter (λ p, (Pod.NodeName p =? n)%string) pods) <= f (basis n)).
  { intros n ns Hn. destruct (Hp n ns Hn) as [H1 H2]. split; [done|]. intros f Hf.
    specialize (H2 f Hf). simpl in H2. case_match; [|done]. simpl in H2.
    destruct (footprint_dim f pod Hf Hpod). lia. }
  apply IH. unfold Core.add_pod. destruct (Pod.NodeName pod =? "")%string; [done|].
  destruct (Core.nodes p !! Pod.NodeName pod) as [ns|] eqn:Hn; [|done].
  intros m ms. simpl. rewrite lookup_insert_Some. intros [[<- <-]|[_ Hm]]; [|by apply Hskip].
  destruct (Hp _ _ Hn) as [H1 H2]. simpl in H2. rewrite String.eqb_refl in H2. simpl in H2.
  assert (Hfit : Resources.Fits (footprint pod) (NodeState.free ns) = true).
  { unfold Resources.Fits. rewrite !andb_true_iff, !Z.leb_le.
    assert (Hle : ∀ f, f ∈ dims → f (footprint pod) <= f (NodeState.free ns)).
    { intros f Hf. specialize (H2 f Hf). destruct H1 as [_ H1]. destruct (H1 f Hf).
      assert (0 <= total f (List.filter (λ p, (Pod.NodeName p =? Pod.NodeName pod)%string) pods)).
      { apply total_nonneg; [done|]. apply Forall_forall. intros o [Ho _]%filter_elem.
        rewrite Forall_forall in Hs. by apply Hs. }
      lia. }
    repeat split; apply Hle; unfold dims; rewrite !elem_of_cons; auto. }
  split; [by apply balanced_place|]. intros f Hf. simpl. rewrite total_app. simpl.
  specialize (H2 f Hf). lia.
Qed.

Lemma new_balanced snap c :
  wf_snapshot snap = true → within snap c →
  balanced_at (basis_of snap c) (Core.NewPlacementCeiling snap c).
Proof.
  intros [Hnd%bool_decide_eq_true _]%andb_true_iff [Hpods Hbasis].
  assert (Hof : ∀ n, n ∈ ClusterSnapshot.Nodes snap →
    basis_of snap c (Node.Name n) = Core.capacity_basis c n).
  { intros n Hn. unfold basis_of, ClusterSnapshot.NodeByName. by rewrite find_unique. }
  assert (Hsane : ∀ n, sane (basis_of snap c n)).
  { intros n. unfold basis_of. destruct (ClusterSnapshot.NodeByName snap n) as [m|] eqn:Hm.
    - apply List.find_some in Hm as [Hin _]. apply Hbasis. by apply list_elem_of_In.
    - intros f Hf. each_dim Hf; simpl; lia. }
  assert (Hnodes : ∀ n ns, Core.nodes (fold_left (Core.add_node c) (ClusterSnapshot.Nodes snap)
      (Core.mk ∅ [])) !! n = Some ns →
    NodeState.occupants ns = [] ∧ balanced (basis_of snap c n) ns).
  { apply add_nodes_balanced.
    - intros n Hn. split; [by apply Hbasis|by apply Hof].
    - intros n ns. simpl. by rewrite lookup_empty. }
  apply add_pods_balanced; [done..|]. intros n ns Hn.
  destruct (Hnodes n ns Hn) as [Ho Hbal]. split; [done|]. intros f Hf. rewrite Ho. simpl.
  destruct (add_nodes_named _ _ _ _ _ Hn) as [[? He]|(node & Hin & <-)].
  { simpl in He. by rewrite lookup_empty in He. }
  rewrite Hof by done. by apply Hbasis.
Qed.

(** ** Undoing a placement *)

Lemma take_pod_last pod os :
  (∀ o, o ∈ os → sameKey o pod = false) → sameKey pod pod = true →
  take_pod pod (os ++ [pod]) = Some (pod, os).
Proof.
  intros Ho Hp. induction os as [|o os IH]; simpl; [by rewrite Hp|].
  rewrite Ho by by left. rewrite IH; [done|]. intros x Hx. apply Ho. by right.
Qed.

Lemma sameKey_refl pod : sameKey pod pod = true.
Proof. unfold sameKey. by rewrite !String.eqb_refl. Qed.

Lemma resources_eq r o : (∀ f, f ∈ dims → f r = f o) → r = o.
Proof.
  intros H. destruct r, o. f_equal.
  - apply (H Resources.MilliCPU). by left.
  - apply (H Resources.MemoryBytes). by right; left.
  - apply (H Resources.Pods). by do 2 right; left.
Qed.

Lemma give_back pod free :
  sane free → sane_pod pod → Resources.Fits (footprint pod) free = true →
  Resources.Add (Resources.Add (Resources.Sub free (footprint pod)) (Pod.Requests pod))
    Resources.one_pod = free.
Proof.
  intros Hfree Hp Hfit. apply resources_eq. intros f Hf.
  destruct (footprint_dim f pod Hf Hp) as [H1 H2]. pose proof (one_pod_dim f Hf).
  pose proof (dim_fits f _ _ Hf Hfit). specialize (Hfree f Hf). specialize (Hp f Hf).
  assert (H3 : f (Resources.Sub free (footprint pod)) = f free - f (footprint pod)).
  { rewrite dim_sub by (done || lia). lia. }
  assert (H4 : f (Resources.Add (Resources.Sub free (footprint pod)) (Pod.Requests pod)) =
    f free - f (footprint pod) + f (Pod.Requests pod)).
  { rewrite dim_add by (done || lia). lia. }
  rewrite dim_add by (done || lia). lia.
Qed.

Lemma place_remove_core p pod n ns :
  Core.nodes p !! n = Some ns → sane (NodeState.free ns) → sane_pod pod →
  Resources.Fits (footprint pod) (NodeState.free ns) = true →
  (∀ o, o ∈ NodeState.occupants ns → sameKey o pod = false) →
  Core.Remove (Pod.set_NodeName n pod) (Core.Place pod n p) = p.
Proof.
  intros Hn Hfree Hp Hfit Hkeys. unfold Core.Remove, Core.removed, Core.Place. rewrite Hn. simpl.
  rewrite lookup_insert_eq. simpl.
  rewrite (take_pod_last (Pod.set_NodeName n pod)) by (done || apply sameKey_refl). simpl.
  rewrite insert_insert_eq.
  change (footprint (Pod.set_NodeName n pod)) with (footprint pod).
  rewrite give_back by done. destruct ns; simpl in *. rewrite insert_id by done. by destruct p.
Qed.
