(* ===== verification/PlacementProps.v ===== *)
(** * What the working placement guarantees

The properties of the component, each with a witness on the clusters of
[Fixtures]. *)
From S2P Require Import Prelude Float64 Model Cluster Fixtures WorkingPlacement PlacementFacts IndexFacts FeasibilityFacts CapacityFacts.

Definition shop_placement : Placement.t := Placement.NewPlacement shop.

Lemma shop_placement_coherent : coherent shop_placement.
Proof. apply new_coherent. by vm_compute. Qed.

(** C16: the spread index changes no answer.  Whatever questions and updates are
put to a placement in whatever order, memoised counts that are filled by
queries and adjusted by [Place] and [Remove] give the verdicts, reasons and
candidate lists that recounting the cluster for every question gives. *)
Theorem index_changes_no_answer snap ceiling ops :
  wf_snapshot snap = true → forallb op_ok ops = true →
  answers ops (Placement.NewPlacementCeiling snap ceiling) =
  answers ops (Core.NewPlacementCeiling snap ceiling).
Proof.
  intros Hw Hops.
  change (Core.NewPlacementCeiling snap ceiling)
    with (to_core (Placement.NewPlacementCeiling snap ceiling)).
  apply answers_core; [| |done].
  - by apply new_coherent.
  - exact (new_valid (P:=Core.t) snap ceiling Hw).
Qed.

Definition shop_ops : list op :=
  [AskCanPlace (web "w1" "a") "b"; DoRemove (web "w1" "a"); DoPlace (web "w1" "a") "c";
   DoClone; AskCandidates (web "w2" "b"); AskCanPlace (web "w3" "") "a"].

Lemma index_changes_no_answer_witness :
  answers shop_ops (Placement.NewPlacementCeiling shop F64.zero) =
    answers shop_ops (Core.NewPlacementCeiling shop F64.zero) ∧
  map (λ a, match a with inl v => Some v.1 | inr _ => None end)
    (answers shop_ops (Placement.NewPlacementCeiling shop F64.zero)) =
    [Some false; None; Some true].
Proof.
  split; [|by vm_compute].
  apply (index_changes_no_answer shop F64.zero shop_ops); by vm_compute.
Defined.

(** C17: [CanPlace] accepts exactly the feasible placements: the node exists, is
neither cordoned nor unready, its taints are tolerated, the node selector and
the required node affinity hold, the requests fit the free capacity, no
anti-affinity term meets a matching pod in its topology domain, every affinity
term does, and every hard spread constraint keeps the target domain within
[maxSkew] of every domain, the pod itself not counted where it leaves. *)
Theorem canplace_iff_feasible p pod n :
  coherent p → few_pods (Placement.core p) → wf_pod pod = true →
  (Placement.CanPlace pod n p).1.1 = true ↔ feasible (Placement.core p) pod n.
Proof.
  intros Hc Hf Hw. rewrite (proj1 (canplace_correct pod n p Hc Hw)). unfold feasible.
  destruct (Core.nodes (Placement.core p) !! n) as [ns|] eqn:Hn.
  - rewrite (canplace_feasible_on _ _ _ ns) by (done || apply Hc). split; [by exists ns|].
    by intros (? & [= <-] & ?).
  - unfold Core.CanPlace. rewrite Hn. split; [done|]. by intros (? & ? & _).
Qed.

Lemma canplace_iff_feasible_witness :
  feasible (Placement.core shop_placement) (web "w1" "a") "c" ↔
  (Placement.CanPlace (web "w1" "a") "c" shop_placement).1.1 = true.
Proof.
  symmetry. apply (canplace_iff_feasible shop_placement (web "w1" "a") "c").
  - apply shop_placement_coherent.
  - by vm_compute.
  - by vm_compute.
Defined.

(** Capacity is never oversold.  On a cluster whose nodes start within the
packing ceiling, after any number of relocations each of which [CanPlace]
accepted, the requests (and the pod count) on every node still add up to at
most its capacity under the ceiling, and its free capacity is the exact
remainder. *)
Theorem capacity_never_exceeded snap ceiling p n ns f :
  wf_snapshot snap = true → within snap ceiling →
  rtc move (Core.NewPlacementCeiling snap ceiling) p →
  Core.nodes p !! n = Some ns → f ∈ dims →
  total f (NodeState.occupants ns) <= f (basis_of snap ceiling n) ∧
  f (NodeState.free ns) = f (basis_of snap ceiling n) - total f (NodeState.occupants ns).
Proof.
  intros Hw Hin Hr Hn Hf.
  assert (Hb : balanced_at (basis_of snap ceiling) p).
  { eapply moves_balanced; [intros m; by apply basis_sane|by apply new_balanced|done]. }
  destruct (Hb n ns Hn) as [_ H]. specialize (H f Hf). lia.
Qed.

Lemma shop_within : within shop F64.zero.
Proof. apply within_b_sound. by vm_compute. Qed.

Definition shop_core : Core.t := Core.NewPlacementCeiling shop F64.zero.

Definition shop_moved : Core.t :=
  Core.Place (db "d1" "c") "a" (Core.Remove (db "d1" "c") shop_core).

Lemma shop_move : rtc move shop_core shop_moved.
Proof. apply rtc_once. by eapply move_pod; vm_compute. Qed.

Lemma capacity_never_exceeded_witness :
  total Resources.MilliCPU (Core.Occupants shop_moved "a") <= 4000 ∧
  Resources.MilliCPU (Core.Free shop_moved "a") = 2500.
Proof.
  assert (H : ∃ ns, Core.nodes shop_moved !! "a" = Some ns) by (by eexists; vm_compute).
  destruct H as [ns Hns].
  destruct (capacity_never_exceeded shop F64.zero shop_moved "a" ns Resources.MilliCPU) as [H1 H2].
  - by vm_compute.
  - apply shop_within.
  - apply shop_move.
  - exact Hns.
  - unfold dims. by left.
  - unfold Core.Occupants, Core.Free. rewrite Hns. split; [exact H1|].
    rewrite H2. vm_compute in Hns. injection Hns as <-. by vm_compute.
Defined.

(** [Remove] undoes [Place].  Placing a pod where it fits, on a node with no
occupant of the same name, and removing it again restores the node, its free
capacity and its occupants, without residue in any other node; afterwards every
question gets the answer it got before. *)
Theorem place_remove_roundtrip p pod n ns :
  coherent p → wf_pod pod = true → sane_pod pod →
  Core.nodes (Placement.core p) !! n = Some ns → sane (NodeState.free ns) →
  Resources.Fits (footprint pod) (NodeState.free ns) = true →
  (∀ o, o ∈ NodeState.occupants ns → sameKey o pod = false) →
  let q := Placement.Remove (Pod.set_NodeName n pod) (Placement.Place pod n p) in
  Placement.core q = Placement.core p ∧
  ∀ other m, wf_pod other = true →
    (Placement.CanPlace other m q).1 = (Placement.CanPlace other m p).1.
Proof.
  intros Hc Hw Hs Hn Hfree Hfit Hkeys q.
  assert (Hq : Placement.core q = Placement.core p).
  { unfold q. rewrite remove_core_eq, place_core_eq.
    by apply place_remove_core with ns. }
  split; [done|]. intros other m Ho.
  assert (Hcq : coherent q) by (apply remove_coherent; by apply place_coherent).
  destruct (canplace_correct other m q Hcq Ho) as [-> _].
  destruct (canplace_correct other m p Hc Ho) as [-> _]. by rewrite Hq.
Qed.

Lemma place_remove_roundtrip_witness :
  Placement.core (Placement.Remove (Pod.set_NodeName "a" (db "d3" ""))
    (Placement.Place (db "d3" "") "a" shop_placement)) = shop_core.
Proof.
  assert (H : ∃ ns, Core.nodes (Placement.core shop_placement) !! "a" = Some ns ∧
    sane_b (NodeState.free ns) = true ∧
    Resources.Fits (footprint (db "d3" "")) (NodeState.free ns) = true ∧
    forallb (λ o, negb (sameKey o (db "d3" ""))) (NodeState.occupants ns) = true)
    by (eexists; split; [vm_compute; reflexivity|vm_compute; auto]).
  destruct H as (ns & H1 & H2 & H3 & H4).
  apply (place_remove_roundtrip shop_placement (db "d3" "") "a" ns).
  - apply shop_placement_coherent.
  - by vm_compute.
  - apply sane_b_sound. by vm_compute.
  - exact H1.
  - by apply sane_b_sound.
  - exact H3.
  - intros o Ho. rewrite forallb_elem in H4. by apply negb_true_iff, H4.
Defined.

(** The key of the spread index is faithful: two selectors in the syntax
Kubernetes accepts that share a fingerprint match the same pods, so one entry
can answer for both; in particular reordering the values of a requirement, the
requirements of a selector or the insertion of its labels changes nothing. *)
Theorem fingerprint_identifies_selectors s1 s2 labels :
  wf_selector s1 = true → wf_selector s2 = true →
  selectorFingerprint s1 = selectorFingerprint s2 →
  LabelSelector.Matches s1 labels = LabelSelector.Matches s2 labels.
Proof. apply fingerprint_faithful. Qed.

Definition in_tiers (l : list string) : option LabelSelector.t :=
  Some (LabelSelector.mk (<["app" := "web"]> ∅) [SelectorRequirement.mk "tier" SelectorOpIn l]).

Lemma fingerprint_identifies_selectors_witness :
  LabelSelector.Matches (in_tiers ["x"; "y"]) (<["app" := "web"]> (<["tier" := "y"]> ∅)) =
  LabelSelector.Matches (in_tiers ["y"; "x"]) (<["app" := "web"]> (<["tier" := "y"]> ∅)).
Proof. apply fingerprint_identifies_selectors; by vm_compute. Defined.
