(* ===== verification/Analyzer.v ===== *)
(** * The constraint analyzer (internal/constraints/constraints.go, analyzer.go)

Derives, for every pod of a snapshot, the constraints on where it may live,
whether it can move at all, and the nodes that could take it.  Written against
[PlacementOps]: the placement it queries is threaded through. *)
From S2P Require Import Prelude Float64 Model Cluster WorkingPlacement.

#[local] Open Scope state_scope.

(** ** constraints.go *)

Inductive Kind : Type :=
| KindResources | KindNodeSelector | KindNodeAffinity | KindPodAffinity | KindPodAntiAffinity
| KindTopologySpread | KindPDB | KindTaint | KindControllerPinned | KindDoNotDisrupt
| KindPersistentVolume.

#[global] Instance Kind_eq_dec : EqDecision Kind.
Proof. solve_decision. Defined.

Definition kind_string (k : Kind) : string :=
  match k with
  | KindResources => "Resources" | KindNodeSelector => "NodeSelector"
  | KindNodeAffinity => "NodeAffinity" | KindPodAffinity => "PodAffinity"
  | KindPodAntiAffinity => "PodAntiAffinity" | KindTopologySpread => "TopologySpread"
  | KindPDB => "PodDisruptionBudget" | KindTaint => "Taint"
  | KindControllerPinned => "ControllerPinned" | KindDoNotDisrupt => "DoNotDisrupt"
  | KindPersistentVolume => "PersistentVolume"
  end.

Module Constraint.
Record t : Type := mk {
  kind : Kind;
  Subject : string;
  Hard : bool;
  Blocking : bool;
  Explanation : string;
}.

#[global] Instance eq_dec : EqDecision t.
Proof. solve_decision. Defined.
End Constraint.

Module PodConstraints.

Record t : Type := mk {
  Namespace : string;
  Name : string;
  NodeName : string;
  Movable : bool;
  Constraints : list Constraint.t;
  PinnedToNode : bool;
  CandidateNodes : list string;
}.

Definition Key (p : t) : string := Namespace p +:+ "/" +:+ Name p.

Definition Blockers (p : t) : list Constraint.t :=
  List.filter Constraint.Blocking (Constraints p).

Definition Of (p : t) (k : Kind) : list Constraint.t :=
  List.filter (λ c, bool_decide (Constraint.kind c = k)) (Constraints p).

End PodConstraints.

Module Analysis.

(** [index] is [None] on an analysis that was decoded rather than computed. *)
Record t : Type := mk {
  TakenAt : time;
  Pods : list PodConstraints.t;
  index : option (gmap string nat);
}.

(** [None] also where the code would index out of range, which an index built
by [Analyze] never does. *)
Definition ForPod (a : t) (key : string) : option PodConstraints.t :=
  match index a with
  | Some idx => i ← idx !! key; Pods a !! i
  | None => List.find (λ pc, (PodConstraints.Key pc =? key)%string) (Pods a)
  end.

Definition ForNode (a : t) (nodeName : string) : list PodConstraints.t :=
  List.filter (λ pc, (PodConstraints.NodeName pc =? nodeName)%string) (Pods a).

Definition no_room (pc : PodConstraints.t) : Constraint.t :=
  Constraint.mk KindResources (PodConstraints.Key pc) true true
    "No other node can currently accept this pod.".

(** One iteration of the loop of [NodeDrainable]. *)
Definition drain_step (acc : bool * list Constraint.t) (pc : PodConstraints.t) :
    bool * list Constraint.t :=
  let '(drainable, blockers) := acc in
  if PodConstraints.PinnedToNode pc then (drainable, blockers)
  else if negb (PodConstraints.Movable pc)
  then (false, blockers ++ PodConstraints.Blockers pc)
  else if bool_decide (PodConstraints.CandidateNodes pc = [])
  then (false, blockers ++ [no_room pc])
  else (drainable, blockers).

Definition NodeDrainable (a : t) (nodeName : string) : bool * list Constraint.t :=
  fold_left drain_step (ForNode a nodeName) (true, []).

End Analysis.

Module Summary.

Record t : Type := mk {
  Pods : Z; Movable : Z; Blocked : Z; Stuck : Z;
  PDBBlocked : Z; AntiAffinity : Z; SpreadBound : Z; ControllerPin : Z;
}.

Definition zero : t := mk 0 0 0 0 0 0 0 0.

Definition flag (b : bool) : Z := if b then 1 else 0.

Definition add_constraint (s : t) (c : Constraint.t) : t :=
  match Constraint.kind c with
  | KindPDB =>
      mk (Pods s) (Movable s) (Blocked s) (Stuck s)
        (PDBBlocked s + flag (Constraint.Blocking c)) (AntiAffinity s) (SpreadBound s)
        (ControllerPin s)
  | KindPodAntiAffinity =>
      mk (Pods s) (Movable s) (Blocked s) (Stuck s) (PDBBlocked s) (AntiAffinity s + 1)
        (SpreadBound s) (ControllerPin s)
  | KindTopologySpread =>
      mk (Pods s) (Movable s) (Blocked s) (Stuck s) (PDBBlocked s) (AntiAffinity s)
        (SpreadBound s + flag (Constraint.Hard c)) (ControllerPin s)
  | KindControllerPinned =>
      mk (Pods s) (Movable s) (Blocked s) (Stuck s) (PDBBlocked s) (AntiAffinity s)
        (SpreadBound s) (ControllerPin s + 1)
  | _ => s
  end.

Definition add_pod (s : t) (pc : PodConstraints.t) : t :=
  let m := PodConstraints.Movable pc in
  let stuck := m && bool_decide (PodConstraints.CandidateNodes pc = []) in
  fold_left add_constraint (PodConstraints.Constraints pc)
    (mk (Pods s + 1) (Movable s + flag m) (Blocked s + flag (negb m)) (Stuck s + flag stuck)
       (PDBBlocked s) (AntiAffinity s) (SpreadBound s) (ControllerPin s)).

End Summary.

Definition Summarize (a : Analysis.t) : Summary.t :=
  fold_left Summary.add_pod (Analysis.Pods a) Summary.zero.

(** ** analyzer.go: explanations *)

Definition to_lower_ascii (c : Ascii.ascii) : Ascii.ascii :=
  let n := Ascii.N_of_ascii c in
  if (65 <=? n)%N && (n <=? 90)%N then Ascii.ascii_of_N (n + 32) else c.

Fixpoint ToLower (s : string) : string :=
  match s with EmptyString => EmptyString | String c s => String (to_lower_ascii c) (ToLower s) end.

(** The [%v] verb on a slice of strings. *)
Definition show_strings (l : list string) : string := "[" +:+ join " " l +:+ "]".

Definition sort_strings (l : list string) : list string := sort_by str_ltb l.

Definition label_pairs (m : gmap string string) : list string :=
  (λ kv, kv.1 +:+ "=" +:+ kv.2) <$> map_to_list m.

Definition describeSelector (s : option LabelSelector.t) : string :=
  match s with
  | None => "any pod"
  | Some sel =>
      if LabelSelector.IsEmpty s then "any pod"
      else join "," (sort_strings
        (label_pairs (LabelSelector.MatchLabels sel) ++
         ((λ e, SelectorRequirement.Key e +:+ " " +:+ ToLower (SelectorRequirement.Operator e) +:+
           " " +:+ show_strings (SelectorRequirement.Values e)) <$> LabelSelector.MatchExpressions sel)))
  end.

Definition describe_expression (e : SelectorRequirement.t) : string :=
  match SelectorRequirement.Values e with
  | [] => SelectorRequirement.Key e +:+ " " +:+ ToLower (SelectorRequirement.Operator e)
  | vs => SelectorRequirement.Key e +:+ " " +:+ ToLower (SelectorRequirement.Operator e) +:+ " " +:+
      show_strings vs
  end.

Definition describeTerms (terms : list NodeSelectorTerm.t) : string :=
  join " or " (sort_strings ((λ t, join " and "
    (sort_strings (describe_expression <$> NodeSelectorTerm.MatchExpressions t))) <$> terms)).

Definition shortTopology (key : string) : string :=
  if (key =? LabelHostname)%string then "node"
  else if (key =? LabelZone)%string then "zone"
  else if (key =? LabelRegion)%string then "region"
  else key.

(** ** analyzer.go: the constraints of one pod *)

(** [indexPDBs], a map from namespaces to budgets. *)
Definition indexPDBs (snap : ClusterSnapshot.t) : gmap string (list PodDisruptionBudget.t) :=
  fold_left (λ out pdb,
    <[PodDisruptionBudget.Namespace pdb :=
        default [] (out !! PodDisruptionBudget.Namespace pdb) ++ [pdb]]> out)
    (ClusterSnapshot.PDBs snap) ∅.

Definition pdb_constraint (pdb : PodDisruptionBudget.t) : Constraint.t :=
  if PodDisruptionBudget.Blocks pdb then
    Constraint.mk KindPDB (PodDisruptionBudget.Key pdb) true true
      ("PodDisruptionBudget " +:+ PodDisruptionBudget.Key pdb +:+
       " currently allows 0 disruptions (" +:+ pretty (PodDisruptionBudget.CurrentHealthy pdb) +:+
       " healthy, " +:+ pretty (PodDisruptionBudget.DesiredHealthy pdb) +:+
       " required). The API server will refuse to evict this pod.")
  else
    Constraint.mk KindPDB (PodDisruptionBudget.Key pdb) true false
      ("PodDisruptionBudget " +:+ PodDisruptionBudget.Key pdb +:+ " allows " +:+
       pretty (PodDisruptionBudget.DisruptionsAllowed pdb) +:+ " more concurrent disruption(s) (" +:+
       pretty (PodDisruptionBudget.CurrentHealthy pdb) +:+ " healthy, " +:+
       pretty (PodDisruptionBudget.DesiredHealthy pdb) +:+ " required).").

Definition pdbConstraints (pod : Pod.t) (index : gmap string (list PodDisruptionBudget.t)) :
    list Constraint.t :=
  pdb_constraint <$> List.filter (λ pdb, PodDisruptionBudget.covers pdb (Pod.Labels pod))
    (default [] (index !! Pod.Namespace pod)).

Definition nodeSelectorConstraint (pod : Pod.t) (snap : ClusterSnapshot.t) : option Constraint.t :=
  if bool_decide (size (Pod.NodeSelector pod) = 0%nat) then None
  else
    let matching := Z.of_nat (length (List.filter (λ n,
      forallb (λ kv, (label (Node.Labels n) kv.1 =? kv.2)%string)
        (map_to_list (Pod.NodeSelector pod))) (ClusterSnapshot.Nodes snap))) in
    let pairs := join "," (sort_strings (label_pairs (Pod.NodeSelector pod))) in
    Some (Constraint.mk KindNodeSelector pairs true (matching =? 0)
      ("Node selector " +:+ pairs +:+ " restricts placement to " +:+ pretty matching +:+ " of " +:+
       pretty (Z.of_nat (length (ClusterSnapshot.Nodes snap))) +:+ " nodes.")).

Definition nodeAffinityConstraint (pod : Pod.t) (snap : ClusterSnapshot.t) : option Constraint.t :=
  match Pod.NodeAffinity pod with
  | None => None
  | Some a =>
      match NodeAffinity.RequiredTerms a with
      | [] => None
      | terms =>
          let matching := Z.of_nat (length (List.filter (λ n, existsb (term_selects n) terms)
            (ClusterSnapshot.Nodes snap))) in
          Some (Constraint.mk KindNodeAffinity (describeTerms terms) true (matching =? 0)
            ("Required node affinity (" +:+ describeTerms terms +:+ ") restricts placement to " +:+
             pretty matching +:+ " of " +:+
             pretty (Z.of_nat (length (ClusterSnapshot.Nodes snap))) +:+ " nodes."))
      end
  end.

Definition podAffinityConstraints (pod : Pod.t) : list Constraint.t :=
  match Pod.PodAffinity pod with
  | None => []
  | Some a =>
      ((λ term, let key := PodAffinityTerm.TopologyKey term in
        Constraint.mk KindPodAntiAffinity key true false
          ("Required anti-affinity on " +:+ key +:+ " against pods matching " +:+
           describeSelector (PodAffinityTerm.LabelSelector term) +:+ ": this pod cannot share a " +:+
           shortTopology key +:+ " with another matching replica, so it holds its node open."))
        <$> PodAffinity.RequiredAntiAffinity a) ++
      ((λ term, let key := PodAffinityTerm.TopologyKey term in
        Constraint.mk KindPodAffinity key true false
          ("Required pod affinity on " +:+ key +:+ ": must be co-located with pods matching " +:+
           describeSelector (PodAffinityTerm.LabelSelector term) +:+ "."))
        <$> PodAffinity.RequiredAffinity a)
  end.

Definition topologySpreadConstraints (pod : Pod.t) (snap : ClusterSnapshot.t) : list Constraint.t :=
  (λ tsc,
    let key := TopologySpreadConstraint.TopologyKey tsc in
    let skew := pretty (TopologySpreadConstraint.MaxSkew tsc) in
    let domains : gset string :=
      list_to_set (omap (λ n, Node.Labels n !! key) (ClusterSnapshot.Nodes snap)) in
    if TopologySpreadConstraint.IsHard tsc then
      Constraint.mk KindTopologySpread key true false
        ("Topology spread across " +:+ key +:+ " with maxSkew " +:+ skew +:+ " (DoNotSchedule) over " +:+
         pretty (Z.of_nat (size domains)) +:+
         " domain(s): any move must keep the per-domain counts within " +:+ skew +:+ " of each other.")
    else
      Constraint.mk KindTopologySpread key false false
        ("Topology spread across " +:+ key +:+ " with maxSkew " +:+ skew +:+
         " (ScheduleAnyway): a preference, so it cannot block a move."))
    <$> Pod.TopologySpread pod.

Definition unlocked_by (pod : Pod.t) (taint : Taint.t) : option string :=
  if (Taint.Effect taint =? TaintEffectPreferNoSchedule)%string then None
  else if existsb (λ tol, negb (Toleration.Key tol =? "")%string && Toleration.ToleratesTaint tol taint)
            (Pod.Tolerations pod)
  then Some (Taint.Key taint +:+ valueSuffix (Taint.Value taint))
  else None.

Definition taintToleranceConstraint (pod : Pod.t) (snap : ClusterSnapshot.t) : option Constraint.t :=
  let unlocked : gset string :=
    list_to_set (ClusterSnapshot.Nodes snap ≫= λ n, omap (unlocked_by pod) (Node.Taints n)) in
  if bool_decide (size unlocked = 0%nat) then None
  else
    let keys := sort_strings (elements unlocked) in
    Some (Constraint.mk KindTaint (join "," keys) false false
      ("Tolerates " +:+ join ", " keys +:+ ", so it may be placed on nodes carrying those taints.")).

Definition option_list {A} (o : option A) : list A := match o with Some a => [a] | None => [] end.

Definition quote_false : string := dquote +:+ "false" +:+ dquote.

Definition hands_off : Constraint.t :=
  Constraint.mk KindDoNotDisrupt "" true true
    ("Annotated hands-off (karpenter.sh/do-not-disrupt or cluster-autoscaler.kubernetes.io/safe-to-evict: "
     +:+ quote_false +:+ "). The owner has explicitly opted this pod out of voluntary disruption, " +:+
     "and k8s-dencer honours the same convention the autoscalers do.").

Definition owner_subject (pod : Pod.t) : string :=
  match Pod.Owner pod with Some o => OwnerRef.Kind o +:+ "/" +:+ OwnerRef.Name o | None => "" end.

Definition owner_name (pod : Pod.t) : string :=
  match Pod.Owner pod with Some o => OwnerRef.Name o | None => "" end.

Definition daemonset_pin (pod : Pod.t) : Constraint.t :=
  Constraint.mk KindControllerPinned (owner_subject pod) true true
    ("Managed by DaemonSet " +:+ owner_name pod +:+ ", so it is pinned to node " +:+
     Pod.NodeName pod +:+
     ". Draining the node does not free this pod's capacity — it is recreated there.").

Definition static_pin (pod : Pod.t) : Constraint.t :=
  Constraint.mk KindControllerPinned (owner_subject pod) true true
    ("A static pod, owned by node " +:+ Pod.NodeName pod +:+
     " itself rather than by a controller. The kubelet recreates it here from a file on disk; nothing can move it, and draining the node does not free its capacity.").

Definition terminating : Constraint.t :=
  Constraint.mk KindControllerPinned "" true true "Pod is already terminating.".

Definition persistent_volume : Constraint.t :=
  Constraint.mk KindPersistentVolume "" false false
    "Uses a PersistentVolumeClaim. Depending on the volume's topology it may not be able to follow the pod to another node.".

Section analyze.
Context {P : Type} `{PlacementOps P}.

Definition resourceConstraint (pod : Pod.t) (snap : ClusterSnapshot.t) (placement : P) :
    Constraint.t :=
  let fits := length (List.filter (λ n,
    negb (Node.Name n =? Pod.NodeName pod)%string &&
    Resources.Fits (footprint pod) (Free placement (Node.Name n))) (ClusterSnapshot.Nodes snap)) in
  let other := Z.of_nat (length (ClusterSnapshot.Nodes snap)) - 1 in
  Constraint.mk KindResources "" true false
    ("Requests " +:+ Resources.to_string (Pod.Requests pod) +:+ ". " +:+ pretty (Z.of_nat fits) +:+
     " of " +:+ pretty other +:+ " other nodes have enough free capacity right now.").

(** The constraints [analyzePod] collects, in the order it appends them. *)
Definition pod_constraints (pod : Pod.t) (snap : ClusterSnapshot.t)
    (pdbIndex : gmap string (list PodDisruptionBudget.t)) (placement : P) : list Constraint.t :=
  (if Pod.DoNotDisrupt pod then [hands_off] else []) ++
  (if Pod.owner_kind_is "DaemonSet" pod then [daemonset_pin pod] else []) ++
  (if Pod.IsMirrorPod pod then [static_pin pod] else []) ++
  (if Pod.Terminating pod then [terminating] else []) ++
  pdbConstraints pod pdbIndex ++
  [resourceConstraint pod snap placement] ++
  option_list (nodeSelectorConstraint pod snap) ++
  option_list (nodeAffinityConstraint pod snap) ++
  podAffinityConstraints pod ++
  topologySpreadConstraints pod snap ++
  option_list (taintToleranceConstraint pod snap) ++
  (if Pod.HasPersistentVol pod then [persistent_volume] else []).

Definition analyzePod (pod : Pod.t) (snap : ClusterSnapshot.t)
    (pdbIndex : gmap string (list PodDisruptionBudget.t)) : State P PodConstraints.t := λ placement,
  let cs := pod_constraints pod snap pdbIndex placement in
  let pinned := Pod.owner_kind_is "DaemonSet" pod || Pod.IsMirrorPod pod in
  let movable := Pod.IsMovable pod && negb (existsb Constraint.Blocking cs) in
  let result nodes := PodConstraints.mk (Pod.Namespace pod) (Pod.Name pod) (Pod.NodeName pod)
    movable cs pinned nodes in
  if movable then (let* nodes := CandidateNodes pod in st_ret (result nodes)) placement
  else (result [], placement).

Fixpoint analyzePods (pods : list Pod.t) (snap : ClusterSnapshot.t)
    (pdbIndex : gmap string (list PodDisruptionBudget.t)) : State P (list PodConstraints.t) :=
  match pods with
  | [] => st_ret []
  | pod :: pods =>
      let* pc := analyzePod pod snap pdbIndex in
      let* rest := analyzePods pods snap pdbIndex in
      st_ret (pc :: rest)
  end.

Definition key_less (a b : PodConstraints.t) : bool :=
  str_ltb (PodConstraints.Key a) (PodConstraints.Key b).

(** The index map, later positions overwriting earlier ones. *)
Definition index_from (start : nat) (pods : list PodConstraints.t) (m : gmap string nat) :
    gmap string nat :=
  (fold_left (λ '(i, m) pc, (S i, <[PodConstraints.Key pc := i]> m)) pods (start, m)).2.

Definition Analyze (snap : ClusterSnapshot.t) : Analysis.t :=
  let '(pods, _) := analyzePods (ClusterSnapshot.Pods snap) snap (indexPDBs snap)
    (new_placement snap F64.zero) in
  let pods := sort_by key_less pods in
  Analysis.mk (ClusterSnapshot.TakenAt snap) pods (Some (index_from 0 pods ∅)).
End analyze.

Arguments Analyze P {_} snap.
