(* ===== verification/AnalyzerFacts.v ===== *)
(** * What the analysis says

[Analyze] reports each pod once, in key order, as the bare assignment judges
it; when it calls a pod movable and which nodes it offers; when a node drains. *)
From S2P Require Import Prelude Float64 Model Cluster Fixtures WorkingPlacement PlacementFacts IndexFacts FeasibilityFacts Analyzer.

(** ** The index of budgets *)

Lemma indexPDBs_fold ns pdbs (m : gmap string (list PodDisruptionBudget.t)) :
  default [] (fold_left (λ out pdb,
    <[PodDisruptionBudget.Namespace pdb :=
        default [] (out !! PodDisruptionBudget.Namespace pdb) ++ [pdb]]> out) pdbs m !! ns) =
  default [] (m !! ns) ++
    List.filter (λ pdb, (PodDisruptionBudget.Namespace pdb =? ns)%string) pdbs.
Proof.
  revert m. induction pdbs as [|pdb pdbs IH]; intros m; simpl; [by rewrite app_nil_r|].
  rewrite IH. destruct (String.eqb_spec (PodDisruptionBudget.Namespace pdb) ns) as [->|Hne].
  - rewrite lookup_insert_eq. simpl. by rewrite <- app_assoc.
  - by rewrite lookup_insert_ne.
Qed.

Lemma indexPDBs_lookup snap ns :
  default [] (indexPDBs snap !! ns) =
  List.filter (λ pdb, (PodDisruptionBudget.Namespace pdb =? ns)%string) (ClusterSnapshot.PDBs snap).
Proof. unfold indexPDBs. rewrite indexPDBs_fold. by rewrite lookup_empty. Qed.

(** ** The analysis of the bare assignment *)

Definition report (snap : ClusterSnapshot.t) (p : Core.t) (pod : Pod.t) : PodConstraints.t :=
  (analyzePod pod snap (indexPDBs snap) p).1.

Lemma candidates_pure pod names (p : Core.t) :
  candidates pod names p =
  (List.filter (λ n, negb (n =? Pod.NodeName pod)%string && (Core.CanPlace p pod n).1) names, p).
Proof.
  induction names as [|n names IH]; simpl; [done|]. case_match; simpl; [done|].
  unfold st_bind. simpl. rewrite IH. by case_match.
Qed.

Section client.
Context {P : Type} `{PlacementLaws P}.

Lemma resourceConstraint_core pod snap (p : P) :
  resourceConstraint pod snap p = resourceConstraint pod snap (to_core p).
Proof.
  unfold resourceConstraint. do 4 f_equal.
  f_equal; f_equal; f_equal.
  f_equal. apply List.filter_ext. intros n. by rewrite free_core.
Qed.

Lemma analyzePod_core pod snap (p : P) :
  valid p → wf_pod pod = true →
  (analyzePod pod snap (indexPDBs snap) p).1 = report snap (to_core p) pod ∧
  to_core (analyzePod pod snap (indexPDBs snap) p).2 = to_core p ∧
  valid (analyzePod pod snap (indexPDBs snap) p).2.
Proof.
  intros Hv Hw. unfold report, analyzePod.
  assert (Hc : pod_constraints pod snap (indexPDBs snap) p =
               pod_constraints pod snap (indexPDBs snap) (to_core p)).
  { unfold pod_constraints. by rewrite resourceConstraint_core. }
  rewrite Hc. case_match; [|done]. unfold st_bind, CandidateNodes.
  destruct (candidates_core pod (NodeNames p) p Hv Hw) as (J1&J2&J3).
  rewrite candidates_pure. rewrite names_core in *. change (NodeNames (to_core p))
    with (Core.NodeNames (to_core p)).
  destruct (candidates pod _ p) as [l q]. simpl in *. by subst.
Qed.

Lemma analyzePods_core pods snap (p : P) :
  valid p → forallb wf_pod pods = true →
  (analyzePods pods snap (indexPDBs snap) p).1 = map (report snap (to_core p)) pods.
Proof.
  revert p. induction pods as [|pod pods IH]; intros p Hv; simpl; [done|].
  intros [Hw Hws]%andb_true_iff. unfold st_bind.
  destruct (analyzePod_core pod snap p Hv Hw) as (J1&J2&J3).
  destruct (analyzePod pod snap (indexPDBs snap) p) as [pc q]; simpl in *.
  specialize (IH q J3 Hws). destruct (analyzePods pods snap (indexPDBs snap) q) as [l r].
  simpl in *. congruence.
Qed.

Lemma Analyze_pods snap :
  wf_snapshot snap = true →
  Analysis.Pods (Analyze P snap) =
  sort_by key_less (map (report snap (Core.NewPlacementCeiling snap F64.zero))
                      (ClusterSnapshot.Pods snap)).
Proof.
  intros Hw. unfold Analyze.
  pose proof (analyzePods_core (ClusterSnapshot.Pods snap) snap (new_placement snap F64.zero)
    (new_valid snap F64.zero Hw)) as Ha.
  destruct (analyzePods _ _ _ _) as [l q]. simpl in *. rewrite Ha; [by rewrite new_core|].
  by apply andb_true_iff in Hw as [_ ?].
Qed.

Lemma Analyze_index snap :
  Analysis.index (Analyze P snap) = Some (index_from 0 (Analysis.Pods (Analyze P snap)) ∅).
Proof. unfold Analyze. by destruct (analyzePods _ _ _ _) as [l q]. Qed.
End client.

(** ** Looking pods up *)

Lemma index_from_cons start pc pods m :
  index_from start (pc :: pods) m =
  index_from (S start) pods (<[PodConstraints.Key pc := start]> m).
Proof. done. Qed.

Lemma index_from_other start pods m key :
  key ∉ PodConstraints.Key <$> pods → index_from start pods m !! key = m !! key.
Proof.
  revert start m. induction pods as [|pc pods IH]; intros start m Hn; [done|].
  rewrite index_from_cons, IH.
  - apply lookup_insert_ne. intros He. apply Hn. simpl. rewrite He. by left.
  - intros Hk. apply Hn. by right.
Qed.

Lemma index_from_lookup start pods m i pc :
  NoDup (PodConstraints.Key <$> pods) → pods !! i = Some pc →
  index_from start pods m !! PodConstraints.Key pc = Some (start + i)%nat.
Proof.
  revert start m i. induction pods as [|x pods IH]; intros start m i Hd Hi; [done|].
  inversion Hd as [|?? Hx Hd']; subst. rewrite index_from_cons. destruct i as [|i].
  - injection Hi as ->. rewrite index_from_other by done. rewrite lookup_insert_eq. f_equal. lia.
  - simpl in Hi. rewrite (IH _ _ i) by done. f_equal. lia.
Qed.

Lemma ForPod_computed pods t pc :
  NoDup (PodConstraints.Key <$> pods) → pc ∈ pods →
  Analysis.ForPod (Analysis.mk t pods (Some (index_from 0 pods ∅))) (PodConstraints.Key pc) = Some pc.
Proof.
  intros Hd [i Hi]%list_elem_of_lookup. unfold Analysis.ForPod. simpl.
  by rewrite (index_from_lookup 0 pods ∅ i pc).
Qed.

(** ** When a pod moves *)

Definition budgets_allow (snap : ClusterSnapshot.t) (pod : Pod.t) : Prop :=
  ∀ pdb, pdb ∈ ClusterSnapshot.PDBs snap →
    PodDisruptionBudget.Namespace pdb = Pod.Namespace pod →
    PodDisruptionBudget.covers pdb (Pod.Labels pod) = true →
    0 < PodDisruptionBudget.DisruptionsAllowed pdb.

Definition selector_reachable (snap : ClusterSnapshot.t) (pod : Pod.t) : Prop :=
  Pod.NodeSelector pod = ∅ ∨
  ∃ n, n ∈ ClusterSnapshot.Nodes snap ∧ (fitsNodeSelector pod n).1 = true.

Definition affinity_reachable (snap : ClusterSnapshot.t) (pod : Pod.t) : Prop :=
  (∀ a, Pod.NodeAffinity pod = Some a → NodeAffinity.RequiredTerms a = []) ∨
  ∃ n, n ∈ ClusterSnapshot.Nodes snap ∧ (fitsNodeAffinity pod n).1 = true.

Lemma pdb_constraint_blocking pdb :
  Constraint.Blocking (pdb_constraint pdb) = (PodDisruptionBudget.DisruptionsAllowed pdb <=? 0).
Proof. unfold pdb_constraint, PodDisruptionBudget.Blocks. by case_match. Qed.

Lemma pdb_blocking snap pod :
  existsb Constraint.Blocking (pdbConstraints pod (indexPDBs snap)) = false ↔
  budgets_allow snap pod.
Proof.
  rewrite existsb_false_elem. unfold pdbConstraints, budgets_allow. rewrite indexPDBs_lookup.
  split.
  - intros H pdb Hin Hns Hc. apply Z.leb_gt. rewrite <- pdb_constraint_blocking. apply H.
    apply list_elem_of_fmap_2, filter_elem. split; [|done]. apply filter_elem.
    split; [done|]. by apply String.eqb_eq.
  - intros H c (pdb & -> & [[Hin Hns%String.eqb_eq]%filter_elem Hc]%filter_elem)%list_elem_of_fmap.
    rewrite pdb_constraint_blocking. by apply Z.leb_gt, H.
Qed.

Lemma count_zero {A} (f : A → bool) l :
  (Z.of_nat (length (List.filter f l)) =? 0) = false ↔ ∃ x, x ∈ l ∧ f x = true.
Proof.
  rewrite Z.eqb_neq. split.
  - intros H. destruct (List.filter f l) as [|x r] eqn:E; [done|]. exists x.
    apply filter_elem. rewrite E. by left.
  - intros (x & Hx). apply filter_elem in Hx. destruct (List.filter f l); [|simpl; lia].
    by apply not_elem_of_nil in Hx.
Qed.

Lemma node_selector_blocking snap pod :
  existsb Constraint.Blocking (option_list (nodeSelectorConstraint pod snap)) = false ↔
  selector_reachable snap pod.
Proof.
  unfold nodeSelectorConstraint, selector_reachable.
  case_bool_decide as Hs; simpl.
  - split; [|done]. intros _. left. by apply map_size_empty_inv.
  - rewrite orb_false_r, count_zero. split.
    + intros (n & Hn & Hf). right. exists n. split; [done|]. apply fitsNodeSelector_iff.
      intros k v Hk. rewrite forallb_elem in Hf. specialize (Hf (k, v)).
      rewrite elem_of_map_to_list in Hf. by apply String.eqb_eq, Hf.
    + intros [He|(n & Hn & Hf)]; [exfalso; apply Hs; by rewrite He|]. exists n. split; [done|].
      rewrite fitsNodeSelector_iff in Hf. apply forallb_elem. intros [k v] Hk%elem_of_map_to_list.
      by apply String.eqb_eq, Hf.
Qed.

Lemma node_affinity_blocking snap pod :
  existsb Constraint.Blocking (option_list (nodeAffinityConstraint pod snap)) = false ↔
  affinity_reachable snap pod.
Proof.
  unfold nodeAffinityConstraint, affinity_reachable, fitsNodeAffinity.
  destruct (Pod.NodeAffinity pod) as [[terms]|]; simpl; [|by split; [left|]].
  destruct terms as [|t terms]; simpl; [split; [|done]; intros _; left; by intros ? [= <-]|].
  rewrite orb_false_r, count_zero. split.
  - intros (n & Hn & Hf). right. exists n. split; [done|]. by rewrite Hf.
  - intros [H|(n & Hn & Hf)]; [by specialize (H _ eq_refl)|]. exists n. split; [done|].
    by destruct (_ || _).
Qed.

Lemma never_blocking snap pod :
  existsb Constraint.Blocking (podAffinityConstraints pod) = false ∧
  existsb Constraint.Blocking (topologySpreadConstraints pod snap) = false ∧
  existsb Constraint.Blocking (option_list (taintToleranceConstraint pod snap)) = false.
Proof.
  split_and!.
  - apply existsb_false_elem. intros c. unfold podAffinityConstraints.
    destruct (Pod.PodAffinity pod); [|by intros ?%elem_of_nil].
    rewrite elem_of_app, !list_elem_of_fmap. by intros [(? & -> & _)|(? & -> & _)].
  - apply existsb_false_elem. intros c. unfold topologySpreadConstraints.
    rewrite list_elem_of_fmap. intros (tsc & -> & _). cbv zeta. by case_match.
  - unfold taintToleranceConstraint. cbv zeta. by case_match.
Qed.

Lemma report_movable_eq snap p pod :
  PodConstraints.Movable (report snap p pod) =
  Pod.IsMovable pod && negb (existsb Constraint.Blocking (pod_constraints pod snap (indexPDBs snap) p)).
Proof.
  unfold report, analyzePod. case_match; [|done]. unfold st_bind. by destruct (CandidateNodes pod p).
Qed.

Lemma report_constraints snap p pod :
  PodConstraints.Constraints (report snap p pod) = pod_constraints pod snap (indexPDBs snap) p.
Proof.
  unfold report, analyzePod. case_match; [|done]. unfold st_bind. by destruct (CandidateNodes pod p).
Qed.

(** What cannot move is held by a blocking constraint, or has already finished. *)
Lemma immovable_blocked snap p pod :
  PodConstraints.Movable (report snap p pod) = false → Pod.finished pod = false →
  PodConstraints.Blockers (report snap p pod) ≠ [].
Proof.
  rewrite report_movable_eq. unfold PodConstraints.Blockers. rewrite report_constraints. intros Hm Hf.
  assert (Hb : existsb Constraint.Blocking (pod_constraints pod snap (indexPDBs snap) p) = true).
  { destruct (existsb _ _) eqn:E; [done|]. exfalso. rewrite andb_true_r in Hm. revert E.
    unfold pod_constraints. rewrite !existsb_app, !orb_false_iff. intros (H1 & H2 & H3 & H4 & _).
    unfold Pod.IsMovable, Pod.finished in *. apply orb_false_iff in Hf as [Hf1 Hf2]. rewrite Hf1, Hf2 in Hm.
    destruct (Pod.Terminating pod); [done|]. cbn in Hm. unfold Pod.PinnedToNode, Pod.IsMirrorPod, Pod.owner_kind_is in *.
    destruct (Pod.Owner pod) as [o|]; [|by destruct (Pod.DoNotDisrupt pod)].
    destruct (_ =? "DaemonSet")%string; [done|]. destruct (_ =? "Node")%string; [done|]. by destruct (Pod.DoNotDisrupt pod). }
  apply existsb_elem in Hb as (c & Hc & Hb). intros E. apply (not_elem_of_nil c). rewrite <- E. by apply filter_elem.
Qed.

(** A pinned pod always carries the constraint that says so. *)
Lemma pinned_blocked snap p pod :
  Pod.PinnedToNode pod = true →
  PodConstraints.Movable (report snap p pod) = false ∧ PodConstraints.Blockers (report snap p pod) ≠ [].
Proof.
  intros Hp. assert (Hb : existsb Constraint.Blocking (pod_constraints pod snap (indexPDBs snap) p) = true).
  { unfold pod_constraints. rewrite !existsb_app. unfold Pod.PinnedToNode, Pod.IsMirrorPod, Pod.owner_kind_is in *.
    destruct (Pod.Owner pod) as [o|]; [|done]. destruct (_ =? "DaemonSet")%string; [by rewrite orb_true_r|].
    rewrite orb_false_l in Hp. rewrite Hp. by rewrite !orb_true_r. }
  split; [rewrite report_movable_eq, Hb; apply andb_false_r|]. unfold PodConstraints.Blockers. rewrite report_constraints.
  apply existsb_elem in Hb as (c & Hc & Hb). intros E. apply (not_elem_of_nil c). rewrite <- E. by apply filter_elem.
Qed.

Lemma report_movable snap p pod :
  PodConstraints.Movable (report snap p pod) = true ↔
  Pod.IsMovable pod = true ∧ budgets_allow snap pod ∧
  selector_reachable snap pod ∧ affinity_reachable snap pod.
Proof.
  rewrite <- pdb_blocking, <- node_selector_blocking, <- node_affinity_blocking.
  destruct (never_blocking snap pod) as (N1&N2&N3).
  rewrite report_movable_eq, andb_true_iff, negb_true_iff.
  destruct (Pod.IsMovable pod) eqn:Hmov; [|by split; intros [? _]]. apply and_iff_compat_l.
  assert (Hno : Pod.DoNotDisrupt pod = false ∧ Pod.owner_kind_is "DaemonSet" pod = false ∧
    Pod.IsMirrorPod pod = false ∧ Pod.Terminating pod = false).
  { unfold Pod.IsMovable, Pod.PinnedToNode, Pod.IsMirrorPod, Pod.owner_kind_is in *.
    destruct (Pod.Terminating pod); [done|]. destruct (_ || _); [done|].
    destruct (Pod.Owner pod) as [o|]; [|by destruct (Pod.DoNotDisrupt pod)].
    destruct (_ =? "DaemonSet")%string; [done|]. destruct (_ =? "Node")%string; [done|].
    by destruct (Pod.DoNotDisrupt pod). }
  unfold pod_constraints. destruct Hno as (-> & -> & -> & ->).
  rewrite !existsb_app, N1, N2, N3. cbn [existsb].
  assert (existsb Constraint.Blocking (if Pod.HasPersistentVol pod then [persistent_volume] else [])
    = false) as -> by by case_match.
  change (Constraint.Blocking (resourceConstraint pod snap p)) with false.
  rewrite !orb_false_r, !orb_false_l, !orb_false_iff. done.
Qed.

(** ** The pods of an analysis *)

Lemma report_key snap p pod : PodConstraints.Key (report snap p pod) = Pod.Key pod.
Proof.
  unfold report, analyzePod. case_match; [|done]. unfold st_bind.
  by destruct (CandidateNodes pod p).
Qed.

Lemma report_node snap p pod : PodConstraints.NodeName (report snap p pod) = Pod.NodeName pod.
Proof.
  unfold report, analyzePod. case_match; [|done]. unfold st_bind.
  by destruct (CandidateNodes pod p).
Qed.

Lemma report_pinned snap p pod :
  PodConstraints.PinnedToNode (report snap p pod) =
  Pod.owner_kind_is "DaemonSet" pod || Pod.IsMirrorPod pod.
Proof.
  unfold report, analyzePod. case_match; [|done]. unfold st_bind.
  by destruct (CandidateNodes pod p).
Qed.

Lemma report_candidates snap p pod :
  PodConstraints.CandidateNodes (report snap p pod) =
  if PodConstraints.Movable (report snap p pod)
  then List.filter (λ n, negb (n =? Pod.NodeName pod)%string && (Core.CanPlace p pod n).1)
         (Core.nodeOrder p)
  else [].
Proof.
  unfold report, analyzePod. case_match; [|done].
  unfold st_bind, CandidateNodes. by rewrite candidates_pure.
Qed.

Lemma report_candidates_iff snap pod n :
  wf_snapshot snap = true → few_pods (Core.NewPlacementCeiling snap F64.zero) →
  n ∈ PodConstraints.CandidateNodes (report snap (Core.NewPlacementCeiling snap F64.zero) pod) ↔
  PodConstraints.Movable (report snap (Core.NewPlacementCeiling snap F64.zero) pod) = true ∧
  n ≠ Pod.NodeName pod ∧ feasible (Core.NewPlacementCeiling snap F64.zero) pod n.
Proof.
  intros Hw Hf. rewrite report_candidates. destruct (PodConstraints.Movable _).
  2:{ split; [by intros ?%elem_of_nil|]. by intros [? _]. }
  assert (Hcw : core_wf (Core.NewPlacementCeiling snap F64.zero)).
  { apply new_wf. by apply andb_true_iff in Hw as [?%bool_decide_eq_true _]. }
  rewrite filter_elem, andb_true_iff, negb_true_iff, String.eqb_neq. split.
  - intros (Hn & Hne & Hp). split_and!; [done..|]. apply (wf_dom _ Hcw) in Hn as [ns Hns].
    exists ns. split; [done|]. by apply canplace_feasible_on.
  - intros (_ & Hne & ns & Hns & Hp). split_and!; [|done|].
    + apply (wf_dom _ Hcw). by exists ns.
    + by apply (canplace_feasible_on _ _ _ ns).
Qed.

(** The nodes of an assignment are those of the snapshot. *)
Lemma new_node_of snap c n ns :
  Core.nodes (Core.NewPlacementCeiling snap c) !! n = Some ns → NodeState.node ns ∈ ClusterSnapshot.Nodes snap.
Proof.
  unfold Core.NewPlacementCeiling. set (p0 := fold_left _ (ClusterSnapshot.Nodes snap) _). intros Hn.
  assert (H0 : ∀ m, ∀ x, Core.nodes p0 !! m = Some x → NodeState.node x ∈ ClusterSnapshot.Nodes snap).
  { subst p0. clear Hn. revert n ns. generalize (ClusterSnapshot.Nodes snap) as l. intros l _ _.
    induction l as [|a l IH] using rev_ind; intros m x; [cbn; by rewrite lookup_empty|].
    rewrite fold_left_app. cbn. rewrite elem_of_app, list_elem_of_singleton.
    intros [[<- <-]|[_ Hx]]%lookup_insert_Some; [by right|left; by eapply IH]. }
  revert n ns Hn. clearbody p0. revert p0 H0. induction (ClusterSnapshot.Pods snap) as [|pod pods IH]; intros p0 H0 n ns; [apply H0|].
  cbn [fold_left]. apply IH. intros m x. unfold Core.add_pod. repeat case_match; try apply H0.
  cbn. intros [[<- <-]|[_ Hx]]%lookup_insert_Some; [|by eapply H0]. cbn. by eapply H0.
Qed.

Lemma feasible_reaches snap c pod n :
  feasible (Core.NewPlacementCeiling snap c) pod n → selector_reachable snap pod ∧ affinity_reachable snap pod.
Proof.
  intros (ns & Hn%new_node_of & Hf). destruct Hf.
  split; right; exists (NodeState.node ns); (split; [done|]).
  - by apply fitsNodeSelector_iff.
  - by apply fitsNodeAffinity_iff.
Qed.

(** A pod has somewhere to go exactly when it may move, its budgets allow it and
another node can take it. *)
Lemma report_has_candidate snap pod :
  wf_snapshot snap = true → few_pods (Core.NewPlacementCeiling snap F64.zero) →
  PodConstraints.CandidateNodes (report snap (Core.NewPlacementCeiling snap F64.zero) pod) ≠ [] ↔
  Pod.IsMovable pod = true ∧ budgets_allow snap pod ∧
  ∃ n, n ≠ Pod.NodeName pod ∧ feasible (Core.NewPlacementCeiling snap F64.zero) pod n.
Proof.
  intros Hw Hf. split.
  - destruct (PodConstraints.CandidateNodes _) as [|n l] eqn:E; [done|]. intros _.
    assert (Hn : n ∈ PodConstraints.CandidateNodes (report snap (Core.NewPlacementCeiling snap F64.zero) pod))
      by (rewrite E; left).
    apply report_candidates_iff in Hn as (Hm & Hne & Hfe); [|done..]. apply report_movable in Hm. naive_solver.
  - intros (Hm & Hb & n & Hne & Hfe) E. pose proof (feasible_reaches _ _ _ _ Hfe) as [Hs Ha].
    apply (not_elem_of_nil n). rewrite <- E. apply report_candidates_iff; [done..|].
    split_and!; [by apply report_movable|done|done].
Qed.

Definition unique_keys (snap : ClusterSnapshot.t) : Prop :=
  NoDup (Pod.Key <$> ClusterSnapshot.Pods snap).

Lemma elem_of_analysis {P} `{PlacementLaws P} snap pc :
  wf_snapshot snap = true →
  pc ∈ Analysis.Pods (Analyze P snap) ↔
  ∃ pod, pod ∈ ClusterSnapshot.Pods snap ∧
    pc = report snap (Core.NewPlacementCeiling snap F64.zero) pod.
Proof.
  intros Hw. rewrite Analyze_pods by done. rewrite elem_of_sort_by.
  rewrite list_elem_of_fmap. naive_solver.
Qed.

Lemma ForPod_report {P} `{PlacementLaws P} snap pod :
  wf_snapshot snap = true → unique_keys snap → pod ∈ ClusterSnapshot.Pods snap →
  Analysis.ForPod (Analyze P snap) (Pod.Key pod) =
  Some (report snap (Core.NewPlacementCeiling snap F64.zero) pod).
Proof.
  intros Hw Hk Hin. set (pc := report snap _ pod).
  rewrite <- (report_key snap (Core.NewPlacementCeiling snap F64.zero) pod). fold pc.
  pose proof (Analyze_index (P:=P) snap) as Hi.
  assert (Hpc : pc ∈ Analysis.Pods (Analyze P snap)) by (apply elem_of_analysis; eauto).
  assert (Hd : NoDup (PodConstraints.Key <$> Analysis.Pods (Analyze P snap))).
  { rewrite Analyze_pods by done. rewrite sort_by_perm. rewrite <- list_fmap_compose.
    erewrite list_fmap_ext; [exact Hk|]. intros i x _. apply report_key. }
  destruct (Analyze P snap) as [t pods idx]. simpl in *. subst idx. by apply ForPod_computed.
Qed.

(** ** Draining a node *)

Definition blockers_of (pc : PodConstraints.t) : list Constraint.t :=
  if PodConstraints.PinnedToNode pc then []
  else if negb (PodConstraints.Movable pc) then PodConstraints.Blockers pc
  else if bool_decide (PodConstraints.CandidateNodes pc = []) then [Analysis.no_room pc]
  else [].

Definition can_leave (pc : PodConstraints.t) : bool :=
  PodConstraints.PinnedToNode pc ||
  (PodConstraints.Movable pc && negb (bool_decide (PodConstraints.CandidateNodes pc = []))).

Lemma drain_fold pcs b bs :
  fold_left Analysis.drain_step pcs (b, bs) =
  (b && forallb can_leave pcs, bs ++ (pcs ≫= blockers_of)).
Proof.
  revert b bs. induction pcs as [|pc pcs IH]; intros b bs.
  - simpl. by rewrite andb_true_r, app_nil_r.
  - rewrite bind_cons. cbn [fold_left forallb]. unfold Analysis.drain_step at 2.
    unfold blockers_of at 1, can_leave at 1.
    destruct (PodConstraints.PinnedToNode pc); [apply IH|].
    destruct (PodConstraints.Movable pc); simpl negb; cbv iota.
    + case_bool_decide; rewrite IH; simpl; [|by rewrite ?app_nil_r].
      by rewrite andb_false_r, <- app_assoc.
    + rewrite IH. simpl. by rewrite andb_false_r, <- app_assoc.
Qed.

Lemma NodeDrainable_eq a n :
  Analysis.NodeDrainable a n =
  (forallb can_leave (Analysis.ForNode a n), Analysis.ForNode a n ≫= blockers_of).
Proof. unfold Analysis.NodeDrainable. by rewrite drain_fold. Qed.
