(* ===== verification/AnalyzerProps.v ===== *)
(** * What the analyzer guarantees *)
From S2P Require Import Prelude Float64 Model Cluster Fixtures WorkingPlacement PlacementFacts IndexFacts FeasibilityFacts Analyzer AnalyzerFacts.

(** The analysis lists every pod of the snapshot exactly once, in key order,
finds each by its key and no other, and what it says of a pod does not depend
on the memoised counts: it is the report the bare assignment gives. *)
Theorem analysis_complete snap :
  wf_snapshot snap = true → unique_keys snap →
  let a := Analyze Placement.t snap in
  Analysis.Pods a ≡ₚ map (report snap (Core.NewPlacementCeiling snap F64.zero)) (ClusterSnapshot.Pods snap) ∧
  Sorted (λ x y, str_ltb (PodConstraints.Key y) (PodConstraints.Key x) = false) (Analysis.Pods a) ∧
  (∀ pod, pod ∈ ClusterSnapshot.Pods snap →
     Analysis.ForPod a (Pod.Key pod) =
     Some (report snap (Core.NewPlacementCeiling snap F64.zero) pod)) ∧
  (∀ key, key ∉ Pod.Key <$> ClusterSnapshot.Pods snap → Analysis.ForPod a key = None).
Proof.
  intros Hw Hk a. split_and!.
  - unfold a. rewrite Analyze_pods by done. apply sort_by_perm.
  - unfold a. rewrite Analyze_pods by done. apply (sort_by_sorted key_less).
    intros x y. apply str_ltb_asym.
  - intros pod Hin. by apply ForPod_report.
  - intros key Hn. unfold Analysis.ForPod, a. rewrite Analyze_index.
    rewrite index_from_other; [by rewrite lookup_empty|].
    rewrite Analyze_pods, sort_by_perm, <- list_fmap_compose by done.
    erewrite list_fmap_ext; [exact Hn|]. intros i x _. apply report_key.
Qed.

Lemma shop_unique : unique_keys shop.
Proof. unfold unique_keys. eapply bool_decide_eq_true_1. by vm_compute. Qed.

Lemma analysis_complete_witness :
  option_map PodConstraints.CandidateNodes
    (Analysis.ForPod (Analyze Placement.t shop) "shop/w2") = Some ["c"].
Proof.
  destruct (analysis_complete shop) as (_ & _ & H & _); [by vm_compute|apply shop_unique|].
  specialize (H (web "w2" "b")). change (Pod.Key (web "w2" "b")) with "shop/w2" in H.
  rewrite H; [by vm_compute|]. by right; left.
Defined.

(** A pod is reported movable exactly when it is running, unpinned and not
marked hands-off, every disruption budget that covers it allows a disruption,
and some node meets its node selector and some node its required affinity; its
candidates are then exactly the other nodes that could take it, and a pod that
cannot move has none. *)
Theorem movable_iff snap pod pc :
  wf_snapshot snap = true → unique_keys snap →
  few_pods (Core.NewPlacementCeiling snap F64.zero) →
  pod ∈ ClusterSnapshot.Pods snap →
  Analysis.ForPod (Analyze Placement.t snap) (Pod.Key pod) = Some pc →
  (PodConstraints.Movable pc = true ↔
     Pod.IsMovable pod = true ∧ budgets_allow snap pod ∧
     selector_reachable snap pod ∧ affinity_reachable snap pod) ∧
  (∀ n, n ∈ PodConstraints.CandidateNodes pc ↔
     PodConstraints.Movable pc = true ∧ n ≠ Pod.NodeName pod ∧
     feasible (Core.NewPlacementCeiling snap F64.zero) pod n).
Proof.
  intros Hw Hk Hf Hin. rewrite ForPod_report by done. intros [= <-].
  split; [apply report_movable|]. intros n. by apply report_candidates_iff.
Qed.

Lemma movable_iff_witness :
  feasible (Core.NewPlacementCeiling shop F64.zero) (db "d1" "c") "a" ∧
  ¬ feasible (Core.NewPlacementCeiling shop F64.zero) (db "d1" "c") "b".
Proof.
  destruct (analysis_complete shop) as (_ & _ & H & _); [by vm_compute|apply shop_unique|].
  assert (Hin : db "d1" "c" ∈ ClusterSnapshot.Pods shop) by (by do 2 right; left).
  destruct (movable_iff shop (db "d1" "c") _ ltac:(by vm_compute) shop_unique ltac:(by vm_compute)
    Hin (H _ Hin)) as [_ Hc].
  match type of Hc with context [PodConstraints.CandidateNodes ?p] =>
    assert (Hl : PodConstraints.CandidateNodes p = ["a"]) by (by vm_compute); rewrite Hl in Hc end.
  (* The candidates are computed; what remains does not depend on feasibility. *)
  match goal with |- ?f "a" ∧ _ => set (F := f) in *; clearbody F end.
  pose proof (proj1 (Hc "a") (list_elem_of_here _ _)) as (_ & _ & Ha).
  split; [exact Ha|]. intros Hf.
  assert (Hb : "b" ∈ ["a"]); [|by apply list_elem_of_singleton in Hb].
  apply (proj2 (Hc "b")). split_and!; [by vm_compute|by vm_compute|exact Hf].
Defined.

(** A node is reported drainable exactly when each of its pods is pinned to
it or is movable with somewhere to go; the blockers returned are those of the
pods that cannot leave, in key order, and a pod without a candidate is named. *)
Theorem drainable_iff a n :
  ((Analysis.NodeDrainable a n).1 = true ↔
   ∀ pc, pc ∈ Analysis.Pods a → PodConstraints.NodeName pc = n →
     PodConstraints.PinnedToNode pc = true ∨
     (PodConstraints.Movable pc = true ∧ PodConstraints.CandidateNodes pc ≠ [])) ∧
  (∀ c, c ∈ (Analysis.NodeDrainable a n).2 ↔
   ∃ pc, pc ∈ Analysis.Pods a ∧ PodConstraints.NodeName pc = n ∧
     PodConstraints.PinnedToNode pc = false ∧
     ((PodConstraints.Movable pc = false ∧ c ∈ PodConstraints.Constraints pc ∧
       Constraint.Blocking c = true) ∨
      (PodConstraints.Movable pc = true ∧ PodConstraints.CandidateNodes pc = [] ∧
       c = Analysis.no_room pc))).
Proof.
  rewrite NodeDrainable_eq. simpl. unfold Analysis.ForNode. split.
  - rewrite forallb_elem. setoid_rewrite filter_elem. setoid_rewrite String.eqb_eq.
    unfold can_leave. setoid_rewrite orb_true_iff. setoid_rewrite andb_true_iff.
    setoid_rewrite negb_true_iff. setoid_rewrite bool_decide_eq_false. naive_solver.
  - intros c. rewrite list_elem_of_bind. setoid_rewrite filter_elem. setoid_rewrite String.eqb_eq.
    split.
    + intros (pc & Hc & Hin & Hn). exists pc. split_and!; [done..| |]; unfold blockers_of in Hc.
      * destruct (PodConstraints.PinnedToNode pc); [by apply elem_of_nil in Hc|done].
      * destruct (PodConstraints.PinnedToNode pc); [by apply elem_of_nil in Hc|].
        destruct (PodConstraints.Movable pc); simpl in Hc.
        -- case_bool_decide; [|by apply elem_of_nil in Hc]. right.
           by apply list_elem_of_singleton in Hc.
        -- left. by apply filter_elem in Hc as [? ?].
    + intros (pc & Hin & Hn & Hp & Hc). exists pc. split; [|done]. unfold blockers_of. rewrite Hp.
      destruct Hc as [(-> & Hc & Hb)|(-> & He & ->)]; simpl.
      * by apply filter_elem.
      * rewrite bool_decide_eq_true_2 by done. by left.
Qed.

(** a pod that has already finished holds its node: it is neither pinned nor
movable, so the node it ran on is reported undrainable, although the pod
itself contributes no blocker when nothing else restricts it.  The planner, in
contrast, passes over finished pods when it drains a node. *)
Theorem finished_pod_holds_node snap pod :
  wf_snapshot snap = true → unique_keys snap →
  pod ∈ ClusterSnapshot.Pods snap → Pod.finished pod = true → Pod.PinnedToNode pod = false →
  (Analysis.NodeDrainable (Analyze Placement.t snap) (Pod.NodeName pod)).1 = false ∧
  Pod.IsMovable pod = false.
Proof.
  intros Hw Hk Hin Hfin Hpin.
  assert (Hm : Pod.IsMovable pod = false).
  { unfold Pod.IsMovable, Pod.finished in *. rewrite <- orb_assoc, Hfin, orb_true_r. done. }
  split; [|done]. rewrite NodeDrainable_eq. simpl. apply not_true_iff_false. rewrite forallb_elem.
  intros H. specialize (H (report snap (Core.NewPlacementCeiling snap F64.zero) pod)).
  unfold can_leave in H. rewrite report_pinned in H.
  assert (Hp : Pod.owner_kind_is "DaemonSet" pod || Pod.IsMirrorPod pod = false).
  { revert Hpin. unfold Pod.PinnedToNode, Pod.IsMirrorPod, Pod.owner_kind_is.
    by destruct (Pod.Owner pod). }
  assert (Hmov : PodConstraints.Movable (report snap (Core.NewPlacementCeiling snap F64.zero) pod) = false).
  { apply not_true_iff_false. rewrite report_movable. intros [? _]. congruence. }
  rewrite Hp, Hmov in H. simpl in H. enough (false = true) by done. apply H.
  unfold Analysis.ForNode. apply filter_elem. split; [|by rewrite report_node, String.eqb_refl].
  apply elem_of_analysis; [done|]. by exists pod.
Qed.

Definition job : Pod.t :=
  Pod.mk "shop" "job" "a" ∅ PodSucceeded 0 (Resources.mk 100 100 0) ∅ [] None None [] false
    (Some (OwnerRef.mk "Job" "nightly")) "" 0 false false false None.

Lemma finished_pod_holds_node_witness :
  Analysis.NodeDrainable (Analyze Placement.t (ex_snapshot [job])) "a" = (false, []).
Proof.
  assert (H : (Analysis.NodeDrainable (Analyze Placement.t (ex_snapshot [job])) "a").1 = false).
  { apply (finished_pod_holds_node (ex_snapshot [job]) job).
    - by vm_compute.
    - unfold unique_keys. eapply bool_decide_eq_true_1. by vm_compute.
    - by left.
    - by vm_compute.
    - by vm_compute. }
  vm_compute in H |- *. exact (f_equal (λ b, (b, [])) H).
Defined.
