(* ===== verification/Planner.v ===== *)
(** * The planner (internal/planner/planner.go, greedy.go)

Turns a snapshot into an ordered list of consolidation steps: a greedy
first-fit-decreasing pass over the drain candidates, emptiest first, committing
a node only when all of its movable pods find a home.  Written against
[PlacementOps]; each trial works on a clone of the working placement. *)
From S2P Require Import Prelude GoLib Float64 Model Cluster WorkingPlacement Analyzer.

#[local] Open Scope state_scope.

(** ** planner.go *)

Module Options.

Record t : Type := mk {
  MaxSteps : Z;
  ExcludeNodeLabels : list string;
  ExcludeNamespaces : list string;
  MinNodeAge : duration;
  Now : time;
  PackCeiling : float64;
}.

Definition DefaultExcludeNodeLabels : list string :=
  ["node-role.kubernetes.io/control-plane"; "node-role.kubernetes.io/master"].

(** [PackCeiling] is the literal 0.85. *)
Definition DefaultOptions : t :=
  mk 0 DefaultExcludeNodeLabels [] (10 * Minute) 0 (F64.lit 85 100).

(** [nodeExcluded], with the reason. *)
Definition nodeExcluded (o : t) (n : Node.t) (now : time) : verdict :=
  match List.find (λ key, bool_decide (is_Some (Node.Labels n !! key))) (ExcludeNodeLabels o) with
  | Some key => (true, "carries excluded label " +:+ key)
  | None =>
      if (0 <? MinNodeAge o) && negb (IsZeroTime (Node.CreatedAt n)) &&
         (time_Sub now (Node.CreatedAt n) <? MinNodeAge o)
      then (true, "younger than the " +:+ duration_string (MinNodeAge o) +:+ " minimum node age")
      else (false, "")
  end.

Definition namespaceExcluded (o : t) (ns : string) : bool := contains (ExcludeNamespaces o) ns.

End Options.

Definition nl : string := String (Ascii.ascii_of_nat 10) EmptyString.

Definition move_text (m : Move.t) : string :=
  Move.Namespace m +:+ "/" +:+ Move.Pod m +:+ ":" +:+ Move.FromNode m +:+ ">" +:+ Move.ToNode m +:+ ",".

Definition step_text (s : PlanStep.t) : string :=
  pretty (PlanStep.SequenceNumber s) +:+ "|" +:+ PlanStep.TargetNode s +:+ "|" +:+
  sconcat (move_text <$> PlanStep.Moves s) +:+ nl.

(** [planID]: the first twelve hex digits of the hash of the rendering. *)
Definition planID (strategy : string) (steps : list PlanStep.t) : string :=
  str_take 12 (SHA256.sum_hex (strategy +:+ nl +:+ sconcat (step_text <$> steps))).

Definition stepID (s : PlanStep.t) : string := planID "step" [s].

Definition occupiedInSnapshot (snap : ClusterSnapshot.t) : Z :=
  Z.of_nat (length (List.filter (λ node,
    negb (Resources.IsZero (ClusterSnapshot.RequestedOnNode snap (Node.Name node))))
    (ClusterSnapshot.Nodes snap))).

(** The order of [sortPodsBySizeDesc]. *)
Definition bigger (a b : Pod.t) : bool :=
  let ra := Pod.Requests a in
  let rb := Pod.Requests b in
  if negb (Resources.MilliCPU ra =? Resources.MilliCPU rb)
  then Resources.MilliCPU rb <? Resources.MilliCPU ra
  else if negb (Resources.MemoryBytes ra =? Resources.MemoryBytes rb)
  then Resources.MemoryBytes rb <? Resources.MemoryBytes ra
  else str_ltb (Pod.Key a) (Pod.Key b).

Definition sortPodsBySizeDesc (pods : list Pod.t) : list Pod.t := sort_by bigger pods.

Definition describeMoves (moves : list Move.t) : string :=
  join " " ((λ m, Move.Namespace m +:+ "/" +:+ Move.Pod m +:+ "->" +:+ Move.ToNode m) <$> moves).

(** [drainCandidates] *)
Definition drainCandidates (snap : ClusterSnapshot.t) (opts : Options.t) (now : time) : list Node.t :=
  List.filter (λ n,
    Node.Ready n && negb (Options.nodeExcluded opts n now).1 && negb (Node.DoNotDisrupt n))
    (ClusterSnapshot.Nodes snap).

Section placements.
Context {P : Type} `{PlacementOps P}.

Definition occupiedNodes (p : P) : Z :=
  Z.of_nat (length (List.filter (λ name, negb (IsEmpty p name)) (NodeNames p))).

Definition requestedRatio (n : Node.t) (p : P) : float64 :=
  let free := Free p (Node.Name n) in
  let used := Resources.Sub (Node.Allocatable n) free in
  Resources.DominantRatio used (Node.Allocatable n).

Definition emptier (p : P) (a b : Node.t) : bool :=
  let ra := requestedRatio a p in
  let rb := requestedRatio b p in
  if negb (F64.eqb ra rb) then F64.ltb ra rb else str_ltb (Node.Name a) (Node.Name b).

Definition sortNodesForDraining (nodes : list Node.t) (p : P) : list Node.t :=
  sort_by (emptier p) nodes.

(** ** greedy.go *)

Definition freeBasis (trial : P) (name : string) : Resources.t :=
  Resources.Add (Free trial name)
    (fold_left (λ used p, Resources.Add (Resources.Add used (Pod.Requests p)) Resources.one_pod)
       (Occupants trial name) Resources.empty).

Definition used_ratio (trial : P) (name : string) : float64 :=
  F64.sub F64.one (Resources.DominantRatio (Free trial name) (freeBasis trial name)).

(** The order of the options of [firstFit]: fullest first, then by name. *)
Definition fuller (a b : string * float64) : bool :=
  if negb (F64.eqb a.2 b.2) then F64.ltb b.2 a.2 else str_ltb a.1 b.1.

(** The loop of [firstFit] that collects the options. *)
Fixpoint fit_options (pod : Pod.t) (source : string) (drained : gset string)
    (names : list string) : State P (list (string * float64)) :=
  match names with
  | [] => st_ret []
  | name :: names =>
      if (name =? source)%string || bool_decide (name ∈ drained)
      then fit_options pod source drained names
      else
        let* v := CanPlace pod name in
        if negb v.1 then fit_options pod source drained names
        else λ trial,
          let used := used_ratio trial name in
          (let* rest := fit_options pod source drained names in
           st_ret ((name, used) :: rest)) trial
  end.

(** The name of the best option, the empty string when there is none. *)
Definition best (options : list (string * float64)) : string :=
  match sort_by fuller options with [] => "" | (name, _) :: _ => name end.

Definition firstFit (pod : Pod.t) (source : string) (drained : gset string) :
    State P string := λ trial,
  (let* options := fit_options pod source drained (NodeNames trial) in
   st_ret (best options)) trial.

(** The pods of a node the drain must relocate; [None] where one of them
makes the node undrainable. *)
Fixpoint pods_to_move (analysis : Analysis.t) (opts : Options.t) (occupants : list Pod.t) :
    option (list Pod.t) :=
  match occupants with
  | [] => Some []
  | p :: occupants =>
      if negb (Pod.IsMovable p) then pods_to_move analysis opts occupants
      else if Options.namespaceExcluded opts (Pod.Namespace p) then None
      else match Analysis.ForPod analysis (Pod.Key p) with
           | Some pc =>
               if negb (PodConstraints.Movable pc) then None
               else pods ← pods_to_move analysis opts occupants; Some (p :: pods)
           | None => pods ← pods_to_move analysis opts occupants; Some (p :: pods)
           end
  end.

Definition move_of (p : Pod.t) (source target : string) : Move.t :=
  Move.mk (Pod.Namespace p) (Pod.Name p) source target
    (Resources.MilliCPU (Pod.Requests p)) (Resources.MemoryBytes (Pod.Requests p)).

(** The placement loop of [tryDrain] on the trial copy. *)
Fixpoint place_all (source : string) (drained : gset string) (pods : list Pod.t) (trial : P) :
    option (list Move.t) :=
  match pods with
  | [] => Some []
  | p :: pods =>
      let '(target, trial) := firstFit p source drained trial in
      if (target =? "")%string then None
      else
        let trial := Place p target (Remove p trial) in
        moves ← place_all source drained pods trial;
        Some (move_of p source target :: moves)
  end.

Definition tryDrain (work : P) (node : Node.t) (drained : gset string)
    (analysis : Analysis.t) (opts : Options.t) : option (list Move.t) :=
  match pods_to_move analysis opts (Occupants work (Node.Name node)) with
  | None | Some [] => None
  | Some pods => place_all (Node.Name node) drained (sortPodsBySizeDesc pods) (Clone work)
  end.

Definition findPod (p : P) (nodeName namespace name : string) : option Pod.t :=
  List.find (λ o, (Pod.Namespace o =? namespace)%string && (Pod.Name o =? name)%string)
    (Occupants p nodeName).

(** One iteration of the commit loop. *)
Definition commit_move (work : P) (m : Move.t) : P :=
  match findPod work (Move.FromNode m) (Move.Namespace m) (Move.Pod m) with
  | None => work
  | Some pod => Place pod (Move.ToNode m) (Remove pod work)
  end.

(** What the loop of [Plan] updates. *)
Record progress : Type := mk_progress {
  work : P;
  drained : gset string;
  steps : list PlanStep.t;
  alreadyReclaimable : Z;
}.

Fixpoint plan_loop (snap : ClusterSnapshot.t) (analysis : Analysis.t) (opts : Options.t)
    (candidates : list Node.t) (st : progress) : progress :=
  match candidates with
  | [] => st
  | node :: candidates =>
      if (0 <? Options.MaxSteps opts) &&
         (Options.MaxSteps opts <=? Z.of_nat (length (steps st))) then st
      else if IsEmpty (work st) (Node.Name node) then
        plan_loop snap analysis opts candidates
          (mk_progress (work st) ({[Node.Name node]} ∪ drained st) (steps st)
             (if negb (Resources.IsZero (ClusterSnapshot.RequestedOnNode snap (Node.Name node)))
              then alreadyReclaimable st + 1 else alreadyReclaimable st))
      else match tryDrain (work st) node (drained st) analysis opts with
           | None => plan_loop snap analysis opts candidates st
           | Some moves =>
               plan_loop snap analysis opts candidates
                 (mk_progress (fold_left commit_move moves (work st))
                    ({[Node.Name node]} ∪ drained st)
                    (steps st ++ [PlanStep.fresh (Z.of_nat (length (steps st)) + 1)
                                    (Node.Name node) moves])
                    (alreadyReclaimable st))
           end
  end.

Definition planning_time (snap : ClusterSnapshot.t) (opts : Options.t) : time :=
  if IsZeroTime (Options.Now opts) then ClusterSnapshot.TakenAt snap else Options.Now opts.

Definition initial (snap : ClusterSnapshot.t) (opts : Options.t) : progress :=
  mk_progress (new_placement snap (Options.PackCeiling opts)) ∅ [] 0.

(** The drain order: candidates, emptiest first in the initial placement. *)
Definition drain_order (snap : ClusterSnapshot.t) (opts : Options.t) : list Node.t :=
  sortNodesForDraining (drainCandidates snap opts (planning_time snap opts))
    (new_placement snap (Options.PackCeiling opts)).

Definition Name : string := "greedy-first-fit-decreasing".

(** [Greedy.Plan]; [wall] is [time.Now().UTC()]. *)
Definition Greedy_Plan (wall : time) (snap : ClusterSnapshot.t) (analysis : Analysis.t)
    (opts : Options.t) : Plan.t :=
  let nodesBefore := occupiedInSnapshot snap in
  let st := plan_loop snap analysis opts (drain_order snap opts) (initial snap opts) in
  let steps := (λ s, PlanStep.set_ID (stepID s) s) <$> steps st in
  Plan.mk (planID Name steps) wall PlanValid (ClusterSnapshot.TakenAt snap) steps nodesBefore
    (nodesBefore - Z.of_nat (length steps) - alreadyReclaimable st)
    (alreadyReclaimable st) (Options.PackCeiling opts).
End placements.

Arguments progress P : clear implicits.
Arguments Greedy_Plan P {_} wall snap analysis opts.
