(* ===== verification/PlannerFacts.v ===== *)
(** * How a plan is made

The planner on any placement that obeys the laws computes what it computes on
the bare assignment; there, every trial is a sequence of feasible moves that
empties its node, and committing a trial repeats it. *)
From S2P Require Import Prelude GoLib Float64 Model Cluster WorkingPlacement PlacementFacts IndexFacts FeasibilityFacts CapacityFacts Analyzer Planner.

(** ** Refinement: the planner does not see the representation *)

Section refine.
Context {P : Type} `{PlacementLaws P}.

Lemma used_ratio_core (p : P) n : used_ratio p n = used_ratio (to_core p) n.
Proof. unfold used_ratio, freeBasis. by rewrite !free_core, !occupants_core. Qed.

Lemma fit_options_core pod source drained names (p : P) :
  valid p → wf_pod pod = true →
  (fit_options pod source drained names p).1 =
    (fit_options pod source drained names (to_core p)).1 ∧
  to_core (fit_options pod source drained names p).2 = to_core p ∧
  valid (fit_options pod source drained names p).2.
Proof.
  intros Hv Hw. revert p Hv. induction names as [|n names IH]; intros p Hv; simpl; [done|].
  destruct (_ || _); [by apply IH|]. unfold st_bind at 1 3 5 7. simpl.
  pose proof (canplace_core pod n p Hv Hw) as H1. pose proof (canplace_keeps pod n p) as H2.
  pose proof (canplace_valid pod n p Hv Hw) as H3.
  destruct (CanPlace pod n p) as [v q]. simpl in *. subst v.
  destruct (IH q H3) as (I1&I2&I3). rewrite H2 in *.
  destruct (negb _); [done|]. unfold st_bind.
  rewrite used_ratio_core, H2.
  destruct (fit_options pod source drained names q) as [l r].
  destruct (fit_options pod source drained names (to_core p)) as [l' r']. simpl in *. by subst.
Qed.

Lemma firstFit_core pod source drained (p : P) :
  valid p → wf_pod pod = true →
  (firstFit pod source drained p).1 = (firstFit pod source drained (to_core p)).1 ∧
  to_core (firstFit pod source drained p).2 = to_core p ∧
  valid (firstFit pod source drained p).2.
Proof.
  intros Hv Hw. unfold firstFit, st_bind.
  destruct (fit_options_core pod source drained (NodeNames p) p Hv Hw) as (H1&H2&H3).
  rewrite names_core in *. change (NodeNames (to_core p)) with (Core.NodeNames (to_core p)).
  destruct (fit_options pod source drained _ p) as [l q].
  destruct (fit_options pod source drained _ (to_core p)) as [l' q']. simpl in *. by subst.
Qed.

Lemma core_fit_options_state pod source drained names (p : Core.t) :
  (fit_options pod source drained names p).2 = p.
Proof.
  induction names as [|n names IH]; simpl; [done|]. case_match; [done|].
  unfold st_bind at 1. simpl. destruct (negb _); [done|]. unfold st_bind.
  by destruct (fit_options pod source drained names p).
Qed.

Lemma core_firstFit_state pod source drained (p : Core.t) :
  (firstFit pod source drained p).2 = p.
Proof.
  unfold firstFit, st_bind. pose proof (core_fit_options_state pod source drained (NodeNames p) p).
  by destruct (fit_options pod source drained (NodeNames p) p).
Qed.

Lemma place_all_core source drained pods (p : P) :
  valid p → Forall (λ pod, wf_pod pod = true) pods →
  place_all source drained pods p = place_all source drained pods (to_core p).
Proof.
  intros Hv Hw. revert p Hv. induction Hw as [|pod pods Hw Hws IH]; intros p Hv; simpl; [done|].
  destruct (firstFit_core pod source drained p Hv Hw) as (H1&H2&H3).
  pose proof (core_firstFit_state pod source drained (to_core p)) as H4.
  destruct (firstFit pod source drained p) as [t q].
  destruct (firstFit pod source drained (to_core p)) as [t' q']. simpl in *. subst t q'.
  case_match; [done|]. rewrite IH; [|by apply place_valid; [apply remove_valid|]].
  by rewrite place_core, remove_core, H2.
Qed.

Lemma pods_to_move_sub analysis opts os pods :
  pods_to_move analysis opts os = Some pods → ∀ pod, pod ∈ pods → pod ∈ os.
Proof.
  revert pods. induction os as [|o os IH]; intros pods; simpl; [by intros [= <-]|].
  destruct (negb (Pod.IsMovable o)); [intros Hp pod Hin; right; by eapply IH|].
  destruct (Options.namespaceExcluded _ _); [done|].
  intros Hp. assert (∃ rest, pods_to_move analysis opts os = Some rest ∧ pods = o :: rest)
    as (rest & Hr & ->).
  { destruct (Analysis.ForPod analysis (Pod.Key o)) as [pc|]; [destruct (negb _); [done|]|];
      destruct (pods_to_move analysis opts os) as [rest|]; try done;
      injection Hp as <-; eauto. }
  intros pod [->|Hin]%elem_of_cons; [by left|]. right. by eapply IH.
Qed.

Lemma tryDrain_core (p : P) node drained analysis opts :
  valid p →
  tryDrain p node drained analysis opts = tryDrain (to_core p) node drained analysis opts.
Proof.
  intros Hv. unfold tryDrain. rewrite occupants_core.
  change (Occupants (to_core p)) with (Core.Occupants (to_core p)).
  destruct (pods_to_move _ _ _) as [[|pod pods]|] eqn:Hp; [done| |done].
  rewrite place_all_core; [by rewrite clone_core|by apply clone_valid|].
  unfold sortPodsBySizeDesc. rewrite sort_by_perm. apply Forall_forall. intros o Ho.
  pose proof (occupants_wf p (Node.Name node) Hv) as Hocc. rewrite occupants_core, Forall_forall in Hocc.
  apply Hocc. by eapply pods_to_move_sub.
Qed.

Lemma findPod_elem (p : P) n ns name pod : findPod p n ns name = Some pod → pod ∈ Occupants p n.
Proof. intros [Hin _]%List.find_some. by apply list_elem_of_In. Qed.

Lemma commit_core moves (p : P) :
  valid p →
  to_core (fold_left commit_move moves p) = fold_left commit_move moves (to_core p) ∧
  valid (fold_left commit_move moves p).
Proof.
  revert p. induction moves as [|m moves IH]; intros p Hv; simpl; [done|].
  assert (Hone : to_core (commit_move p m) = commit_move (to_core p) m ∧ valid (commit_move p m)).
  { unfold commit_move.
    assert (Hf : findPod p (Move.FromNode m) (Move.Namespace m) (Move.Pod m) =
      findPod (to_core p) (Move.FromNode m) (Move.Namespace m) (Move.Pod m))
      by (unfold findPod; by rewrite occupants_core).
    destruct (findPod p _ _ _) as [pod|] eqn:Hpod; rewrite <- Hf; [|done].
    split; [by rewrite place_core, remove_core|].
    apply place_valid; [by apply remove_valid|].
    pose proof (occupants_wf p (Move.FromNode m) Hv) as Hocc. rewrite Forall_forall in Hocc.
    apply Hocc. by eapply findPod_elem. }
  destruct Hone as [H1 H2]. destruct (IH _ H2) as [I1 I2]. by rewrite I1, H1.
Qed.

Lemma plan_loop_core snap analysis opts nodes (st : progress P) :
  valid (work st) →
  let st' := plan_loop snap analysis opts nodes st in
  let c := plan_loop snap analysis opts nodes
    (mk_progress (to_core (work st)) (drained st) (steps st) (alreadyReclaimable st)) in
  to_core (work st') = work c ∧ drained st' = drained c ∧ steps st' = steps c ∧
  alreadyReclaimable st' = alreadyReclaimable c.
Proof.
  revert st. induction nodes as [|n nodes IH]; intros st Hv; simpl; [done|].
  case_match; [done|]. unfold IsEmpty. rewrite occupants_core.
  change (Occupants (to_core (work st))) with (Core.Occupants (to_core (work st))).
  case_match; [by apply IH|]. rewrite tryDrain_core by done.
  destruct (tryDrain _ _ _ _ _) as [moves|]; [|by apply IH].
  destruct (commit_core moves (work st) Hv) as [J1 J2].
  pose proof (IH (mk_progress (fold_left commit_move moves (work st))
    ({[Node.Name n]} ∪ drained st)
    (steps st ++ [PlanStep.fresh (Z.of_nat (length (steps st)) + 1) (Node.Name n) moves])
    (alreadyReclaimable st)) J2) as IH'. simpl in IH'. by rewrite J1 in IH'.
Qed.

Lemma sort_by_ext {A} (f g : A → A → bool) l : (∀ a b, f a b = g a b) → sort_by f l = sort_by g l.
Proof.
  intros He. induction l as [|x l IH]; simpl; [done|]. rewrite IH. generalize (sort_by g l).
  intros k. induction k as [|y k IHk]; simpl; [done|]. by rewrite He, IHk.
Qed.

Lemma drain_order_core snap opts :
  drain_order (P:=P) snap opts = drain_order (P:=Core.t) snap opts.
Proof.
  unfold drain_order, sortNodesForDraining. apply sort_by_ext. intros a b.
  unfold emptier, requestedRatio. by rewrite !free_core, !new_core.
Qed.

(** The plan is a function of the assignment alone. *)
Lemma Greedy_Plan_core wall snap analysis opts :
  wf_snapshot snap = true →
  Greedy_Plan P wall snap analysis opts = Greedy_Plan Core.t wall snap analysis opts.
Proof.
  intros Hw. unfold Greedy_Plan. cbv zeta. rewrite drain_order_core.
  destruct (plan_loop_core snap analysis opts (drain_order (P:=Core.t) snap opts)
    (initial snap opts) (new_valid _ _ Hw)) as (_ & _ & Hs & Ha).
  rewrite Hs, Ha. unfold initial. cbn [work drained steps alreadyReclaimable].
  by rewrite new_core.
Qed.
End refine.

(** ** Comparing fullness *)

Lemma fuller_asym a b : fuller a b = true → fuller b a = false.
Proof.
  unfold fuller. rewrite (F64.eqb_sym b.2). destruct (F64.eqb a.2 b.2); simpl;
    [apply str_ltb_asym|apply F64.ltb_asym].
Qed.

Lemma fuller_trans a b c :
  F64.is_nan a.2 = false → F64.is_nan b.2 = false → F64.is_nan c.2 = false →
  fuller b a = false → fuller c b = false → fuller c a = false.
Proof.
  intros Ha Hb Hc. unfold fuller.
  destruct (F64.eqb_rank_spec b.2 a.2), (F64.eqb_rank_spec c.2 b.2), (F64.eqb_rank_spec c.2 a.2);
    try done; simpl; try congruence; [by apply str_nltb_trans|..];
    destruct (F64.ltb_rank_spec a.2 b.2), (F64.ltb_rank_spec b.2 c.2), (F64.ltb_rank_spec a.2 c.2);
    try done; intros _ _; exfalso; rewrite F64.lex_lt in *;
    destruct (F64.rank a.2) as [[a1 a2] a3], (F64.rank b.2) as [[b1 b2] b3],
      (F64.rank c.2) as [[c1 c2] c3]; simpl in *; simplify_eq; try lia.
  apply n. f_equal; [f_equal|]; lia.
Qed.

Lemma best_spec options :
  Forall (λ o, F64.is_nan o.2 = false) options →
  options = [] ∨
  ∃ n u, best options = n ∧ (n, u) ∈ options ∧ ∀ o, o ∈ options → fuller o (n, u) = false.
Proof.
  intros Hn. rewrite Forall_forall in Hn. pose proof (sort_by_head fuller options fuller_asym) as H.
  unfold best. destruct (sort_by fuller options) as [|[n u] t].
  - left. apply H. intros a b c ???. apply fuller_trans; auto.
  - right. exists n, u. split; [done|]. apply H. intros a b c ???. apply fuller_trans; auto.
Qed.
