(* ===== verification/PlanReplay.v ===== *)
(** * Replaying a plan

What the steps of a plan mean: [drain_ok] replays the moves of one step,
[plan_ok] the steps of a plan, each move feasible when it is made and each
step leaving its node empty; and the planner's loops produce such replays. *)
From S2P Require Import Prelude GoLib Float64 Model Cluster WorkingPlacement PlacementFacts IndexFacts FeasibilityFacts CapacityFacts Analyzer Planner PlannerFacts.

(** ** Occupants after an operation *)

Lemma occupants_place pod n p m :
  is_Some (Core.nodes p !! n) →
  Core.Occupants (Core.Place pod n p) m =
  if (m =? n)%string then Core.Occupants p n ++ [Pod.set_NodeName n pod] else Core.Occupants p m.
Proof.
  intros [ns Hn]. unfold Core.Place, Core.Occupants. rewrite Hn. simpl.
  destruct (String.eqb_spec m n) as [->|]; [by rewrite lookup_insert_eq|].
  by rewrite lookup_insert_ne.
Qed.

Lemma occupants_remove pod p ns o rest m :
  Core.removed pod p = Some (ns, o, rest) →
  Core.Occupants (Core.Remove pod p) m =
  if (m =? Pod.NodeName pod)%string then rest else Core.Occupants p m.
Proof.
  intros Hr. unfold Core.Remove, Core.Occupants. rewrite Hr. simpl.
  destruct (String.eqb_spec m (Pod.NodeName pod)) as [->|]; [by rewrite lookup_insert_eq|].
  by rewrite lookup_insert_ne.
Qed.

Lemma removed_occupants pod p ns o rest :
  Core.removed pod p = Some (ns, o, rest) →
  Core.Occupants p (Pod.NodeName pod) ≡ₚ o :: rest ∧ sameKey o pod = true.
Proof.
  intros [Hn (_ & Hk & Hp)%take_pod_spec]%removed_spec. unfold Core.Occupants. by rewrite Hn.
Qed.

Lemma same_nodes_some p q n :
  same_nodes p q → is_Some (Core.nodes p !! n) → is_Some (Core.nodes q !! n).
Proof.
  intros [_ H] [ns Hn]. specialize (H n). rewrite Hn in H.
  destruct (Core.nodes q !! n); [eauto|done].
Qed.

(** ** Pods with distinct names *)

Record distinct (p : Core.t) : Prop := {
  distinct_nodup n : NoDup (Core.Occupants p n);
  distinct_key n1 n2 o1 o2 :
    o1 ∈ Core.Occupants p n1 → o2 ∈ Core.Occupants p n2 → sameKey o1 o2 = true → o1 = o2;
}.

Lemma sameKey_iff a b :
  sameKey a b = true ↔ Pod.Namespace a = Pod.Namespace b ∧ Pod.Name a = Pod.Name b.
Proof. unfold sameKey. by rewrite andb_true_iff, !String.eqb_eq. Qed.

Lemma occupant_node p n o : core_wf p → o ∈ Core.Occupants p n → Pod.NodeName o = n.
Proof.
  intros Hw. unfold Core.Occupants. destruct (Core.nodes p !! n) as [ns|] eqn:Hn;
    [|by intros ?%elem_of_nil].
  destruct (wf_sits _ Hw _ _ Hn) as [_ Hf]. rewrite Forall_forall in Hf. apply Hf.
Qed.

(** An occupant of its node is what [Remove] takes off. *)
Lemma removed_self p n pod :
  core_wf p → distinct p → pod ∈ Core.Occupants p n →
  ∃ ns rest, Core.removed pod p = Some (ns, pod, rest).
Proof.
  intros Hw Hd Hin. pose proof (occupant_node _ _ _ Hw Hin) as Hnode.
  unfold Core.removed. rewrite Hnode. pose proof Hin as Hin'. unfold Core.Occupants in Hin'.
  destruct (Core.nodes p !! n) as [ns|] eqn:Hn; [|by apply elem_of_nil in Hin']. simpl.
  destruct (take_pod pod (NodeState.occupants ns)) as [[o rest]|] eqn:Ht; simpl.
  - apply take_pod_spec in Ht as (Ho & Hk & _). exists ns, rest.
    rewrite (distinct_key _ Hd n n o pod); [done| |done..]. unfold Core.Occupants. by rewrite Hn.
  - exfalso. rewrite take_pod_None in Ht. specialize (Ht pod Hin').
    by rewrite sameKey_refl in Ht.
Qed.

Lemma remove_distinct p pod ns rest :
  core_wf p → distinct p → Core.removed pod p = Some (ns, pod, rest) →
  distinct (Core.Remove pod p) ∧
  ∀ n o, o ∈ Core.Occupants (Core.Remove pod p) n → o ∈ Core.Occupants p n ∧ sameKey o pod = false.
Proof.
  intros Hw Hd Hr. destruct (removed_occupants _ _ _ _ _ Hr) as [Hp _].
  pose proof (distinct_nodup _ Hd (Pod.NodeName pod)) as Hnd. rewrite Hp in Hnd.
  inversion Hnd as [|?? Hnot Hnd']; subst.
  assert (Hpod : pod ∈ Core.Occupants p (Pod.NodeName pod)) by (rewrite Hp; by left).
  assert (Hsub : ∀ n o, o ∈ Core.Occupants (Core.Remove pod p) n →
    o ∈ Core.Occupants p n ∧ o ≠ pod ∨ o ∈ Core.Occupants p n ∧ n ≠ Pod.NodeName pod).
  { intros n o. rewrite (occupants_remove _ _ _ _ _ _ Hr).
    destruct (String.eqb_spec n (Pod.NodeName pod)) as [->|]; [|by right].
    intros Ho. left. split; [rewrite Hp; by right|]. by intros ->. }
  split.
  - split.
    + intros n. rewrite (occupants_remove _ _ _ _ _ _ Hr). case_match; [done|]. apply Hd.
    + intros n1 n2 o1 o2 H1 H2. apply (distinct_key _ Hd n1 n2).
      * by destruct (Hsub _ _ H1) as [[]|[]].
      * by destruct (Hsub _ _ H2) as [[]|[]].
  - intros n o Ho. assert (Hin : o ∈ Core.Occupants p n) by (by destruct (Hsub _ _ Ho) as [[]|[]]).
    split; [done|]. apply not_true_iff_false. intros Hk.
    pose proof (distinct_key _ Hd n (Pod.NodeName pod) o pod Hin Hpod Hk) as ->.
    destruct (Hsub _ _ Ho) as [[_ ?]|[_ Hne]]; [done|].
    apply Hne. symmetry. by apply (occupant_node p).
Qed.

Lemma place_distinct p pod n :
  distinct p → (∀ m o, o ∈ Core.Occupants p m → sameKey o pod = false) →
  is_Some (Core.nodes p !! n) → distinct (Core.Place pod n p).
Proof.
  intros Hd Hk Hn.
  assert (Hold : ∀ m o, o ∈ Core.Occupants (Core.Place pod n p) m →
    o ∈ Core.Occupants p m ∨ o = Pod.set_NodeName n pod).
  { intros m o. rewrite occupants_place by done. destruct (String.eqb_spec m n) as [->|]; [|by left].
    rewrite elem_of_app, list_elem_of_singleton. done. }
  assert (Hnew : ∀ m o, o ∈ Core.Occupants p m → sameKey o (Pod.set_NodeName n pod) = false).
  { intros m o Ho. by apply (Hk m). }
  split.
  - intros m. rewrite occupants_place by done. case_match; [|apply Hd].
    apply NoDup_app. split; [apply Hd|]. split; [|apply NoDup_singleton].
    intros o Ho ->%list_elem_of_singleton. specialize (Hnew _ _ Ho).
    by rewrite sameKey_refl in Hnew.
  - intros n1 n2 o1 o2 H1 H2 Hs. apply Hold in H1, H2. destruct H1 as [H1| ->], H2 as [H2| ->].
    + by eapply (distinct_key _ Hd).
    + by rewrite (Hnew _ _ H1) in Hs.
    + rewrite sameKey_iff in Hs. destruct Hs as [??].
      enough (sameKey o2 (Pod.set_NodeName n pod) = true) by (rewrite (Hnew _ _ H2) in *; done).
      by apply sameKey_iff.
    + done.
Qed.

(** ** Replays *)

Section replay.
Context (analysis : Analysis.t) (opts : Options.t).

(** Policy and analysis let the pod be moved. *)
Definition may_move (pod : Pod.t) : Prop :=
  Pod.IsMovable pod = true ∧ Options.namespaceExcluded opts (Pod.Namespace pod) = false ∧
  ∀ pc, Analysis.ForPod analysis (Pod.Key pod) = Some pc → PodConstraints.Movable pc = true.

(** [drain_ok drained source p moves q]: from [p], the moves relocate pods of
[source], one at a time, each to a node that is not drained and that can take
it at that point, ending in [q]. *)
Inductive drain_ok (drained : gset string) (source : string) :
    Core.t → list Move.t → Core.t → Prop :=
| drain_nil p : drain_ok drained source p [] p
| drain_cons p pod ns rest target moves q :
    Core.removed pod p = Some (ns, pod, rest) →
    Pod.NodeName pod = source → may_move pod →
    target ≠ source → target ∉ drained →
    (Core.CanPlace p pod target).1 = true →
    drain_ok drained source (Core.Place pod target (Core.Remove pod p)) moves q →
    drain_ok drained source p (move_of pod source target :: moves) q.

(** [plan_ok p D steps q E]: the steps take the assignment from [p] to [q] and
the set of drained nodes from [D] to [E]; between steps, empty nodes may be
marked drained too. *)
Inductive plan_ok : Core.t → gset string → list PlanStep.t → Core.t → gset string → Prop :=
| plan_done p D : plan_ok p D [] p D
| plan_empty p D n steps q E :
    IsEmpty p n = true → plan_ok p ({[n]} ∪ D) steps q E → plan_ok p D steps q E
| plan_step p D s mid steps q E :
    IsEmpty p (PlanStep.TargetNode s) = false →
    drain_ok D (PlanStep.TargetNode s) p (PlanStep.Moves s) mid →
    IsEmpty mid (PlanStep.TargetNode s) = true →
    plan_ok mid ({[PlanStep.TargetNode s]} ∪ D) steps q E →
    plan_ok p D (s :: steps) q E.

Lemma canplace_exists p pod n : (Core.CanPlace p pod n).1 = true → is_Some (Core.nodes p !! n).
Proof. unfold Core.CanPlace. by destruct (Core.nodes p !! n). Qed.

Lemma target_exists p pod n :
  (Core.CanPlace p pod n).1 = true → is_Some (Core.nodes (Core.Remove pod p) !! n).
Proof. intros H. eapply same_nodes_some; [apply remove_same_nodes|by eapply canplace_exists]. Qed.

Lemma drain_ok_wf drained source p moves q :
  drain_ok drained source p moves q → core_wf p ∧ distinct p → core_wf q ∧ distinct q.
Proof.
  induction 1 as [|p pod ns rest target moves q Hr Hn Hm Ht Hd Hc Hok IH]; [done|].
  intros [Hw Hdis]. apply IH. destruct (remove_distinct _ _ _ _ Hw Hdis Hr) as [H1 H2].
  split; [by apply place_wf, remove_wf|]. apply place_distinct; [done| |by apply target_exists].
  intros m o Ho. by apply (H2 m).
Qed.

(** Nodes that are neither the source nor a target keep their occupants. *)
Lemma drain_ok_frame drained source p moves q n :
  drain_ok drained source p moves q → n ∈ drained → n ≠ source →
  Core.Occupants q n = Core.Occupants p n.
Proof.
  intros Hok Hn Hs. induction Hok as [|p pod ns rest target moves q Hr Hsrc Hm Ht Hd Hc Hok IH];
    [done|].
  rewrite IH, occupants_place by (by apply target_exists).
  rewrite (proj2 (String.eqb_neq n target)) by (intros ->; done).
  rewrite (occupants_remove _ _ _ _ _ _ Hr), Hsrc.
  by rewrite (proj2 (String.eqb_neq n source)).
Qed.

Lemma drain_ok_moves drained source p moves q : drain_ok drained source p moves q → rtc move p q.
Proof.
  induction 1 as [|p pod ns rest target moves q Hr Hsrc Hm Ht Hd Hc Hok IH]; [done|].
  eapply rtc_l; [|exact IH]. eapply move_pod; [done|congruence|done].
Qed.

(** Finding the pod of a move finds the pod that was moved. *)
Lemma findPod_removed p pod ns rest :
  Core.removed pod p = Some (ns, pod, rest) →
  findPod p (Pod.NodeName pod) (Pod.Namespace pod) (Pod.Name pod) = Some pod.
Proof.
  intros [Hn Ht]%removed_spec. unfold findPod. simpl. unfold Core.Occupants. rewrite Hn.
  revert rest Ht. induction (NodeState.occupants ns) as [|o os IH]; intros rest; simpl; [done|].
  unfold sameKey. destruct (_ && _); [by intros [= -> _]|].
  destruct (take_pod pod os) as [[o' r]|]; simpl; [|done]. intros [= -> _]. by eapply IH.
Qed.

Lemma drain_ok_commit drained source p moves q :
  drain_ok drained source p moves q → fold_left commit_move moves p = q.
Proof.
  induction 1 as [|p pod ns rest target moves q Hr Hsrc Hm Ht Hd Hc Hok IH]; [done|].
  simpl. unfold commit_move at 2. simpl. subst source.
  rewrite (findPod_removed _ _ _ _ Hr). exact IH.
Qed.
End replay.

(** ** The planner's loops are replays *)

Lemma core_fit_options pod source drained names (p : Core.t) :
  (fit_options pod source drained names p).1 =
  (λ n, (n, used_ratio p n)) <$> List.filter (λ n,
    negb ((n =? source)%string || bool_decide (n ∈ drained)) && (Core.CanPlace p pod n).1) names.
Proof.
  induction names as [|n names IH]; simpl; [done|].
  destruct ((n =? source)%string || bool_decide (n ∈ drained)); simpl; [done|].
  unfold st_bind at 1. simpl. destruct (Core.CanPlace p pod n).1; simpl; [|done].
  unfold st_bind. destruct (fit_options pod source drained names p) as [l q]. simpl in *.
  by rewrite IH.
Qed.

Lemma best_elem options : best options ≠ "" → ∃ u, (best options, u) ∈ options.
Proof.
  unfold best. destruct (sort_by fuller options) as [|[n u] l] eqn:Hs; [done|].
  intros _. exists u. rewrite <- (elem_of_sort_by fuller), Hs. by left.
Qed.

Lemma core_firstFit_eq pod source drained (p : Core.t) :
  firstFit pod source drained p =
  (best ((λ n, (n, used_ratio p n)) <$> List.filter (λ n,
    negb ((n =? source)%string || bool_decide (n ∈ drained)) && (Core.CanPlace p pod n).1)
    (Core.nodeOrder p)), p).
Proof.
  pose proof (core_fit_options pod source drained (Core.nodeOrder p) p) as H1.
  pose proof (core_fit_options_state pod source drained (Core.nodeOrder p) p) as H2.
  unfold firstFit, st_bind. change (NodeNames p) with (Core.nodeOrder p).
  destruct (fit_options pod source drained (Core.nodeOrder p) p) as [l q]. simpl in *. by subst.
Qed.

Lemma firstFit_feasible pod source drained (p : Core.t) target :
  (firstFit pod source drained p).1 = target → target ≠ "" →
  target ≠ source ∧ (target ∉ drained) ∧ (Core.CanPlace p pod target).1 = true.
Proof.
  rewrite core_firstFit_eq. simpl. intros <- Hne. apply best_elem in Hne as [u Hin].
  apply list_elem_of_fmap in Hin as (n & [= He _] & [_ Hn]%filter_elem). rewrite He.
  apply andb_true_iff in Hn as [Hn Hc]. rewrite negb_true_iff, orb_false_iff in Hn.
  destruct Hn as [?%String.eqb_neq ?%bool_decide_eq_false]. done.
Qed.

Section loops.
Context (analysis : Analysis.t) (opts : Options.t).

Lemma pods_to_move_may os pods :
  pods_to_move analysis opts os = Some pods →
  (∀ pod, pod ∈ pods ↔ pod ∈ os ∧ Pod.IsMovable pod = true) ∧
  (∀ pod, pod ∈ pods → may_move analysis opts pod) ∧ (NoDup os → NoDup pods).
Proof.
  revert pods. induction os as [|o os IH]; intros pods; simpl.
  { intros [= <-]. split_and!; [|by intros ? ?%elem_of_nil|done].
    intros pod. rewrite elem_of_nil. naive_solver. }
  destruct (Pod.IsMovable o) eqn:Hm; simpl.
  2:{ intros Hp. destruct (IH _ Hp) as (I1&I2&I3). split_and!; [|done|].
      - intros pod. rewrite I1, elem_of_cons. split; [by intros [??]; auto|].
        intros [[->|?] ?]; [congruence|done].
      - inversion 1; subst. by apply I3. }
  destruct (Options.namespaceExcluded opts (Pod.Namespace o)) eqn:Hx; [done|]. intros Hp.
  assert (∃ rest, pods_to_move analysis opts os = Some rest ∧ pods = o :: rest ∧
    may_move analysis opts o) as (rest & Hr & -> & Hmay).
  { unfold may_move.
    destruct (Analysis.ForPod analysis (Pod.Key o)) as [pc|] eqn:Hpc;
      [destruct (PodConstraints.Movable pc) eqn:Hmv; [|done]|]; simpl in Hp;
      destruct (pods_to_move analysis opts os) as [rest|]; try done; injection Hp as <-;
      exists rest; split_and!; try done; intros ? [= <-]; done. }
  destruct (IH _ Hr) as (I1&I2&I3). split_and!.
  - intros pod. rewrite !elem_of_cons, I1. split; [intros [->|[??]]; auto|].
    intros [[->|?] ?]; auto.
  - intros pod [->|?]%elem_of_cons; auto.
  - inversion 1; subst. constructor; [|auto]. rewrite I1. by intros [? _].
Qed.

Lemma place_all_ok source drained pods p moves :
  core_wf p → distinct p → NoDup pods →
  (∀ pod, pod ∈ pods → pod ∈ Core.Occupants p source ∧ may_move analysis opts pod) →
  place_all source drained pods p = Some moves →
  ∃ q, drain_ok analysis opts drained source p moves q ∧
    ∀ o, o ∈ Core.Occupants q source → o ∈ Core.Occupants p source ∧ o ∉ pods.
Proof.
  revert p moves. induction pods as [|pod pods IH]; intros p moves Hw Hd Hnd Hpods; simpl.
  { intros [= <-]. exists p. split; [constructor|]. intros o Ho. split; [done|apply not_elem_of_nil]. }
  destruct (firstFit pod source drained p) as [target p'] eqn:Hff.
  assert (Hp' : p' = p) by (rewrite core_firstFit_eq in Hff; congruence). subst p'.
  destruct (String.eqb_spec target "") as [|Hne]; [done|].
  destruct (firstFit_feasible pod source drained p target) as (Ht1&Ht2&Ht3); [by rewrite Hff|done|].
  destruct (place_all source drained pods _) as [ms|] eqn:Hrest; [|done]. simpl. intros [= <-].
  destruct (Hpods pod) as [Hin Hmay]; [by left|].
  pose proof (occupant_node _ _ _ Hw Hin) as Hnode.
  destruct (removed_self p source pod Hw Hd Hin) as (ns & rest & Hr).
  destruct (remove_distinct p pod ns rest Hw Hd Hr) as [Hd' Hk].
  pose proof (target_exists _ _ _ Ht3) as Hex. inversion Hnd as [|?? Hnot Hnd']; subst x l.
  assert (Hocc : ∀ o, o ∈ Core.Occupants (Place pod target (Remove pod p)) source ↔
    o ∈ Core.Occupants p source ∧ o ≠ pod).
  { intros o. change (Place pod target (Remove pod p)) with (Core.Place pod target (Core.Remove pod p)).
    rewrite occupants_place by done. rewrite (proj2 (String.eqb_neq source target)) by congruence.
    split.
    - intros Ho. destruct (Hk source o Ho) as [? Hs]. split; [done|]. intros ->.
      by rewrite sameKey_refl in Hs.
    - intros [Ho Hne']. rewrite (occupants_remove _ _ _ _ _ _ Hr), Hnode, String.eqb_refl.
      destruct (removed_occupants _ _ _ _ _ Hr) as [Hp _]. rewrite Hnode in Hp.
      rewrite Hp in Ho. by apply elem_of_cons in Ho as [?|?]. }
  apply IH in Hrest as (q & Hq & Hleft); [|by apply place_wf, remove_wf| |done|].
  2:{ apply place_distinct; [done| |done]. intros m o Ho. by apply (Hk m). }
  2:{ intros o Ho. destruct (Hpods o) as [Ho' ?]; [by right|]. split; [|done].
      apply Hocc. split; [done|]. by intros ->. }
  exists q. split; [by econstructor|]. intros o Ho. destruct (Hleft o Ho) as [H1 H2].
  apply Hocc in H1 as [H1 H3]. split; [done|]. by rewrite not_elem_of_cons.
Qed.

Lemma IsEmpty_iff (p : Core.t) n :
  IsEmpty p n = true ↔ ∀ o, o ∈ Core.Occupants p n → Pod.IsMovable o = false.
Proof.
  unfold IsEmpty. rewrite negb_true_iff. rewrite <- not_true_iff_false, existsb_elem. split.
  - intros H o Ho. apply not_true_iff_false. intros Hm. apply H. eauto.
  - intros H (o & Ho & Hm). rewrite H in Hm; done.
Qed.

Lemma tryDrain_ok (p : Core.t) node drained moves :
  core_wf p → distinct p → tryDrain p node drained analysis opts = Some moves →
  ∃ q, drain_ok analysis opts drained (Node.Name node) p moves q ∧
    IsEmpty q (Node.Name node) = true.
Proof.
  intros Hw Hd. unfold tryDrain. change (Occupants p) with (Core.Occupants p).
  destruct (pods_to_move analysis opts (Core.Occupants p (Node.Name node))) as [pods|] eqn:Hp;
    [|done].
  destruct (pods_to_move_may _ _ Hp) as (H1&H2&H3).
  intros Hall.
  assert (Hall' : place_all (Node.Name node) drained (sortPodsBySizeDesc pods) p = Some moves)
    by (by destruct pods).
  apply place_all_ok in Hall' as (q & Hq & Hleft); [|done..| |].
  - exists q. split; [done|]. apply IsEmpty_iff. intros o Ho. destruct (Hleft o Ho) as [Ho1 Ho2].
    unfold sortPodsBySizeDesc in Ho2. rewrite elem_of_sort_by, H1 in Ho2.
    apply not_true_iff_false. intros Hm. by apply Ho2.
  - unfold sortPodsBySizeDesc. rewrite sort_by_perm. apply H3, Hd.
  - intros pod. unfold sortPodsBySizeDesc. rewrite elem_of_sort_by. intros Hin.
    split; [by apply H1|auto].
Qed.

(** The steps one run of the loop appends. *)
Lemma plan_loop_ok snap nodes (st : progress Core.t) :
  core_wf (work st) → distinct (work st) →
  ∃ new, let st' := plan_loop snap analysis opts nodes st in
    steps st' = steps st ++ new ∧
    plan_ok analysis opts (work st) (drained st) new (work st') (drained st') ∧
    sublist (PlanStep.TargetNode <$> new) (Node.Name <$> nodes).
Proof.
  revert st. induction nodes as [|n nodes IH]; intros st Hw Hd; simpl.
  { exists []. rewrite app_nil_r. split_and!; [done|constructor|done]. }
  destruct (_ && _). { exists []. rewrite app_nil_r. split_and!; [done|constructor|]. apply sublist_nil_l. }
  destruct (IsEmpty (work st) (Node.Name n)) eqn:He.
  - destruct (IH (mk_progress (work st) ({[Node.Name n]} ∪ drained st) (steps st)
      (if negb (Resources.IsZero (ClusterSnapshot.RequestedOnNode snap (Node.Name n)))
       then alreadyReclaimable st + 1 else alreadyReclaimable st))) as (new & H1 & H2 & H3); [done..|].
    exists new. split_and!; [done|by eapply plan_empty|]. by apply sublist_cons.
  - destruct (tryDrain (work st) n (drained st) analysis opts) as [moves|] eqn:Ht.
    2:{ destruct (IH st) as (new & H1 & H2 & H3); [done..|].
        exists new. split_and!; [done..|]. by apply sublist_cons. }
    destruct (tryDrain_ok _ _ _ _ Hw Hd Ht) as (q & Hq & Heq).
    destruct (drain_ok_wf _ _ _ _ _ _ _ Hq) as [Hqw Hqd]; [done|].
    rewrite (drain_ok_commit _ _ _ _ _ _ _ Hq).
    set (s := PlanStep.fresh _ (Node.Name n) moves).
    destruct (IH (mk_progress q ({[Node.Name n]} ∪ drained st) (steps st ++ [s])
      (alreadyReclaimable st))) as (new & H1 & H2 & H3); [done..|].
    exists (s :: new). simpl in *. split_and!.
    + rewrite H1. by rewrite <- app_assoc.
    + by eapply plan_step.
    + by apply sublist_skip.
Qed.
End loops.

(** ** From the snapshot on *)

Definition distinct_pods (snap : ClusterSnapshot.t) : Prop :=
  NoDup ((λ p, (Pod.Namespace p, Pod.Name p)) <$> ClusterSnapshot.Pods snap).

Lemma occupants_add_pod_eq p pod m o :
  o ∈ Core.Occupants (Core.add_pod p pod) m → o ∈ Core.Occupants p m ∨ o = pod.
Proof.
  unfold Core.add_pod, Core.Occupants. destruct (_ =? "")%string; [by left|].
  destruct (Core.nodes p !! Pod.NodeName pod) as [ns|] eqn:Hn; [|by left]. simpl.
  destruct (decide (Pod.NodeName pod = m)) as [<-|]; [|rewrite lookup_insert_ne by done; by left].
  rewrite lookup_insert_eq, Hn. simpl. rewrite elem_of_app, list_elem_of_singleton. done.
Qed.

Lemma add_pod_distinct p pod :
  distinct p → (∀ m o, o ∈ Core.Occupants p m → sameKey o pod = false) →
  distinct (Core.add_pod p pod).
Proof.
  intros Hd Hk. split.
  - intros m. pose proof (distinct_nodup _ Hd m) as Hm. revert Hm. specialize (Hk m). revert Hk.
    unfold Core.add_pod, Core.Occupants. destruct (_ =? "")%string; [done|].
    destruct (Core.nodes p !! Pod.NodeName pod) as [ns|] eqn:Hn; [|done]. simpl.
    destruct (decide (Pod.NodeName pod = m)) as [<-|]; [|by rewrite lookup_insert_ne].
    rewrite lookup_insert_eq, Hn. simpl. intros Hk Hm. apply NoDup_app.
    split; [done|]. split; [|apply NoDup_singleton].
    intros o Ho ->%list_elem_of_singleton. specialize (Hk pod Ho). by rewrite sameKey_refl in Hk.
  - intros n1 n2 o1 o2 [H1| ->]%occupants_add_pod_eq [H2| ->]%occupants_add_pod_eq Hs.
    + by eapply (distinct_key _ Hd).
    + by rewrite (Hk _ _ H1) in Hs.
    + apply sameKey_iff in Hs as [??].
      enough (sameKey o2 pod = true) by (rewrite (Hk _ _ H2) in *; done). by apply sameKey_iff.
    + done.
Qed.

Lemma new_distinct snap c : distinct_pods snap → distinct (Core.NewPlacementCeiling snap c).
Proof.
  unfold distinct_pods, Core.NewPlacementCeiling. intros Hnd.
  set (p0 := fold_left (Core.add_node c) _ _).
  assert (H0 : ∀ m, Core.Occupants p0 m = []).
  { assert (Hb : ∀ m, Core.Occupants (Core.mk ∅ []) m = []).
    { intros m. unfold Core.Occupants. simpl. by rewrite lookup_empty. }
    subst p0. revert Hb. generalize (Core.mk ∅ []). clear.
    induction (ClusterSnapshot.Nodes snap) as [|n ns IH]; intros p Hb; simpl; [done|].
    apply IH. intros m. unfold Core.Occupants. simpl.
    destruct (decide (Node.Name n = m)) as [<-|]; [by rewrite lookup_insert_eq|].
    rewrite lookup_insert_ne by done. apply Hb. }
  assert (Hd : distinct p0).
  { split; [intros m; rewrite H0; constructor|]. intros n1 n2 o1 o2. rewrite H0.
    by intros ?%elem_of_nil. }
  assert (Hk : ∀ m o pod, o ∈ Core.Occupants p0 m → pod ∈ ClusterSnapshot.Pods snap →
    sameKey o pod = false).
  { intros m o pod. rewrite H0. by intros ?%elem_of_nil. }
  clear H0. clearbody p0. revert p0 Hd Hk.
  induction (ClusterSnapshot.Pods snap) as [|pod pods IH]; intros p Hd Hk; simpl; [done|].
  inversion Hnd as [|?? Hnot Hnd']; subst. apply IH; [done| |].
  - apply add_pod_distinct; [done|]. intros m o Ho. apply (Hk m); [done|by left].
  - intros m o x [Ho| ->]%occupants_add_pod_eq Hx; [apply (Hk m); [done|by right]|].
    apply not_true_iff_false. intros [He1 He2]%sameKey_iff. apply Hnot. rewrite He1, He2.
    apply list_elem_of_fmap. by exists x.
Qed.

Section whole.
Context (analysis : Analysis.t) (opts : Options.t).

Lemma plan_ok_ids f p D steps q E :
  plan_ok analysis opts p D steps q E →
  plan_ok analysis opts p D ((λ s, PlanStep.set_ID (f s) s) <$> steps) q E.
Proof.
  induction 1; simpl; [constructor|by eapply plan_empty|]. by eapply plan_step.
Qed.

Lemma drain_ok_keeps_empty D source p moves q n :
  drain_ok analysis opts D source p moves q → n ∈ D → n ≠ source →
  IsEmpty p n = true → IsEmpty q n = true.
Proof.
  intros Hok Hn Hs. rewrite !IsEmpty_iff. by rewrite (drain_ok_frame _ _ _ _ _ _ _ n Hok Hn Hs).
Qed.

Lemma plan_ok_empty p D steps q E :
  plan_ok analysis opts p D steps q E → (∀ n, n ∈ D → IsEmpty p n = true) →
  ∀ n, n ∈ E → IsEmpty q n = true.
Proof.
  induction 1 as [|p D n steps q E He Hok IH|p D s mid steps q E He Hd Hm Hok IH]; intros HD; [done|..].
  - apply IH. intros m [->%elem_of_singleton|Hm]%elem_of_union; auto.
  - apply IH. intros m Hin. destruct (decide (m = PlanStep.TargetNode s)) as [->|Hne]; [done|].
    apply elem_of_union in Hin as [?%elem_of_singleton|Hin]; [done|].
    eapply drain_ok_keeps_empty; eauto.
Qed.

Lemma plan_ok_moves p D steps q E : plan_ok analysis opts p D steps q E → rtc move p q.
Proof.
  induction 1 as [|p D n steps q E He Hok IH|p D s mid steps q E He Hd Hm Hok IH]; [done..|].
  etrans; [by eapply drain_ok_moves|done].
Qed.

Lemma plan_ok_grows p D steps q E :
  plan_ok analysis opts p D steps q E → D ⊆ E ∧ ∀ s, s ∈ steps → PlanStep.TargetNode s ∈ E.
Proof.
  induction 1 as [|p D n steps q E He Hok IH|p D s mid steps q E He Hd Hm Hok IH].
  - split; [done|]. by intros s ?%elem_of_nil.
  - destruct IH as [H1 H2]. split; [set_solver|done].
  - destruct IH as [H1 H2]. split; [set_solver|]. intros x [->|Hx]%elem_of_cons; [set_solver|auto].
Qed.

Lemma Greedy_Plan_ok wall snap :
  wf_snapshot snap = true → distinct_pods snap →
  ∃ q D, plan_ok analysis opts (Core.NewPlacementCeiling snap (Options.PackCeiling opts)) ∅
    (Plan.Steps (Greedy_Plan Placement.t wall snap analysis opts)) q D.
Proof.
  intros Hw Hd. rewrite Greedy_Plan_core by done.
  assert (Hcw : core_wf (Core.NewPlacementCeiling snap (Options.PackCeiling opts))).
  { apply new_wf. by apply andb_true_iff in Hw as [?%bool_decide_eq_true _]. }
  destruct (plan_loop_ok analysis opts snap (drain_order (P:=Core.t) snap opts)
    (initial (P:=Core.t) snap opts)) as (new & H1 & H2 & _); [done|by apply new_distinct|].
  cbv zeta in H1. unfold Greedy_Plan. cbn [Plan.Steps]. rewrite H1.
  eexists _, _. apply plan_ok_ids. exact H2.
Qed.
End whole.

(** ** Numbering *)

Lemma plan_loop_numbers {P} `{PlacementOps P} analysis opts snap nodes (st : progress P) :
  let numbered steps := ∀ i s, steps !! i = Some s → PlanStep.SequenceNumber s = Z.of_nat i + 1 in
  let bounded steps :=
    0 < Options.MaxSteps opts → Z.of_nat (@length PlanStep.t steps) <= Options.MaxSteps opts in
  numbered (steps st) → bounded (steps st) →
  numbered (steps (plan_loop snap analysis opts nodes st)) ∧
  bounded (steps (plan_loop snap analysis opts nodes st)).
Proof.
  intros numbered bounded. revert st. induction nodes as [|n nodes IH]; intros st Hn Hb; simpl; [done|].
  destruct (_ && _) eqn:Hmax; [done|]. destruct (IsEmpty (work st) (Node.Name n)); [by apply IH|].
  destruct (tryDrain _ _ _ _ _) as [moves|]; [|by apply IH]. apply IH; simpl.
  - intros i s. rewrite lookup_app. destruct (steps st !! i) as [s'|] eqn:Hi.
    + intros [= <-]. by apply Hn.
    + intros [Hi' <-]%list_lookup_singleton_Some. apply lookup_ge_None in Hi. simpl. lia.
  - intros Hpos. rewrite length_app. simpl. apply andb_false_iff in Hmax as [?%Z.ltb_ge|Hlt%Z.leb_gt]; lia.
Qed.

Lemma plan_loop_targets {P} `{PlacementOps P} analysis opts snap nodes (st : progress P) :
  ∃ new, steps (plan_loop snap analysis opts nodes st) = steps st ++ new ∧
    sublist (PlanStep.TargetNode <$> new) (Node.Name <$> nodes).
Proof.
  revert st. induction nodes as [|n nodes IH]; intros st; simpl.
  { exists []. by rewrite app_nil_r. }
  destruct (_ && _). { exists []. rewrite app_nil_r. split; [done|apply sublist_nil_l]. }
  destruct (IsEmpty _ _).
  { destruct (IH (mk_progress (work st) ({[Node.Name n]} ∪ drained st) (steps st)
      (if negb (Resources.IsZero (ClusterSnapshot.RequestedOnNode snap (Node.Name n)))
       then alreadyReclaimable st + 1 else alreadyReclaimable st))) as (new & H1 & H2).
    exists new. split; [done|by apply sublist_cons]. }
  destruct (tryDrain _ _ _ _ _) as [moves|].
  - set (s := PlanStep.fresh _ (Node.Name n) moves).
    destruct (IH (mk_progress (fold_left commit_move moves (work st)) ({[Node.Name n]} ∪ drained st)
      (steps st ++ [s]) (alreadyReclaimable st))) as (new & H1 & H2).
    exists (s :: new). simpl in *. rewrite H1, <- app_assoc. split; [done|by apply sublist_skip].
  - destruct (IH st) as (new & H1 & H2). exists new. split; [done|by apply sublist_cons].
Qed.
