(* ===== verification/PlannerProps.v ===== *)
(** * What the planner guarantees *)
From S2P Require Import Prelude GoLib Float64 Model Cluster Fixtures WorkingPlacement PlacementFacts IndexFacts FeasibilityFacts CapacityFacts Analyzer Planner PlannerFacts PlanReplay PlacementProps.

(** C4: every plan can be carried out.  Replayed from the snapshot step by step
and move by move, each move takes a pod that is on the step's node, that policy
and analysis let move, to a node that is not drained and that can take it at
that moment; each step starts on a node with movable pods and leaves it with
none; and no drained node is ever filled again. *)
Theorem plan_replays wall snap analysis opts :
  wf_snapshot snap = true → distinct_pods snap →
  ∃ q D,
    plan_ok analysis opts (Core.NewPlacementCeiling snap (Options.PackCeiling opts)) ∅
      (Plan.Steps (Greedy_Plan Placement.t wall snap analysis opts)) q D ∧
    (∀ s, s ∈ Plan.Steps (Greedy_Plan Placement.t wall snap analysis opts) →
       IsEmpty q (PlanStep.TargetNode s) = true).
Proof.
  intros Hw Hd. destruct (Greedy_Plan_ok analysis opts wall snap Hw Hd) as (q & D & Hok).
  exists q, D. split; [done|]. intros s Hs. eapply plan_ok_empty; [exact Hok|set_solver|].
  by apply (plan_ok_grows _ _ _ _ _ _ _ Hok).
Qed.

Lemma shop_distinct : distinct_pods shop.
Proof. unfold distinct_pods. eapply bool_decide_eq_true_1. by vm_compute. Qed.

Definition shop_plan : Plan.t :=
  Greedy_Plan Placement.t 0 shop (Analyze Placement.t shop) Options.DefaultOptions.

Lemma plan_replays_witness :
  (∃ q D, plan_ok (Analyze Placement.t shop) Options.DefaultOptions
     (Core.NewPlacementCeiling shop (F64.lit 85 100)) ∅ (Plan.Steps shop_plan) q D ∧
     (∀ s, s ∈ Plan.Steps shop_plan → IsEmpty q (PlanStep.TargetNode s) = true)) ∧
  PlanStep.TargetNode <$> Plan.Steps shop_plan = ["c"].
Proof.
  split; [|by vm_compute].
  apply (plan_replays 0 shop (Analyze Placement.t shop) Options.DefaultOptions).
  - by vm_compute.
  - apply shop_distinct.
Defined.

(** C20: a plan respects its policy: steps are numbered from 1, there are at most
[MaxSteps] of them when a cap is set, no node is drained twice, and every
target is a ready node of the snapshot that no excluded label, minimum age or
hands-off annotation protects. *)
Theorem plan_respects_policy wall snap analysis opts :
  NoDup (Node.Name <$> ClusterSnapshot.Nodes snap) →
  let steps := Plan.Steps (Greedy_Plan Placement.t wall snap analysis opts) in
  (∀ i s, steps !! i = Some s → PlanStep.SequenceNumber s = Z.of_nat i + 1) ∧
  (0 < Options.MaxSteps opts → Z.of_nat (length steps) <= Options.MaxSteps opts) ∧
  NoDup (PlanStep.TargetNode <$> steps) ∧
  (∀ s, s ∈ steps → ∃ n, n ∈ ClusterSnapshot.Nodes snap ∧ Node.Name n = PlanStep.TargetNode s ∧
     Node.Ready n = true ∧ Node.DoNotDisrupt n = false ∧
     (Options.nodeExcluded opts n (planning_time snap opts)).1 = false).
Proof.
  intros Hnd steps.
  set (st := plan_loop snap analysis opts (drain_order (P:=Placement.t) snap opts) (initial snap opts)).
  assert (Hs : steps = (λ s, PlanStep.set_ID (stepID s) s) <$> Planner.steps st) by done.
  destruct (plan_loop_numbers analysis opts snap (drain_order (P:=Placement.t) snap opts)
    (initial (P:=Placement.t) snap opts)) as [H1 H2]; [done|simpl; lia|].
  destruct (plan_loop_targets analysis opts snap (drain_order (P:=Placement.t) snap opts)
    (initial (P:=Placement.t) snap opts)) as (new & Hnew & Hsub).
  fold st in H1, H2, Hnew. simpl in Hnew. rewrite <- Hnew in Hsub.
  assert (Ht : PlanStep.TargetNode <$> steps = PlanStep.TargetNode <$> Planner.steps st).
  { rewrite Hs, <- list_fmap_compose. done. }
  assert (Horder : ∀ n, n ∈ drain_order (P:=Placement.t) snap opts ↔
    n ∈ drainCandidates snap opts (planning_time snap opts)).
  { intros n. apply elem_of_sort_by. }
  split_and!.
  - intros i s. rewrite Hs, list_lookup_fmap. intros (s' & Hi & ->)%fmap_Some.
    exact (H1 i s' Hi).
  - rewrite Hs, length_fmap. exact H2.
  - rewrite Ht. eapply sublist_NoDup; [|exact Hsub]. unfold drain_order, sortNodesForDraining.
    rewrite sort_by_perm. unfold drainCandidates.
    eapply sublist_NoDup; [exact Hnd|]. apply fmap_sublist. clear.
    induction (ClusterSnapshot.Nodes snap) as [|n ns IH]; simpl; [done|].
    case_match; [by apply sublist_skip|by apply sublist_cons].
  - intros s Hin.
    assert (Hin' : PlanStep.TargetNode s ∈ Node.Name <$> drain_order (P:=Placement.t) snap opts).
    { eapply elem_of_sublist; [|exact Hsub]. rewrite <- Ht. by apply list_elem_of_fmap_2. }
    apply list_elem_of_fmap in Hin' as (n & Hn & Hin'). apply Horder in Hin'.
    apply filter_elem in Hin' as [Hin' Hp].
    rewrite !andb_true_iff, !negb_true_iff in Hp. exists n. naive_solver.
Qed.

Lemma plan_respects_policy_witness :
  NoDup (PlanStep.TargetNode <$> Plan.Steps shop_plan).
Proof.
  apply (plan_respects_policy 0 shop (Analyze Placement.t shop) Options.DefaultOptions).
  eapply bool_decide_eq_true_1. by vm_compute.
Defined.

(** C19: a plan keeps its headroom: where the nodes start within the packing
ceiling, the assignment a plan leads to loads no node beyond
[PackCeiling] times its allocatable CPU and memory, or beyond its pod count. *)
Theorem plan_within_ceiling wall snap analysis opts :
  wf_snapshot snap = true → distinct_pods snap → within snap (Options.PackCeiling opts) →
  ∃ q D,
    plan_ok analysis opts (Core.NewPlacementCeiling snap (Options.PackCeiling opts)) ∅
      (Plan.Steps (Greedy_Plan Placement.t wall snap analysis opts)) q D ∧
    ∀ n f, f ∈ dims →
      total f (Core.Occupants q n) <= f (basis_of snap (Options.PackCeiling opts) n).
Proof.
  intros Hw Hd Hin. destruct (Greedy_Plan_ok analysis opts wall snap Hw Hd) as (q & D & Hok).
  exists q, D. split; [done|]. intros n f Hf.
  assert (Hb : balanced_at (basis_of snap (Options.PackCeiling opts)) q).
  { eapply moves_balanced; [intros m; by apply basis_sane|by apply new_balanced|by eapply plan_ok_moves]. }
  assert (Hbasis : 0 <= f (basis_of snap (Options.PackCeiling opts) n)).
  { by apply (basis_sane snap (Options.PackCeiling opts)). }
  unfold Core.Occupants. destruct (Core.nodes q !! n) as [ns|] eqn:Hn; [|done].
  destruct (Hb n ns Hn) as [_ H]. specialize (H f Hf). lia.
Qed.

Definition small : ClusterSnapshot.t := ex_snapshot [db "d1" "c"; db "d2" "b"].

Lemma plan_within_ceiling_witness :
  ∃ q D,
    plan_ok (Analyze Placement.t small) Options.DefaultOptions
      (Core.NewPlacementCeiling small (Options.PackCeiling Options.DefaultOptions)) ∅
      (Plan.Steps (Greedy_Plan Placement.t 0 small (Analyze Placement.t small) Options.DefaultOptions)) q D ∧
    ∀ n f, f ∈ dims →
      total f (Core.Occupants q n) <= f (basis_of small (Options.PackCeiling Options.DefaultOptions) n).
Proof.
  apply (plan_within_ceiling 0 small (Analyze Placement.t small) Options.DefaultOptions).
  - by vm_compute.
  - unfold distinct_pods. eapply bool_decide_eq_true_1. by vm_compute.
  - apply within_b_sound. by vm_compute.
Defined.

(** Planning with memoised counts gives the very plan, identifier included,
that planning with every count recomputed gives. *)
Theorem plan_index_independent wall snap analysis opts :
  wf_snapshot snap = true →
  Greedy_Plan Placement.t wall snap analysis opts = Greedy_Plan Core.t wall snap analysis opts.
Proof. apply Greedy_Plan_core. Qed.

Lemma plan_index_independent_witness :
  Greedy_Plan Core.t 0 shop (Analyze Placement.t shop) Options.DefaultOptions = shop_plan.
Proof. symmetry. apply plan_index_independent. by vm_compute. Defined.

(** Drains are attempted emptiest first: the candidates are ordered by
requested share, ties by name, and are exactly the nodes policy permits. *)
Theorem drain_order_emptiest_first snap opts :
  let p := new_placement (P:=Placement.t) snap (Options.PackCeiling opts) in
  let order := drain_order (P:=Placement.t) snap opts in
  order ≡ₚ drainCandidates snap opts (planning_time snap opts) ∧
  Sorted (λ a b, F64.ltb (requestedRatio b p) (requestedRatio a p) = false ∧
                 (F64.eqb (requestedRatio a p) (requestedRatio b p) = true →
                  str_ltb (Node.Name b) (Node.Name a) = false)) order.
Proof.
  intros p order. split; [apply sort_by_perm|].
  eapply Sorted_weaken; [|apply (sort_by_sorted (emptier p))].
  - intros a b. unfold in_order, emptier. rewrite (F64.eqb_sym (requestedRatio b p)).
    destruct (F64.eqb (requestedRatio a p) (requestedRatio b p)) eqn:Hab; simpl; [|done].
    intros Hs. split; [|done]. apply F64.eqb_not_ltb. by rewrite F64.eqb_sym.
  - intros a b. unfold emptier. rewrite (F64.eqb_sym (requestedRatio b p)).
    destruct (F64.eqb (requestedRatio a p) (requestedRatio b p)); simpl;
      [apply str_ltb_asym|apply F64.ltb_asym].
Qed.

(** A pod goes to the fullest node that can take it: [firstFit] returns a
feasible node other than the source and the drained ones, no other such node
being fuller (or equally full with a smaller name); and it returns none only
when there is none. *)
Theorem firstFit_fullest pod source drained (p : Core.t) :
  let t := (firstFit pod source drained p).1 in
  let fits n := n ∈ Core.nodeOrder p ∧ n ≠ source ∧ (n ∉ drained) ∧ (Core.CanPlace p pod n).1 = true in
  "" ∉ Core.nodeOrder p →
  (∀ n, n ∈ Core.nodeOrder p → F64.is_nan (used_ratio p n) = false) →
  (t ≠ "" → fits t ∧ ∀ n, fits n →
     fuller (n, used_ratio p n) (t, used_ratio p t) = false) ∧
  (t = "" → ∀ n, ¬ fits n).
Proof.
  intros t fits Hne Hnan. unfold t. rewrite core_firstFit_eq. cbn [fst].
  set (l := List.filter _ _). clear t.
  assert (Hl : ∀ n, n ∈ l ↔ fits n).
  { intros n. unfold l, fits. rewrite filter_elem, andb_true_iff, negb_true_iff, orb_false_iff,
      String.eqb_neq, bool_decide_eq_false. naive_solver. }
  assert (Hall : Forall (λ o, F64.is_nan o.2 = false) ((λ n, (n, used_ratio p n)) <$> l)).
  { apply Forall_fmap, Forall_forall. intros n Hn. apply Hl in Hn as [Hn _]. by apply Hnan. }
  destruct (best_spec _ Hall) as [Hnil|(n & u & Hb & Hin & Hmax)].
  - apply fmap_nil_inv in Hnil. rewrite Hnil. split; [done|]. intros _ n Hn. apply Hl in Hn.
    rewrite Hnil in Hn. by apply elem_of_nil in Hn.
  - rewrite Hb. apply list_elem_of_fmap in Hin as (m & [= -> ->] & Hm).
    split.
    + intros _. split; [by apply Hl|]. intros x Hx. apply Hmax.
      apply list_elem_of_fmap. exists x. split; [done|]. by apply Hl.
    + intros ->. apply Hl in Hm as [Hm _]. done.
Qed.

Lemma firstFit_fullest_witness :
  fuller ("b", used_ratio shop_core "b") ("a", used_ratio shop_core "a") = true ∧
  (firstFit (db "d1" "c") "c" ∅ shop_core).1 ≠ "b".
Proof.
  destruct (firstFit_fullest (db "d1" "c") "c" ∅ shop_core) as [H1 _].
  - eapply bool_decide_eq_true_1. by vm_compute.
  - apply Forall_forall. change (Core.nodeOrder shop_core) with ["a"; "b"; "c"].
    by repeat (constructor; [by vm_compute|]).
  - assert (Ht : (firstFit (db "d1" "c") "c" ∅ shop_core).1 = "a") by (by vm_compute).
    rewrite Ht in *. destruct H1 as [_ _]; [done|]. split; [by vm_compute|done].
Defined.

Definition idle_pod (name node : string) : Pod.t := ex_pod name node "batch" 0 0 [] None.

Definition four_nodes : ClusterSnapshot.t :=
  ClusterSnapshot.mk 1000 [ex_node "a" "z1"; ex_node "b" "z1"; ex_node "c" "z1"; ex_node "d" "z1"]
    [idle_pod "p" "a"; idle_pod "q" "d"] [] false.

(** A plan can count nodes it never had.  With the default options, two
occupied nodes out of four and pods that request nothing, the plan carries a
pod from node to node through machines that were empty, drains each of them as
a step, and reports two nodes before and minus one after. *)
Theorem nodes_after_can_be_negative :
  let plan := Greedy_Plan Placement.t 0 four_nodes (Analyze Placement.t four_nodes)
    Options.DefaultOptions in
  Plan.NodesBefore plan = 2 ∧ Plan.NodesAfter plan = -1 ∧
  PlanStep.TargetNode <$> Plan.Steps plan = ["a"; "b"; "c"].
Proof. by vm_compute. Qed.
