(* ===== verification/Impact.v ===== *)
(** * The impact classifier (internal/impact/impact.go)

Rates a step Green, Yellow or Red from the reasons it finds, and composes the
rationale. *)
From S2P Require Import Prelude GoLib Float64 Model Cluster Analyzer.

Definition ReasonPDBZeroHeadroom : string := "PDBZeroHeadroom".
Definition ReasonPDBTightHeadroom : string := "PDBTightHeadroom".
Definition ReasonUnmanagedPod : string := "UnmanagedPod".
Definition ReasonStatefulWorkload : string := "StatefulWorkload".
Definition ReasonPersistentVolume : string := "PersistentVolume".
Definition ReasonAntiAffinity : string := "RequiredAntiAffinity".
Definition ReasonTopologySpread : string := "HardTopologySpread".
Definition ReasonBlastRadius : string := "BlastRadius".
Definition ReasonBlastRadiusHigh : string := "BlastRadiusHigh".

Module Thresholds.

Record t : Type := mk { YellowPodsMoved : Z; RedPodsMoved : Z; TightPDBHeadroom : Z }.

Definition DefaultThresholds : t := mk 5 15 1.

End Thresholds.

(** [impact.New]: non-positive thresholds take the defaults. *)
Definition New (t : Thresholds.t) : Thresholds.t :=
  let d := Thresholds.DefaultThresholds in
  Thresholds.mk
    (if Thresholds.YellowPodsMoved t <=? 0 then Thresholds.YellowPodsMoved d
     else Thresholds.YellowPodsMoved t)
    (if Thresholds.RedPodsMoved t <=? 0 then Thresholds.RedPodsMoved d
     else Thresholds.RedPodsMoved t)
    (if Thresholds.TightPDBHeadroom t <=? 0 then Thresholds.TightPDBHeadroom d
     else Thresholds.TightPDBHeadroom t).

Definition severity (kind : string) : ImpactRating :=
  if existsb (String.eqb kind)
       [ReasonPDBZeroHeadroom; ReasonUnmanagedPod; ReasonStatefulWorkload; ReasonBlastRadiusHigh]
  then ImpactRed
  else if existsb (String.eqb kind)
       [ReasonPDBTightHeadroom; ReasonPersistentVolume; ReasonAntiAffinity; ReasonTopologySpread;
        ReasonBlastRadius]
  then ImpactYellow
  else ImpactGreen.

(** The loop of [ratingFor]: a Red reason returns, a Yellow one is remembered. *)
Fixpoint rating_from (rating : ImpactRating) (reasons : list ImpactReason.t) : ImpactRating :=
  match reasons with
  | [] => rating
  | r :: reasons =>
      match severity (ImpactReason.Kind r) with
      | ImpactRed => ImpactRed
      | ImpactYellow => rating_from ImpactYellow reasons
      | _ => rating_from rating reasons
      end
  end.

Definition ratingFor (reasons : list ImpactReason.t) : ImpactRating :=
  rating_from ImpactGreen reasons.

Definition severityRank (kind : string) : Z :=
  match severity kind with ImpactRed => 2 | ImpactYellow => 1 | _ => 0 end.

Definition findPod (snap : ClusterSnapshot.t) (namespace name : string) : option Pod.t :=
  List.find (λ p, (Pod.Namespace p =? namespace)%string && (Pod.Name p =? name)%string)
    (ClusterSnapshot.Pods snap).

(** *** The reasons one move gives, in the order the loop meets them *)

Definition owner_reasons (key : string) (pod : Pod.t) : list ImpactReason.t :=
  match Pod.Owner pod with
  | None =>
      [ImpactReason.mk ReasonUnmanagedPod key
         (key +:+ " has no controller. Evicting it deletes it permanently; nothing will recreate it.")]
  | Some o =>
      if (OwnerRef.Kind o =? "StatefulSet")%string then
        [ImpactReason.mk ReasonStatefulWorkload key
           (key +:+ " belongs to StatefulSet " +:+ OwnerRef.Name o +:+
            ". Its replacement keeps the same identity and cannot start until this one has fully terminated, so the workload loses that ordinal for the duration.")]
      else []
  end.

Definition volume_reasons (key : string) (pod : Pod.t) (toNode : string) : list ImpactReason.t :=
  if Pod.HasPersistentVol pod then
    [ImpactReason.mk ReasonPersistentVolume key
       (key +:+ " mounts a PersistentVolumeClaim, which may be bound to its current node's topology and unable to follow it to "
        +:+ toNode +:+ ".")]
  else [].

Definition pdb_reasons (t : Thresholds.t) (key : string) (pdb : PodDisruptionBudget.t) :
    list ImpactReason.t :=
  let name := PodDisruptionBudget.Key pdb in
  let healthy := pretty (PodDisruptionBudget.CurrentHealthy pdb) in
  let required := pretty (PodDisruptionBudget.DesiredHealthy pdb) in
  if PodDisruptionBudget.Blocks pdb then
    [ImpactReason.mk ReasonPDBZeroHeadroom name
       ("PodDisruptionBudget " +:+ name +:+ " allows 0 disruptions (" +:+ healthy +:+ " healthy, " +:+
        required +:+ " required); the API server will refuse to evict " +:+ key +:+ ".")]
  else if PodDisruptionBudget.DisruptionsAllowed pdb <=? Thresholds.TightPDBHeadroom t then
    [ImpactReason.mk ReasonPDBTightHeadroom name
       ("PodDisruptionBudget " +:+ name +:+ " has only " +:+
        pretty (PodDisruptionBudget.DisruptionsAllowed pdb) +:+ " disruption(s) of headroom (" +:+
        healthy +:+ " healthy, " +:+ required +:+
        " required), so any concurrent disruption elsewhere will block this step.")]
  else [].

Definition constraint_reasons (analysis : Analysis.t) (key : string) : list ImpactReason.t :=
  match Analysis.ForPod analysis key with
  | None => []
  | Some pc =>
      ((λ con, ImpactReason.mk ReasonAntiAffinity key (Constraint.Explanation con))
         <$> PodConstraints.Of pc KindPodAntiAffinity) ++
      ((λ con, ImpactReason.mk ReasonTopologySpread key (Constraint.Explanation con))
         <$> List.filter Constraint.Hard (PodConstraints.Of pc KindTopologySpread))
  end.

Definition move_reasons (t : Thresholds.t) (snap : ClusterSnapshot.t) (analysis : Analysis.t)
    (move : Move.t) : list ImpactReason.t :=
  let key := Move.Namespace move +:+ "/" +:+ Move.Pod move in
  match findPod snap (Move.Namespace move) (Move.Pod move) with
  | None => []
  | Some pod =>
      owner_reasons key pod ++
      volume_reasons key pod (Move.ToNode move) ++
      (List.filter (λ pdb, PodDisruptionBudget.covers pdb (Pod.Labels pod))
         (default [] (indexPDBs snap !! Pod.Namespace pod)) ≫= pdb_reasons t key) ++
      constraint_reasons analysis key
  end.

Definition blast_reasons (t : Thresholds.t) (step : PlanStep.t) : list ImpactReason.t :=
  let n := Z.of_nat (length (PlanStep.Moves step)) in
  if Thresholds.RedPodsMoved t <=? n then
    [ImpactReason.mk ReasonBlastRadiusHigh (PlanStep.TargetNode step)
       ("Moves " +:+ pretty n +:+ " pods at once, at or above the " +:+
        pretty (Thresholds.RedPodsMoved t) +:+ "-pod red threshold.")]
  else if Thresholds.YellowPodsMoved t <=? n then
    [ImpactReason.mk ReasonBlastRadius (PlanStep.TargetNode step)
       ("Moves " +:+ pretty n +:+ " pods at once, at or above the " +:+
        pretty (Thresholds.YellowPodsMoved t) +:+ "-pod yellow threshold.")]
  else [].

(** *** Collecting, without repeating a kind and subject *)

Definition reason_key (r : ImpactReason.t) : string :=
  ImpactReason.Kind r +:+ "|" +:+ ImpactReason.Subject r.

(** The closure [add] of [reasonsFor]. *)
Definition add (acc : gset string * list ImpactReason.t) (r : ImpactReason.t) :
    gset string * list ImpactReason.t :=
  let '(seen, reasons) := acc in
  if bool_decide (reason_key r ∈ seen) then acc
  else ({[reason_key r]} ∪ seen, reasons ++ [r]).

Definition collect (rs : list ImpactReason.t) : list ImpactReason.t := (fold_left add rs (∅, [])).2.

Definition worse (a b : ImpactReason.t) : bool :=
  let ra := severityRank (ImpactReason.Kind a) in
  let rb := severityRank (ImpactReason.Kind b) in
  if negb (ra =? rb) then rb <? ra
  else if negb (ImpactReason.Kind a =? ImpactReason.Kind b)%string
  then str_ltb (ImpactReason.Kind a) (ImpactReason.Kind b)
  else str_ltb (ImpactReason.Subject a) (ImpactReason.Subject b).

Definition raw_reasons (t : Thresholds.t) (step : PlanStep.t) (snap : ClusterSnapshot.t)
    (analysis : Analysis.t) : list ImpactReason.t :=
  (PlanStep.Moves step ≫= move_reasons t snap analysis) ++ blast_reasons t step.

Definition reasonsFor (t : Thresholds.t) (step : PlanStep.t) (snap : ClusterSnapshot.t)
    (analysis : Analysis.t) : list ImpactReason.t :=
  sort_by worse (collect (raw_reasons t step snap analysis)).

(** *** The rationale *)

Definition ends_with_dot (s : string) : bool :=
  match String.length s with
  | O => false
  | S n => (str_drop n s =? ".")%string
  end.

Definition trim_dot (s : string) : string :=
  if ends_with_dot s then str_take (String.length s - 1) s else s.

(** The supporting details, each once, none repeating the driving one. *)
Fixpoint other_details (seen : gset string) (rs : list ImpactReason.t) : list string :=
  match rs with
  | [] => []
  | r :: rs =>
      let d := trim_dot (ImpactReason.Detail r) in
      if (d =? "")%string || bool_decide (d ∈ seen) then other_details seen rs
      else d :: other_details ({[d]} ∪ seen) rs
  end.

Definition rationale (step : PlanStep.t) (rating : ImpactRating) (reasons : list ImpactReason.t) :
    string :=
  let head := "Draining " +:+ PlanStep.TargetNode step +:+ " moves " +:+
    pretty (Z.of_nat (length (PlanStep.Moves step))) +:+ " pod(s)." in
  match reasons with
  | [] =>
      head +:+ " No disruption-budget, stateful, affinity or spread constraints apply, so this step is safe to run at any time."
  | driving :: others =>
      let rest := other_details {[trim_dot (ImpactReason.Detail driving)]} others in
      head +:+ " Rated " +:+ rating_string rating +:+ " because: " +:+ ImpactReason.Detail driving +:+
      (match rest with [] => "" | _ => " Also: " +:+ join "; " rest +:+ "." end) +:+
      (match rating with
       | ImpactRed => " Red steps may only execute inside an approved maintenance window."
       | _ => ""
       end)
  end.

Definition ClassifyStep (t : Thresholds.t) (step : PlanStep.t) (snap : ClusterSnapshot.t)
    (analysis : Analysis.t) : ImpactRating * string * list ImpactReason.t :=
  let reasons := reasonsFor t step snap analysis in
  let rating := ratingFor reasons in
  (rating, rationale step rating reasons, reasons).

Definition ClassifyPlan (t : Thresholds.t) (plan : Plan.t) (snap : ClusterSnapshot.t)
    (analysis : Analysis.t) : Plan.t :=
  Plan.set_Steps
    ((λ s, let '(rating, why, reasons) := ClassifyStep t s snap analysis in
           PlanStep.set_rating rating why reasons s) <$> Plan.Steps plan) plan.
