(* ===== verification/ImpactProps.v ===== *)
(** * What the classifier guarantees *)
From S2P Require Import Prelude GoLib Float64 Model Cluster Fixtures WorkingPlacement PlacementFacts IndexFacts Analyzer AnalyzerFacts Planner PlannerProps Impact.

(** ** Severities *)

Definition known_kind (r : ImpactReason.t) : Prop :=
  severity (ImpactReason.Kind r) = ImpactRed ∨ severity (ImpactReason.Kind r) = ImpactYellow.

Lemma rating_from_spec rating rs :
  rating ≠ ImpactRed →
  (rating_from rating rs = ImpactRed ↔ ∃ r, r ∈ rs ∧ severity (ImpactReason.Kind r) = ImpactRed) ∧
  ((∀ r, r ∈ rs → severity (ImpactReason.Kind r) ≠ ImpactRed) →
   rating_from rating rs =
   if existsb (λ r, bool_decide (severity (ImpactReason.Kind r) = ImpactYellow)) rs
   then ImpactYellow else rating).
Proof.
  revert rating. induction rs as [|r rs IH]; intros rating Hr; simpl.
  { split; [|done]. split; [done|]. by intros (? & ?%elem_of_nil & _). }
  destruct (severity (ImpactReason.Kind r)) eqn:Hs.
  - destruct (IH rating Hr) as [I1 I2]. split.
    + rewrite I1. setoid_rewrite elem_of_cons. split; [intros (x & ? & ?); eauto|].
      intros (x & [->|?] & ?); [congruence|eauto].
    + intros H. rewrite I2; [done|]. intros x Hx. apply H. by right.
  - destruct (IH ImpactYellow ltac:(done)) as [I1 I2]. split.
    + rewrite I1. setoid_rewrite elem_of_cons. split; [intros (x & ? & ?); eauto|].
      intros (x & [->|?] & ?); [congruence|eauto].
    + intros H. rewrite I2; [by case_match|]. intros x Hx. apply H. by right.
  - split; [|intros H; exfalso; by apply (H r); [left|]]. split; [|done].
    intros _. exists r. split; [by left|done].
  - destruct (IH rating Hr) as [I1 I2]. split.
    + rewrite I1. setoid_rewrite elem_of_cons. split; [intros (x & ? & ?); eauto|].
      intros (x & [->|?] & ?); [congruence|eauto].
    + intros H. rewrite I2; [done|]. intros x Hx. apply H. by right.
Qed.

(** ** Collecting loses no kind *)

Lemma collect_fold rs seen out :
  (∀ k, k ∈ seen ↔ k ∈ reason_key <$> out) → NoDup (reason_key <$> out) →
  let '(seen', out') := fold_left add rs (seen, out) in
  (∀ k, k ∈ seen' ↔ k ∈ reason_key <$> out') ∧ NoDup (reason_key <$> out') ∧
  (∀ k, k ∈ reason_key <$> out' ↔ k ∈ reason_key <$> out ∨ k ∈ reason_key <$> rs) ∧
  (∀ r, r ∈ out' → r ∈ out ∨ r ∈ rs).
Proof.
  revert seen out. induction rs as [|r rs IH]; intros seen out Hs Hd; simpl.
  { split_and!; [done..|set_solver|auto]. }
  case_bool_decide as Hin.
  - specialize (IH seen out Hs Hd). destruct (fold_left add rs (seen, out)) as [seen' out'].
    destruct IH as (I1&I2&I3&I4). split_and!; [done..| |].
    + intros k. rewrite I3. apply Hs in Hin. set_solver.
    + intros x Hx. destruct (I4 x Hx); [by left|right; by right].
  - assert (Hs' : ∀ k, k ∈ {[reason_key r]} ∪ seen ↔ k ∈ reason_key <$> (out ++ [r])).
    { intros k. rewrite fmap_app, elem_of_app, elem_of_union, Hs. simpl. set_solver. }
    assert (Hd' : NoDup (reason_key <$> (out ++ [r]))).
    { rewrite fmap_app. apply NoDup_app. split; [done|]. split; [|apply NoDup_singleton].
      intros k Hk ->%list_elem_of_singleton. by apply Hin, Hs. }
    specialize (IH _ _ Hs' Hd'). destruct (fold_left add rs _) as [seen' out'].
    destruct IH as (I1&I2&I3&I4). split_and!; [done..| |].
    + intros k. rewrite I3, fmap_app, elem_of_app. simpl. set_solver.
    + intros x Hx. destruct (I4 x Hx) as [Hx'|Hx']; [|right; by right].
      apply elem_of_app in Hx' as [?| ->%list_elem_of_singleton]; [by left|right; by left].
Qed.

Lemma collect_spec rs :
  NoDup (reason_key <$> collect rs) ∧
  (∀ k, k ∈ reason_key <$> collect rs ↔ k ∈ reason_key <$> rs) ∧
  (∀ r, r ∈ collect rs → r ∈ rs).
Proof.
  unfold collect. pose proof (collect_fold rs ∅ []) as H.
  destruct (fold_left add rs (∅, [])) as [seen out].
  destruct H as (_&H2&H3&H4); [set_solver|constructor|]. simpl. split_and!; [done| |].
  - intros k. rewrite H3. set_solver.
  - intros r Hr. destruct (H4 r Hr) as [Hn|?]; [by apply elem_of_nil in Hn|done].
Qed.

Definition plain_kind (r : ImpactReason.t) : Prop := avoids "|"%char (ImpactReason.Kind r) = true.



(** ** What the reasons are *)


Lemma raw_kinds t step snap analysis r :
  r ∈ raw_reasons t step snap analysis → plain_kind r ∧ known_kind r.
Proof.
  unfold raw_reasons, blast_reasons. rewrite elem_of_app, list_elem_of_bind.
  assert (Hone : ∀ x : ImpactReason.t, r ∈ [x] → plain_kind x ∧ known_kind x → plain_kind r ∧ known_kind r).
  { by intros x ->%list_elem_of_singleton. }
  assert (Hc : ∀ k, (k = ReasonUnmanagedPod ∨ k = ReasonStatefulWorkload ∨ k = ReasonPersistentVolume ∨
    k = ReasonPDBZeroHeadroom ∨ k = ReasonPDBTightHeadroom ∨ k = ReasonAntiAffinity ∨
    k = ReasonTopologySpread ∨ k = ReasonBlastRadius ∨ k = ReasonBlastRadiusHigh) →
    ∀ s d, plain_kind (ImpactReason.mk k s d) ∧ known_kind (ImpactReason.mk k s d)).
  { unfold plain_kind, known_kind. intros k Hk s d. destruct_or!; subst; simpl; auto. }
  intros [(m & Hr & _)|Hr].
  - unfold move_reasons in Hr. case_match; [|by apply elem_of_nil in Hr].
    rewrite !elem_of_app in Hr. destruct Hr as [Hr|[Hr|[Hr|Hr]]].
    + unfold owner_reasons in Hr. repeat case_match; try (by apply elem_of_nil in Hr);
        (eapply Hone; [exact Hr|apply Hc; tauto]).
    + unfold volume_reasons in Hr. case_match; [|by apply elem_of_nil in Hr].
      eapply Hone; [exact Hr|apply Hc; tauto].
    + apply list_elem_of_bind in Hr as (pdb & Hr & _). unfold pdb_reasons in Hr.
      repeat case_match; try (by apply elem_of_nil in Hr); (eapply Hone; [exact Hr|apply Hc; tauto]).
    + unfold constraint_reasons in Hr. case_match; [|by apply elem_of_nil in Hr].
      apply elem_of_app in Hr as [Hr|Hr]; apply list_elem_of_fmap in Hr as (con & -> & _);
        apply Hc; tauto.
  - repeat case_match; try (by apply elem_of_nil in Hr); (eapply Hone; [exact Hr|apply Hc; tauto]).
Qed.












(** A step is Green exactly when nothing was found to say about it, and then
the rationale says it is safe; otherwise it is Yellow or Red.  No step is left
with any other rating. *)
Theorem step_green_iff t step snap analysis :
  ((ClassifyStep t step snap analysis).1.1 = ImpactGreen ↔ raw_reasons t step snap analysis = []) ∧
  ((ClassifyStep t step snap analysis).1.1 = ImpactGreen ↔ (ClassifyStep t step snap analysis).2 = []) ∧
  (ClassifyStep t step snap analysis).1.1 ∈ [ImpactGreen; ImpactYellow; ImpactRed].
Proof.
  set (raw := raw_reasons t step snap analysis).
  change (ClassifyStep t step snap analysis).1.1 with (ratingFor (reasonsFor t step snap analysis)).
  change (ClassifyStep t step snap analysis).2 with (reasonsFor t step snap analysis).
  assert (Hnil : reasonsFor t step snap analysis = [] ↔ raw = []).
  { unfold reasonsFor. fold raw. destruct (collect_spec raw) as (_&H2&H3). split.
    - intros H. apply (f_equal length) in H. rewrite length_sort_by in H.
      apply nil_length_inv in H. destruct raw as [|r l] eqn:E; [done|].
      exfalso. apply (not_elem_of_nil (reason_key r)).
      assert (Hk : reason_key r ∈ reason_key <$> collect (r :: l)) by (apply H2; by left).
      by rewrite H in Hk.
    - by intros ->. }
  assert (Hknown : ∀ r, r ∈ reasonsFor t step snap analysis → known_kind r).
  { intros r. unfold reasonsFor. rewrite elem_of_sort_by. intros Hr.
    apply collect_spec in Hr. by apply raw_kinds in Hr as [_ ?]. }
  destruct (rating_from_spec ImpactGreen (reasonsFor t step snap analysis)) as [R1 R2]; [done|].
  fold (ratingFor (reasonsFor t step snap analysis)) in R1, R2.
  assert (Hg : ratingFor (reasonsFor t step snap analysis) = ImpactGreen ↔
    reasonsFor t step snap analysis = []).
  { split; [|by intros ->]. intros Hg. destruct (reasonsFor t step snap analysis) as [|r l]; [done|].
    exfalso. destruct (Hknown r) as [Hs|Hs]; [by left| |].
    - assert (Hred : ratingFor (r :: l) = ImpactRed) by (apply R1; exists r; split; [by left|done]).
      congruence.
    - destruct (decide (ratingFor (r :: l) = ImpactRed)) as [?|Hn]; [congruence|].
      rewrite R2 in Hg; [|intros x Hx ?; apply Hn, R1; eauto].
      simpl in Hg. rewrite Hs in Hg. done. }
  split_and!; [by rewrite Hg, Hnil|done|].
  destruct (decide (ratingFor (reasonsFor t step snap analysis) = ImpactRed)) as [->|Hn]; [set_solver|].
  rewrite R2; [case_match; set_solver|]. intros x Hx Hs. apply Hn, R1. eauto.
Qed.

Lemma worse_asym a b : worse a b = true → worse b a = false.
Proof.
  unfold worse. rewrite (Z.eqb_sym (severityRank (ImpactReason.Kind b))).
  destruct (Z.eqb_spec (severityRank (ImpactReason.Kind a)) (severityRank (ImpactReason.Kind b)))
    as [He|Hne]; simpl.
  - rewrite (String.eqb_sym (ImpactReason.Kind b)).
    destruct (ImpactReason.Kind a =? ImpactReason.Kind b)%string; simpl; apply str_ltb_asym.
  - rewrite Z.ltb_lt, Z.ltb_ge. lia.
Qed.

Lemma worse_trans a b c : worse b a = false → worse c b = false → worse c a = false.
Proof.
  unfold worse.
  destruct (Z.eqb_spec (severityRank (ImpactReason.Kind b)) (severityRank (ImpactReason.Kind a))) as [E1|E1],
    (Z.eqb_spec (severityRank (ImpactReason.Kind c)) (severityRank (ImpactReason.Kind b))) as [E2|E2],
    (Z.eqb_spec (severityRank (ImpactReason.Kind c)) (severityRank (ImpactReason.Kind a))) as [E3|E3];
    simpl; try lia; rewrite ?Z.ltb_ge; try lia.
  destruct (String.eqb_spec (ImpactReason.Kind b) (ImpactReason.Kind a)) as [F1|F1],
    (String.eqb_spec (ImpactReason.Kind c) (ImpactReason.Kind b)) as [F2|F2],
    (String.eqb_spec (ImpactReason.Kind c) (ImpactReason.Kind a)) as [F3|F3];
    simpl; try congruence.
  - apply str_nltb_trans.
  - intros H1 H2. rewrite F3 in H2. exfalso. apply F1. by apply str_ltb_total.
  - apply str_nltb_trans.
Qed.

(** The reasons are each named once, listed worst first, and the first one
carries the rating, so the rationale leads with what drove it. *)
Theorem reasons_ordered t step snap analysis :
  let reasons := (ClassifyStep t step snap analysis).2 in
  NoDup ((λ r, (ImpactReason.Kind r, ImpactReason.Subject r)) <$> reasons) ∧
  StronglySorted (λ a b, severityRank (ImpactReason.Kind b) <= severityRank (ImpactReason.Kind a)) reasons ∧
  (∀ r, head reasons = Some r →
     severity (ImpactReason.Kind r) = (ClassifyStep t step snap analysis).1.1).
Proof.
  set (raw := raw_reasons t step snap analysis). intros reasons.
  assert (Hr : reasons = sort_by worse (collect raw)) by done.
  destruct (collect_spec raw) as (Hnd & _ & Hsub).
  assert (Hss : StronglySorted (λ a b, severityRank (ImpactReason.Kind b) <= severityRank (ImpactReason.Kind a)) reasons).
  { apply Sorted_StronglySorted; [intros a b c ??; lia|]. rewrite Hr.
    eapply Sorted_weaken; [|apply (sort_by_sorted worse), worse_asym].
    intros a b. unfold in_order, worse.
    destruct (Z.eqb_spec (severityRank (ImpactReason.Kind b)) (severityRank (ImpactReason.Kind a)));
      simpl; [lia|]. rewrite Z.ltb_ge. lia. }
  split_and!; [|done|].
  - rewrite Hr, sort_by_perm. eapply (NoDup_fmap_1 (λ ks : string * string, ks.1 +:+ "|" +:+ ks.2)).
    rewrite <- list_fmap_compose. exact Hnd.
  - intros r Hh. change (ClassifyStep t step snap analysis).1.1 with (ratingFor reasons).
    assert (Hk : ∀ x, x ∈ reasons → known_kind x).
    { intros x. rewrite Hr, elem_of_sort_by. intros Hx%Hsub. by apply raw_kinds in Hx as [_ ?]. }
    destruct (rating_from_spec ImpactGreen reasons) as [R1 R2]; [done|].
    fold (ratingFor reasons) in R1, R2. destruct reasons as [|x l]; [done|]. injection Hh as <-.
    inversion Hss as [|?? _ Hall]; subst. rewrite Forall_forall in Hall.
    destruct (Hk x) as [Hx|Hx]; [by left| |]; rewrite Hx.
    + symmetry. apply R1. exists x. split; [by left|done].
    + rewrite R2.
      * simpl. by rewrite Hx.
      * intros y [->|Hy]%elem_of_cons Hs; [congruence|]. specialize (Hall y Hy).
        unfold severityRank in Hall. rewrite Hx, Hs in Hall. lia.
Qed.
