(* ===== verification/Safety.v ===== *)
(** * The safety guard (internal/safety/safety.go)

The rails every step and every eviction must pass, checked against a freshly
read snapshot.  A refusal is a value naming its rule; [None] is the nil error.
The maintenance windows are an interface: the answer they give about a node at
the moment of the check. *)
From S2P Require Import Prelude GoLib Float64 Model Cluster WorkingPlacement.

#[local] Open Scope state_scope.

Inductive Rule : Type :=
| RuleRedRequiresWindow | RuleMaxNodesPerRun | RuleMinReadyNodes
| RuleStepFreshness | RulePDBHeadroom | RuleNodeNotFound.

#[global] Instance Rule_eq_dec : EqDecision Rule.
Proof. solve_decision. Defined.

Definition rule_string (r : Rule) : string :=
  match r with
  | RuleRedRequiresWindow => "RedRequiresWindow" | RuleMaxNodesPerRun => "MaxNodesPerRun"
  | RuleMinReadyNodes => "MinReadyNodes" | RuleStepFreshness => "StepFreshness"
  | RulePDBHeadroom => "PDBHeadroom" | RuleNodeNotFound => "NodeNotFound"
  end.

Module Limits.
Record t : Type := mk { MaxNodesPerRun : Z; MinReadyNodes : Z; AllowRed : bool }.
Definition DefaultLimits : t := mk 5 3 false.
End Limits.

(** [Windows.AllowsRedOn] *)
Definition Windows : Type := Node.t → verdict.

Module Blocked.
Record t : Type := mk { rule : Rule; Reason : string }.
Definition Error (b : t) : string := rule_string (rule b) +:+ ": " +:+ Reason b.
End Blocked.

Definition block (r : Rule) (reason : string) : option Blocked.t := Some (Blocked.mk r reason).

Module Guard.

(** [windows] is [None] on a guard built without windows. *)
Record t : Type := mk { limits : Limits.t; windows : option Windows }.

Definition New (l : Limits.t) : t := mk l None.
Definition WithWindows (g : t) (w : option Windows) : t := mk (limits g) w.

End Guard.

Module RunState.
Record t : Type := mk { NodesDrainedSoFar : Z }.
End RunState.

(** [if err := a; err != nil { return err }; b] *)
Definition first_block (a b : option Blocked.t) : option Blocked.t :=
  match a with Some e => Some e | None => b end.

Definition checkRed (g : Guard.t) (step : PlanStep.t) (node : Node.t) : option Blocked.t :=
  if negb (RequiresMaintenanceWindow (PlanStep.Impact step)) then None
  else if Limits.AllowRed (Guard.limits g) then None
  else match Guard.windows g with
  | None =>
      block RuleRedRequiresWindow
        ("step " +:+ pretty (PlanStep.SequenceNumber step) +:+
         " is rated Red and may only run inside an approved maintenance window; none is configured. Rated Red because: "
         +:+ PlanStep.Rationale step)
  | Some w =>
      let '(allowed, why) := w node in
      if negb allowed then
        block RuleRedRequiresWindow
          ("step " +:+ pretty (PlanStep.SequenceNumber step) +:+
           " is rated Red and may only run inside an approved maintenance window: " +:+ why +:+
           ". Rated Red because: " +:+ PlanStep.Rationale step)
      else None
  end.

Definition schedulable (n : Node.t) : bool := Node.Ready n && negb (Node.Unschedulable n).

Definition checkNodeFloor (g : Guard.t) (target : Node.t) (live : ClusterSnapshot.t) :
    option Blocked.t :=
  if Limits.MinReadyNodes (Guard.limits g) <=? 0 then None
  else
    let ready := Z.of_nat (length (List.filter schedulable (ClusterSnapshot.Nodes live))) in
    let ready := if schedulable target then ready - 1 else ready in
    if ready <? Limits.MinReadyNodes (Guard.limits g) then
      block RuleMinReadyNodes
        ("draining " +:+ Node.Name target +:+ " would leave " +:+ pretty ready +:+
         " schedulable node(s), below the floor of " +:+
         pretty (Limits.MinReadyNodes (Guard.limits g)))
    else None.

Section feasibility.
Context {P : Type} `{PlacementOps P}.

(** [hasHome]: the first other node that takes the pod, which is placed there. *)
Fixpoint hasHome (pod : Pod.t) (draining : string) (names : list string) : State P bool :=
  match names with
  | [] => st_ret false
  | candidate :: names =>
      if (candidate =? draining)%string then hasHome pod draining names
      else
        let* v := CanPlace pod candidate in
        if v.1 then λ p, (true, Place pod candidate p)
        else hasHome pod draining names
  end.

Definition no_home (pod : Pod.t) (target : string) : option Blocked.t :=
  block RuleStepFreshness
    (Pod.Namespace pod +:+ "/" +:+ Pod.Name pod +:+ " on " +:+ target +:+
     " has nowhere left to go; the cluster has changed since the plan was computed").

Fixpoint rehome (target : string) (occupants : list Pod.t) (p : P) : option Blocked.t :=
  match occupants with
  | [] => None
  | pod :: occupants =>
      if negb (Pod.IsMovable pod) then rehome target occupants p
      else let '(home, p) := hasHome pod target (NodeNames p) p in
           if negb home then no_home pod target else rehome target occupants p
  end.

Definition checkStepFeasible (step : PlanStep.t) (live : ClusterSnapshot.t) : option Blocked.t :=
  let placement := Clone (new_placement (P:=P) live F64.zero) in
  let occupants := Occupants placement (PlanStep.TargetNode step) in
  rehome (PlanStep.TargetNode step) occupants
    (fold_left (λ p pod, Remove pod p) occupants placement).

Definition CheckStep (g : Guard.t) (step : PlanStep.t) (live : ClusterSnapshot.t)
    (run : RunState.t) : option Blocked.t :=
  if (0 <? Limits.MaxNodesPerRun (Guard.limits g)) &&
     (Limits.MaxNodesPerRun (Guard.limits g) <=? RunState.NodesDrainedSoFar run) then
    block RuleMaxNodesPerRun
      ("this run has already drained " +:+ pretty (RunState.NodesDrainedSoFar run) +:+
       " node(s), the configured maximum. Raise safety.maxNodesPerRun or start another run")
  else if (PlanStep.TargetNode step =? "")%string then
    block RuleStepFreshness
      ("step " +:+ pretty (PlanStep.SequenceNumber step) +:+ " names no target node")
  else match ClusterSnapshot.NodeByName live (PlanStep.TargetNode step) with
  | None =>
      block RuleNodeNotFound
        ("node " +:+ PlanStep.TargetNode step +:+ " no longer exists; the plan is stale")
  | Some node =>
      first_block (checkRed g step node)
        (first_block (checkNodeFloor g node live) (checkStepFeasible step live))
  end.
End feasibility.

Arguments checkStepFeasible P {_} step live.
Arguments CheckStep P {_} g step live run.

(** One iteration of the loop of [CheckEviction]. *)
Definition pdb_refuses (pod : Pod.t) (pdb : PodDisruptionBudget.t) : bool :=
  (PodDisruptionBudget.Namespace pdb =? Pod.Namespace pod)%string &&
  PodDisruptionBudget.covers pdb (Pod.Labels pod) && PodDisruptionBudget.Blocks pdb.

Definition CheckEviction (pod : Pod.t) (live : ClusterSnapshot.t) : option Blocked.t :=
  match List.find (pdb_refuses pod) (ClusterSnapshot.PDBs live) with
  | None => None
  | Some pdb =>
      block RulePDBHeadroom
        ("PodDisruptionBudget " +:+ PodDisruptionBudget.Key pdb +:+ " allows " +:+
         pretty (PodDisruptionBudget.DisruptionsAllowed pdb) +:+ " more disruption(s) (" +:+
         pretty (PodDisruptionBudget.CurrentHealthy pdb) +:+ "/" +:+
         pretty (PodDisruptionBudget.DesiredHealthy pdb) +:+ " healthy); evicting " +:+
         Pod.Namespace pod +:+ "/" +:+ Pod.Name pod +:+ " would violate it")
  end.
