(* ===== verification/SafetyProps.v ===== *)
(** * What the guard guarantees *)
From S2P Require Import Prelude GoLib Float64 Model Cluster Fixtures WorkingPlacement PlacementFacts IndexFacts FeasibilityFacts CapacityFacts PlacementProps PlanReplay Safety.

(** ** Feasibility: the rehoming the check finds *)

(** [rehomed target os p q]: from [p], in order, each movable pod of [os] is
placed on a node other than [target] that can take it at that point. *)
Inductive rehomed (target : string) : list Pod.t → Core.t → Core.t → Prop :=
| rehomed_nil p : rehomed target [] p p
| rehomed_skip pod os p q :
    Pod.IsMovable pod = false → rehomed target os p q → rehomed target (pod :: os) p q
| rehomed_place pod os p n q :
    Pod.IsMovable pod = true → n ≠ target → (Core.CanPlace p pod n).1 = true →
    rehomed target os (Core.Place pod n p) q → rehomed target (pod :: os) p q.

Section client.
Context {P : Type} `{PlacementLaws P}.

Lemma hasHome_core pod target names (p : P) :
  valid p → wf_pod pod = true →
  (hasHome pod target names p).1 = (hasHome pod target names (to_core p)).1 ∧
  to_core (hasHome pod target names p).2 = (hasHome pod target names (to_core p)).2 ∧
  valid (hasHome pod target names p).2.
Proof.
  intros Hv Hw. revert p Hv. induction names as [|n names IH]; intros p Hv; simpl; [done|].
  destruct (n =? target)%string; [by apply IH|]. unfold st_bind.
  pose proof (canplace_core pod n p Hv Hw) as J1. pose proof (canplace_keeps pod n p) as J2.
  pose proof (canplace_valid pod n p Hv Hw) as J3.
  destruct (CanPlace pod n p) as [v q]. simpl in *. subst v.
  destruct (Core.CanPlace (to_core p) pod n).1; simpl.
  - rewrite place_core, J2. split_and!; [done..|]. by apply place_valid.
  - destruct (IH q J3) as (I1&I2&I3). by rewrite I1, I2, J2.
Qed.

Lemma rehome_core target os (p : P) :
  valid p → Forall (λ o, wf_pod o = true) os →
  rehome target os p = rehome target os (to_core p).
Proof.
  intros Hv Hw. revert p Hv. induction Hw as [|pod os Hw Hws IH]; intros p Hv; simpl; [done|].
  destruct (negb (Pod.IsMovable pod)); [by apply IH|].
  rewrite names_core. change (NodeNames (to_core p)) with (Core.NodeNames (to_core p)).
  destruct (hasHome_core pod target (Core.NodeNames (to_core p)) p Hv Hw) as (J1&J2&J3).
  destruct (hasHome pod target _ p) as [b q].
  destruct (hasHome pod target _ (to_core p)) as [b' q']. simpl in *. subst b' q'.
  destruct (negb b); [done|]. by apply IH.
Qed.

Lemma removes_core os (p : P) :
  valid p →
  to_core (fold_left (λ p pod, Remove pod p) os p) =
    fold_left (λ p pod, Core.Remove pod p) os (to_core p) ∧
  valid (fold_left (λ p pod, Remove pod p) os p).
Proof.
  revert p. induction os as [|o os IH]; intros p Hv; simpl; [done|].
  rewrite <- remove_core. apply IH. by apply remove_valid.
Qed.

Lemma checkStepFeasible_core step live :
  wf_snapshot live = true → checkStepFeasible P step live = checkStepFeasible Core.t step live.
Proof.
  intros Hw. pose proof (new_valid (P:=P) live F64.zero Hw) as Hv.
  pose proof (clone_valid _ Hv) as Hcv. unfold checkStepFeasible.
  destruct (removes_core (Occupants (Clone (new_placement (P:=P) live F64.zero))
    (PlanStep.TargetNode step)) _ Hcv) as [J1 J2].
  rewrite rehome_core; [|done|by apply occupants_wf].
  rewrite J1, occupants_core, clone_core, new_core. done.
Qed.
End client.

Lemma core_hasHome pod target names (p : Core.t) :
  ((hasHome pod target names p).1 = true →
    ∃ n, n ∈ names ∧ n ≠ target ∧ (Core.CanPlace p pod n).1 = true ∧
      (hasHome pod target names p).2 = Core.Place pod n p) ∧
  ((hasHome pod target names p).1 = false →
    ∀ n, n ∈ names → n ≠ target → (Core.CanPlace p pod n).1 = false).
Proof.
  induction names as [|n names [IH1 IH2]]; simpl.
  { split; [done|]. by intros _ n ?%elem_of_nil. }
  destruct (String.eqb_spec n target) as [->|Hne].
  - split.
    + intros Hh. destruct (IH1 Hh) as (m & ?&?&?&?). exists m. split_and!; [by right|done..].
    + intros Hh m [->|Hm]%elem_of_cons Hmt; [done|auto].
  - unfold st_bind. simpl. destruct (Core.CanPlace p pod n).1 eqn:Hc; simpl.
    + split; [|done]. intros _. exists n. split_and!; [by left|done..].
    + split.
      * intros Hh. destruct (IH1 Hh) as (m & ?&?&?&?). exists m. split_and!; [by right|done..].
      * intros Hh m [->|Hm]%elem_of_cons Hmt; [done|auto].
Qed.

Lemma core_rehome target os (p : Core.t) :
  rehome target os p = None → ∃ q, rehomed target os p q.
Proof.
  revert p. induction os as [|pod os IH]; intros p; simpl; [intros _; exists p; constructor|].
  destruct (Pod.IsMovable pod) eqn:Hm; simpl.
  - destruct (core_hasHome pod target (Core.NodeNames p) p) as [Hh _].
    destruct (hasHome pod target (Core.NodeNames p) p) as [[] q]; simpl in *; [|done].
    destruct Hh as (n & Hn & Hne & Hc & ->); [done|]. intros Hr. apply IH in Hr as [q Hq].
    exists q. by eapply rehomed_place.
  - intros Hr. apply IH in Hr as [q Hq]. exists q. by constructor.
Qed.

(** The assignment the check starts rehoming from: the target emptied. *)
Definition emptied (live : ClusterSnapshot.t) (target : string) : Core.t :=
  let p := Core.NewPlacementCeiling live F64.zero in
  fold_left (λ p pod, Core.Remove pod p) (Core.Occupants p target) p.

Lemma checkStepFeasible_rehomed step live :
  wf_snapshot live = true → checkStepFeasible Placement.t step live = None →
  ∃ q, rehomed (PlanStep.TargetNode step)
    (Core.Occupants (Core.NewPlacementCeiling live F64.zero) (PlanStep.TargetNode step))
    (emptied live (PlanStep.TargetNode step)) q.
Proof.
  intros Hw. rewrite checkStepFeasible_core by done. unfold checkStepFeasible. simpl.
  apply core_rehome.
Qed.

(** ** The rails *)

Definition red_permitted (g : Guard.t) (step : PlanStep.t) (node : Node.t) : Prop :=
  PlanStep.Impact step = ImpactRed → Limits.AllowRed (Guard.limits g) = false →
  ∃ w, Guard.windows g = Some w ∧ (w node).1 = true.

Definition ready_nodes (live : ClusterSnapshot.t) : Z :=
  Z.of_nat (length (List.filter schedulable (ClusterSnapshot.Nodes live))).

Definition floor_kept (g : Guard.t) (node : Node.t) (live : ClusterSnapshot.t) : Prop :=
  0 < Limits.MinReadyNodes (Guard.limits g) →
  Limits.MinReadyNodes (Guard.limits g) <= ready_nodes live - flag (schedulable node).

Lemma checkRed_iff g step node : checkRed g step node = None ↔ red_permitted g step node.
Proof.
  unfold checkRed, red_permitted, RequiresMaintenanceWindow.
  case_bool_decide as Hi; simpl; [|by split].
  destruct (Limits.AllowRed (Guard.limits g)); simpl; [by split|].
  destruct (Guard.windows g) as [w|].
  - destruct (w node) as [[] why] eqn:Hwn; simpl.
    + split; [|done]. intros _ _ _. exists w. by rewrite Hwn.
    + split; [done|]. intros H. destruct H as (w' & [= <-] & H); [done..|]. by rewrite Hwn in H.
  - split; [done|]. intros H. by destruct H as (w' & ? & H).
Qed.

Lemma checkNodeFloor_iff g node live : checkNodeFloor g node live = None ↔ floor_kept g node live.
Proof.
  unfold checkNodeFloor, floor_kept, ready_nodes.
  destruct (Z.leb_spec (Limits.MinReadyNodes (Guard.limits g)) 0); [split; [lia|done]|].
  set (r := Z.of_nat _).
  assert (Hr : (if schedulable node then r - 1 else r) = r - flag (schedulable node)).
  { destruct (schedulable node); simpl; lia. }
  rewrite Hr. match goal with |- context [?a <? ?b] => destruct (Z.ltb_spec a b) end.
  - split; [done|]. intros H'. specialize (H' ltac:(lia)). lia.
  - split; [lia|done].
Qed.

Lemma first_block_None a b : first_block a b = None ↔ a = None ∧ b = None.
Proof. destruct a; simpl; naive_solver. Qed.

(** C10: a step passes the guard exactly when the run has drained fewer nodes than
its cap, the step names a node that exists, a Red step is authorised by the
override or by a maintenance window for that very node, enough ready and
schedulable nodes remain without it, and every pod on it has a home elsewhere. *)
Theorem check_step_iff g step live run :
  CheckStep Placement.t g step live run = None ↔
  (0 < Limits.MaxNodesPerRun (Guard.limits g) →
     RunState.NodesDrainedSoFar run < Limits.MaxNodesPerRun (Guard.limits g)) ∧
  PlanStep.TargetNode step ≠ "" ∧
  ∃ node, ClusterSnapshot.NodeByName live (PlanStep.TargetNode step) = Some node ∧
    red_permitted g step node ∧ floor_kept g node live ∧
    checkStepFeasible Placement.t step live = None.
Proof.
  unfold CheckStep.
  destruct (Z.ltb_spec 0 (Limits.MaxNodesPerRun (Guard.limits g))) as [Hp|Hp]; simpl.
  - destruct (Z.leb_spec (Limits.MaxNodesPerRun (Guard.limits g)) (RunState.NodesDrainedSoFar run)).
    { split; [done|]. intros [Hc _]. specialize (Hc Hp). lia. }
    destruct (String.eqb_spec (PlanStep.TargetNode step) "") as [He|Hne].
    { split; [done|]. by intros (_ & ? & _). }
    destruct (ClusterSnapshot.NodeByName live _) as [node|].
    + rewrite !first_block_None, checkRed_iff, checkNodeFloor_iff. naive_solver.
    + split; [done|]. by intros (_ & _ & ? & ? & _).
  - destruct (String.eqb_spec (PlanStep.TargetNode step) "") as [He|Hne].
    { split; [done|]. by intros (_ & ? & _). }
    destruct (ClusterSnapshot.NodeByName live _) as [node|].
    + rewrite !first_block_None, checkRed_iff, checkNodeFloor_iff. split; [|naive_solver].
      intros (?&?&?). split_and!; [lia|done|]. eauto.
    + split; [done|]. by intros (_ & _ & ? & ? & _).
Qed.

(** C18: a step that passes the guard can be completed on the state that was
checked: its pods, taken in turn from the emptied target, each find a node
other than the target that can take them with the earlier ones already in
place, so no capacity or spread is promised twice. *)
Theorem checked_step_is_feasible g step live run :
  wf_snapshot live = true → CheckStep Placement.t g step live run = None →
  ∃ q, rehomed (PlanStep.TargetNode step)
    (Core.Occupants (Core.NewPlacementCeiling live F64.zero) (PlanStep.TargetNode step))
    (emptied live (PlanStep.TargetNode step)) q.
Proof.
  intros Hw Hc. apply checkStepFeasible_rehomed; [done|]. unfold CheckStep in Hc.
  destruct (_ && _); [done|]. destruct (_ =? "")%string; [done|].
  destruct (ClusterSnapshot.NodeByName live _); [|done].
  by apply first_block_None in Hc as [_ [_ Hc]%first_block_None].
Qed.

Definition drain_c : PlanStep.t :=
  PlanStep.mk "s" 1 "c" [Move.mk "shop" "d1" "c" "a" 1000 2000000] ImpactYellow "" [].

Definition lax : Guard.t := Guard.New (Limits.mk 5 2 false).

Lemma checked_step_is_feasible_witness :
  ∃ q, rehomed "c" [db "d1" "c"] (emptied shop "c") q.
Proof.
  apply (checked_step_is_feasible lax drain_c shop (RunState.mk 0)); by vm_compute.
Defined.

(** An eviction passes the guard exactly when every disruption budget of the
pod's namespace that covers its labels allows at least one more disruption in
the state just read; otherwise the refusal names the budget rule. *)
Theorem check_eviction_iff pod live :
  (CheckEviction pod live = None ↔
   ∀ pdb, pdb ∈ ClusterSnapshot.PDBs live →
     PodDisruptionBudget.Namespace pdb = Pod.Namespace pod →
     PodDisruptionBudget.covers pdb (Pod.Labels pod) = true →
     0 < PodDisruptionBudget.DisruptionsAllowed pdb) ∧
  (∀ b, CheckEviction pod live = Some b → Blocked.rule b = RulePDBHeadroom).
Proof.
  unfold CheckEviction. split.
  - split.
    + intros H pdb Hin Hns Hc. destruct (List.find _ _) eqn:Hf; [done|].
      pose proof (List.find_none _ _ Hf pdb (proj1 (list_elem_of_In _ _) Hin)) as Hn.
      unfold pdb_refuses, PodDisruptionBudget.Blocks in Hn.
      rewrite Hns, String.eqb_refl, Hc in Hn. simpl in Hn. by apply Z.leb_gt.
    + intros H. destruct (List.find _ _) as [pdb|] eqn:Hf; [|done]. exfalso.
      apply List.find_some in Hf as [Hin Hr]. apply list_elem_of_In in Hin.
      unfold pdb_refuses, PodDisruptionBudget.Blocks in Hr.
      apply andb_true_iff in Hr as [[Hns%String.eqb_eq Hc]%andb_true_iff Hb%Z.leb_le].
      specialize (H pdb Hin Hns Hc). lia.
  - intros b. destruct (List.find _ _); [|done]. by intros [= <-].
Qed.
