(* ===== verification/Window.v ===== *)
(** * Maintenance windows (api/v1alpha1, internal/window)

Whether a maintenance window is open at an instant, which open windows cover a
node, and whether one of them permits Red steps there.  Cron expressions and
time zones belong to a library and to the zone database: they enter as the
interface [Calendar], with the documented behaviour of [Next] as its laws. *)
From S2P Require Import Prelude GoLib Float64 GoTime Model Cluster.

(** ** maintenancewindow_types.go *)

Module MaintenanceWindowStatus.
Record t : Type := mk {
  Active : bool;
  ClosesAt : option time;
  NextOpen : option time;
  NodesDrained : Z;
  Message : string;
}.

#[global] Instance eq_dec : EqDecision t.
Proof. solve_decision. Defined.
End MaintenanceWindowStatus.

Module MaintenanceWindow.

Record t : Type := mk {
  Name : string;
  Schedule : string;
  Duration : string;
  TimeZone : string;
  Suspend : bool;
  AllowRed : bool;
  NodeSelector : gmap string string;
  MaxNodes : Z;
  Status : MaintenanceWindowStatus.t;
}.

Definition set_Status (s : MaintenanceWindowStatus.t) (w : t) : t :=
  mk (Name w) (Schedule w) (Duration w) (TimeZone w) (Suspend w) (AllowRed w) (NodeSelector w)
    (MaxNodes w) s.

End MaintenanceWindow.

(** ** The cron library and the zone database *)

Class Calendar : Type := {
  location : Type;
  schedule : Type;
  LoadLocation : string → option location;
  utc_offset : location → time → Z;
  Parse : string → string + schedule;
  Next : schedule → location → time → time;
}.

Definition five_years : duration := 1825 * 24 * Hour.

(** [Next] is the first firing after an instant, or the zero time when there is
none within five years. *)
Class CalendarLaws `{Calendar} : Type := {
  fires : schedule → location → time → Prop;
  next_spec s l t :
    (Next s l t = 0 ∧ ∀ f, fires s l f → t < f → t + five_years <= f) ∨
    (t < Next s l t ∧ fires s l (Next s l t) ∧ ∀ f, fires s l f → t < f → Next s l t <= f);
}.

(** ** window.go *)

Module WindowState.
Record t : Type := mk {
  Name : string;
  Open : bool;
  AllowsRed : bool;
  ClosesAt : time;
  NextOpen : time;
  Reason : string;
  Selector : gmap string string;
  MaxNodes : Z;
  (** The zone the instants are shown in, as an offset at each of them. *)
  offset : time → Z;
}.
End WindowState.

Definition orDefault (v fallback : string) : string := if (v =? "")%string then fallback else v.

Definition matches (selector labels : gmap string string) : bool :=
  forallb (λ kv, (label labels kv.1 =? kv.2)%string) (map_to_list selector).

Section window.
Context `{Calendar}.

(** A window that cannot open, and why. *)
Definition closed (mw : MaintenanceWindow.t) (reason : string) : WindowState.t :=
  WindowState.mk (MaintenanceWindow.Name mw) false false 0 0 reason
    (MaintenanceWindow.NodeSelector mw) (MaintenanceWindow.MaxNodes mw) (λ _, 0).

Definition unknown_zone (mw : MaintenanceWindow.t) : WindowState.t :=
  closed mw ("timeZone " +:+ quoted (MaintenanceWindow.TimeZone mw) +:+
    " is not a known IANA zone, so the window cannot open").

(** The state once schedule, zone and duration are known. *)
Definition evaluate_at (mw : MaintenanceWindow.t) (loc : location) (sched : schedule)
    (d : duration) (now : time) : WindowState.t :=
  let prev := Next sched loc (time_Add now (- d)) in
  let closes := time_Add prev d in
  if negb (After prev now) && Before now closes then
    WindowState.mk (MaintenanceWindow.Name mw) true (MaintenanceWindow.AllowRed mw) closes 0
      ("open until " +:+ format_rfc3339 (utc_offset loc closes) closes)
      (MaintenanceWindow.NodeSelector mw) (MaintenanceWindow.MaxNodes mw) (utc_offset loc)
  else
    let next := Next sched loc now in
    WindowState.mk (MaintenanceWindow.Name mw) false false 0 next
      ("closed; next opens " +:+ format_rfc3339 (utc_offset loc next) next)
      (MaintenanceWindow.NodeSelector mw) (MaintenanceWindow.MaxNodes mw) (utc_offset loc).

Definition Evaluate (mw : MaintenanceWindow.t) (now : time) : WindowState.t :=
  if MaintenanceWindow.Suspend mw then closed mw "suspended"
  else if (MaintenanceWindow.TimeZone mw =? "")%string then unknown_zone mw
  else match LoadLocation (MaintenanceWindow.TimeZone mw) with
  | None => unknown_zone mw
  | Some loc =>
      match Parse (MaintenanceWindow.Schedule mw) with
      | inl err =>
          closed mw ("schedule " +:+ quoted (MaintenanceWindow.Schedule mw) +:+
            " is not a valid cron expression (" +:+ err +:+ "), so the window cannot open")
      | inr sched =>
          let bad := closed mw ("duration " +:+ quoted (MaintenanceWindow.Duration mw) +:+
            " is not a positive interval, so the window cannot open") in
          match ParseDuration (orDefault (MaintenanceWindow.Duration mw) "1h") with
          | None => bad
          | Some d => if d <=? 0 then bad else evaluate_at mw loc sched d now
          end
      end
  end.

Definition EvaluateAll (windows : list MaintenanceWindow.t) (now : time) : list WindowState.t :=
  (λ mw, Evaluate mw now) <$> windows.
End window.

Definition Any (states : list WindowState.t) : bool := existsb WindowState.Open states.

Definition Covering (states : list WindowState.t) (node : Node.t) : list WindowState.t :=
  List.filter (λ st, WindowState.Open st && matches (WindowState.Selector st) (Node.Labels node)) states.

Definition summary (states : list WindowState.t) : string :=
  match states with
  | [st] => WindowState.Reason st
  | _ => pretty (Z.of_nat (length states)) +:+ " windows defined, none currently open"
  end.

(** [Set.AllowsRedOn] *)
Definition AllowsRedOn (states : list WindowState.t) (node : Node.t) : verdict :=
  match Covering states node with
  | [] =>
      (false,
       if bool_decide (states = []) then "no maintenance window is defined in this cluster"
       else if negb (Any states) then "no maintenance window is open (" +:+ summary states +:+ ")"
       else "no open maintenance window covers node " +:+ Node.Name node)
  | (first :: _) as covering =>
      match List.find WindowState.AllowsRed covering with
      | Some st =>
          (true, "maintenance window " +:+ WindowState.Name st +:+ " is open until " +:+
             format_rfc3339 (WindowState.offset st (WindowState.ClosesAt st)) (WindowState.ClosesAt st) +:+
             " and permits Red steps")
      | None =>
          (false, "maintenance window " +:+ WindowState.Name first +:+
             " is open but does not permit Red steps; set spec.allowRed to change that")
      end
  end.

(** ** reader.go *)

(** What listing the windows gives: the list, the missing-CRD error, or another. *)
Inductive listing : Type :=
| Listed (items : list MaintenanceWindow.t)
| CrdAbsent
| ListFailed (err : string).

Definition timePtr (t : time) : option time := if IsZeroTime t then None else Some t.

Definition sameTime (a b : option time) : bool :=
  match a, b with
  | None, None => true
  | Some a, Some b => a =? b
  | _, _ => false
  end.

Definition equalStatus (a b : MaintenanceWindowStatus.t) : bool :=
  Bool.eqb (MaintenanceWindowStatus.Active a) (MaintenanceWindowStatus.Active b) &&
  (MaintenanceWindowStatus.Message a =? MaintenanceWindowStatus.Message b)%string &&
  sameTime (MaintenanceWindowStatus.ClosesAt a) (MaintenanceWindowStatus.ClosesAt b) &&
  sameTime (MaintenanceWindowStatus.NextOpen a) (MaintenanceWindowStatus.NextOpen b).

Section reader.
Context `{Calendar}.

(** [Reader.Current] at instant [now]. *)
Definition Current (l : listing) (now : time) : string + list WindowState.t :=
  match l with
  | Listed items => inr (EvaluateAll items now)
  | CrdAbsent => inr (EvaluateAll [] now)
  | ListFailed err => inl ("list maintenance windows: " +:+ err)
  end.

(** [Reader.AllowsRedOn]: an unreadable window is a refusal. *)
Definition Reader_AllowsRedOn (l : listing) (now : time) (node : Node.t) : verdict :=
  match Current l now with
  | inl err =>
      (false, "maintenance windows could not be read (" +:+ err +:+ "), so Red stays refused")
  | inr states => AllowsRedOn states node
  end.

Definition next_status (mw : MaintenanceWindow.t) (now : time) : MaintenanceWindowStatus.t :=
  let s := Evaluate mw now in
  MaintenanceWindowStatus.mk (WindowState.Open s) (timePtr (WindowState.ClosesAt s))
    (timePtr (WindowState.NextOpen s))
    (MaintenanceWindowStatus.NodesDrained (MaintenanceWindow.Status mw)) (WindowState.Reason s).

(** The loop of [UpdateStatus]: [accepted] tells whether the API server takes
the write of a window; the first list is the windows as they then stand, the
second the writes that were attempted. *)
Fixpoint sweep (accepted : string → bool) (now : time) (items : list MaintenanceWindow.t) :
    list MaintenanceWindow.t * list MaintenanceWindow.t :=
  match items with
  | [] => ([], [])
  | mw :: items =>
      let '(kept, written) := sweep accepted now items in
      let next := next_status mw now in
      if equalStatus (MaintenanceWindow.Status mw) next then (mw :: kept, written)
      else
        let mw' := MaintenanceWindow.set_Status next mw in
        ((if accepted (MaintenanceWindow.Name mw) then mw' else mw) :: kept, mw' :: written)
  end.

(** [UpdateStatus]: [None] is the nil error. *)
Definition UpdateStatus (accepted : string → bool) (l : listing) (now : time) :
    option string * list MaintenanceWindow.t :=
  match l with
  | Listed items => (None, (sweep accepted now items).2)
  | CrdAbsent => (None, [])
  | ListFailed err => (Some err, [])
  end.
End reader.
