(* ===== verification/WindowProps.v ===== *)
(** * What maintenance windows guarantee *)
From S2P Require Import Prelude GoLib Float64 GoTime Model Cluster Fixtures WorkingPlacement PlacementFacts FeasibilityFacts Safety SafetyProps Window.

(** A concrete calendar for the witnesses: one zone, UTC, and the schedule that
fires at the start of every hour. *)
#[export] Instance hourly_calendar : Calendar := {|
  location := unit;
  schedule := unit;
  LoadLocation z := if (z =? "UTC")%string then Some () else None;
  utc_offset _ _ := 0;
  Parse s := if (s =? "0 * * * *")%string then inr () else inl "expected exactly 5 fields";
  Next _ _ t := (t / Hour + 1) * Hour;
|}.

#[export] Program Instance hourly_laws : CalendarLaws := {|
  fires _ _ f := f mod Hour = 0;
|}.
Next Obligation.
  intros s l t. right. change (@Next hourly_calendar s l t) with ((t / Hour + 1) * Hour).
  assert (0 < Hour) by done.
  pose proof (Z.div_mod t Hour ltac:(lia)). pose proof (Z.mod_pos_bound t Hour ltac:(lia)).
  split; [lia|]. split; [apply Z.mod_mul; lia|]. intros f Hf Ht.
  pose proof (Z.div_mod f Hour ltac:(lia)).
  assert (t / Hour < f / Hour) by nia. nia.
Qed.

(** ** When a window is open *)

Section open.
Context `{CalendarLaws}.

Definition opening (mw : MaintenanceWindow.t) (now : time) : Prop :=
  ∃ loc sched d f,
    LoadLocation (MaintenanceWindow.TimeZone mw) = Some loc ∧
    Parse (MaintenanceWindow.Schedule mw) = inr sched ∧
    ParseDuration (orDefault (MaintenanceWindow.Duration mw) "1h") = Some d ∧ 0 < d ∧
    fires sched loc f ∧ f <= now < f + d.

Definition bounded_duration (mw : MaintenanceWindow.t) : Prop :=
  ∀ d, ParseDuration (orDefault (MaintenanceWindow.Duration mw) "1h") = Some d → d < five_years.

Lemma evaluate_at_open mw loc sched d now :
  0 < d < five_years → five_years <= now →
  WindowState.Open (evaluate_at mw loc sched d now) = true ↔
  ∃ f, fires sched loc f ∧ f <= now < f + d.
Proof.
  intros Hd Hnow. unfold evaluate_at, After, Before, time_Add.
  assert (Hpos : 0 < five_years) by done.
  destruct (next_spec sched loc (now + - d)) as [[Hz Hn]|(Hlt & Hf & Hmin)].
  - rewrite Hz. destruct (Z.ltb_spec now 0); [lia|]. simpl.
    destruct (Z.ltb_spec now (0 + d)); [lia|]. simpl. split; [done|].
    intros (f & Hf & Hle). specialize (Hn f Hf). lia.
  - destruct (Z.ltb_spec now (Next sched loc (now + - d))) as [Hgt|Hle]; simpl.
    + split; [done|]. intros (f & Hff & ?). specialize (Hmin f Hff). lia.
    + destruct (Z.ltb_spec now (Next sched loc (now + - d) + d)); simpl; [|lia].
      split; [|done]. intros _. eexists. split; [exact Hf|lia].
Qed.

Lemma Evaluate_open mw now :
  bounded_duration mw → five_years <= now →
  WindowState.Open (Evaluate mw now) = true ↔
  MaintenanceWindow.Suspend mw = false ∧ MaintenanceWindow.TimeZone mw ≠ "" ∧ opening mw now.
Proof.
  intros Hb Hnow. unfold Evaluate, opening.
  destruct (MaintenanceWindow.Suspend mw); [naive_solver|].
  destruct (String.eqb_spec (MaintenanceWindow.TimeZone mw) ""); [naive_solver|].
  destruct (LoadLocation _) as [loc|]; [|naive_solver].
  destruct (Parse _) as [err|sched]; [naive_solver|].
  destruct (ParseDuration _) as [d|] eqn:Hd; [|naive_solver].
  destruct (Z.leb_spec d 0).
  { split; [done|]. intros (_ & _ & ? & ? & ? & ? & ? & ? & ? & ? & ?). simplify_eq. lia. }
  rewrite evaluate_at_open by (specialize (Hb d Hd); lia). split.
  - intros (f & Hf & ?). split_and!; [done..|]. exists loc, sched, d, f. split_and!; (done || lia).
  - intros (_ & _ & loc' & sched' & d' & f & ? & ? & ? & ? & ? & ?). simplify_eq. eauto.
Qed.

Lemma Evaluate_fields mw now :
  WindowState.Selector (Evaluate mw now) = MaintenanceWindow.NodeSelector mw ∧
  WindowState.AllowsRed (Evaluate mw now) =
    WindowState.Open (Evaluate mw now) && MaintenanceWindow.AllowRed mw.
Proof.
  unfold Evaluate, evaluate_at, unknown_zone, closed. by repeat case_match.
Qed.
End open.

Lemma matches_iff selector labels :
  matches selector labels = true ↔ ∀ k v, selector !! k = Some v → label labels k = v.
Proof.
  unfold matches. rewrite forallb_elem. split.
  - intros H k v Hk. apply String.eqb_eq, (H (k, v)). by apply elem_of_map_to_list.
  - intros H [k v] Hk%elem_of_map_to_list. by apply String.eqb_eq, H.
Qed.

Lemma AllowsRedOn_iff states node :
  (AllowsRedOn states node).1 = true ↔
  ∃ st, st ∈ states ∧ WindowState.Open st = true ∧ WindowState.AllowsRed st = true ∧
    matches (WindowState.Selector st) (Node.Labels node) = true.
Proof.
  assert (Hc : ∀ st, st ∈ Covering states node ↔ st ∈ states ∧ WindowState.Open st = true ∧
    matches (WindowState.Selector st) (Node.Labels node) = true).
  { intros st. unfold Covering. by rewrite filter_elem, andb_true_iff. }
  unfold AllowsRedOn. destruct (Covering states node) as [|first rest] eqn:Hcov.
  - split; [done|]. intros (st & ? & ? & _ & ?). exfalso. apply (not_elem_of_nil st). by apply Hc.
  - assert (Hiff : (∃ st, List.find WindowState.AllowsRed (first :: rest) = Some st) ↔
      ∃ st, st ∈ states ∧ WindowState.Open st = true ∧ WindowState.AllowsRed st = true ∧
        matches (WindowState.Selector st) (Node.Labels node) = true).
    { split.
      - intros (st & [Hin Hr]%List.find_some). rewrite <- list_elem_of_In, Hc in Hin.
        destruct Hin as (?&?&?). exists st. by split_and!.
      - intros (st & H1 & H2 & H3 & H4).
        destruct (List.find WindowState.AllowsRed (first :: rest)) as [x|] eqn:Hf; [eauto|].
        assert (Hin : In st (first :: rest)) by (apply list_elem_of_In, Hc; split_and!; assumption).
        pose proof (List.find_none _ _ Hf st Hin) as Hn. simpl in Hn. congruence. }
    rewrite <- Hiff. destruct (List.find WindowState.AllowsRed (first :: rest)) as [x|].
    + split; intros _; [by exists x|reflexivity].
    + split; [by intros ?|by intros [??]].
Qed.

(** C38: a window is open exactly while one of its firings is less than its
duration old: the zone and the schedule are known, the duration is positive,
the window is not suspended, and the schedule fired in the last [duration].
Anything else, an unreadable field included, leaves it shut. *)
Theorem window_open_iff `{CalendarLaws} mw now :
  bounded_duration mw → five_years <= now →
  WindowState.Open (Evaluate mw now) = true ↔
  MaintenanceWindow.Suspend mw = false ∧ MaintenanceWindow.TimeZone mw ≠ "" ∧ opening mw now.
Proof. apply Evaluate_open. Qed.

Definition nightly : MaintenanceWindow.t :=
  MaintenanceWindow.mk "nightly" "0 * * * *" "30m" "UTC" false true (<["pool" := "default"]> ∅) 0
    (MaintenanceWindowStatus.mk false None None 0 "").

Definition noon : time := unix_epoch + 12 * Hour.

Lemma nightly_bounded : bounded_duration nightly.
Proof. intros d Hd. vm_compute in Hd. injection Hd as <-. done. Qed.

Lemma window_open_iff_witness :
  opening nightly (noon + 10 * Minute) ∧
  WindowState.Open (Evaluate nightly (noon + 31 * Minute)) = false.
Proof.
  split; [|by vm_compute].
  apply (window_open_iff nightly (noon + 10 * Minute)).
  - apply nightly_bounded.
  - done.
  - by vm_compute.
Defined.

(** A Red step is authorised on a node exactly by a window that was read from
the cluster, is open at that instant, sets [allowRed], and whose selector the
node's labels satisfy; no error in reading windows authorises anything. *)
Theorem red_authorised_iff `{CalendarLaws} l now node :
  (∀ items mw, l = Listed items → mw ∈ items → bounded_duration mw) → five_years <= now →
  (Reader_AllowsRedOn l now node).1 = true ↔
  ∃ items mw, l = Listed items ∧ mw ∈ items ∧
    MaintenanceWindow.Suspend mw = false ∧ MaintenanceWindow.TimeZone mw ≠ "" ∧ opening mw now ∧
    MaintenanceWindow.AllowRed mw = true ∧
    ∀ k v, MaintenanceWindow.NodeSelector mw !! k = Some v → label (Node.Labels node) k = v.
Proof.
  intros Hb Hnow. unfold Reader_AllowsRedOn, Current. destruct l as [items| |err]; simpl.
  - rewrite AllowsRedOn_iff. unfold EvaluateAll. split.
    + intros (st & (mw & -> & Hin)%list_elem_of_fmap & Ho & Hr & Hm).
      destruct (Evaluate_fields mw now) as [Hs Ha]. rewrite Hs in Hm. rewrite Ha, Ho in Hr.
      apply Evaluate_open in Ho as (?&?&?); [|by eapply Hb|done].
      exists items, mw. split_and!; try done. by apply matches_iff.
    + intros (items' & mw & [= <-] & Hin & H1 & H2 & H3 & H4 & H5).
      exists (Evaluate mw now). destruct (Evaluate_fields mw now) as [Hs Ha].
      assert (Ho : WindowState.Open (Evaluate mw now) = true).
      { apply Evaluate_open; [by eapply Hb|done..]. }
      split_and!; [apply list_elem_of_fmap; by exists mw|done|by rewrite Ha, Ho|].
      rewrite Hs. by apply matches_iff.
  - split; [done|]. by intros (? & ? & ? & _).
  - split; [done|]. by intros (? & ? & ? & _).
Qed.

Lemma red_authorised_iff_witness :
  (∀ k v, MaintenanceWindow.NodeSelector nightly !! k = Some v →
     label (Node.Labels (ex_node "a" "z1")) k = v) ∧
  (Reader_AllowsRedOn (Listed [nightly]) (noon + 31 * Minute) (ex_node "a" "z1")).1 = false.
Proof.
  split; [|by vm_compute].
  assert (H : ∃ items mw, Listed [nightly] = Listed items ∧ mw ∈ items ∧
    MaintenanceWindow.Suspend mw = false ∧ MaintenanceWindow.TimeZone mw ≠ "" ∧
    opening mw noon ∧ MaintenanceWindow.AllowRed mw = true ∧
    ∀ k v, MaintenanceWindow.NodeSelector mw !! k = Some v →
      label (Node.Labels (ex_node "a" "z1")) k = v).
  { apply (red_authorised_iff (Listed [nightly]) noon (ex_node "a" "z1")).
    - intros items mw [= <-] ->%list_elem_of_singleton. apply nightly_bounded.
    - done.
    - by vm_compute. }
  destruct H as (items & mw & [= <-] & ->%list_elem_of_singleton & _ & _ & _ & _ & H). exact H.
Defined.

(** The status sweep settles: it writes a window's status exactly when it
differs from the state evaluated now, and once the writes were accepted a
second sweep at the same instant writes nothing. *)
Theorem status_sweep_settles `{Calendar} accepted now items :
  (∀ mw, mw ∈ items → accepted (MaintenanceWindow.Name mw) = true) →
  let '(kept, written) := sweep accepted now items in
  (sweep accepted now kept).2 = [] ∧
  ∀ mw, mw ∈ kept → equalStatus (MaintenanceWindow.Status mw) (next_status mw now) = true.
Proof.
  assert (Hrefl : ∀ s, equalStatus s s = true).
  { intros [a c n k m]. unfold equalStatus. simpl. rewrite Bool.eqb_reflx, String.eqb_refl. simpl.
    destruct c, n; simpl; by rewrite ?Z.eqb_refl. }
  assert (Hnext : ∀ mw,
    next_status (MaintenanceWindow.set_Status (next_status mw now) mw) now = next_status mw now)
    by reflexivity.
  induction items as [|mw items IH]; simpl; intros Hacc; [split; [done|by intros ? ?%elem_of_nil]|].
  specialize (IH (λ x Hx, Hacc x (list_elem_of_further _ _ _ Hx))).
  destruct (sweep accepted now items) as [kept written]. destruct IH as [I1 I2].
  destruct (equalStatus (MaintenanceWindow.Status mw) (next_status mw now)) eqn:He.
  - simpl. rewrite He. destruct (sweep accepted now kept) as [k w]; simpl in *.
    split; [done|]. intros x [->|Hx]%elem_of_cons; auto.
  - rewrite Hacc by by left. simpl. rewrite Hnext, Hrefl.
    destruct (sweep accepted now kept) as [k w]; simpl in *.
    split; [done|]. intros x [->|Hx]%elem_of_cons; [|auto]. by rewrite Hnext.
Qed.

Lemma status_sweep_settles_witness :
  (sweep (λ _, true) noon (sweep (λ _, true) noon [nightly]).1).2 = [] ∧
  length (sweep (λ _, true) noon [nightly]).2 = 1%nat.
Proof.
  split; [|by vm_compute].
  pose proof (status_sweep_settles (λ _, true) noon [nightly] (λ _ _, eq_refl)) as H.
  destruct (sweep (λ _, true) noon [nightly]) as [kept written]. apply H.
Defined.

(** A Red step never starts without authority: if the guard passes it and no
override is set, the windows attached to the guard allowed Red on the very
node the step drains. *)
Theorem red_needs_window g step live run :
  CheckStep Placement.t g step live run = None →
  PlanStep.Impact step = ImpactRed → Limits.AllowRed (Guard.limits g) = false →
  ∃ w node, Guard.windows g = Some w ∧
    ClusterSnapshot.NodeByName live (PlanStep.TargetNode step) = Some node ∧ (w node).1 = true.
Proof.
  intros Hc Hi Ha. unfold CheckStep in Hc. destruct (_ && _); [done|].
  destruct (_ =? "")%string; [done|]. destruct (ClusterSnapshot.NodeByName live _) as [node|]; [|done].
  apply first_block_None in Hc as [Hr%checkRed_iff _].
  destruct (Hr Hi Ha) as (w & ? & ?). by exists w, node.
Qed.

Definition red_step : PlanStep.t :=
  PlanStep.mk "s" 1 "c" [Move.mk "shop" "d1" "c" "a" 1000 2000000] ImpactRed "" [].

Lemma red_needs_window_witness :
  ∃ w node, Guard.windows (Guard.WithWindows lax (Some (Reader_AllowsRedOn (Listed [nightly]) noon))) = Some w ∧
    ClusterSnapshot.NodeByName shop "c" = Some node ∧ (w node).1 = true.
Proof.
  apply (red_needs_window (Guard.WithWindows lax (Some (Reader_AllowsRedOn (Listed [nightly]) noon)))
    red_step shop (RunState.mk 0)).
  - by vm_compute.
  - done.
  - done.
Defined.
