(* ===== verification/Store.v ===== *)
(** * What is persisted (internal/store/execution.go, store.go)

Runs, their audit events, the operator's envelope, and reclamation records. *)
From S2P Require Import Prelude GoLib Cluster.

(** ** Runs *)

Inductive RunStatus : Type :=
| RunPending | RunRunning | RunSucceeded | RunBlocked | RunStopped | RunFailed.

#[global] Instance RunStatus_eq_dec : EqDecision RunStatus.
Proof. solve_decision. Defined.

Definition status_string (s : RunStatus) : string :=
  match s with
  | RunPending => "Pending" | RunRunning => "Running" | RunSucceeded => "Succeeded"
  | RunBlocked => "Blocked" | RunStopped => "Stopped" | RunFailed => "Failed"
  end.

Definition Terminal (s : RunStatus) : bool :=
  bool_decide (s = RunSucceeded) || bool_decide (s = RunBlocked) || bool_decide (s = RunFailed).

Definition RunModeConverge : string := "converge".
Definition RunModeDrain : string := "drain".

Module Envelope.
Record t : Type := mk { MaxNodes : Z; MaxImpact : ImpactRating }.
End Envelope.

Module Run.

Record t : Type := mk {
  ID : string;
  PlanID : string;
  Steps : list Z;
  DryRun : bool;
  Status : RunStatus;
  StopRequested : bool;
  StopRequestedBy : string;
  Mode : string;
  Node : string;
  Envelope : option Envelope.t;
  Actor : string;
  ActorGroups : list string;
  RequestedAt : time;
  StartedAt : option time;
  FinishedAt : option time;
  Worker : string;
  Summary : string;
}.

(** The columns the statements of the store write. *)
Definition claimed (worker : string) (now : time) (r : t) : t :=
  mk (ID r) (PlanID r) (Steps r) (DryRun r) RunRunning (StopRequested r) (StopRequestedBy r)
    (Mode r) (Node r) (Envelope r) (Actor r) (ActorGroups r) (RequestedAt r) (Some now)
    (FinishedAt r) worker (Summary r).

Definition finished (s : RunStatus) (summary : string) (now : time) (r : t) : t :=
  mk (ID r) (PlanID r) (Steps r) (DryRun r) s (StopRequested r) (StopRequestedBy r)
    (Mode r) (Node r) (Envelope r) (Actor r) (ActorGroups r) (RequestedAt r) (StartedAt r)
    (Some now) (Worker r) summary.

Definition stop_requested (by_ : string) (r : t) : t :=
  mk (ID r) (PlanID r) (Steps r) (DryRun r) (Status r) true by_
    (Mode r) (Node r) (Envelope r) (Actor r) (ActorGroups r) (RequestedAt r) (StartedAt r)
    (FinishedAt r) (Worker r) (Summary r).

(** What [Enqueue] fills in and inserts: the columns it does not name take
their defaults. *)
Definition enqueued (id : string) (now : time) (r : t) : t :=
  mk (if (ID r =? "")%string then id else ID r) (PlanID r) (Steps r) (DryRun r) (Status r) false ""
    (Mode r) (Node r) (Envelope r) (Actor r) (ActorGroups r)
    (if IsZeroTime (RequestedAt r) then now else RequestedAt r) None None "" "".

End Run.

(** ** Audit events *)

Inductive EventLevel : Type := EventInfo | EventBlocked | EventError.

Module RunEvent.

(** The level the executor leaves empty is filled in by the store with
[EventInfo], so is the time; the sequence number is the store's. *)
Record t : Type := mk {
  RunID : string;
  Sequence : Z;
  At : time;
  Level : EventLevel;
  Step : Z;
  Node : string;
  Pod : string;
  Action : string;
  Rule : string;
  Message : string;
}.

(** [store.RunEvent{Step, Node, Level, Action, Rule, Message}] *)
Definition entry (step : Z) (node pod : string) (level : EventLevel) (action rule message : string) : t :=
  mk "" 0 0 level step node pod action rule message.

Definition set_RunID (id : string) (e : t) : t :=
  mk id (Sequence e) (At e) (Level e) (Step e) (Node e) (Pod e) (Action e) (Rule e) (Message e).

Definition set_Sequence (n : Z) (e : t) : t :=
  mk (RunID e) n (At e) (Level e) (Step e) (Node e) (Pod e) (Action e) (Rule e) (Message e).

Definition set_At (now : time) (e : t) : t :=
  mk (RunID e) (Sequence e) now (Level e) (Step e) (Node e) (Pod e) (Action e) (Rule e) (Message e).

End RunEvent.

(** ** Reclamations *)

Inductive ReclamationOutcome : Type := ReclaimedGone | ReclaimedReturned.

#[global] Instance ReclamationOutcome_eq_dec : EqDecision ReclamationOutcome.
Proof. solve_decision. Defined.

Module Reclamation.

(** [Outcome] is [None] while the node awaits reclamation. *)
Record t : Type := mk {
  Node : string;
  DrainedAt : time;
  RunID : string;
  PlanID : string;
  Step : Z;
  ResolvedAt : option time;
  Outcome : option ReclamationOutcome;
  CPUMilli : Z;
  MemBytes : Z;
  InstanceType : string;
  CapacityType : string;
  External : bool;
}.

Definition Pending (r : t) : bool := bool_decide (ResolvedAt r = None).

Definition Age (r : t) (now : time) : duration :=
  match ResolvedAt r with
  | Some at_ => time_Sub at_ (DrainedAt r)
  | None => time_Sub now (DrainedAt r)
  end.

End Reclamation.
