(* ===== verification/Effects.v ===== *)
(** * Programs over the executor's world

The executor talks to the cluster, the stores and the clock through
interfaces.  A call is a [request]; what comes back has the type [answer]; code
is a [prog], a tree of calls whose loops are explicit; and [exec] says which
sequences of calls and answers a program can produce, run to its end or cut
short anywhere, as when the process is killed.  Nothing is assumed about the
answers.  The rules of the logic establish what holds of every such history.

[run] executes a program against a stateful world; only loops use its fuel. *)
From S2P Require Import Prelude GoLib Cluster Safety Store.

(** ** Errors

An error is its message and the guard refusal [errors.As] finds in it. *)
Module Err.

Record t : Type := mk { msg : string; as_blocked : option Blocked.t }.

Definition new (m : string) : t := mk m None.
Definition of_block (b : Blocked.t) : t := mk (Blocked.Error b) (Some b).

(** [fmt.Errorf("prefix: %w", err)] *)
Definition wrap (prefix : string) (e : t) : t := mk (prefix +:+ ": " +:+ msg e) (as_blocked e).

End Err.

Abbreviation result A := (Err.t + A)%type.

(** ** Requests *)

Inductive request : Type :=
| Snapshot
| Cordon (node : string)
| Uncordon (node : string)
| PodPresent (namespace name : string)
| Evict (namespace name : string)
| AllowsRed
| Claim (worker : string)
| AppendEvent (ev : RunEvent.t)
| Finish (runID : string) (status : RunStatus) (summary : string)
| RunByID (runID : string)
| PlanByID (planID : string)
| RecordDrain (r : Reclamation.t)
| RecordRecovery (workload : string) (at_ : time) (took : duration)
| Now
| Sleep (d : duration).

(** [None] is the nil error.  A claim answers [inr None] for [ErrNotFound].
[AllowsRed] asks the configured windows what they permit at this moment. *)
Definition answer (c : request) : Type :=
  match c with
  | Snapshot => result ClusterSnapshot.t
  | PodPresent _ _ => result bool
  | AllowsRed => Windows
  | Claim _ => result (option Run.t)
  | RunByID _ => result Run.t
  | PlanByID _ => result Plan.t
  | Now => time
  | Cordon _ | Uncordon _ | Evict _ _ | AppendEvent _ | Finish _ _ _
  | RecordDrain _ | RecordRecovery _ _ _ | Sleep _ => option Err.t
  end.

(** ** Programs *)

Inductive prog (A : Type) : Type :=
| Ret (a : A)
| Call (c : request) (k : answer c → prog A)
| Loop {I B : Type} (body : I → prog (I + B)) (i : I) (k : B → prog A).

Arguments Ret {A} a.
Arguments Call {A} c k.
Arguments Loop {A I B} body i k.

Fixpoint bind {A B} (p : prog A) (f : A → prog B) : prog B :=
  match p with
  | Ret a => f a
  | Call c k => Call c (λ r, bind (k r) f)
  | Loop body i k => Loop body i (λ b, bind (k b) f)
  end.

Definition call (c : request) : prog (answer c) := Call c Ret.

(** [for { body }]: [inl] goes round again, [inr] leaves. *)
Definition loop {I B} (body : I → prog (I + B)) (i : I) : prog B := Loop body i Ret.

Declare Scope prog_scope.
Delimit Scope prog_scope with prog.
Notation "'do' x '<-' p ';;' q" := (bind p (λ x, q))
  (at level 60, x name, p at level 59, right associativity) : prog_scope.
Notation "p ';;;' q" := (bind p (λ _, q)) (at level 60, right associativity) : prog_scope.

#[local] Open Scope prog_scope.

(** ** Histories *)

Inductive occurrence : Type := Ev (c : request) (r : answer c).

Abbreviation history := (list occurrence).

(** One step of a loop at a time, until it leaves or is cut short. *)
Inductive iterates {I B} (R : I → history → option (I + B) → Prop) :
    I → history → option B → Prop :=
| iterates_cut i t : R i t None → iterates R i t None
| iterates_leave i t b : R i t (Some (inr b)) → iterates R i t (Some b)
| iterates_again i t t' j o :
    R i t (Some (inl j)) → iterates R j t' o → iterates R i (t ++ t') o.

(** [exec p t o]: [p] can perform exactly the calls of [t] with those answers,
and has then returned [a] (when [o] is [Some a]) or been cut short ([None]). *)
Fixpoint exec {A} (p : prog A) (t : history) (o : option A) {struct p} : Prop :=
  match p with
  | Ret a => t = [] ∧ (o = Some a ∨ o = None)
  | Call c k => (t = [] ∧ o = None) ∨ ∃ r t', t = Ev c r :: t' ∧ exec (k r) t' o
  | Loop body i k =>
      (iterates (λ j, exec (body j)) i t None ∧ o = None) ∨
      ∃ b t1 t2, t = t1 ++ t2 ∧ iterates (λ j, exec (body j)) i t1 (Some b) ∧ exec (k b) t2 o
  end.

(** ** A logic of histories

[ok h e]: the call [e] is allowed after history [h].  [triple ok P p Q]: started
from a history satisfying [P], whatever comes back, [p] makes only allowed
calls, and if it returns, the whole history satisfies [Q]. *)

Section logic.
Context (ok : history → occurrence → Prop).

Definition allowed (h t : history) : Prop :=
  ∀ t1 e t2, t = t1 ++ e :: t2 → ok (h ++ t1) e.

Definition triple {A} (P : history → Prop) (p : prog A) (Q : A → history → Prop) : Prop :=
  ∀ h t o, P h → exec p t o → allowed h t ∧ ∀ a, o = Some a → Q a (h ++ t).

Lemma allowed_nil h : allowed h [].
Proof. intros [|? ?] ? ? ?; simplify_eq. Qed.

Lemma allowed_cons h e t : ok h e → allowed (h ++ [e]) t → allowed h (e :: t).
Proof.
  intros He Ht [|e' t1] e0 t2 Heq; simpl in *; simplify_eq.
  { by rewrite app_nil_r. }
  specialize (Ht t1 e0 t2 eq_refl). by rewrite <- app_assoc in Ht.
Qed.

Lemma allowed_app h t1 t2 : allowed h t1 → allowed (h ++ t1) t2 → allowed h (t1 ++ t2).
Proof.
  revert h. induction t1 as [|e t1 IH]; intros h H1 H2; simpl.
  { by rewrite app_nil_r in H2. }
  apply allowed_cons.
  - specialize (H1 [] e t1 eq_refl). by rewrite app_nil_r in H1.
  - apply IH.
    + intros u1 e0 u2 Heq. rewrite <- app_assoc. simpl. eapply H1. by rewrite Heq.
    + by rewrite <- app_assoc.
Qed.

Lemma triple_ret {A} (P : history → Prop) (a : A) Q : (∀ h, P h → Q a h) → triple P (Ret a) Q.
Proof.
  intros HPQ h t o HP [-> Ho]. split; [apply allowed_nil|].
  intros a' ->. rewrite app_nil_r. destruct Ho as [[= <-]|?]; [by apply HPQ|done].
Qed.

Lemma triple_conseq {A} (P P' : history → Prop) (p : prog A) Q Q' :
  triple P' p Q' → (∀ h, P h → P' h) → (∀ a h, Q' a h → Q a h) → triple P p Q.
Proof.
  intros Hp HP HQ h t o Hh He. destruct (Hp h t o (HP _ Hh) He) as [H1 H2]. split; [done|].
  intros a Ha. by apply HQ, H2.
Qed.

Lemma triple_Call {A} (P : history → Prop) c (k : answer c → prog A) Q :
  (∀ h r, P h → ok h (Ev c r)) →
  (∀ r, triple (λ h, ∃ h', h = h' ++ [Ev c r] ∧ P h') (k r) Q) →
  triple P (Call c k) Q.
Proof.
  intros Hok Hk h t o HP [[-> ->]|(r & t' & -> & He)].
  { split; [apply allowed_nil|done]. }
  destruct (Hk r (h ++ [Ev c r]) t' o) as [H1 H2]; [by exists h|done|].
  split; [apply allowed_cons; auto|]. intros a Ha. specialize (H2 a Ha). by simplify_list_eq.
Qed.

Lemma triple_Loop {A I B} (P : history → Prop) (body : I → prog (I + B)) i (k : B → prog A) Q
    (Inv : I → history → Prop) (R : B → history → Prop) :
  (∀ h, P h → Inv i h) →
  (∀ j, triple (Inv j) (body j) (λ s h, match s with inl j' => Inv j' h | inr b => R b h end)) →
  (∀ b, triple (R b) (k b) Q) →
  triple P (Loop body i k) Q.
Proof.
  intros HPI Hb Hk h t o HP.
  assert (Hit : ∀ h i t o, Inv i h → iterates (λ j, exec (body j)) i t o →
    allowed h t ∧ ∀ b, o = Some b → R b (h ++ t)).
  { clear HPI Hk HP t o h. intros h i' t o Hi Hit. revert h Hi. rename Hb into Hbody.
    induction Hit as [i' t He|i' t b He|i' t t' j o He Hit IH]; intros h Hi;
      destruct (Hbody i' h t _ Hi He) as [H1 H2].
    - done.
    - split; [done|]. intros b' [= <-]. exact (H2 _ eq_refl).
    - destruct (IH _ (H2 _ eq_refl)) as [H3 H4]. split; [by apply allowed_app|].
      intros b Hb. specialize (H4 b Hb). by rewrite app_assoc. }
  intros [[He ->]|(b & t1 & t2 & -> & He & Hk')].
  - destruct (Hit h i t None) as [H1 _]; [by apply HPI|done|]. split; [done|done].
  - destruct (Hit h i t1 (Some b)) as [H1 H2]; [by apply HPI|done|].
    destruct (Hk b (h ++ t1) t2 o) as [H3 H4]; [by apply H2|done|].
    split; [by apply allowed_app|]. intros a Ha. specialize (H4 a Ha). by rewrite app_assoc.
Qed.

Lemma exec_bind {A B} (p : prog A) (f : A → prog B) t o :
  exec (bind p f) t o →
  (exec p t None ∧ o = None) ∨
  ∃ a t1 t2, t = t1 ++ t2 ∧ exec p t1 (Some a) ∧ exec (f a) t2 o.
Proof.
  revert t. induction p as [A a|A c k IH|A I C body IHb i k IH]; intros t; simpl.
  - intros He. right. exists a, [], t. split_and!; [done|done|by left|done].
  - intros [[-> ->]|(r & t' & -> & He)]; [by left; split; [left|]|].
    destruct (IH _ _ _ He) as [[H1 ->]|(a & t1 & t2 & -> & H1 & H2)].
    + left. split; [right|done]. by exists r, t'.
    + right. exists a, (Ev c r :: t1), t2. split_and!; [done| |done]. right. by exists r, t1.
  - intros [[He ->]|(b & t1 & t2 & -> & He & Hk)]; [by left; split; [left|]|].
    destruct (IH _ _ _ Hk) as [[H1 ->]|(a & t3 & t4 & -> & H1 & H2)].
    + left. split; [right|done]. by exists b, t1, t2.
    + right. exists a, (t1 ++ t3), t4. rewrite app_assoc. split_and!; [done| |done].
      right. by exists b, t1, t3.
Qed.

Lemma triple_bind {A B} P (p : prog A) (f : A → prog B) R Q :
  triple P p R → (∀ a, triple (R a) (f a) Q) → triple P (bind p f) Q.
Proof.
  intros Hp Hf h t o HP He.
  destruct (exec_bind _ _ _ _ He) as [[H1 ->]|(a & t1 & t2 & -> & H1 & H2)].
  - destruct (Hp h t None HP H1). by split.
  - destruct (Hp h t1 _ HP H1) as [J1 J2]. destruct (Hf a (h ++ t1) t2 o) as [J3 J4]; [by apply J2|done|].
    split; [by apply allowed_app|]. intros b Hb. specialize (J4 b Hb). by rewrite app_assoc.
Qed.

Lemma triple_call (P : history → Prop) c Q :
  (∀ h r, P h → ok h (Ev c r) ∧ Q r (h ++ [Ev c r])) → triple P (call c) Q.
Proof.
  intros HP. apply triple_Call; [intros h r Hh; by apply HP|].
  intros r. apply triple_ret. intros h (h' & -> & Hh). by apply HP.
Qed.

Lemma triple_loop {I B} (body : I → prog (I + B)) (Inv : I → history → Prop) Q i :
  (∀ j, triple (Inv j) (body j) (λ s h, match s with inl j' => Inv j' h | inr b => Q b h end)) →
  triple (Inv i) (loop body i) Q.
Proof.
  intros Hb. eapply (triple_Loop _ _ _ _ _ Inv Q); [done|exact Hb|].
  intros b. by apply triple_ret.
Qed.

Lemma triple_pull {A} (φ : Prop) P (p : prog A) Q :
  (φ → triple P p Q) → triple (λ h, φ ∧ P h) p Q.
Proof. intros H h t o [Hφ HP]. by apply H. Qed.

Lemma triple_exists {A X} P (p : prog A) Q :
  (∀ x : X, triple (P x) p Q) → triple (λ h, ∃ x, P x h) p Q.
Proof. intros H h t o [x HP]. by apply (H x). Qed.
End logic.

(** [only S p]: every call [p] can make satisfies [S]. *)
Fixpoint only (S : request → bool) {A} (p : prog A) : Prop :=
  match p with
  | Ret _ => True
  | Call c k => S c = true ∧ ∀ r, only S (k r)
  | Loop body i k => (∀ j, only S (body j)) ∧ ∀ b, only S (k b)
  end.

Section only.
Context (S : request → bool).

Lemma only_bind {A B} (p : prog A) (f : A → prog B) :
  only S p → (∀ a, only S (f a)) → only S (bind p f).
Proof.
  intros Hp Hf. induction p as [A a|A c k IH|A I C body IHb i k IH]; simpl in *; [done|..].
  - destruct Hp as [? Hk]. split; [done|]. intros r. by apply IH.
  - destruct Hp as [? Hk]. split; [done|]. intros b. by apply IH.
Qed.

(** What every call in [S] preserves, a program that only calls [S] preserves. *)
Lemma triple_only {A} ok (P : history → Prop) (p : prog A) :
  (∀ h c r, S c = true → P h → ok h (Ev c r) ∧ P (h ++ [Ev c r])) →
  only S p → triple ok P p (λ _, P).
Proof.
  intros HS. revert P HS. induction p as [A a|A c k IH|A I C body IHb i k IH]; intros P HS Hp; simpl in Hp.
  - by apply triple_ret.
  - destruct Hp as [Hc Hk]. apply triple_Call; [intros h r Hh; by apply HS|].
    intros r. eapply triple_conseq; [by apply (IH r P HS)| |done].
    intros h (h' & -> & Hh). by apply HS.
  - destruct Hp as [Hb Hk]. apply (triple_Loop _ _ _ _ _ _ (λ _, P) (λ _, P)); [done| |].
    + intros j. eapply triple_conseq; [by apply (IHb j P HS)|done|]. by intros [].
    + intros b. by apply IH.
Qed.
End only.

Lemma only_exec (S : request → bool) {A} (p : prog A) t o :
  only S p → exec p t o → Forall (λ '(Ev c _), S c = true) t.
Proof.
  intros Hp He.
  destruct (triple_only S (λ _ '(Ev c _), S c = true) (λ _, True) p) with (h := @nil occurrence) (t := t) (o := o)
    as [Ha _]; [done..|].
  apply Forall_forall. intros e Hin. apply list_elem_of_split in Hin as (t1 & t2 & ->).
  by apply (Ha t1 e t2).
Qed.

(** ** Running against a world *)

Section world.
Context {W : Type} (handle : ∀ c : request, W → answer c * W).

Fixpoint spin {I B} (step : I → W → option ((I + B) * W)) (fuel : nat) (i : I) (w : W) :
    option (B * W) :=
  match fuel with
  | O => None
  | S fuel =>
      match step i w with
      | None => None
      | Some (inl j, w) => spin step fuel j w
      | Some (inr b, w) => Some (b, w)
      end
  end.

Fixpoint run {A} (fuel : nat) (p : prog A) (w : W) {struct p} : option (A * W) :=
  match p with
  | Ret a => Some (a, w)
  | Call c k => let '(r, w) := handle c w in run fuel (k r) w
  | Loop body i k =>
      match spin (λ j, run fuel (body j)) fuel i w with
      | None => None
      | Some (b, w) => run fuel (k b) w
      end
  end.

Lemma run_bind {A B} fuel (p : prog A) (f : A → prog B) w :
  run fuel (bind p f) w =
  match run fuel p w with None => None | Some (a, w) => run fuel (f a) w end.
Proof.
  revert w. induction p as [A a|A c k IH|A I C body IHb i k IH]; intros w; simpl; [done|..].
  - destruct (handle c w). apply IH.
  - destruct (spin _ _ _ _) as [[b w']|]; [apply IH|done].
Qed.
End world.

(** ** Recorded runs *)

Section recording.
Context {W : Type} (handle : ∀ c : request, W → answer c * W).

Definition recording (c : request) (s : W * history) : answer c * (W * history) :=
  let '(r, w) := handle c s.1 in (r, (w, s.2 ++ [Ev c r])).

(** A run of the program from [w], with the history it made. *)
Definition record {A} (fuel : nat) (p : prog A) (w : W) : option (A * history) :=
  match run recording fuel p (w, []) with
  | None => None
  | Some (a, s) => Some (a, s.2)
  end.

Lemma spin_iterates {I B} (body : I → prog (I + B)) fuel
    (IHb : ∀ j s a s', run recording fuel (body j) s = Some (a, s') →
      ∃ t, s'.2 = s.2 ++ t ∧ exec (body j) t (Some a)) :
  ∀ n i s b s', spin (λ j, run recording fuel (body j)) n i s = Some (b, s') →
    ∃ t, s'.2 = s.2 ++ t ∧ iterates (λ j, exec (body j)) i t (Some b).
Proof.
  induction n as [|n IH]; intros i s b s'; simpl; [done|].
  destruct (run recording fuel (body i) s) as [[[j|b'] s1]|] eqn:Hb; [| |done].
  - intros Hs. destruct (IHb _ _ _ _ Hb) as (t1 & E1 & H1). destruct (IH _ _ _ _ Hs) as (t2 & E2 & H2).
    exists (t1 ++ t2). split; [by rewrite E2, E1, app_assoc|]. by eapply iterates_again.
  - intros [= <- <-]. destruct (IHb _ _ _ _ Hb) as (t1 & E1 & H1). exists t1.
    split; [done|]. by apply iterates_leave.
Qed.

Lemma run_exec {A} (p : prog A) : ∀ fuel s a s',
  run recording fuel p s = Some (a, s') → ∃ t, s'.2 = s.2 ++ t ∧ exec p t (Some a).
Proof.
  induction p as [A a|A c k IH|A I C body IHb i k IH]; intros fuel s a' s'; simpl.
  - intros [= <- <-]. exists []. rewrite app_nil_r. split; [done|]. by split; [|left].
  - unfold recording at 1. destruct (handle c s.1) as [r w]. intros Hr.
    destruct (IH _ _ _ _ _ Hr) as (t & E & Ht). exists (Ev c r :: t). split.
    + rewrite E. simpl. by rewrite <- app_assoc.
    + right. by exists r, t.
  - destruct (spin _ _ _ _) as [[b s1]|] eqn:Hs; [|done]. intros Hr.
    destruct (spin_iterates body fuel (λ j, IHb j fuel) _ _ _ _ _ Hs) as (t1 & E1 & H1).
    destruct (IH _ _ _ _ _ Hr) as (t2 & E2 & H2).
    exists (t1 ++ t2). split; [by rewrite E2, E1, app_assoc|]. right. by exists b, t1, t2.
Qed.

Lemma record_exec {A} fuel (p : prog A) w a t :
  record fuel p w = Some (a, t) → exec p t (Some a).
Proof.
  unfold record. destruct (run recording fuel p (w, [])) as [[a' s]|] eqn:Hr; [|done].
  intros [= <- <-]. destruct (run_exec p _ _ _ _ Hr) as (t & E & Ht). by rewrite E.
Qed.
End recording.
