(* ===== verification/Executor.v ===== *)
(** * The executor (internal/executor)

Claims an approved run and performs it: a list of plan steps ([perform],
executor.go), a closed loop inside an envelope ([converge], converge.go) or the
drain of one named node ([drainNode], drain_mode.go); and the translation of
the eviction API's answers (k8s.go).  Code that acts is a [prog] whose calls are
those of the interfaces [Cluster], [store.ExecutionStore], [store.Store] and the
optional recorders, and the clock.  Logging and metrics are left out, and a
context shows only in the errors it makes calls return. *)
From S2P Require Import Prelude GoLib Float64 Model Cluster WorkingPlacement Analyzer Planner Impact Safety Store Effects.

#[local] Open Scope prog_scope.

(** ** cluster.go *)

Definition PodKey (namespace name : string) : string := namespace +:+ "/" +:+ name.

Definition ownerKey (pod : Pod.t) : string :=
  match Pod.Owner pod with
  | None => ""
  | Some o => Pod.Namespace pod +:+ "/" +:+ OwnerRef.Kind o +:+ "/" +:+ OwnerRef.Name o
  end.

Inductive Readiness : Type := ReadinessReady | ReadinessRunning.

Definition readiness_string (r : Readiness) : string :=
  match r with ReadinessReady => "Ready" | ReadinessRunning => "Running" end.

Definition healthy (pod : Pod.t) (criterion : Readiness) : bool :=
  if Pod.Terminating pod || negb (Pod.Phase pod =? PodRunning)%string then false
  else match criterion with ReadinessRunning => true | ReadinessReady => Pod.Ready pod end.

(** ** k8s.go *)

Inductive api_error : Type :=
| IsNotFound (msg : string) | IsTooManyRequests (msg : string) | OtherError (msg : string).

(** [K8sCluster.Evict], from the answer of the eviction subresource. *)
Definition K8s_Evict (namespace name : string) (err : option api_error) : option Err.t :=
  match err with
  | None => None
  | Some (IsNotFound _) => None
  | Some (IsTooManyRequests m) =>
      Some (Err.of_block (Blocked.mk RulePDBHeadroom
        ("the API server refused to evict " +:+ PodKey namespace name +:+
         ": a PodDisruptionBudget has no headroom (" +:+ m +:+ ")")))
  | Some (OtherError m) => Some (Err.wrap ("evict " +:+ PodKey namespace name) (Err.new m))
  end.

(** ** executor.go: options *)

Module ExecOptions.

(** The optional collaborators are present or not; [Readiness] is [None] when
unset. *)
Record t : Type := mk {
  Worker : string;
  Limits : Limits.t;
  Reclamations : bool;
  Recoveries : bool;
  StepTimeout : duration;
  SettleTimeout : duration;
  PollInterval : duration;
  Windows : bool;
  Planner : Options.t;
  Classifier : Thresholds.t;
  ReadinessOpt : option Readiness;
}.

Definition Readiness_ (o : t) : Readiness := default ReadinessReady (ReadinessOpt o).

Definition withDefaults (o : t) : t :=
  mk (if (Worker o =? "")%string then "executor" else Worker o)
    (Limits o) (Reclamations o) (Recoveries o)
    (if StepTimeout o <=? 0 then 10 * Minute else StepTimeout o)
    (if SettleTimeout o <=? 0 then 5 * Minute else SettleTimeout o)
    (if PollInterval o <=? 0 then 2 * Second else PollInterval o)
    (Windows o)
    (if (Options.MinNodeAge (Planner o) =? 0) && bool_decide (Options.ExcludeNodeLabels (Planner o) = [])
     then Options.DefaultOptions else Planner o)
    (if (Thresholds.YellowPodsMoved (Classifier o) =? 0) && (Thresholds.RedPodsMoved (Classifier o) =? 0) &&
        (Thresholds.TightPDBHeadroom (Classifier o) =? 0)
     then Impact.New (Thresholds.mk 0 0 0) else Classifier o)
    (Some (Readiness_ o)).

End ExecOptions.

(** ** executor.go: helpers *)

Definition findStep (plan : Plan.t) (seq : Z) : option PlanStep.t :=
  List.find (λ s, PlanStep.SequenceNumber s =? seq) (Plan.Steps plan).

Definition findPod (snap : ClusterSnapshot.t) (namespace name : string) : option Pod.t :=
  List.find (λ p, (Pod.Namespace p =? namespace)%string && (Pod.Name p =? name)%string)
    (ClusterSnapshot.Pods snap).

Definition movablePodsOn (snap : ClusterSnapshot.t) (node : string) : list Pod.t :=
  List.filter (λ p, (Pod.NodeName p =? node)%string && Pod.IsMovable p) (ClusterSnapshot.Pods snap).

Definition count_healthy (criterion : Readiness) (out : gmap string Z) (p : Pod.t) : gmap string Z :=
  if negb (ownerKey p =? "")%string && healthy p criterion
  then <[ownerKey p := default 0 (out !! ownerKey p) + 1]> out
  else out.

Definition healthyByOwner (snap : ClusterSnapshot.t) (criterion : Readiness) : gmap string Z :=
  fold_left (count_healthy criterion) (ClusterSnapshot.Pods snap) ∅.

(** A missing key reads as zero. *)
Definition count_of (m : gmap string Z) (k : string) : Z := default 0 (m !! k).

Definition dryRunSuffix (dry : bool) : string := if dry then " [dry run]" else "".

(** [Duration.Round(time.Second)] of a duration that is at least a second:
half away from zero, saturating. *)
Definition round_second (d : duration) : duration :=
  let r := d mod Second in
  if r + r <? Second then d - r
  else if d + Second - r <? 2 ^ 63 then d + Second - r else 2 ^ 63 - 1.

Definition slower (acc : string * duration) (od : string * duration) : string * duration :=
  if acc.2 <? od.2 then od else acc.

Section executor.
Context `{MapRange} (opts : ExecOptions.t).

Definition recoverySummary (took : gmap string duration) : string :=
  if bool_decide (size took = 0%nat) then ""
  else
    let '(slowest, worst) := fold_left slower (entries took) ("", 0) in
    if worst <? Second then ", all within a second"
    else if bool_decide (size took = 1%nat) then
      ", in " +:+ duration_string (round_second worst)
    else ", slowest " +:+ slowest +:+ " at " +:+ duration_string (round_second worst).

(** The guard of [New], with what its windows permit now. *)
Definition guard_now : prog Guard.t :=
  let guard := Guard.New (ExecOptions.Limits opts) in
  if ExecOptions.Windows opts then
    do w <- call AllowsRed;;
    Ret (Guard.WithWindows guard (Some w))
  else Ret guard.

(** ** Audit *)

Definition event (run : Run.t) (ev : RunEvent.t) : prog unit :=
  do _ <- call (AppendEvent (RunEvent.set_RunID (Run.ID run) ev));;
  Ret ().

Definition finish (run : Run.t) (status : RunStatus) (summary : string) : prog unit :=
  do _ <- call (Finish (Run.ID run) status summary);;
  Ret ().

Definition fail (run : Run.t) (msg : string) : prog unit :=
  event run (RunEvent.entry 0 "" "" EventError "Fail" "" msg) ;;;
  finish run RunFailed msg.

Definition blocked (run : Run.t) (step : PlanStep.t) (err : Err.t) : prog unit :=
  match Err.as_blocked err with
  | None => Ret ()
  | Some b =>
      event run (RunEvent.entry (PlanStep.SequenceNumber step) (PlanStep.TargetNode step) ""
        EventBlocked "Guard" (rule_string (Blocked.rule b)) (Blocked.Reason b))
  end.

(** An informational event about a step. *)
Definition note (run : Run.t) (step : PlanStep.t) (pod action msg : string) : prog unit :=
  event run (RunEvent.entry (PlanStep.SequenceNumber step) (PlanStep.TargetNode step) pod
    EventInfo action "" msg).

Definition stopRequested (runID : string) : prog (option string) :=
  do r <- call (RunByID runID);;
  match r with
  | inl _ => Ret None
  | inr cur =>
      if negb (Run.StopRequested cur) then Ret None
      else Ret (Some (if (Run.StopRequestedBy cur =? "")%string then "an operator"
                      else Run.StopRequestedBy cur))
  end.

(** ** Waiting *)

Definition waitGone (pod : Pod.t) : prog (option Err.t) :=
  do start <- call Now;;
  let deadline := time_Add start (ExecOptions.SettleTimeout opts) in
  loop (λ _ : unit,
    do r <- call (PodPresent (Pod.Namespace pod) (Pod.Name pod));;
    match r with
    | inl err => Ret (inr (Some (Err.wrap ("check " +:+ Pod.Key pod) err)))
    | inr false => Ret (inr None)
    | inr true =>
        do now <- call Now;;
        if After now deadline then
          Ret (inr (Some (Err.new (Pod.Key pod +:+ " did not terminate within " +:+
            duration_string (ExecOptions.SettleTimeout opts)))))
        else
          do e <- call (Sleep (ExecOptions.PollInterval opts));;
          match e with
          | Some err => Ret (inr (Some err))
          | None => Ret (inl ())
          end
    end) ().

Fixpoint record_recoveries (now : time) (took : list (string * duration)) : prog unit :=
  match took with
  | [] => Ret ()
  | (owner, d) :: took =>
      call (RecordRecovery owner now d) ;;; record_recoveries now took
  end.

Definition rememberRecovery (took : gmap string duration) : prog unit :=
  if negb (ExecOptions.Recoveries opts) || bool_decide (size took = 0%nat) then Ret ()
  else
    do now <- call Now;;
    record_recoveries now (entries took).

(** The loop over the affected workloads: what lags, and when the others were
first whole again. *)
Fixpoint survey (before now : gmap string Z) (started : time) (owners : list string)
    (lagging : string) (recoveredAt : gmap string duration) : prog (string * gmap string duration) :=
  match owners with
  | [] => Ret (lagging, recoveredAt)
  | owner :: owners =>
      if count_of now owner <? count_of before owner then
        survey before now started owners
          (if (lagging =? "")%string then
             owner +:+ " has " +:+ pretty (count_of now owner) +:+ "/" +:+
             pretty (count_of before owner) +:+ " healthy pod(s)"
           else lagging) recoveredAt
      else match recoveredAt !! owner with
      | Some _ => survey before now started owners lagging recoveredAt
      | None =>
          do t <- call Now;;
          survey before now started owners lagging (<[owner := time_Sub t started]> recoveredAt)
      end
  end.

Definition verifyRecovered (run : Run.t) (step : PlanStep.t) (before : gmap string Z)
    (affected : gset string) : prog (option Err.t) :=
  if bool_decide (affected = ∅) then Ret None
  else
    do started <- call Now;;
    do t <- call Now;;
    let deadline := time_Add t (ExecOptions.SettleTimeout opts) in
    loop (λ recoveredAt : gmap string duration,
      do r <- call Snapshot;;
      match r with
      | inl err => Ret (inr (Some (Err.wrap "read cluster state" err)))
      | inr live =>
          do res <- survey before (healthyByOwner live (ExecOptions.Readiness_ opts)) started
            (range (elements affected)) "" recoveredAt;;
          let '(lagging, recoveredAt) := res in
          if (lagging =? "")%string then
            note run step "" "Verify"
              ("all " +:+ pretty (size affected) +:+ " affected workload(s) recovered elsewhere" +:+
               recoverySummary recoveredAt) ;;;
            rememberRecovery recoveredAt ;;;
            Ret (inr None)
          else
            do now <- call Now;;
            if After now deadline then
              Ret (inr (Some (Err.new ("workloads did not recover within " +:+
                duration_string (ExecOptions.SettleTimeout opts) +:+ " (" +:+
                readiness_string (ExecOptions.Readiness_ opts) +:+ "): " +:+ lagging))))
            else
              do e <- call (Sleep (ExecOptions.PollInterval opts));;
              match e with
              | Some err => Ret (inr (Some err))
              | None => Ret (inl recoveredAt)
              end
      end) ∅.

(** ** One step *)

Definition recordDrain (run : Run.t) (step : PlanStep.t) : prog unit :=
  if negb (ExecOptions.Reclamations opts) || (PlanStep.TargetNode step =? "")%string then Ret ()
  else
    do r <- call Snapshot;;
    let '(cpu, mem, itype, ctype) :=
      match r with
      | inl _ => (0, 0, "", "")
      | inr snap =>
          match List.find (λ n, (Node.Name n =? PlanStep.TargetNode step)%string)
                  (ClusterSnapshot.Nodes snap) with
          | None => (0, 0, "", "")
          | Some n => (Resources.MilliCPU (Node.Allocatable n), Resources.MemoryBytes (Node.Allocatable n),
                       Node.InstanceType n, Node.CapacityType n)
          end
      end in
    do now <- call Now;;
    call (RecordDrain (Reclamation.mk (PlanStep.TargetNode step) now (Run.ID run) (Run.PlanID run)
      (PlanStep.SequenceNumber step) None None cpu mem itype ctype false)) ;;;
    Ret ().

(** The loop of [drain]; [inr] is the set of workloads touched. *)
Fixpoint evict_all (run : Run.t) (step : PlanStep.t) (pods : list Pod.t) (affected : gset string) :
    prog (result (gset string)) :=
  match pods with
  | [] => Ret (inr affected)
  | pod :: pods =>
      do r <- call Snapshot;;
      match r with
      | inl err => Ret (inl (Err.wrap "read cluster state" err))
      | inr live =>
          match findPod live (Pod.Namespace pod) (Pod.Name pod) with
          | None => evict_all run step pods affected
          | Some current =>
              match CheckEviction current live with
              | Some b =>
                  blocked run step (Err.of_block b) ;;; Ret (inl (Err.of_block b))
              | None =>
                  do e <- call (Evict (Pod.Namespace pod) (Pod.Name pod));;
                  match e with
                  | Some err =>
                      match Err.as_blocked err with
                      | Some b => blocked run step (Err.of_block b) ;;; Ret (inl (Err.of_block b))
                      | None => Ret (inl (Err.wrap ("evict " +:+ Pod.Key pod) err))
                      end
                  | None =>
                      let affected := if (ownerKey pod =? "")%string then affected
                                      else {[ownerKey pod]} ∪ affected in
                      note run step (Pod.Key pod) "Evict" ("evicted " +:+ Pod.Key pod) ;;;
                      do gone <- waitGone pod;;
                      match gone with
                      | Some err => Ret (inl err)
                      | None => evict_all run step pods affected
                      end
                  end
              end
          end
      end
  end.

Definition drain (run : Run.t) (step : PlanStep.t) : prog (option Err.t) :=
  do r <- call Snapshot;;
  match r with
  | inl err => Ret (Some (Err.wrap "read cluster state" err))
  | inr live =>
      let before := healthyByOwner live (ExecOptions.Readiness_ opts) in
      do res <- evict_all run step (movablePodsOn live (PlanStep.TargetNode step)) ∅;;
      match res with
      | inl err => Ret (Some err)
      | inr affected =>
          do e <- verifyRecovered run step before affected;;
          match e with
          | Some err => Ret (Some err)
          | None => recordDrain run step ;;; Ret None
          end
      end
  end.

Definition abort (run : Run.t) (step : PlanStep.t) (cause : Err.t) : prog unit :=
  let node := PlanStep.TargetNode step in
  do e <- call (Uncordon node);;
  match e with
  | Some err =>
      event run (RunEvent.entry (PlanStep.SequenceNumber step) node "" EventError "Uncordon" ""
        ("could not restore " +:+ node +:+ " to schedulable: " +:+ Err.msg err +:+
         " — it needs `kubectl uncordon " +:+ node +:+ "` by hand"))
  | None =>
      note run step "" "Uncordon"
        ("aborted after " +:+ Err.msg cause +:+ "; " +:+ node +:+
         " is schedulable again. Pods already evicted were not restored — eviction cannot be undone")
  end.

Definition drained_one (state : RunState.t) : RunState.t :=
  RunState.mk (RunState.NodesDrainedSoFar state + 1).

Fixpoint rehearse_pods (run : Run.t) (step : PlanStep.t) (live : ClusterSnapshot.t)
    (pods : list Pod.t) : prog (option Err.t) :=
  match pods with
  | [] => Ret None
  | pod :: pods =>
      match CheckEviction pod live with
      | Some b => blocked run step (Err.of_block b) ;;; Ret (Some (Err.of_block b))
      | None =>
          note run step (Pod.Key pod) "Evict" ("would evict " +:+ Pod.Key pod +:+ " (dry run)") ;;;
          rehearse_pods run step live pods
      end
  end.

Definition rehearse (run : Run.t) (step : PlanStep.t) (live : ClusterSnapshot.t)
    (state : RunState.t) : prog (option Err.t * RunState.t) :=
  let node := PlanStep.TargetNode step in
  let pods := movablePodsOn live node in
  note run step "" "Cordon" ("would mark " +:+ node +:+ " unschedulable (dry run)") ;;;
  do e <- rehearse_pods run step live pods;;
  match e with
  | Some err => Ret (Some err, state)
  | None =>
      note run step "" "Drained"
        ("would drain " +:+ node +:+ ", moving " +:+ pretty (Z.of_nat (length pods)) +:+
         " pod(s) (dry run)") ;;;
      Ret (None, drained_one state)
  end.

Definition performStep (run : Run.t) (step : PlanStep.t) (state : RunState.t) :
    prog (option Err.t * RunState.t) :=
  let node := PlanStep.TargetNode step in
  do r <- call Snapshot;;
  match r with
  | inl err => Ret (Some (Err.wrap "read cluster state" err), state)
  | inr live =>
      do guard <- guard_now;;
      match CheckStep Placement.t guard step live state with
      | Some b =>
          blocked run step (Err.of_block b) ;;; Ret (Some (Err.of_block b), state)
      | None =>
          if Run.DryRun run then rehearse run step live state
          else
            do e <- call (Cordon node);;
            match e with
            | Some err => Ret (Some (Err.wrap ("cordon " +:+ node) err), state)
            | None =>
                note run step "" "Cordon" (node +:+ " marked unschedulable") ;;;
                do d <- drain run step;;
                match d with
                | Some err => abort run step err ;;; Ret (Some err, state)
                | None =>
                    note run step "" "Drained" (node +:+ " drained and left cordoned") ;;;
                    Ret (None, drained_one state)
                end
            end
      end
  end.

(** ** perform *)

(** A step that stopped the run: blocked or failed. *)
Definition close_on_error (run : Run.t) (err : Err.t) (on_blocked on_failed : string → string) :
    prog unit :=
  match Err.as_blocked err with
  | Some b => finish run RunBlocked (on_blocked (Blocked.Reason b))
  | None => finish run RunFailed (on_failed (Err.msg err))
  end.

Fixpoint perform_steps (run : Run.t) (plan : Plan.t) (seqs : list Z) (state : RunState.t) : prog unit :=
  match seqs with
  | [] =>
      finish run RunSucceeded
        ("completed " +:+ pretty (Z.of_nat (length (Run.Steps run))) +:+ " step(s), draining " +:+
         pretty (RunState.NodesDrainedSoFar state) +:+ " node(s)" +:+ dryRunSuffix (Run.DryRun run))
  | seq :: seqs =>
      do stop <- stopRequested (Run.ID run);;
      match stop with
      | Some by_ =>
          finish run RunStopped
            ("stopped by " +:+ by_ +:+
             "; the steps already completed are done and the rest were not started")
      | None =>
          match findStep plan seq with
          | None => fail run ("plan " +:+ Run.PlanID run +:+ " has no step " +:+ pretty seq)
          | Some step =>
              do res <- performStep run step state;;
              match res with
              | (Some err, _) =>
                  close_on_error run err
                    (λ why, "stopped at step " +:+ pretty seq +:+ ": " +:+ why)
                    (λ why, "failed at step " +:+ pretty seq +:+ ": " +:+ why)
              | (None, state) => perform_steps run plan seqs state
              end
          end
      end
  end.

Definition perform (run : Run.t) : prog unit :=
  event run (RunEvent.entry 0 "" "" EventInfo "Claim" ""
    ("run claimed by " +:+ ExecOptions.Worker opts +:+ " for " +:+ Run.Actor run +:+ " (steps " +:+
     show_strings (pretty <$> Run.Steps run) +:+ " of plan " +:+ Run.PlanID run +:+ ")" +:+
     dryRunSuffix (Run.DryRun run))) ;;;
  do r <- call (PlanByID (Run.PlanID run));;
  match r with
  | inl err => fail run ("plan " +:+ Run.PlanID run +:+ " could not be loaded: " +:+ Err.msg err)
  | inr plan => perform_steps run plan (Run.Steps run) (RunState.mk 0)
  end.

(** ** converge.go *)

Definition maxConvergeRounds : Z := 50.

Definition occupiedNodes (snap : ClusterSnapshot.t) : Z :=
  Z.of_nat (size (list_to_set (Pod.NodeName <$>
    List.filter (λ p, negb (Pod.NodeName p =? "")%string && Pod.IsMovable p)
      (ClusterSnapshot.Pods snap)) : gset string)).

Definition rank (r : ImpactRating) : Z :=
  match r with ImpactGreen => 0 | ImpactYellow => 1 | ImpactRed => 2 | ImpactOther _ => 3 end.

Definition exceedsCeiling (rating ceiling : ImpactRating) : bool := rank ceiling <? rank rating.

(** [Greedy.Plan] never returns an error. *)
Definition planOneStep (live : ClusterSnapshot.t) (skip : gset string) :
    prog (option PlanStep.t * string) :=
  do wall <- call Now;;
  let analysis := Analyze Placement.t live in
  let plan := ClassifyPlan (ExecOptions.Classifier opts)
    (Greedy_Plan Placement.t wall live analysis (ExecOptions.Planner opts)) live analysis in
  Ret match List.find (λ s, bool_decide (PlanStep.TargetNode s ∉ skip)) (Plan.Steps plan) with
  | Some s => (Some s, "")
  | None =>
      match Plan.Steps plan with
      | [] => (None, "no further step is worth taking; every remaining node is either needed or undrainable")
      | _ => (None, "every remaining candidate was already drained by this run")
      end
  end.

(** The rounds from [round] on, [todo] of them. *)
Fixpoint converge_rounds (run : Run.t) (env : Envelope.t) (todo : nat) (round : Z)
    (drained : gset string) (state : RunState.t) : prog unit :=
  let so_far := pretty (RunState.NodesDrainedSoFar state) in
  match todo with
  | O =>
      finish run RunSucceeded
        ("drained " +:+ so_far +:+
         " node(s), the envelope's limit; re-run to continue if the plan still shows more")
  | S todo =>
      do stop <- stopRequested (Run.ID run);;
      match stop with
      | Some by_ =>
          finish run RunStopped ("stopped by " +:+ by_ +:+ " after " +:+ so_far +:+
            " node(s); the cluster is left as this round found it")
      | None =>
      do r <- call Snapshot;;
      match r with
      | inl err => fail run ("round " +:+ pretty round +:+ ": read cluster state: " +:+ Err.msg err)
      | inr live =>
      do planned <- planOneStep live drained;;
      match planned with
      | (None, why) =>
          finish run RunSucceeded ("converged after " +:+ so_far +:+ " node(s): " +:+ why)
      | (Some step, _) =>
          let node := PlanStep.TargetNode step in
          let rated := rating_string (PlanStep.Impact step) in
          if exceedsCeiling (PlanStep.Impact step) (Envelope.MaxImpact env) then
            finish run RunSucceeded
              ("stopped at the envelope after " +:+ so_far +:+ " node(s): the next step (drain " +:+
               node +:+ ") is rated " +:+ rated +:+ ", ceiling is " +:+
               rating_string (Envelope.MaxImpact env))
          else
            event run (RunEvent.entry round node "" EventInfo "Plan" ""
              ("round " +:+ pretty round +:+ ": planned against live state — drain " +:+ node +:+
               " (" +:+ rated +:+ ", " +:+ pretty (Z.of_nat (length (PlanStep.Moves step))) +:+
               " pods)" +:+ dryRunSuffix (Run.DryRun run))) ;;;
            do res <- performStep run step state;;
            match res with
            | (Some err, state) =>
                let after := " after " +:+ pretty (RunState.NodesDrainedSoFar state) +:+ " node(s): " in
                close_on_error run err
                  (λ why, "stopped in round " +:+ pretty round +:+ after +:+ why)
                  (λ why, "failed in round " +:+ pretty round +:+ after +:+ why)
            | (None, state) =>
                if Run.DryRun run then
                  finish run RunSucceeded
                    ("dry run rehearsed round 1 (drain " +:+ node +:+
                     "); a converge rehearsal cannot simulate where pods land, so further rounds are not pretended")
                else
                  do r <- call Snapshot;;
                  match r with
                  | inl err =>
                      fail run ("round " +:+ pretty round +:+ ": read cluster state after drain: " +:+
                        Err.msg err)
                  | inr after =>
                      if occupiedNodes live <=? occupiedNodes after then
                        finish run RunSucceeded
                          ("stopped after " +:+ pretty (RunState.NodesDrainedSoFar state) +:+
                           " node(s): round " +:+ pretty round +:+ " freed no node (" +:+
                           pretty (occupiedNodes live) +:+ " occupied before, " +:+
                           pretty (occupiedNodes after) +:+
                           " after) — the workload dance is not consolidating, so continuing would churn pods for nothing")
                      else converge_rounds run env todo (round + 1) ({[node]} ∪ drained) state
                  end
            end
      end end end
  end.

Definition valid_envelope (env : Envelope.t) : bool :=
  (1 <=? Envelope.MaxNodes env) &&
  (bool_decide (Envelope.MaxImpact env = ImpactGreen) || bool_decide (Envelope.MaxImpact env = ImpactYellow)).

Definition refuse_envelope (run : Run.t) : prog unit :=
  fail run "converge run has no valid envelope; refusing an unbounded loop".

Definition converge (run : Run.t) : prog unit :=
  match Run.Envelope run with
  | None => refuse_envelope run
  | Some env =>
      if negb (valid_envelope env) then refuse_envelope run
      else
        let rounds := if maxConvergeRounds <? Envelope.MaxNodes env then maxConvergeRounds
                      else Envelope.MaxNodes env in
        event run (RunEvent.entry 0 "" "" EventInfo "Claim" ""
          ("converge run claimed by " +:+ ExecOptions.Worker opts +:+ " for " +:+ Run.Actor run +:+
           ": up to " +:+ pretty (Envelope.MaxNodes env) +:+ " node(s), impact ceiling " +:+
           rating_string (Envelope.MaxImpact env) +:+ dryRunSuffix (Run.DryRun run))) ;;;
        converge_rounds run env (Z.to_nat rounds) 1 ∅ (RunState.mk 0)
  end.

(** ** drain_mode.go *)

Definition drain_move (node : string) (pod : Pod.t) : Move.t :=
  Move.mk (Pod.Namespace pod) (Pod.Name pod) node "" (Resources.MilliCPU (Pod.Requests pod))
    (Resources.MemoryBytes (Pod.Requests pod)).

(** The synthesised step, rated against live state. *)
Definition drain_step (live : ClusterSnapshot.t) (node : string) : PlanStep.t :=
  let step := PlanStep.fresh 1 node (drain_move node <$> movablePodsOn live node) in
  let '(rating, why, reasons) :=
    ClassifyStep (ExecOptions.Classifier opts) step live (Analyze Placement.t live) in
  PlanStep.set_rating rating why reasons step.

Definition drainNode (run : Run.t) : prog unit :=
  let node := Run.Node run in
  let dry := dryRunSuffix (Run.DryRun run) in
  if (node =? "")%string then fail run "drain run names no node"
  else
    event run (RunEvent.entry 0 node "" EventInfo "Claim" ""
      ("guarded drain of " +:+ node +:+ " claimed by " +:+ ExecOptions.Worker opts +:+ " for " +:+
       Run.Actor run +:+ dry)) ;;;
    do r <- call Snapshot;;
    match r with
    | inl err => fail run ("read cluster state: " +:+ Err.msg err)
    | inr live =>
        if negb (existsb (λ n, (Node.Name n =? node)%string) (ClusterSnapshot.Nodes live)) then
          fail run ("node " +:+ node +:+ " does not exist")
        else
          let step := drain_step live node in
          event run (RunEvent.entry 1 node "" EventInfo "Plan" ""
            ("drain of " +:+ node +:+ " rated " +:+ rating_string (PlanStep.Impact step) +:+ " (" +:+
             pretty (Z.of_nat (length (PlanStep.Moves step))) +:+ " movable pods)" +:+ dry)) ;;;
          do res <- performStep run step (RunState.mk 0);;
          match res with
          | (Some err, _) =>
              close_on_error run err
                (λ why, "drain of " +:+ node +:+ " stopped: " +:+ why)
                (λ why, "drain of " +:+ node +:+ " failed: " +:+ why)
          | (None, _) => finish run RunSucceeded ("drained " +:+ node +:+ dry)
          end
    end.

(** ** Poll *)

Definition work (run : Run.t) : prog unit :=
  if (Run.Mode run =? RunModeConverge)%string then converge run
  else if (Run.Mode run =? RunModeDrain)%string then drainNode run
  else perform run.

Definition Poll : prog (result bool) :=
  do r <- call (Claim (ExecOptions.Worker opts));;
  match r with
  | inl err => Ret (inl err)
  | inr None => Ret (inr false)
  | inr (Some run) => work run ;;; Ret (inr true)
  end.

(** One tick: poll until nothing is left, or a poll fails. *)
Definition empty_queue : prog () :=
  loop (λ _ : (), do r <- Poll;; Ret (match r with inr true => inl () | inr false | inl _ => inr () end)) ().

(** [Executor.Run]: [ticks] is how often the ticker fires before the context is done. *)
Fixpoint Executor_Run (ticks : nat) : prog () :=
  match ticks with
  | O => Ret ()
  | S ticks => empty_queue ;;; Executor_Run ticks
  end.
End executor.
