(* ===== verification/ExecutorFacts.v ===== *)
(** * What a step does to the world

The calls that matter - cordons, evictions, uncordons, the audit entry that
closes a drain, the run's end - are the [key] events of a history; everything
else is quiet.  A step's key events follow one of a few shapes, and every
dangerous call is made in a checked state; both are proved here, once, for the
theorems about whole runs. *)
From S2P Require Import Prelude GoLib Float64 Model Cluster WorkingPlacement Analyzer Planner Impact Safety Store Effects Executor.

Definition is_drained (ev : RunEvent.t) : bool := (RunEvent.Action ev =? "Drained")%string.

Definition quiet (c : request) : bool :=
  match c with
  | Cordon _ | Uncordon _ | Evict _ _ | Finish _ _ _ => false
  | AppendEvent ev => negb (is_drained ev)
  | _ => true
  end.

Definition is_key (e : occurrence) : bool := let '(Ev c _) := e in negb (quiet c).
Definition keys (h : history) : history := List.filter is_key h.

(** Nothing that changes the cluster. *)
Definition harmless (c : request) : bool :=
  match c with Cordon _ | Uncordon _ | Evict _ _ => false | _ => true end.

(** Neither the cluster nor the end of the run. *)
Definition open_ended (c : request) : bool :=
  match c with Finish _ _ _ => false | _ => true end.

Lemma keys_app h t : keys (h ++ t) = keys h ++ keys t.
Proof. apply List.filter_app. Qed.

Lemma keys_quiet h c r : quiet c = true → keys (h ++ [Ev c r]) = keys h.
Proof. intros Hq. rewrite keys_app. simpl. by rewrite Hq, app_nil_r. Qed.

Lemma keys_key h c r : quiet c = false → keys (h ++ [Ev c r]) = keys h ++ [Ev c r].
Proof. intros Hq. rewrite keys_app. simpl. by rewrite Hq. Qed.

(** Decomposes [only S p] along the program, without unfolding the parts named. *)
Ltac only_step :=
  match goal with
  | |- only _ (bind _ _) => apply only_bind; [|intros ?]
  | |- only _ (call _) => split; [reflexivity|done]
  | |- only _ (loop _ _) => split; [intros ?|done]
  | |- only _ (Ret _) => done
  | |- only _ (match ?x with _ => _ end) => destruct x
  | |- only _ (if ?x then _ else _) => destruct x
  | |- only _ (let '(_, _) := ?x in _) => destruct x
  end.
Ltac only_tac := cbn beta zeta; repeat (only_step; cbn beta zeta).

Section quiet.
Context `{MapRange} (opts : ExecOptions.t).

Lemma event_quiet run ev : is_drained ev = false → only quiet (event run ev).
Proof.
  intros Hev. unfold event. apply only_bind; [|done]. split; [|done].
  change (negb (is_drained ev) = true). by rewrite Hev.
Qed.

Lemma note_quiet run step pod action msg :
  (action =? "Drained")%string = false → only quiet (note run step pod action msg).
Proof. intros Ha. by apply event_quiet. Qed.

Lemma blocked_quiet run step err : only quiet (blocked run step err).
Proof. unfold blocked. destruct (Err.as_blocked err); [by apply event_quiet|done]. Qed.

Lemma guard_now_quiet : only quiet (guard_now opts).
Proof. unfold guard_now. only_tac. Qed.

Lemma stopRequested_quiet id : only quiet (stopRequested id).
Proof. unfold stopRequested. only_tac. Qed.

Lemma waitGone_quiet pod : only quiet (waitGone opts pod).
Proof. unfold waitGone. only_tac. Qed.

Lemma rememberRecovery_quiet took : only quiet (rememberRecovery opts took).
Proof.
  unfold rememberRecovery. only_tac. generalize (entries took).
  intros l. induction l as [|[o d] l IH]; simpl; [done|]. split; [done|]. by intros _.
Qed.

Lemma survey_quiet before now started owners lagging rec :
  only quiet (survey before now started owners lagging rec).
Proof.
  revert lagging rec. induction owners as [|o os IH]; intros lagging rec; cbn [survey]; [done|].
  destruct (count_of now o <? count_of before o); [apply IH|].
  destruct (rec !! o); [apply IH|]. split; [done|]. intros t. apply IH.
Qed.

Lemma verifyRecovered_quiet run step before affected :
  only quiet (verifyRecovered opts run step before affected).
Proof.
  unfold verifyRecovered. destruct (bool_decide _); [done|].
  apply only_bind; [only_tac|intros started]. apply only_bind; [only_tac|intros t].
  split; [|done]. intros rec. apply only_bind; [only_tac|]. intros [err|live]; [done|].
  apply only_bind; [apply survey_quiet|]. intros [lagging rec'].
  destruct (lagging =? "")%string; [|only_tac].
  apply only_bind; [by apply note_quiet|intros _].
  apply only_bind; [apply rememberRecovery_quiet|done].
Qed.

Lemma recordDrain_quiet run step : only quiet (recordDrain opts run step).
Proof. unfold recordDrain. only_tac. Qed.

Lemma planOneStep_quiet live skip : only quiet (planOneStep opts live skip).
Proof. unfold planOneStep. apply only_bind; [only_tac|]. done. Qed.

Lemma rehearse_pods_quiet run step live pods : only quiet (rehearse_pods run step live pods).
Proof.
  induction pods as [|pod pods IH]; cbn [rehearse_pods]; [done|].
  destruct (CheckEviction pod live).
  - apply only_bind; [apply blocked_quiet|done].
  - apply only_bind; [by apply note_quiet|]. by intros _.
Qed.
End quiet.
Create HintDb quiet.
#[export] Hint Resolve event_quiet note_quiet blocked_quiet guard_now_quiet stopRequested_quiet
  waitGone_quiet rememberRecovery_quiet verifyRecovered_quiet recordDrain_quiet planOneStep_quiet
  rehearse_pods_quiet : quiet.

(** ** Safe calls *)

Definition cordoned (h : history) (node : string) : Prop := Ev (Cordon node) None ∈ h.
Definition observed (h : history) (live : ClusterSnapshot.t) : Prop := Ev Snapshot (inr live) ∈ h.

(** An eviction is safe when it directly follows a snapshot in which the pod
exists and no disruption budget refuses it, and the pod was seen movable on a
node the run has cordoned. *)
Definition safe_evict (h : history) (ns name : string) : Prop :=
  (∃ h' live pod, h = h' ++ [Ev Snapshot (inr live)] ∧ findPod live ns name = Some pod ∧
     CheckEviction pod live = None) ∧
  ∃ node live0 pod0, cordoned h node ∧ observed h live0 ∧ pod0 ∈ movablePodsOn live0 node ∧
     Pod.Namespace pod0 = ns ∧ Pod.Name pod0 = name.

(** The guard as configured, with the answer the windows just gave. *)
Definition guard_of (opts : ExecOptions.t) (h : history) (g : Guard.t) : Prop :=
  Guard.limits g = ExecOptions.Limits opts ∧
  match Guard.windows g with
  | None => ExecOptions.Windows opts = false
  | Some w => ∃ h', h = h' ++ [Ev AllowsRed w]
  end.

(** [h] ends with a snapshot the guard passed the step against. *)
Definition checked (opts : ExecOptions.t) (h : history) (step : PlanStep.t) (st : RunState.t) : Prop :=
  ∃ h' live tail g, h = h' ++ Ev Snapshot (inr live) :: tail ∧ (length tail <= 1)%nat ∧
    guard_of opts h g ∧ CheckStep Placement.t g step live st = None.

Definition is_evict (e : occurrence) : bool := match e with Ev (Evict _ _) _ => true | _ => false end.

(** The key events of one step, and its result. *)
Inductive step_keys (dry : bool) (node : string) (st : RunState.t) :
    history → option Err.t * RunState.t → Prop :=
| sk_refused err : step_keys dry node st [] (Some err, st)
| sk_rehearsed ev r :
    dry = true → is_drained ev = true → RunEvent.Node ev = node →
    step_keys dry node st [Ev (AppendEvent ev) r] (None, drained_one st)
| sk_not_cordoned err err' :
    dry = false → step_keys dry node st [Ev (Cordon node) (Some err)] (Some err', st)
| sk_aborted evs r err :
    dry = false → Forall (λ e, is_evict e = true) evs →
    step_keys dry node st (Ev (Cordon node) None :: evs ++ [Ev (Uncordon node) r]) (Some err, st)
| sk_drained evs ev r :
    dry = false → Forall (λ e, is_evict e = true) evs →
    is_drained ev = true → RunEvent.Node ev = node →
    step_keys dry node st (Ev (Cordon node) None :: evs ++ [Ev (AppendEvent ev) r])
      (None, drained_one st).

Definition stable (P : history → Prop) : Prop :=
  ∀ h c r, quiet c = true → P h → P (h ++ [Ev c r]).

Lemma stable_keys ks : stable (λ h, keys h = ks).
Proof. intros h c r Hq <-. by apply keys_quiet. Qed.

Lemma stable_in e : stable (λ h, e ∈ h).
Proof. intros h c r _ He. apply elem_of_app. by left. Qed.

Lemma stable_and P Q : stable P → stable Q → stable (λ h, P h ∧ Q h).
Proof. intros HP HQ h c r Hq [H1 H2]. split; [by apply HP|by apply HQ]. Qed.

#[export] Hint Resolve stable_keys stable_in stable_and : quiet.

Section step.
Context `{MapRange} (opts : ExecOptions.t) (okC : history → string → Prop).

(** The only conditions are on cordons, a parameter, and on evictions. *)
Definition ok (h : history) (e : occurrence) : Prop :=
  match e with
  | Ev (Cordon n) _ => okC h n
  | Ev (Evict ns name) _ => safe_evict h ns name
  | _ => True
  end.


Lemma quiet_ok h c r : quiet c = true → ok h (Ev c r).
Proof. by destruct c. Qed.

Lemma triple_quiet {A} P (p : prog A) : only quiet p → stable P → triple ok P p (λ _, P).
Proof.
  intros Hp HP. apply (triple_only quiet); [|done].
  intros h c r Hc Hh. split; [by apply quiet_ok|by apply HP].
Qed.

Lemma triple_quiet_bind {A B} P (p : prog A) (f : A → prog B) Q :
  only quiet p → stable P → (∀ a, triple ok P (f a) Q) → triple ok P (bind p f) Q.
Proof. intros. eapply triple_bind; [by apply triple_quiet|done]. Qed.

Lemma triple_ask {A} P c (f : answer c → prog A) Q :
  quiet c = true → stable P → (∀ a, triple ok P (f a) Q) → triple ok P (bind (call c) f) Q.
Proof. intros Hc. apply triple_quiet_bind. by split. Qed.

(** A call whose place in the history matters. *)
Lemma triple_at {A} P c (f : answer c → prog A) Q :
  (∀ h r, P h → ok h (Ev c r)) →
  (∀ r, triple ok (λ h, ∃ h', h = h' ++ [Ev c r] ∧ P h') (f r) Q) →
  triple ok P (bind (call c) f) Q.
Proof. intros. by apply triple_Call. Qed.

Lemma triple_pre {A} (P P' : history → Prop) (p : prog A) Q :
  triple ok P' p Q → (∀ h, P h → P' h) → triple ok P p Q.
Proof. intros Hp HP. by eapply triple_conseq. Qed.

Lemma evict_all_ok run step live0 pods affected ks :
  let P := λ h, keys h = ks ∧ cordoned h (PlanStep.TargetNode step) ∧ observed h live0 in
  (∀ p, p ∈ pods → p ∈ movablePodsOn live0 (PlanStep.TargetNode step)) →
  triple ok P (evict_all opts run step pods affected)
    (λ _ h, ∃ evs, keys h = ks ++ evs ∧ Forall (λ e, is_evict e = true) evs).
Proof.
  intros P. revert affected ks P. induction pods as [|pod pods IH]; intros affected ks P Hpods;
    cbn [evict_all].
  { apply triple_ret. intros h [Hk _]. exists []. by rewrite app_nil_r. }
  assert (HP : stable P) by (unfold P, cordoned, observed; eauto with quiet).
  assert (Hdone : ∀ h, P h → ∃ evs, keys h = ks ++ evs ∧ Forall (λ e, is_evict e = true) evs).
  { intros h [Hk _]. exists []. by rewrite app_nil_r. }
  assert (Hrest : ∀ p, p ∈ pods → p ∈ movablePodsOn live0 (PlanStep.TargetNode step)).
  { intros p Hp. apply Hpods. by right. }
  apply triple_at; [done|]. intros [err|live].
  { apply triple_ret. intros h (h' & -> & Hh). apply Hdone. by apply HP. }
  assert (Hfwd : ∀ h, (∃ h', h = h' ++ [Ev Snapshot (inr live)] ∧ P h') → P h).
  { intros h (h' & -> & Hh). by apply HP. }
  destruct (findPod live (Pod.Namespace pod) (Pod.Name pod)) as [current|] eqn:Hfind.
  2:{ eapply triple_pre; [by apply IH|]. exact Hfwd. }
  destruct (CheckEviction current live) as [b|] eqn:Hce.
  { eapply triple_pre; [|exact Hfwd]. apply triple_quiet_bind; [apply blocked_quiet|done|].
    intros _. by apply triple_ret. }
  apply triple_at.
  { intros h r (h' & -> & Hh). split; [by exists h', live, current|].
    exists (PlanStep.TargetNode step), live0, pod. destruct (Hfwd (h' ++ [Ev Snapshot (inr live)])) as (?&?&?).
    { by exists h'. }
    split_and!; [done..| |done|done]. apply Hpods. by left. }
  intros r.
  set (ks' := ks ++ [Ev (Evict (Pod.Namespace pod) (Pod.Name pod)) r]).
  set (P' := λ h, keys h = ks' ∧ cordoned h (PlanStep.TargetNode step) ∧ observed h live0).
  assert (HP' : stable P') by (unfold P', cordoned, observed; eauto with quiet).
  eapply (triple_pre _ P').
  2:{ intros h (h' & -> & Hh). apply Hfwd in Hh as (Hk & Hc & Ho).
      split; [|split; apply elem_of_app; by left].
      rewrite keys_key by done. by rewrite Hk. }
  assert (Hdone' : ∀ h, P' h → ∃ evs, keys h = ks ++ evs ∧ Forall (λ e, is_evict e = true) evs).
  { intros h [Hk _]. eexists. split; [exact Hk|]. by constructor. }
  destruct r as [err|]; cbn beta iota.
  { destruct (Err.as_blocked err).
    - apply triple_quiet_bind; [apply blocked_quiet|done|]. intros _. by apply triple_ret.
    - by apply triple_ret. }
  apply triple_quiet_bind; [by apply note_quiet|done|]. intros _.
  apply triple_quiet_bind; [apply waitGone_quiet|done|]. intros [err|]; [by apply triple_ret|].
  eapply triple_conseq; [by apply (IH _ ks')|done|].
  intros a h (evs & Hk & Hevs). exists (Ev (Evict (Pod.Namespace pod) (Pod.Name pod)) None :: evs).
  split; [|by constructor]. rewrite Hk. unfold ks'. by rewrite <- app_assoc.
Qed.

Lemma drain_ok run step ks :
  triple ok (λ h, keys h = ks ∧ cordoned h (PlanStep.TargetNode step)) (drain opts run step)
    (λ _ h, ∃ evs, keys h = ks ++ evs ∧ Forall (λ e, is_evict e = true) evs).
Proof.
  unfold drain. set (P := λ h, keys h = ks ∧ cordoned h (PlanStep.TargetNode step)).
  assert (HP : stable P) by (unfold P, cordoned; eauto with quiet).
  apply triple_at; [done|]. intros [err|live].
  { apply triple_ret. intros h (h' & -> & Hh). apply (HP _ Snapshot (inl err) eq_refl) in Hh.
    exists []. rewrite app_nil_r. split; [apply Hh|done]. }
  set (Q := λ h, ∃ evs, keys h = ks ++ evs ∧ Forall (λ e, is_evict e = true) evs).
  assert (HQ : stable Q).
  { intros h c r Hq (evs & Hk & Hevs). exists evs. by rewrite keys_quiet. }
  eapply (triple_pre _ (λ h, keys h = ks ∧ cordoned h (PlanStep.TargetNode step) ∧ observed h live)).
  2:{ intros h (h' & -> & Hh). pose proof (HP h' Snapshot (inr live) eq_refl Hh) as [Hk Hc].
      split_and!; [done..|]. apply elem_of_app. right. by apply list_elem_of_singleton. }
  eapply triple_bind; [apply evict_all_ok; by intros p|]. fold Q. intros [err|affected]; [by apply triple_ret|].
  apply triple_quiet_bind; [apply verifyRecovered_quiet|done|]. intros [err|]; [by apply triple_ret|].
  apply triple_quiet_bind; [apply recordDrain_quiet|done|]. intros _. by apply triple_ret.
Qed.

Definition Stepped (run : Run.t) (step : PlanStep.t) (st : RunState.t) (ks : history)
    (res : option Err.t * RunState.t) (h : history) : Prop :=
  ∃ ks', keys h = ks ++ ks' ∧ step_keys (Run.DryRun run) (PlanStep.TargetNode step) st ks' res.

Lemma stepped_none run step st ks err h : keys h = ks → Stepped run step st ks (Some err, st) h.
Proof. intros <-. exists []. rewrite app_nil_r. split; [done|constructor]. Qed.

Lemma rehearse_ok run step live st ks :
  Run.DryRun run = true →
  triple ok (λ h, keys h = ks) (rehearse run step live st) (Stepped run step st ks).
Proof.
  intros Hdry. unfold rehearse.
  apply triple_quiet_bind; [by apply note_quiet|auto with quiet|]. intros _.
  apply triple_quiet_bind; [apply rehearse_pods_quiet|auto with quiet|]. intros [err|].
  { apply triple_ret. intros h. apply stepped_none. }
  unfold note, event. apply triple_at; [done|]. intros r. apply triple_ret.
  intros h (h' & -> & <-). eexists. rewrite keys_key by done. split; [done|].
  rewrite Hdry. by apply sk_rehearsed.
Qed.

Lemma abort_ok run step err ks :
  triple ok (λ h, ∃ evs, keys h = ks ++ evs ∧ Forall (λ e, is_evict e = true) evs)
    (abort run step err)
    (λ _ h, ∃ evs r, Forall (λ e, is_evict e = true) evs ∧
       keys h = ks ++ evs ++ [Ev (Uncordon (PlanStep.TargetNode step)) r]).
Proof.
  unfold abort. apply triple_at; [done|]. intros r.
  set (Q := λ h, ∃ evs r, Forall (λ e, is_evict e = true) evs ∧
    keys h = ks ++ evs ++ [Ev (Uncordon (PlanStep.TargetNode step)) r]).
  assert (HQ : stable Q).
  { intros h c r' Hq (evs & r0 & Hevs & Hk). exists evs, r0. by rewrite keys_quiet. }
  eapply (triple_pre _ Q).
  2:{ intros h (h' & -> & evs & Hk & Hevs). exists evs, r. split; [done|].
      rewrite keys_key by done. by rewrite Hk, <- app_assoc. }
  destruct r; [apply triple_quiet|apply triple_quiet]; auto with quiet.
Qed.

Lemma guarded_guard (Q : history → Prop) live :
  stable Q →
  triple ok (λ h, ∃ h', h = h' ++ [Ev Snapshot (inr live)] ∧ Q h') (guard_now opts)
    (λ g h, Q h ∧ ∃ h' tail, h = h' ++ Ev Snapshot (inr live) :: tail ∧ (length tail <= 1)%nat ∧
       guard_of opts h g).
Proof.
  intros HQ. unfold guard_now. destruct (ExecOptions.Windows opts) eqn:Hw.
  - apply triple_at; [done|]. intros w. apply triple_ret.
    intros h (h' & -> & h0 & -> & Hh). split; [by apply HQ, HQ|].
    exists h0, [Ev AllowsRed w]. split; [by rewrite <- app_assoc|]. split; [done|]. split; [done|]. by eexists.
  - apply triple_ret. intros h (h0 & -> & Hh). split; [by apply HQ|].
    exists h0, []. split; [done|]. split; [simpl; lia|]. by split.
Qed.

Lemma performStep_ok run step st ks :
  (∀ h, keys h = ks → Run.DryRun run = false → checked opts h step st →
     okC h (PlanStep.TargetNode step)) →
  triple ok (λ h, keys h = ks) (performStep opts run step st) (Stepped run step st ks).
Proof.
  intros HokC. unfold performStep. apply triple_at; [done|]. intros [err|live].
  { apply triple_ret. intros h (h' & -> & Hk). apply stepped_none. by rewrite keys_quiet. }
  eapply triple_bind; [apply (guarded_guard (λ h, keys h = ks)); auto with quiet|]. intros g.
  destruct (CheckStep Placement.t g step live st) as [b|] eqn:Hcheck.
  { eapply triple_pre; [|by intros h [Hk _]; exact Hk].
    apply triple_quiet_bind; [apply blocked_quiet|auto with quiet|]. intros _.
    apply triple_ret. intros h. apply stepped_none. }
  destruct (Run.DryRun run) eqn:Hdry.
  { eapply triple_pre; [by apply rehearse_ok|]. by intros h [Hk _]. }
  apply triple_at.
  { intros h r [Hk (h' & tail & Hh & Hl & Hg)]. apply HokC; [done..|]. by exists h', live, tail, g. }
  set (node := PlanStep.TargetNode step). intros r.
  eapply (triple_pre _ (λ h, keys h = ks ++ [Ev (Cordon node) r] ∧ Ev (Cordon node) r ∈ h)).
  2:{ intros h (h' & -> & Hk & _). split; [rewrite keys_key by done; by rewrite Hk|].
      apply elem_of_app. right. by apply list_elem_of_singleton. }
  destruct r as [err|]; cbn beta iota.
  { apply triple_ret. intros h [Hk _]. eexists. split; [exact Hk|]. rewrite Hdry. by constructor. }
  apply triple_quiet_bind; [by apply note_quiet|auto with quiet|]. intros _.
  eapply triple_bind; [apply drain_ok|]. intros [err|].
  - eapply triple_bind; [apply abort_ok|].
    intros ?. apply triple_ret. intros h (evs & r & Hevs & Hk).
    exists (Ev (Cordon node) None :: evs ++ [Ev (Uncordon node) r]). split.
    + rewrite Hk. by rewrite <- !app_assoc.
    + rewrite Hdry. by constructor.
  - unfold note, event. apply triple_at; [done|]. intros r. apply triple_ret. intros h (h' & -> & evs & Hk & Hevs).
    eexists (Ev (Cordon node) None :: evs ++ [_]). split.
    + rewrite keys_key by done. rewrite Hk. by rewrite <- !app_assoc.
    + rewrite Hdry. by apply sk_drained.
Qed.
End step.
