(* ===== verification/RunFacts.v ===== *)
(** * What a whole run does to the world

Every mode is a sequence of steps closed by one [Finish].  The shape of a run's
key events is proved for the three modes. *)
From S2P Require Import Prelude GoLib Float64 Model Cluster WorkingPlacement Analyzer Planner Impact Safety Store Effects Executor ExecutorFacts.

(** The statuses a run can end with. *)
Definition closing (s : RunStatus) : bool :=
  match s with RunPending | RunRunning => false | _ => true end.

(** The key events of a run from state [st] on, the nodes it drained, and the
status and the state it ended with. *)
Inductive run_keys (dry : bool) (id : string) :
    RunState.t → history → list string → RunStatus → Prop :=
| rk_close st status summary r :
    closing status = true → run_keys dry id st [Ev (Finish id status summary) r] [] status
| rk_stuck st node ks err st' status summary r :
    step_keys dry node st ks (Some err, st') → status = RunBlocked ∨ status = RunFailed →
    run_keys dry id st (ks ++ [Ev (Finish id status summary) r]) [] status
| rk_step st node ks st' ks' nodes status :
    step_keys dry node st ks (None, st') → run_keys dry id st' ks' nodes status →
    run_keys dry id st (ks ++ ks') (node :: nodes) status.

(** The key events of the steps a run has completed, and the nodes they
drained, latest first. *)
Inductive done_keys (dry : bool) : history → list string → RunState.t → Prop :=
| done_none : done_keys dry [] [] (RunState.mk 0)
| done_more ks ns st node ks' st' :
    done_keys dry ks ns st → step_keys dry node st ks' (None, st') →
    done_keys dry (ks ++ ks') (node :: ns) st'.

Section run.
Context `{MapRange} (opts : ExecOptions.t) (okC : history → string → Prop).

Abbreviation triple := (triple (ok okC)).

(** What a part of a run starting at key events [ks] and state [st] leaves. *)
Definition Ran (run : Run.t) (st : RunState.t) (ks : history)
    (R : list string → RunStatus → Prop) (h : history) : Prop :=
  ∃ ks' nodes status, keys h = ks ++ ks' ∧ run_keys (Run.DryRun run) (Run.ID run) st ks' nodes status ∧
    R nodes status.

Lemma finish_ok run st ks status summary (R : list string → RunStatus → Prop) :
  closing status = true → R [] status →
  triple (λ h, keys h = ks) (finish run status summary) (λ _ h, Ran run st ks R h).
Proof.
  intros Hc HR. unfold finish. apply triple_at; [done|]. intros r. apply triple_ret.
  intros h (h' & -> & <-). eexists _, _, _. rewrite keys_key by done.
  split_and!; [done|by constructor|done].
Qed.

Lemma fail_ok run st ks msg (R : list string → RunStatus → Prop) :
  R [] RunFailed → triple (λ h, keys h = ks) (fail run msg) (λ _ h, Ran run st ks R h).
Proof.
  intros HR. unfold fail. apply triple_quiet_bind; [by apply event_quiet|auto with quiet|].
  intros _. by apply finish_ok.
Qed.

(** A step that stopped the run. *)
Lemma close_ok run step st ks err st' f g (R : list string → RunStatus → Prop) :
  R [] RunBlocked → R [] RunFailed →
  triple (Stepped run step st ks (Some err, st')) (close_on_error run err f g)
    (λ _ h, Ran run st ks R h).
Proof.
  intros HB HF. unfold Stepped. apply triple_exists. intros ks'.
  eapply (triple_pre _ _ (λ h, step_keys (Run.DryRun run) (PlanStep.TargetNode step) st ks' (Some err, st') ∧
    keys h = ks ++ ks')); [|by intros h [? ?]].
  apply triple_pull. intros Hs. unfold close_on_error.
  assert (∀ status summary, status = RunBlocked ∨ status = RunFailed → R [] status →
    triple (λ h, keys h = ks ++ ks') (finish run status summary) (λ _ h, Ran run st ks R h)) as Hfin.
  { intros status summary Hst HR. unfold finish. apply triple_at; [done|]. intros r.
    apply triple_ret. intros h (h' & -> & Hk). eexists _, _, _. rewrite keys_key, Hk by done.
    rewrite <- app_assoc. split_and!; [done| |done]. by eapply rk_stuck. }
  destruct (Err.as_blocked err); apply Hfin; auto.
Qed.

(** Carrying on after a step that drained its node. *)
Lemma stepped_on {A} run step st st' ks ns (R : list string → RunStatus → Prop) (p : prog A) :
  done_keys (Run.DryRun run) ks ns st →
  (∀ ks', done_keys (Run.DryRun run) ks' (PlanStep.TargetNode step :: ns) st' →
     triple (λ h, keys h = ks') p
       (λ _ h, Ran run st' ks' (λ ns, R (PlanStep.TargetNode step :: ns)) h)) →
  triple (Stepped run step st ks (None, st')) p (λ _ h, Ran run st ks R h).
Proof.
  intros Hd Hp. unfold Stepped. apply triple_exists. intros ks1.
  eapply (triple_pre _ _ (λ h, step_keys (Run.DryRun run) (PlanStep.TargetNode step) st ks1 (None, st') ∧
    keys h = ks ++ ks1)); [|by intros h [? ?]].
  apply triple_pull. intros Hs.
  eapply triple_conseq; [exact (Hp (ks ++ ks1) (done_more _ _ _ _ _ _ _ Hd Hs))|done|].
  intros _ h (ks2 & nodes & status & Hk & Hr & HR).
  exists (ks1 ++ ks2), (PlanStep.TargetNode step :: nodes), status.
  split_and!; [by rewrite Hk, <- app_assoc| |done]. by eapply rk_step.
Qed.

(** The targets of the steps a run names. *)
Definition targets (plan : Plan.t) (seqs : list Z) : list string :=
  omap (λ seq, PlanStep.TargetNode <$> findStep plan seq) seqs.

(** The condition on a cordon, at a step of the run. *)
Definition cordon_ok (run : Run.t) (step : PlanStep.t) (st : RunState.t) (ks : history) : Prop :=
  ∀ h, keys h = ks → Run.DryRun run = false → checked opts h step st →
    okC h (PlanStep.TargetNode step).

Section modes.
Context (run : Run.t).
Context (Hok : ∀ step st ns ks, done_keys (Run.DryRun run) ks ns st → cordon_ok run step st ks).

Lemma perform_steps_ok plan seqs st ns ks :
  done_keys (Run.DryRun run) ks ns st →
  triple (λ h, keys h = ks) (perform_steps opts run plan seqs st)
    (λ _ h, Ran run st ks (λ nodes s, s = RunSucceeded →
       Forall (λ seq, is_Some (findStep plan seq)) seqs ∧ nodes = targets plan seqs) h).
Proof.
  revert st ns ks. induction seqs as [|seq seqs IH]; intros st ns ks Hd; cbn [perform_steps].
  { by apply finish_ok. }
  apply triple_quiet_bind; [apply stopRequested_quiet|auto with quiet|]. intros [by_|].
  { by apply finish_ok. }
  unfold targets. cbn [omap list_omap].
  destruct (findStep plan seq) as [step|] eqn:Hf; cbn [fmap option_fmap option_map].
  2:{ by apply fail_ok. }
  eapply triple_bind; [by eapply performStep_ok, Hok|]. intros [[err|] st'].
  - by apply close_ok.
  - eapply stepped_on; [done|]. intros ks' Hd'. eapply triple_conseq; [exact (IH st' _ ks' Hd')|done|].
    intros _ h (ks1 & nodes & status & ? & ? & HR). exists ks1, nodes, status. split_and!; [done..|].
    intros Hs. destruct (HR Hs) as [HF ->]. split; [constructor; [by rewrite Hf|done]|done].
Qed.

Lemma perform_ok :
  triple (λ h, keys h = []) (perform opts run) (λ _ h, Ran run (RunState.mk 0) [] (λ _ _, True) h).
Proof.
  unfold perform. apply triple_quiet_bind; [by apply event_quiet|auto with quiet|]. intros _.
  apply triple_ask; [done|auto with quiet|]. intros [err|plan]; [by apply fail_ok|].
  eapply triple_conseq; [exact (perform_steps_ok plan (Run.Steps run) _ _ _ (done_none _))|done|].
  intros _ h (ks' & ns & s & ? & ? & _). by exists ks', ns, s.
Qed.

Lemma drainNode_ok :
  triple (λ h, keys h = []) (drainNode opts run) (λ _ h, Ran run (RunState.mk 0) [] (λ _ _, True) h).
Proof.
  unfold drainNode. cbn zeta. destruct (Run.Node run =? "")%string; [by apply fail_ok|].
  apply triple_quiet_bind; [by apply event_quiet|auto with quiet|]. intros _.
  apply triple_ask; [done|auto with quiet|]. intros [err|live]; [by apply fail_ok|].
  destruct (negb _); [by apply fail_ok|].
  apply triple_quiet_bind; [by apply event_quiet|auto with quiet|]. intros _.
  eapply triple_bind; [eapply performStep_ok, Hok, done_none|]. intros [[err|] st'].
  - by apply close_ok.
  - eapply stepped_on; [apply done_none|]. intros ks' _. by apply finish_ok.
Qed.
End modes.
End run.

(** ** Converge *)

(** The drain of the node was followed by a snapshot in which fewer nodes are
occupied than in one read before it. *)
Definition freed (h : history) (node : string) : Prop :=
  ∃ h1 before h2 after h3 ev r,
    h = h1 ++ Ev Snapshot (inr before) :: h2 ++ Ev Snapshot (inr after) :: h3 ∧
    Ev (AppendEvent ev) r ∈ h2 ∧ is_drained ev = true ∧ RunEvent.Node ev = node ∧
    occupiedNodes after < occupiedNodes before.

Lemma freed_mono h t node : freed h node → freed (h ++ t) node.
Proof.
  intros (h1 & b & h2 & a & h3 & ev & r & -> & Hrest). exists h1, b, h2, a, (h3 ++ t), ev, r.
  split; [|done]. by rewrite <- !app_assoc, <- app_comm_cons, <- app_assoc.
Qed.

Definition all_freed (ns : list string) (h : history) : Prop := ∀ n, n ∈ ns → freed h n.

(** What is kept by every call can be carried along, and assumed at cordons. *)
Lemma triple_frame (okC : history → string → Prop) (M : history → Prop) {A} P (p : prog A) Q :
  (∀ h t, M h → M (h ++ t)) →
  triple (ok (λ h n, M h → okC h n)) P p Q →
  triple (ok okC) (λ h, P h ∧ M h) p (λ a h, Q a h ∧ M h).
Proof.
  intros HM Hp h t o [HP Hh] He. destruct (Hp h t o HP He) as [H1 H2]. split.
  - intros t1 [c r] t2 Heq. specialize (H1 t1 _ t2 Heq). destruct c; simpl in *; auto.
  - intros a Ha. split; [by apply H2|by apply HM].
Qed.

Lemma step_keys_drained dry node st ks st' :
  step_keys dry node st ks (None, st') →
  st' = drained_one st ∧ ∃ ev r, Ev (AppendEvent ev) r ∈ ks ∧ is_drained ev = true ∧ RunEvent.Node ev = node.
Proof.
  intros Hs. inversion Hs; subst; (split; [done|]); eexists _, _; (split; [|done]).
  - by apply list_elem_of_singleton.
  - right. apply elem_of_app. right. by apply list_elem_of_singleton.
Qed.

Lemma elem_of_keys e h : e ∈ keys h → e ∈ h.
Proof. intros He. unfold keys in He. apply filter_elem in He. tauto. Qed.

Section converge.
Context `{MapRange} (opts : ExecOptions.t) (okC : history → string → Prop).
Context (run : Run.t) (env : Envelope.t) (rounds : nat).

(** A cordon at a round's step, after the drains of [ns]. *)
Context (Hok : ∀ step st ns ks h,
  done_keys (Run.DryRun run) ks ns st → (length ns < rounds)%nat →
  PlanStep.TargetNode step ∉ ns →
  exceedsCeiling (PlanStep.Impact step) (Envelope.MaxImpact env) = false →
  keys h = ks → all_freed ns h → Run.DryRun run = false → checked opts h step st →
  okC h (PlanStep.TargetNode step)).

Abbreviation triple := (triple (ok okC)).

Lemma round_step_ok step st ns ks live :
  done_keys (Run.DryRun run) ks ns st → (length ns < rounds)%nat →
  PlanStep.TargetNode step ∉ ns →
  exceedsCeiling (PlanStep.Impact step) (Envelope.MaxImpact env) = false →
  let M h := all_freed ns h ∧ ∃ h1 t, h = h1 ++ Ev Snapshot (inr live) :: t ∧ keys h1 = ks in
  triple (λ h, keys h = ks ∧ M h) (performStep opts run step st)
    (λ res h, Stepped run step st ks res h ∧ M h).
Proof.
  intros Hd Hl Hn He M. apply triple_frame.
  - intros h t [Hf (h1 & t' & -> & Hk)]. split.
    + intros n Hin. by apply freed_mono, Hf.
    + exists h1, (t' ++ t). split; [|done]. by rewrite <- app_assoc.
  - apply performStep_ok. intros h Hk Hdry Hc [Hf _]. by eapply Hok.
Qed.

Lemma all_freed_stable ns : stable (all_freed ns).
Proof. intros h c r _ Hf n Hn. by apply freed_mono, Hf. Qed.

Definition at_round (ns : list string) (ks : history) (live : ClusterSnapshot.t) (h : history) : Prop :=
  keys h = ks ∧ all_freed ns h ∧ ∃ h1 t, h = h1 ++ Ev Snapshot (inr live) :: t ∧ keys h1 = ks.

Lemma at_round_stable ns ks live : stable (at_round ns ks live).
Proof.
  intros h c r Hq (Hk & Hf & h1 & t & -> & H1). split; [by rewrite keys_quiet|].
  split; [by apply all_freed_stable|]. exists h1, (t ++ [Ev c r]). by rewrite <- app_assoc.
Qed.

(** The snapshot after a completed step, when it shows fewer occupied nodes. *)
Lemma measured step st ns ks live after st' h :
  done_keys (Run.DryRun run) ks ns st →
  Stepped run step st ks (None, st') h → all_freed ns h →
  (∃ h1 t, h = h1 ++ Ev Snapshot (inr live) :: t ∧ keys h1 = ks) →
  occupiedNodes after < occupiedNodes live →
  ∃ ks', done_keys (Run.DryRun run) ks' (PlanStep.TargetNode step :: ns) st' ∧
    keys (h ++ [Ev Snapshot (inr after)]) = ks' ∧
    all_freed (PlanStep.TargetNode step :: ns) (h ++ [Ev Snapshot (inr after)]).
Proof.
  intros Hd (ks1 & Hk & Hs) Hf (h1 & t & -> & H1) Hocc.
  exists (ks ++ ks1). split_and!; [by eapply done_more|by rewrite keys_quiet|].
  intros n [->|Hn]%elem_of_cons; [|by apply freed_mono, Hf].
  apply step_keys_drained in Hs as (_ & ev & r & Hin & Hev & Hnode).
  rewrite keys_app, H1 in Hk. cbn [keys List.filter is_key quiet negb] in Hk.
  apply app_inv_head in Hk. change (keys t = ks1) in Hk. rewrite <- Hk in Hin. apply elem_of_keys in Hin.
  exists h1, live, t, after, [], ev, r. split; [by rewrite <- app_assoc|done].
Qed.

Lemma converge_rounds_ok todo round ns st ks :
  done_keys (Run.DryRun run) ks ns st → (length ns + todo <= rounds)%nat →
  triple (λ h, keys h = ks ∧ all_freed ns h)
    (converge_rounds opts run env todo round (list_to_set ns) st)
    (λ _ h, Ran run st ks (λ _ _, True) h).
Proof.
  revert round ns st ks. induction todo as [|todo IH]; intros round ns st ks Hd Hl;
    cbn [converge_rounds]; cbn zeta.
  { eapply triple_pre; [by apply finish_ok|]. by intros h [? _]. }
  apply triple_quiet_bind; [apply stopRequested_quiet|apply stable_and; [auto with quiet|apply all_freed_stable]|].
  intros [by_|].
  { eapply triple_pre; [by apply finish_ok|]. by intros h [? _]. }
  apply triple_at; [done|]. intros [err|live].
  { eapply triple_pre; [by apply fail_ok|]. intros h (h' & -> & Hk & _). by rewrite keys_quiet. }
  eapply (triple_pre _ _ (at_round ns ks live)).
  2:{ intros h (h' & -> & Hk & Hf). split; [by rewrite keys_quiet|].
      split; [by apply all_freed_stable|]. by exists h', []. }
  pose proof (at_round_stable ns ks live) as Hst.
  unfold planOneStep. cbn [bind]. apply triple_ask; [done|done|]. intros wall. cbn [bind].
  set (plan := ClassifyPlan _ _ _ _).
  destruct (List.find _ (Plan.Steps plan)) as [step|] eqn:Hfind.
  2:{ destruct (Plan.Steps plan); (eapply triple_pre; [by apply finish_ok|]; by intros h [? _]). }
  apply List.find_some in Hfind as [_ Hnew%bool_decide_eq_true].
  rewrite elem_of_list_to_set in Hnew.
  destruct (exceedsCeiling _ _) eqn:Hceil.
  { eapply triple_pre; [by apply finish_ok|]. by intros h [? _]. }
  apply triple_quiet_bind; [by apply event_quiet|done|]. intros _.
  eapply triple_bind.
  { eapply triple_pre; [apply (round_step_ok step st ns ks live); [done|lia|done..]|].
    intros h Hh. exact Hh. }
  intros [[err|] st'].
  { eapply triple_pre; [by apply close_ok|]. by intros h [? _]. }
  destruct (Run.DryRun run) eqn:Hdry in |- *.
  { eapply triple_pre; [|intros h [Hs _]; exact Hs]. eapply stepped_on; [exact Hd|]. intros ks' _. by apply finish_ok. }
  apply triple_at; [done|]. intros [err|after].
  { eapply triple_pre; [apply (stepped_on _ run step st st' ks ns); [done|]; intros ks' _; by apply fail_ok|].
    intros h (h' & -> & (ks1 & Hk & Hs) & _). exists ks1. by rewrite keys_quiet. }
  destruct (Z.leb_spec (occupiedNodes live) (occupiedNodes after)) as [|Hocc].
  { eapply triple_pre; [apply (stepped_on _ run step st st' ks ns); [done|]; intros ks' _; by apply finish_ok|].
    intros h (h' & -> & (ks1 & Hk & Hs) & _). exists ks1. by rewrite keys_quiet. }
  intros h t o (h' & -> & Hstep & Hf & Hsnap) He.
  destruct (measured step st ns ks live after st' h' Hd Hstep Hf Hsnap Hocc) as (ks' & Hd' & Hk' & Hf').
  destruct (IH (round + 1) (PlanStep.TargetNode step :: ns) st' ks' Hd') with
    (h := h' ++ [Ev Snapshot (inr after)]) (t := t) (o := o) as [Ha Hq]; [simpl; lia|done|done|].
  split; [done|]. intros a Ho. destruct (Hq a Ho) as (ks2 & nodes & status & Hk2 & Hr & _).
  destruct Hstep as (ks1 & Hk1 & Hs).
  exists (ks1 ++ ks2), (PlanStep.TargetNode step :: nodes), status. split_and!; [|by eapply rk_step|done].
  rewrite Hk2, <- Hk', keys_quiet, Hk1 by done. by rewrite <- app_assoc.
Qed.
End converge.

Section work.
Context `{MapRange} (opts : ExecOptions.t) (okC : history → string → Prop).

Abbreviation triple := (triple (ok okC)).

Definition round_bound (env : Envelope.t) : nat := Z.to_nat (Z.min maxConvergeRounds (Envelope.MaxNodes env)).

(** The condition on a cordon by a converging run. *)
Definition round_ok (run : Run.t) (env : Envelope.t) : Prop :=
  ∀ step st ns ks h,
    done_keys (Run.DryRun run) ks ns st → (length ns < round_bound env)%nat →
    PlanStep.TargetNode step ∉ ns →
    exceedsCeiling (PlanStep.Impact step) (Envelope.MaxImpact env) = false →
    keys h = ks → all_freed ns h → Run.DryRun run = false → checked opts h step st →
    okC h (PlanStep.TargetNode step).

Lemma converge_ok run :
  (∀ env, Run.Envelope run = Some env → valid_envelope env = true → round_ok run env) →
  triple (λ h, keys h = []) (converge opts run) (λ _ h, Ran run (RunState.mk 0) [] (λ _ _, True) h).
Proof.
  intros Hok. unfold converge, refuse_envelope. destruct (Run.Envelope run) as [env|]; [|by apply fail_ok].
  destruct (valid_envelope env) eqn:Hv; cbn [negb]; [|by apply fail_ok].
  apply triple_quiet_bind; [by apply event_quiet|auto with quiet|]. intros _.
  eapply triple_pre.
  - change (∅ : gset string) with (list_to_set (C:=gset string) (@nil string)).
    eapply (converge_rounds_ok opts okC run env (round_bound env)); [by apply (Hok env)|apply done_none|].
    unfold round_bound. destruct (Z.ltb_spec maxConvergeRounds (Envelope.MaxNodes env)); simpl; lia.
  - intros h Hk. split; [done|]. by intros n ?%elem_of_nil.
Qed.

(** The condition on a cordon by any run. *)
Definition any_ok (run : Run.t) : Prop :=
  ∀ step st ns ks, done_keys (Run.DryRun run) ks ns st → cordon_ok opts okC run step st ks.

Lemma work_ok run :
  any_ok run →
  triple (λ h, keys h = []) (work opts run) (λ _ h, Ran run (RunState.mk 0) [] (λ _ _, True) h).
Proof.
  intros Hok. unfold work. destruct (_ =? _)%string; [|destruct (_ =? _)%string].
  - apply converge_ok. intros env _ _ step st ns ks h Hd _ _ _ Hk _ Hdry Hc. by eapply Hok.
  - by apply drainNode_ok.
  - by apply perform_ok.
Qed.
End work.
