(* ===== verification/Simulation.v ===== *)
(** * A simulated cluster

A world the executor's programs run in: pods move to another node as they are
evicted, the clock ticks with every call, and every request is granted.  The
witnesses about runs replay histories recorded here. *)
From S2P Require Import Prelude GoLib Float64 Model Cluster Fixtures WorkingPlacement Analyzer Planner Impact Safety Store Effects Executor.

(** Map keys are visited in the order the map lists them. *)
Definition listed_order : MapRange := {| range := λ l, l; range_perm l := Permutation_refl l |}.

Module Sim.

(** [home]: where an evicted pod comes back, under a new name. *)
Record t : Type := mk { now : time; pods : list Pod.t; home : string; the_run : Run.t; the_plan : Plan.t }.

Definition tick (d : duration) (w : t) : t := mk (now w + 1 + d) (pods w) (home w) (the_run w) (the_plan w).

Definition set_Name (n : string) (p : Pod.t) : Pod.t :=
  Pod.mk (Pod.Namespace p) n (Pod.NodeName p) (Pod.Labels p) (Pod.Phase p) (Pod.CreatedAt p)
    (Pod.Requests p) (Pod.NodeSelector p) (Pod.Tolerations p) (Pod.NodeAffinity p) (Pod.PodAffinity p)
    (Pod.TopologySpread p) (Pod.Ready p) (Pod.Owner p) (Pod.PriorityClass p) (Pod.Priority p)
    (Pod.Terminating p) (Pod.HasPersistentVol p) (Pod.DoNotDisrupt p) (Pod.Usage p).

Definition evicted (ns name : string) (w : t) (p : Pod.t) : Pod.t :=
  if (Pod.Namespace p =? ns)%string && (Pod.Name p =? name)%string
  then Pod.set_NodeName (home w) (set_Name (name +:+ "-new") p) else p.

Definition handle (c : request) (w : t) : answer c * t :=
  match c return answer c * t with
  | Snapshot => (inr (ClusterSnapshot.mk (now w) ex_nodes (pods w) [] false), tick 0 w)
  | PodPresent ns name =>
      (inr (existsb (λ p, (Pod.Namespace p =? ns)%string && (Pod.Name p =? name)%string) (pods w)), tick 0 w)
  | AllowsRed => (λ _, (true, "open"), tick 0 w)
  | Claim _ => (inr (Some (the_run w)), tick 0 w)
  | RunByID _ => (inr (the_run w), tick 0 w)
  | PlanByID _ => (inr (the_plan w), tick 0 w)
  | Now => (now w, tick 0 w)
  | Evict ns name =>
      (None, mk (now w + 1) (evicted ns name w <$> pods w) (home w) (the_run w) (the_plan w))
  | Sleep d => (None, tick (Z.max 0 d) w)
  | Cordon _ | Uncordon _ | AppendEvent _ | Finish _ _ _ | RecordDrain _ | RecordRecovery _ _ _ =>
      (None, tick 0 w)
  end.

End Sim.

Definition ex_run (mode node : string) (steps : list Z) (dry : bool) (env : option Envelope.t) : Run.t :=
  Run.mk "r1" "p1" steps dry RunPending false "" mode node env "ops" [] 1000 None None "" "".

Definition ex_plan : Plan.t :=
  Plan.mk "p1" 0 PlanValid 0
    [PlanStep.set_rating ImpactGreen "" []
       (PlanStep.fresh 1 "c" [Move.mk "shop" "d1" "c" "a" 1000 2000000])] 3 2 0 F64.zero.

Definition ex_options : ExecOptions.t :=
  ExecOptions.withDefaults (ExecOptions.mk "exec-0" (Limits.mk 5 1 false) true true 0 0 0 false
    Options.DefaultOptions (Impact.New (Thresholds.mk 0 0 0)) None).

(** The shop; what is evicted comes back on [a]. *)
Definition ex_sim (run : Run.t) : Sim.t :=
  Sim.mk 1000000 (ClusterSnapshot.Pods shop) "a" run ex_plan.

(** The history of a run of the given program in the simulated shop. *)
Definition history_of (p : prog unit) (run : Run.t) : history :=
  match record Sim.handle 200 p (ex_sim run) with Some (_, t) => t | None => [] end.

Definition steps_run : Run.t := ex_run "" "" [1] false None.
Definition rehearsal : Run.t := ex_run "" "" [1] true None.
Definition converge_run : Run.t := ex_run RunModeConverge "" [] false (Some (Envelope.mk 2 ImpactYellow)).
Definition drain_run : Run.t := ex_run RunModeDrain "c" [] false None.

Definition steps_history : history := history_of (work (H:=listed_order) ex_options steps_run) steps_run.
Definition rehearsal_history : history := history_of (work (H:=listed_order) ex_options rehearsal) rehearsal.
Definition converge_history : history := history_of (work (H:=listed_order) ex_options converge_run) converge_run.
Definition drain_history : history := history_of (work (H:=listed_order) ex_options drain_run) drain_run.
