(* ===== verification/ExecutorProps.v ===== *)
(** * What the executor guarantees *)
From S2P Require Import Prelude GoLib Float64 Model Cluster Fixtures WorkingPlacement Analyzer Planner Impact Safety Store Effects Executor ExecutorFacts RunFacts Simulation.

(** ** Lemmas *)

Definition is_request (f : request → bool) (e : occurrence) : bool := let '(Ev c _) := e in f c.

Definition anything (h : history) (n : string) : Prop := True.

(** [before_each P t]: [P] holds of the history before each call it applies to. *)
Definition before_each (P : history → occurrence → Prop) (t : history) : Prop :=
  ∀ t1 e t2, t = t1 ++ e :: t2 → P t1 e.

Lemma allowed_before okP t : allowed okP [] t ↔ before_each okP t.
Proof. done. Qed.

Section work.
Context `{MapRange} (opts : ExecOptions.t).

(** What the logic gives about the histories of a run. *)
Lemma work_before (okC : history → string → Prop) run t o :
  any_ok opts okC run → exec (work opts run) t o → before_each (ok okC) t.
Proof. intros Hok He. by destruct (work_ok opts okC run Hok [] t o). Qed.

Lemma work_ran run t :
  exec (work opts run) t (Some ()) →
  ∃ nodes status, run_keys (Run.DryRun run) (Run.ID run) (RunState.mk 0) (keys t) nodes status.
Proof.
  intros He. destruct (work_ok opts anything run) with (h := @nil occurrence) (t := t) (o := Some ())
    as [_ Hq]; [by intros ??????|done|done|].
  destruct (Hq () eq_refl) as (ks & nodes & status & Hk & Hr & _). simpl in Hk. subst ks. eauto.
Qed.
End work.

(** ** Every call that touches the cluster is checked *)

Section checks.
Context `{MapRange} (opts : ExecOptions.t).

(** C2: every eviction any run makes directly follows a fresh snapshot in
which the pod still exists and no PodDisruptionBudget is exhausted for it, and
the pod was seen as a movable pod of a node the run has cordoned.  This holds
wherever the run is cut short. *)
Theorem every_eviction_checked run t o t1 ns name r t2 :
  exec (work opts run) t o → t = t1 ++ Ev (Evict ns name) r :: t2 → safe_evict t1 ns name.
Proof.
  intros He Ht. assert (Hok : any_ok opts anything run) by (by intros ??????).
  exact (work_before opts anything run t o Hok He _ _ _ Ht).
Qed.

(** C3: every cordon is of the target of a step the safety guard passed, on
the snapshot read just before (between the two only the maintenance windows
are asked), and only in a run that is not a rehearsal. *)
Theorem every_cordon_checked run t o t1 node r t2 :
  exec (work opts run) t o → t = t1 ++ Ev (Cordon node) r :: t2 →
  Run.DryRun run = false ∧
  ∃ step st, PlanStep.TargetNode step = node ∧ checked opts t1 step st.
Proof.
  intros He Ht.
  set (okC := λ h n, Run.DryRun run = false ∧
    ∃ step st, PlanStep.TargetNode step = n ∧ checked opts h step st).
  assert (Hok : any_ok opts okC run).
  { intros step st ns ks _ h _ Hdry Hc. split; [done|]. by exists step, st. }
  exact (work_before opts okC run t o Hok He _ _ _ Ht).
Qed.

(** ** From its start to its end

What an executor does is one poll after another. *)







End checks.

Lemma steps_exec : exec (work (H:=listed_order) ex_options steps_run) steps_history (Some ()).
Proof. apply (record_exec Sim.handle 200 _ (ex_sim steps_run)). by vm_compute. Qed.

Definition position (f : request → bool) (t : history) : nat :=
  match list_find (λ e, is_request f e = true) t with Some (n, _) => n | None => 0 end.

Lemma every_eviction_checked_witness :
  let n := position (λ c, match c with Evict _ _ => true | _ => false end) steps_history in
  safe_evict (take n steps_history) "shop" "d1".
Proof.
  intros n. apply (every_eviction_checked (H:=listed_order) ex_options steps_run steps_history (Some ())
    (take n steps_history) "shop" "d1" None (drop (S n) steps_history)).
  - apply steps_exec.
  - by vm_compute.
Defined.

Lemma every_cordon_checked_witness :
  let n := position (λ c, match c with Cordon _ => true | _ => false end) steps_history in
  ∃ step st, PlanStep.TargetNode step = "c" ∧ checked ex_options (take n steps_history) step st.
Proof.
  intros n. apply (every_cordon_checked (H:=listed_order) ex_options steps_run steps_history (Some ())
    (take n steps_history) "c" None (drop (S n) steps_history)).
  - apply steps_exec.
  - by vm_compute.
Defined.




(** ** A rehearsal touches nothing *)

Lemma only_weaken (S S' : request → bool) {A} (p : prog A) :
  (∀ c, S c = true → S' c = true) → only S p → only S' p.
Proof.
  intros HS. induction p as [A a|A c k IH|A I C body IHb i k IH]; simpl; [done|..].
  - intros [? Hk]. split; [by apply HS|]. intros r. by apply IH.
  - intros [Hb Hk]. split; [intros j; by apply IHb|]. intros b. by apply IH.
Qed.

Section rehearsal.
Context `{MapRange} (opts : ExecOptions.t).

Lemma harmless_quiet {A} (p : prog A) : only quiet p → only harmless p.
Proof. apply only_weaken. by intros []. Qed.

Lemma harmless_event run ev : only harmless (event run ev).
Proof. by split. Qed.
Lemma harmless_note run step pod action msg : only harmless (note run step pod action msg).
Proof. by split. Qed.
Lemma harmless_finish run s msg : only harmless (finish run s msg).
Proof. by split. Qed.
Lemma harmless_fail run msg : only harmless (fail run msg).
Proof. apply only_bind; [apply harmless_event|]. intros _. apply harmless_finish. Qed.
Lemma harmless_close run err f g : only harmless (close_on_error run err f g).
Proof. unfold close_on_error. destruct (Err.as_blocked err); apply harmless_finish. Qed.
Lemma harmless_stop id : only harmless (stopRequested id).
Proof. apply harmless_quiet, stopRequested_quiet. Qed.
Lemma harmless_ask c : quiet c = true → only harmless (call c).
Proof. intros Hc. apply harmless_quiet. by split. Qed.

Lemma harmless_step run step st :
  Run.DryRun run = true → only harmless (performStep opts run step st).
Proof.
  intros Hdry. unfold performStep, rehearse. apply only_bind; [by apply harmless_ask|].
  intros [err|live]; [done|]. apply only_bind; [apply harmless_quiet, guard_now_quiet|]. intros g.
  destruct (CheckStep _ g step live st).
  { apply only_bind; [apply harmless_quiet, blocked_quiet|done]. }
  rewrite Hdry. apply only_bind; [apply harmless_note|intros _].
  apply only_bind; [apply harmless_quiet, rehearse_pods_quiet|]. intros [err|]; [done|].
  apply only_bind; [apply harmless_note|done].
Qed.

Lemma harmless_steps run plan seqs st :
  Run.DryRun run = true → only harmless (perform_steps opts run plan seqs st).
Proof.
  intros Hdry. revert st. induction seqs as [|seq seqs IH]; intros st; cbn [perform_steps].
  { apply harmless_finish. }
  apply only_bind; [apply harmless_stop|]. intros [by_|]; [apply harmless_finish|].
  destruct (findStep plan seq); [|apply harmless_fail].
  apply only_bind; [by apply harmless_step|]. intros [[err|] st']; [apply harmless_close|apply IH].
Qed.

Lemma harmless_rounds run env todo round drained st :
  Run.DryRun run = true → only harmless (converge_rounds opts run env todo round drained st).
Proof.
  intros Hdry. destruct todo; cbn [converge_rounds]; cbn zeta; [apply harmless_finish|].
  apply only_bind; [apply harmless_stop|]. intros [by_|]; [apply harmless_finish|].
  apply only_bind; [by apply harmless_ask|]. intros [err|live]; [apply harmless_fail|].
  apply only_bind; [apply harmless_quiet, planOneStep_quiet|]. intros [[step|] why]; [|apply harmless_finish].
  destruct (exceedsCeiling _ _); [apply harmless_finish|].
  apply only_bind; [apply harmless_event|intros _].
  apply only_bind; [by apply harmless_step|]. intros [[err|] st']; [apply harmless_close|].
  rewrite Hdry. apply harmless_finish.
Qed.

Lemma harmless_work run : Run.DryRun run = true → only harmless (work opts run).
Proof.
  intros Hdry. unfold work. destruct (_ =? _)%string; [|destruct (_ =? _)%string].
  - unfold converge, refuse_envelope. destruct (Run.Envelope run) as [env|]; [|apply harmless_fail].
    destruct (negb _); [apply harmless_fail|].
    apply only_bind; [apply harmless_event|intros _]. by apply harmless_rounds.
  - unfold drainNode. cbn zeta. destruct (_ =? _)%string; [apply harmless_fail|].
    apply only_bind; [apply harmless_event|intros _].
    apply only_bind; [by apply harmless_ask|]. intros [err|live]; [apply harmless_fail|].
    destruct (negb _); [apply harmless_fail|].
    apply only_bind; [apply harmless_event|intros _].
    apply only_bind; [by apply harmless_step|].
    intros [[err|] st']; [apply harmless_close|apply harmless_finish].
  - unfold perform. apply only_bind; [apply harmless_event|intros _].
    apply only_bind; [by apply harmless_ask|]. intros [err|plan]; [apply harmless_fail|].
    by apply harmless_steps.
Qed.

(** C12: a dry run, in any mode and however it ends, never cordons, uncordons
or evicts. *)
Theorem dry_run_touches_nothing run t o :
  Run.DryRun run = true → exec (work opts run) t o →
  Forall (λ '(Ev c _), harmless c = true) t.
Proof. intros Hdry He. by eapply only_exec, He; apply harmless_work. Qed.
End rehearsal.

Lemma dry_run_touches_nothing_witness :
  Forall (λ '(Ev c _), harmless c = true) rehearsal_history ∧ rehearsal_history ≠ [].
Proof.
  split; [|by vm_compute].
  apply (dry_run_touches_nothing (H:=listed_order) ex_options rehearsal rehearsal_history (Some ()));
    [done|].
  apply (record_exec Sim.handle 200 _ (ex_sim rehearsal)). by vm_compute.
Defined.

(** ** A drain never strands a node, and a run ends once *)













Definition is_finish (e : occurrence) : bool := match e with Ev (Finish _ _ _) _ => true | _ => false end.

Lemma finishes_keys t : List.filter is_finish (keys t) = List.filter is_finish t.
Proof.
  induction t as [|[c r] t IH]; simpl; [done|]. destruct c; simpl; rewrite ?IH; try done.
  all: case_match; simpl; by rewrite ?IH.
Qed.

Lemma step_keys_open dry node st ks res :
  step_keys dry node st ks res → List.filter is_finish ks = [].
Proof.
  assert (Hev : ∀ evs, Forall (λ e, is_evict e = true) evs → List.filter is_finish evs = []).
  { induction 1 as [|[c r] evs He _ IH]; simpl; [done|]. by destruct c. }
  intros Hs. inversion Hs; subst; simpl; [done..| |];
    rewrite List.filter_app, Hev by done; done.
Qed.

(** C15: a run that returns closes itself exactly once, under its own id and with
a status a run can end with (succeeded, blocked, failed or stopped), and nothing
it does to the cluster comes after. *)
Theorem run_closes_once `{MapRange} opts run t :
  exec (work opts run) t (Some ()) →
  ∃ ks status summary r,
    keys t = ks ++ [Ev (Finish (Run.ID run) status summary) r] ∧
    List.filter is_finish t = [Ev (Finish (Run.ID run) status summary) r] ∧ closing status = true.
Proof.
  intros He. destruct (work_ran opts run t He) as (nodes & status & Hr).
  rewrite <- finishes_keys. induction Hr as [st status summary r Hc|st node ks err st' status summary r Hs Hst|
    st node ks st' ks' nodes status Hs Hr IH].
  - exists [], status, summary, r. split_and!; done.
  - exists ks, status, summary, r. split_and!; [done| |by destruct Hst as [->| ->]].
    rewrite List.filter_app. by erewrite step_keys_open.
  - destruct IH as (ks2 & s & sum & r & -> & Hf & Hc). exists (ks ++ ks2), s, sum, r.
    split_and!; [by rewrite app_assoc| |done]. rewrite List.filter_app, Hf. by erewrite step_keys_open.
Qed.

Lemma run_closes_once_witness :
  ∃ ks status summary r,
    keys steps_history = ks ++ [Ev (Finish "r1" status summary) r] ∧
    List.filter is_finish steps_history = [Ev (Finish "r1" status summary) r] ∧ closing status = true.
Proof. apply (run_closes_once (H:=listed_order) ex_options steps_run), steps_exec. Defined.

(** ** How much a run may drain *)

(** The nodes a history asks to cordon, and those whose drain it records. *)
Definition cordons (t : history) : list string :=
  omap (λ e, match e with Ev (Cordon n) _ => Some n | _ => None end) t.

Definition drains (t : history) : list string :=
  omap (λ e, match e with
             | Ev (AppendEvent ev) _ => if is_drained ev then Some (RunEvent.Node ev) else None
             | _ => None end) t.

Lemma cordons_app t1 t2 : cordons (t1 ++ t2) = cordons t1 ++ cordons t2.
Proof. apply omap_app. Qed.
Lemma drains_app t1 t2 : drains (t1 ++ t2) = drains t1 ++ drains t2.
Proof. apply omap_app. Qed.

Lemma cordons_keys t : cordons (keys t) = cordons t.
Proof.
  induction t as [|[c r] t IH]; simpl; [done|]. destruct c; simpl; rewrite ?IH; try done.
  all: destruct (is_drained ev); simpl; by rewrite ?IH.
Qed.
Lemma drains_keys t : drains (keys t) = drains t.
Proof.
  induction t as [|[c r] t IH]; simpl; [done|]. destruct c; simpl; rewrite ?IH; try done.
  all: destruct (is_drained ev) eqn:Hd; simpl; rewrite ?Hd, ?IH; done.
Qed.

Lemma evicts_names evs :
  Forall (λ e, is_evict e = true) evs → cordons evs = [] ∧ drains evs = [].
Proof.
  induction 1 as [|[c r] evs He _ [IH1 IH2]]; [done|]. destruct c; simpl in *; try done.
Qed.

Lemma step_keys_names dry node st ks st' :
  step_keys dry node st ks (None, st') →
  drains ks = [node] ∧ (dry = false → cordons ks = [node]) ∧ st' = drained_one st.
Proof.
  intros Hs. inversion Hs as [|ev r Hdry Hev Hn| | |evs ev r Hdry Hevs Hev Hn]; subst.
  - simpl. by rewrite Hev.
  - destruct (evicts_names evs Hevs) as [H1 H2].
    unfold cordons, drains in *. simpl. rewrite !omap_app, H1, H2. simpl. by rewrite Hev.
Qed.

Lemma done_keys_names dry ks ns st :
  done_keys dry ks ns st →
  drains ks = reverse ns ∧ (dry = false → cordons ks = reverse ns) ∧
  RunState.NodesDrainedSoFar st = Z.of_nat (length ns).
Proof.
  induction 1 as [|ks ns st node ks' st' _ (IH1 & IH2 & IH3) Hs]; [done|].
  apply step_keys_names in Hs as (H1 & H2 & ->).
  rewrite drains_app, cordons_app, reverse_cons, IH1, H1. split_and!; [done| |].
  - intros Hd. by rewrite IH2, H2.
  - simpl. rewrite IH3. lia.
Qed.

(** What holds before each cordon bounds them all. *)
Lemma cordons_bound t (M : nat) :
  before_each (λ h e, match e with Ev (Cordon _) _ => (length (cordons h) < M)%nat | _ => True end) t →
  (length (cordons t) <= M)%nat.
Proof.
  induction t as [|e t IH] using rev_ind; intros Hb; [simpl; lia|].
  assert (Ht : before_each (λ h e, match e with Ev (Cordon _) _ => (length (cordons h) < M)%nat | _ => True end) t).
  { intros t1 e' t2 ->. apply (Hb t1 e' (t2 ++ [e])). by rewrite <- app_assoc. }
  specialize (IH Ht). specialize (Hb t e []). rewrite cordons_app, length_app.
  destruct e as [c r]. destruct c; simpl in *; rewrite ?Nat.add_0_r; auto.
  specialize (Hb eq_refl). lia.
Qed.


Lemma checked_cap opts h step st :
  checked opts h step st → 0 < Limits.MaxNodesPerRun (ExecOptions.Limits opts) →
  RunState.NodesDrainedSoFar st < Limits.MaxNodesPerRun (ExecOptions.Limits opts).
Proof.
  intros (h' & live & tail & g & _ & _ & [Hl _] & Hc) Hpos. unfold CheckStep in Hc.
  rewrite Hl in Hc. destruct (Z.leb_spec (Limits.MaxNodesPerRun (ExecOptions.Limits opts))
    (RunState.NodesDrainedSoFar st)) as [|]; [|done].
  rewrite (proj2 (Z.ltb_lt _ _) Hpos) in Hc. done.
Qed.

Lemma before_weaken (okC : history → string → Prop) (P : history → string → Prop) t :
  before_each (ok okC) t → (∀ h n, okC h n → P h n) →
  before_each (λ h e, match e with Ev (Cordon n) _ => P h n | _ => True end) t.
Proof.
  intros Hb HP t1 [c r] t2 Ht. specialize (Hb _ _ _ Ht). destruct c; simpl in *; auto.
Qed.

(** No run cordons more nodes than [MaxNodesPerRun] allows, in any mode and
wherever it is cut short. *)
Theorem run_node_cap `{MapRange} opts run t o :
  exec (work opts run) t o → 0 < Limits.MaxNodesPerRun (ExecOptions.Limits opts) →
  Z.of_nat (length (cordons t)) <= Limits.MaxNodesPerRun (ExecOptions.Limits opts).
Proof.
  intros He Hpos. set (M := Limits.MaxNodesPerRun (ExecOptions.Limits opts)) in *.
  set (okC := λ (h : history) (n : string), (length (cordons h) < Z.to_nat M)%nat).
  assert (Hok : any_ok opts okC run).
  { intros step st ns ks Hd h <- Hdry Hc. apply done_keys_names in Hd as (_ & Hn & Hst).
    unfold okC. rewrite <- cordons_keys, Hn, length_reverse by done.
    pose proof (checked_cap _ _ _ _ Hc Hpos). subst M. lia. }
  pose proof (work_before opts okC run t o Hok He) as Hb.
  pose proof (cordons_bound t (Z.to_nat M) (before_weaken okC okC t Hb (λ _ _ H, H))). lia.
Qed.

Lemma run_node_cap_witness : Z.of_nat (length (cordons steps_history)) <= 5.
Proof.
  apply (run_node_cap (H:=listed_order) ex_options steps_run steps_history (Some ())).
  - apply steps_exec.
  - by vm_compute.
Defined.


Section converge.
Context `{MapRange} (opts : ExecOptions.t) (run : Run.t) (env : Envelope.t).
Context (Henv : Run.Envelope run = Some env).

End converge.



(** ** What success means *)

Lemma run_keys_drains dry id st ks nodes status :
  run_keys dry id st ks nodes status → status = RunSucceeded → drains ks = nodes.
Proof.
  induction 1 as [|st node ks err st' status summary r Hs Hst|st node ks st' ks' nodes status Hs Hr IH];
    intros Heq; simpl; [done| |].
  - exfalso. destruct Hst; congruence.
  - rewrite drains_app, IH by done. by apply step_keys_names in Hs as [-> _].
Qed.

Lemma run_keys_status dry id st ks nodes status st1 sum r :
  run_keys dry id st ks nodes status → Ev (Finish id st1 sum) r ∈ ks → st1 = status.
Proof.
  assert (Hno : ∀ node st ks res, step_keys dry node st ks res → Ev (Finish id st1 sum) r ∉ ks).
  { intros node st0 ks0 res Hs Hin. apply step_keys_open in Hs.
    assert (Hf : Ev (Finish id st1 sum) r ∈ List.filter is_finish ks0) by (by apply filter_elem).
    rewrite Hs in Hf. by apply elem_of_nil in Hf. }
  assert (Hone : ∀ s' sum' r', Ev (Finish id st1 sum) r ∈ [Ev (Finish id s' sum') r'] → st1 = s').
  { intros s' sum' r' Hin%list_elem_of_singleton.
    by apply (f_equal (λ e, match e with Ev (Finish _ s _) _ => s | _ => RunPending end)) in Hin. }
  intros Hr Hin. revert Hin. induction Hr as [|st node ks err st' status summary r0 Hs _|st node ks st' ks' nodes status Hs Hr IH];
    intros Hin; [by eapply Hone|..]; apply elem_of_app in Hin as [Hin|Hin].
  - by destruct (Hno _ _ _ _ Hs).
  - by eapply Hone.
  - by destruct (Hno _ _ _ _ Hs).
  - auto.
Qed.

(** When a run over a list of steps closes as succeeded, the plan had every
one of them and the drains it recorded are those of their target nodes, in the
order asked for. *)
Theorem success_means_every_step `{MapRange} opts run plan seqs t sum r :
  exec (perform_steps opts run plan seqs (RunState.mk 0)) t (Some ()) →
  Ev (Finish (Run.ID run) RunSucceeded sum) r ∈ t →
  Forall (λ seq, is_Some (findStep plan seq)) seqs ∧ drains t = targets plan seqs.
Proof.
  intros He Hin.
  destruct (perform_steps_ok opts anything run) with (plan := plan) (seqs := seqs) (st := RunState.mk 0)
    (ns := @nil string) (ks := @nil occurrence) (h := @nil occurrence) (t := t) (o := Some ()) as [_ Hq];
    [by intros ??????|by constructor|done|done|].
  destruct (Hq () eq_refl) as (ks & nodes & status & Hk & Hr & HR). simpl in Hk.
  assert (status = RunSucceeded) as ->.
  { symmetry. eapply run_keys_status; [exact Hr|]. rewrite <- Hk. apply filter_elem. by split. }
  destruct (HR eq_refl) as [HF ->]. split; [done|].
  rewrite <- drains_keys, Hk. by eapply run_keys_drains.
Qed.

Lemma success_means_every_step_witness :
  let t := history_of (perform_steps (H:=listed_order) ex_options steps_run ex_plan [1] (RunState.mk 0)) steps_run in
  drains t = ["c"].
Proof.
  intros t.
  assert (Ht : exec (perform_steps (H:=listed_order) ex_options steps_run ex_plan [1] (RunState.mk 0)) t (Some ())).
  { apply (record_exec Sim.handle 200 _ (ex_sim steps_run)). by vm_compute. }
  apply (success_means_every_step (H:=listed_order) ex_options steps_run ex_plan [1] t
    "completed 1 step(s), draining 1 node(s)" None Ht).
  apply list_elem_of_In. vm_compute. repeat (first [left; reflexivity|right]).
Defined.
