(* ===== verification/RecoveryProps.v ===== *)
(** * What a completed drain means

Histories that run to a result, taken apart along the program. *)
From S2P Require Import Prelude GoLib Float64 Model Cluster Fixtures WorkingPlacement Analyzer Planner Impact Safety Store Effects Executor ExecutorFacts RunFacts Simulation.

(** ** Inversion *)

Lemma exec_bind_some {A B} (p : prog A) (f : A → prog B) t b :
  exec (bind p f) t (Some b) →
  ∃ a t1 t2, t = t1 ++ t2 ∧ exec p t1 (Some a) ∧ exec (f a) t2 (Some b).
Proof. by intros [[_ ?]|?]%exec_bind. Qed.

Lemma exec_ask {A} c (f : answer c → prog A) t b :
  exec (bind (call c) f) t (Some b) → ∃ r t', t = Ev c r :: t' ∧ exec (f r) t' (Some b).
Proof. by intros [[_ ?]|?]. Qed.

Lemma exec_ret {A} (a b : A) t : exec (Ret a) t (Some b) → t = [] ∧ a = b.
Proof. intros [-> [[= ->]|?]]; done. Qed.

(** The last iteration of a loop that left. *)
Lemma exec_loop_some {I B} (body : I → prog (I + B)) i t b :
  exec (loop body i) t (Some b) →
  ∃ j t1 t2 t3, t = t1 ++ t2 ++ t3 ∧ exec (body j) t2 (Some (inr b)) ∧ t3 = [].
Proof.
  intros [[_ ?]|(b' & t1 & t2 & -> & Hit & [-> [[= <-]|?]])]; [done| |done].
  rewrite app_nil_r.
  remember (Some b) as o eqn:Ho. induction Hit as [| i t b' Hb|i t t' j o Hb Hit IH]; [done| |].
  - injection Ho as ->. exists i, [], t, []. by rewrite !app_nil_r.
  - destruct (IH Ho) as (j' & t1 & t2 & t3 & Heq & ? & ->). exists j', (t ++ t1), t2, [].
    rewrite !app_nil_r in *. by rewrite Heq, <- app_assoc.
Qed.

Section drain.
Context `{MapRange} (opts : ExecOptions.t).

Lemma waitGone_gone pod t :
  exec (waitGone opts pod) t (Some None) →
  Ev (PodPresent (Pod.Namespace pod) (Pod.Name pod)) (inr false) ∈ t.
Proof.
  unfold waitGone. intros (start & t' & -> & Hl)%exec_ask.
  apply exec_loop_some in Hl as (j & t1 & t2 & t3 & -> & Hb & ->).
  apply exec_ask in Hb as ([err|[|]] & t4 & -> & Hb).
  - by apply exec_ret in Hb as [_ [=]].
  - apply exec_ask in Hb as (now & t5 & -> & Hb). destruct (After now _).
    + by apply exec_ret in Hb as [_ [=]].
    + apply exec_ask in Hb as ([err|] & t6 & -> & Hb); by apply exec_ret in Hb as [_ [=]].
  - right. apply elem_of_app. right. rewrite app_nil_r. by left.
Qed.

Lemma lagging_nonempty owner a b :
  (owner +:+ " has " +:+ a +:+ "/" +:+ b +:+ " healthy pod(s)" =? "")%string = false.
Proof. by destruct owner. Qed.

Lemma survey_recovered before now started owners lagging rec t lagging' rec' :
  exec (survey before now started owners lagging rec) t (Some (lagging', rec')) → lagging' = "" →
  lagging = "" ∧ ∀ o, o ∈ owners → count_of before o <= count_of now o.
Proof.
  revert t lagging rec. induction owners as [|o os IH]; intros t lagging rec; cbn [survey].
  { intros [_ [= -> _]]%exec_ret ->. split; [done|]. by intros o ?%elem_of_nil. }
  destruct (Z.ltb_spec (count_of now o) (count_of before o)) as [Hlt|Hge].
  { intros He Hl. destruct (IH _ _ _ He Hl) as [Hl' _]. exfalso.
    destruct (String.eqb_spec lagging "") as [->|Hne]; [|done].
    apply String.eqb_eq in Hl'. by rewrite lagging_nonempty in Hl'. }
  assert (Hcons : ∀ P : Prop, (P ∧ ∀ o', o' ∈ os → count_of before o' <= count_of now o') →
    P ∧ ∀ o', o' ∈ o :: os → count_of before o' <= count_of now o').
  { intros P [HP Hos]. split; [done|]. intros o' [->|Ho']%elem_of_cons; auto. }
  destruct (rec !! o).
  - intros He Hl. apply Hcons. by eapply IH.
  - intros (x & t' & -> & He)%exec_ask Hl. apply Hcons. by eapply IH.
Qed.

(** The workloads are whole in a snapshot of [t]. *)
Definition recovered (before : gmap string Z) (owners : gset string) (t : history) : Prop :=
  ∃ live, observed t live ∧ ∀ o, o ∈ owners →
    count_of before o <= count_of (healthyByOwner live (ExecOptions.Readiness_ opts)) o.

Lemma verifyRecovered_recovered run step before affected t :
  affected ≠ ∅ → exec (verifyRecovered opts run step before affected) t (Some None) →
  recovered before affected t.
Proof.
  unfold verifyRecovered. intros Hne. rewrite bool_decide_eq_false_2 by done.
  intros (started & t1 & -> & He)%exec_ask. apply exec_ask in He as (x & t2 & -> & He).
  apply exec_loop_some in He as (rec & t3 & t4 & t5 & -> & Hb & ->).
  apply exec_ask in Hb as ([err|live] & t6 & -> & Hb); [by apply exec_ret in Hb as [_ [=]]|].
  apply exec_bind_some in Hb as ([lagging rec'] & t7 & t8 & -> & Hs & Hb).
  destruct (String.eqb_spec lagging "") as [Hl|Hl].
  - destruct (survey_recovered _ _ _ _ _ _ _ _ _ Hs Hl) as [_ Hall]. exists live. split.
    + right. right. apply elem_of_app. right. by left.
    + intros o Ho. apply Hall. rewrite range_perm. by apply elem_of_elements.
  - apply exec_ask in Hb as (now & t9 & -> & Hb). destruct (After now _).
    + by apply exec_ret in Hb as [_ [=]].
    + apply exec_ask in Hb as ([err|] & t10 & -> & Hb); by apply exec_ret in Hb as [_ [=]].
Qed.

(** The pod was no longer there at its turn, or was evicted and seen gone. *)
Definition absent (pod : Pod.t) (t : history) : Prop :=
  ∃ live, observed t live ∧ findPod live (Pod.Namespace pod) (Pod.Name pod) = None.

Definition evicted_and_gone (pod : Pod.t) (t : history) : Prop :=
  Ev (Evict (Pod.Namespace pod) (Pod.Name pod)) None ∈ t ∧
  Ev (PodPresent (Pod.Namespace pod) (Pod.Name pod)) (inr false) ∈ t.

Lemma absent_app pod t1 t2 : absent pod t2 → absent pod (t1 ++ t2).
Proof. intros (live & Ho & ?). exists live. split; [|done]. apply elem_of_app. by right. Qed.

Lemma gone_app pod t1 t2 : evicted_and_gone pod t2 → evicted_and_gone pod (t1 ++ t2).
Proof. intros [? ?]. split; apply elem_of_app; by right. Qed.

Lemma evict_all_gone run step pods affected t affected' :
  exec (evict_all opts run step pods affected) t (Some (inr affected')) →
  affected ⊆ affected' ∧
  ∀ pod, pod ∈ pods → absent pod t ∨
    (evicted_and_gone pod t ∧ (ownerKey pod ≠ "" → ownerKey pod ∈ affected')).
Proof.
  revert affected t. induction pods as [|p pods IH]; intros affected t; cbn [evict_all].
  { intros [-> [= ->]]%exec_ret. split; [done|]. by intros pod ?%elem_of_nil. }
  intros ([err|live] & t1 & -> & He)%exec_ask; [by apply exec_ret in He as [_ [=]]|].
  assert (Hweak : ∀ aff t2 u, aff ⊆ affected' →
    (∀ pod, pod ∈ pods → absent pod t2 ∨
       (evicted_and_gone pod t2 ∧ (ownerKey pod ≠ "" → ownerKey pod ∈ affected'))) →
    ∀ pod, pod ∈ pods → absent pod (u ++ t2) ∨
       (evicted_and_gone pod (u ++ t2) ∧ (ownerKey pod ≠ "" → ownerKey pod ∈ affected'))).
  { intros aff t2 u _ Hp pod Hin. destruct (Hp pod Hin) as [?|[? ?]].
    - left. by apply absent_app.
    - right. split; [by apply gone_app|done]. }
  destruct (findPod live _ _) as [current|] eqn:Hf.
  2:{ destruct (IH _ _ He) as [Hsub Hp]. split; [done|]. intros pod [->|Hin]%elem_of_cons.
      - left. exists live. split; [by left|done].
      - by apply (Hweak affected t1 [Ev Snapshot (inr live)] Hsub Hp pod Hin). }
  destruct (CheckEviction current live).
  { apply exec_bind_some in He as (? & t2 & t3 & -> & _ & He). by apply exec_ret in He as [_ [=]]. }
  apply exec_ask in He as ([err|] & t2 & -> & He).
  { destruct (Err.as_blocked err); [|by apply exec_ret in He as [_ [=]]].
    apply exec_bind_some in He as (? & t3 & t4 & -> & _ & He). by apply exec_ret in He as [_ [=]]. }
  apply exec_bind_some in He as (? & t3 & t4 & -> & _ & He).
  apply exec_bind_some in He as ([err|] & t5 & t6 & -> & Hw & He); [by apply exec_ret in He as [_ [=]]|].
  apply waitGone_gone in Hw. destruct (IH _ _ He) as [Hsub Hp].
  assert (Haff : affected ⊆ affected' ∧ (ownerKey p ≠ "" → ownerKey p ∈ affected')).
  { destruct (String.eqb_spec (ownerKey p) ""); [done|]. set_solver. }
  split; [by destruct Haff|]. intros pod [->|Hin]%elem_of_cons.
  - right. split; [|by destruct Haff]. split.
    + right. by left.
    + right. right. apply elem_of_app. right. apply elem_of_app. by left.
  - pose proof (Hweak _ _ (Ev Snapshot (inr live) :: Ev (Evict (Pod.Namespace p) (Pod.Name p)) None :: t3 ++ t5)
      Hsub Hp pod Hin) as Hw'. simpl in Hw'. by rewrite <- app_assoc in Hw'.
Qed.

(** What a completed drain establishes for a pod it found on the node: it was
already gone when its turn came; or it was evicted, was seen to be gone, and,
when it belongs to a workload, a later snapshot shows the workload with at
least as many healthy pods as before the drain. *)
Definition settled (live0 : ClusterSnapshot.t) (pod : Pod.t) (t : history) : Prop :=
  absent pod t ∨
  ∃ t1 t2, t = t1 ++ t2 ∧ evicted_and_gone pod t1 ∧
    (ownerKey pod ≠ "" → ∃ live, observed t2 live ∧
       count_of (healthyByOwner live0 (ExecOptions.Readiness_ opts)) (ownerKey pod) <=
       count_of (healthyByOwner live (ExecOptions.Readiness_ opts)) (ownerKey pod)).

(** C8: when [drain] reports success, every movable pod it found on the node is
settled: the drain of a node is never reported on the strength of evictions
accepted, but of pods seen gone and workloads seen whole again. *)
Theorem drained_means_settled run step t :
  exec (drain opts run step) t (Some None) →
  ∃ live0 t', t = Ev Snapshot (inr live0) :: t' ∧
    ∀ pod, pod ∈ movablePodsOn live0 (PlanStep.TargetNode step) → settled live0 pod t'.
Proof.
  unfold drain. intros ([err|live0] & t' & -> & He)%exec_ask; [by apply exec_ret in He as [_ [=]]|].
  exists live0, t'. split; [done|]. intros pod Hpod.
  apply exec_bind_some in He as ([err|affected] & t1 & t2 & -> & Hev & He); [by apply exec_ret in He as [_ [=]]|].
  apply exec_bind_some in He as ([err|] & t3 & t4 & -> & Hv & He); [by apply exec_ret in He as [_ [=]]|].
  destruct (evict_all_gone _ _ _ _ _ _ Hev) as [_ Hall].
  destruct (Hall pod Hpod) as [(live & Ho & Hf)|[Hg Hk]].
  - left. exists live. split; [|done]. apply elem_of_app. by left.
  - right. exists t1, (t3 ++ t4). split_and!; [done|done|]. intros Hne. specialize (Hk Hne).
    destruct (verifyRecovered_recovered run step (healthyByOwner live0 (ExecOptions.Readiness_ opts)) affected t3) as (live & Ho & Hr); [set_solver|done|].
    exists live. split; [apply elem_of_app; by left|]. by apply Hr.
Qed.
End drain.

Definition drain_of_c : history :=
  match record Sim.handle 200 (drain (H:=listed_order) ex_options steps_run
    (PlanStep.fresh 1 "c" [])) (ex_sim steps_run) with Some (_, t) => t | None => [] end.

Lemma drained_means_settled_witness :
  ∃ live0 t', drain_of_c = Ev Snapshot (inr live0) :: t' ∧
    ∀ pod, pod ∈ movablePodsOn live0 "c" → settled ex_options live0 pod t'.
Proof.
  apply (drained_means_settled (H:=listed_order) ex_options steps_run (PlanStep.fresh 1 "c" [])).
  apply (record_exec Sim.handle 200 _ (ex_sim steps_run)). by vm_compute.
Defined.
