(* ===== verification/TerminationProps.v ===== *)
(** * A poll always returns

Every wait of the executor is bounded by the settle timeout: in any world whose
clock never runs backwards and whose successful sleeps last, polling returns. *)
From S2P Require Import Prelude GoLib Float64 Model Cluster Fixtures WorkingPlacement Analyzer Planner Impact Safety Store Effects Executor Simulation.

(** [clock w] is the time in world [w]. *)
Class Clocked {W : Type} (handle : ∀ c : request, W → answer c * W) (clock : W → time) : Prop := {
  clock_mono c w : clock w <= clock (handle c w).2;
  clock_now w : clock w <= (handle Now w).1 <= clock (handle Now w).2;
  clock_sleep d w : (handle (Sleep d) w).1 = None → clock w + d <= clock (handle (Sleep d) w).2;
}.

Section termination.
Context {W : Type} (handle : ∀ c : request, W → answer c * W) (clock : W → time)
  `{Hclock : !Clocked handle clock} `{MapRange} (opts : ExecOptions.t) (fuel : nat).

Abbreviation run := (run handle fuel).

Definition total {A} (p : prog A) : Prop := ∀ w, is_Some (run p w).

Lemma total_ret {A} (a : A) : total (Ret a).
Proof. intros w. by eexists. Qed.

Lemma total_bind {A B} (p : prog A) (f : A → prog B) : total p → (∀ a, total (f a)) → total (bind p f).
Proof. intros Hp Hf w. rewrite run_bind. destruct (Hp w) as [[a w'] ->]. apply Hf. Qed.

Lemma total_call c : total (call c).
Proof. intros w. simpl. destruct (handle c w). by eexists. Qed.

Lemma spin_clock {I B} (step : I → W → option ((I + B) * W)) :
  (∀ i w r w', step i w = Some (r, w') → clock w <= clock w') →
  ∀ n i w b w', spin step n i w = Some (b, w') → clock w <= clock w'.
Proof.
  intros Hs. induction n as [|n IH]; intros i w b w'; simpl; [done|].
  destruct (step i w) as [[[j|b'] w1]|] eqn:E; [| |done].
  - intros Hr%IH. apply Hs in E. lia.
  - intros [= <- <-]. by apply Hs in E.
Qed.

Lemma run_clock {A} (p : prog A) : ∀ w a w', run p w = Some (a, w') → clock w <= clock w'.
Proof.
  induction p as [A a|A c k IH|A I C body IHb i k IH]; intros w a' w'; simpl.
  - by intros [= <- <-].
  - pose proof (clock_mono c w). destruct (handle c w) as [r w1]. intros Hr%IH. simpl in *. lia.
  - destruct (spin _ _ _ _) as [[b w1]|] eqn:Es; [|done]. intros Hr%IH.
    apply spin_clock in Es; [lia|]. intros j u r u' Hu. by eapply IHb.
Qed.

(** A loop that goes round again only before its deadline, and takes [d] each
time, leaves. *)
Lemma spin_total {I B} (step : I → W → option ((I + B) * W)) (deadline d : Z) :
  (∀ i w, is_Some (step i w)) →
  (∀ i w j w', step i w = Some (inl j, w') → clock w <= deadline ∧ clock w + d <= clock w') →
  ∀ n i w, deadline < clock w + Z.of_nat n * d → 0 < d → is_Some (spin step (S n) i w).
Proof.
  intros Ht Hr. induction n as [|n IH]; intros i w Hd Hpos; simpl;
    destruct (Ht i w) as [[[j|b] w'] E]; rewrite E; try by eexists.
  - destruct (Hr _ _ _ _ E). lia.
  - destruct (Hr _ _ _ _ E). apply IH; [|done]. nia.
Qed.

Context (Hpoll : 0 < ExecOptions.PollInterval opts).
Context (Hfuel : ∃ n, fuel = S n ∧
  ExecOptions.SettleTimeout opts < Z.of_nat n * ExecOptions.PollInterval opts).

(** A wait loop whose rounds end with a deadline check and a sleep. *)
Lemma total_wait {I B} (body : I → prog (I + B)) (deadline : time) i w :
  (∀ j, total (body j)) →
  (∀ j u j' u', run (body j) u = Some (inl j', u') →
     clock u <= deadline ∧ clock u + ExecOptions.PollInterval opts <= clock u') →
  deadline <= clock w + ExecOptions.SettleTimeout opts →
  is_Some (run (loop body i) w).
Proof.
  intros Hb Hs Hd. destruct Hfuel as (n & Hn & Hlt). unfold loop. cbn [Effects.run]. rewrite Hn at 1.
  destruct (spin_total (λ j, run (body j)) deadline (ExecOptions.PollInterval opts) Hb Hs n i w)
    as [[b w'] E]; [lia|done|].
  rewrite Hn in E. rewrite Hn. rewrite E. by eexists.
Qed.

(** The tail of a waiting round. *)
Lemma round_again {I B} (j0 : I) (k : Err.t → B) deadline timed_out w j w' :
  run (bind (call Now) (λ now, if After now deadline then Ret (inr timed_out)
       else bind (call (Sleep (ExecOptions.PollInterval opts)))
              (λ e, match e with Some err => Ret (inr (k err)) | None => Ret (inl j0) end))) w =
    Some (inl j, w') →
  clock w <= deadline ∧ clock w + ExecOptions.PollInterval opts <= clock w'.
Proof.
  cbn [Effects.run bind call]. pose proof (clock_now w) as Hn. destruct (handle Now w) as [now w1].
  unfold After. destruct (Z.ltb_spec deadline now); [done|]. cbn [Effects.run bind call].
  pose proof (clock_sleep (ExecOptions.PollInterval opts) w1) as Hs.
  destruct (handle (Sleep _) w1) as [[err|] w2]; [done|]. intros [= <- <-].
  specialize (Hs eq_refl). simpl in *. lia.
Qed.

Ltac total_step :=
  match goal with
  | |- ∀ _, total _ => intros ?
  | |- total (bind _ _) => apply total_bind; [|intros ?]
  | |- total (call _) => apply total_call
  | |- total (Ret _) => apply total_ret
  | |- total (match ?x with _ => _ end) => destruct x
  | |- total (if ?x then _ else _) => destruct x
  | |- total (let '(_, _) := ?x in _) => destruct x
  end.
Ltac total_tac := cbn beta zeta; repeat (first [done|total_step]; cbn beta zeta).

Lemma waitGone_total pod : total (waitGone opts pod).
Proof.
  intros w. unfold waitGone. rewrite run_bind. cbn [Effects.run call].
  pose proof (clock_now w) as Hn. destruct (handle Now w) as [start w1]. simpl in Hn.
  apply (total_wait _ (time_Add start (ExecOptions.SettleTimeout opts))).
  - intros []. total_tac.
  - intros [] u [] u'. rewrite run_bind. cbn [Effects.run call].
    pose proof (clock_mono (PodPresent (Pod.Namespace pod) (Pod.Name pod)) u) as Hm.
    destruct (handle (PodPresent _ _) u) as [[err|[]] u1]; cbn beta iota; [done| |done].
    intros Hr%round_again. simpl in Hm. lia.
  - unfold time_Add. lia.
Qed.

Lemma survey_total before now started owners lagging rec :
  total (survey before now started owners lagging rec).
Proof.
  revert lagging rec. induction owners as [|o os IH]; intros lagging rec; cbn [survey]; total_tac.
Qed.

Lemma rememberRecovery_total took : total (rememberRecovery opts took).
Proof.
  unfold rememberRecovery. total_tac. generalize (entries took). intros l.
  induction l as [|[o d] l IH]; cbn [record_recoveries]; total_tac.
Qed.

Lemma verifyRecovered_total run step before affected : total (verifyRecovered opts run step before affected).
Proof.
  unfold verifyRecovered. destruct (bool_decide _); [apply total_ret|]. apply total_bind; [apply total_call|].
  intros started w. rewrite run_bind. cbn [Effects.run call].
  pose proof (clock_now w) as Hn. destruct (handle Now w) as [t w1]. simpl in Hn.
  apply (total_wait _ (time_Add t (ExecOptions.SettleTimeout opts))).
  - intros rec. apply total_bind; [apply total_call|]. intros [err|live]; [apply total_ret|].
    apply total_bind; [apply survey_total|]. intros [lagging rec'].
    destruct (lagging =? "")%string; [|total_tac].
    unfold note, event. apply total_bind; [total_tac|]. intros _.
    apply total_bind; [apply rememberRecovery_total|]. total_tac.
  - intros rec u j u'. rewrite run_bind. cbn [Effects.run call].
    pose proof (clock_mono Snapshot u) as Hm. destruct (handle Snapshot u) as [[err|live] u1]; [done|].
    rewrite run_bind. destruct (Effects.run _ _ (survey _ _ _ _ _ _) u1) as [[[lagging rec'] u2]|] eqn:Es; [|done].
    apply run_clock in Es. destruct (lagging =? "")%string.
    + rewrite run_bind. destruct (Effects.run _ _ _ u2) as [[? u3]|]; [|done].
      rewrite run_bind. by destruct (Effects.run _ _ _ u3) as [[? u4]|].
    + intros Hr%round_again. simpl in Hm. lia.
  - unfold time_Add. lia.
Qed.

Lemma event_total run ev : total (event run ev).
Proof. unfold event. total_tac. Qed.
Lemma finish_total run s msg : total (finish run s msg).
Proof. unfold finish. total_tac. Qed.
Lemma fail_total run msg : total (fail run msg).
Proof. apply total_bind; [apply event_total|]. intros _. apply finish_total. Qed.
Lemma blocked_total run step err : total (blocked run step err).
Proof. unfold blocked. destruct (Err.as_blocked err); [apply event_total|apply total_ret]. Qed.
Lemma stop_total id : total (stopRequested id).
Proof. unfold stopRequested. total_tac. Qed.
Lemma close_total run err f g : total (close_on_error run err f g).
Proof. unfold close_on_error. destruct (Err.as_blocked err); apply finish_total. Qed.

Lemma evict_all_total run step pods affected : total (evict_all opts run step pods affected).
Proof.
  revert affected. induction pods as [|pod pods IH]; intros affected; cbn [evict_all]; [apply total_ret|].
  apply total_bind; [apply total_call|]. intros [err|live]; [apply total_ret|].
  destruct (findPod _ _ _); [|apply IH]. destruct (CheckEviction _ _).
  { apply total_bind; [apply blocked_total|]. intros _. apply total_ret. }
  apply total_bind; [apply total_call|]. intros [err|].
  - destruct (Err.as_blocked err); [|apply total_ret].
    apply total_bind; [apply blocked_total|]. intros _. apply total_ret.
  - apply total_bind; [apply event_total|]. intros _. apply total_bind; [apply waitGone_total|].
    intros [err|]; [apply total_ret|apply IH].
Qed.

Lemma recordDrain_total run step : total (recordDrain opts run step).
Proof. unfold recordDrain. total_tac. Qed.

Lemma drain_total run step : total (drain opts run step).
Proof.
  unfold drain. apply total_bind; [apply total_call|]. intros [err|live]; [apply total_ret|].
  apply total_bind; [apply evict_all_total|]. intros [err|affected]; [apply total_ret|].
  apply total_bind; [apply verifyRecovered_total|]. intros [err|]; [apply total_ret|].
  apply total_bind; [apply recordDrain_total|]. intros _. apply total_ret.
Qed.

Lemma abort_total run step err : total (abort run step err).
Proof.
  unfold abort. apply total_bind; [apply total_call|]. intros [e|]; apply event_total.
Qed.

Lemma rehearse_total run step live st : total (rehearse run step live st).
Proof.
  unfold rehearse. apply total_bind; [apply event_total|]. intros _. apply total_bind.
  - generalize (movablePodsOn live (PlanStep.TargetNode step)). intros l.
    induction l as [|pod l IH]; cbn [rehearse_pods]; [apply total_ret|].
    destruct (CheckEviction _ _); (apply total_bind; [first [apply blocked_total|apply event_total]|]);
      intros _; [apply total_ret|apply IH].
  - intros [err|]; [apply total_ret|]. apply total_bind; [apply event_total|]. intros _. apply total_ret.
Qed.

Lemma performStep_total run step st : total (performStep opts run step st).
Proof.
  unfold performStep. apply total_bind; [apply total_call|]. intros [err|live]; [apply total_ret|].
  apply total_bind; [unfold guard_now; total_tac|]. intros g. destruct (CheckStep _ _ _ _ _).
  { apply total_bind; [apply blocked_total|]. intros _. apply total_ret. }
  destruct (Run.DryRun run); [apply rehearse_total|].
  apply total_bind; [apply total_call|]. intros [err|]; [apply total_ret|].
  apply total_bind; [apply event_total|]. intros _. apply total_bind; [apply drain_total|].
  intros [err|]; (apply total_bind; [first [apply abort_total|apply event_total]|]); intros _; apply total_ret.
Qed.

Lemma perform_steps_total run plan seqs st : total (perform_steps opts run plan seqs st).
Proof.
  revert st. induction seqs as [|seq seqs IH]; intros st; cbn [perform_steps]; [apply finish_total|].
  apply total_bind; [apply stop_total|]. intros [by_|]; [apply finish_total|].
  destruct (findStep plan seq); [|apply fail_total].
  apply total_bind; [apply performStep_total|]. intros [[err|] st']; [apply close_total|apply IH].
Qed.

Lemma converge_rounds_total run env todo round drained st :
  total (converge_rounds opts run env todo round drained st).
Proof.
  revert round drained st. induction todo as [|todo IH]; intros round drained st;
    cbn [converge_rounds]; cbn zeta; [apply finish_total|].
  apply total_bind; [apply stop_total|]. intros [by_|]; [apply finish_total|].
  apply total_bind; [apply total_call|]. intros [err|live]; [apply fail_total|].
  apply total_bind; [unfold planOneStep; total_tac|]. intros [[step|] why]; [|apply finish_total].
  destruct (exceedsCeiling _ _); [apply finish_total|].
  apply total_bind; [apply event_total|]. intros _.
  apply total_bind; [apply performStep_total|]. intros [[err|] st']; [apply close_total|].
  destruct (Run.DryRun run); [apply finish_total|].
  apply total_bind; [apply total_call|]. intros [err|after]; [apply fail_total|].
  destruct (_ <=? _); [apply finish_total|apply IH].
Qed.

Lemma work_total run : total (work opts run).
Proof.
  unfold work. destruct (_ =? _)%string; [|destruct (_ =? _)%string].
  - unfold converge, refuse_envelope. destruct (Run.Envelope run); [|apply fail_total].
    destruct (negb _); [apply fail_total|]. cbn zeta.
    apply total_bind; [apply event_total|]. intros _. apply converge_rounds_total.
  - unfold drainNode. cbn zeta. destruct (_ =? _)%string; [apply fail_total|].
    apply total_bind; [apply event_total|]. intros _.
    apply total_bind; [apply total_call|]. intros [err|live]; [apply fail_total|].
    destruct (negb _); [apply fail_total|].
    apply total_bind; [apply event_total|]. intros _.
    apply total_bind; [apply performStep_total|]. intros [[err|] st']; [apply close_total|apply finish_total].
  - unfold perform. apply total_bind; [apply event_total|]. intros _.
    apply total_bind; [apply total_call|]. intros [err|plan]; [apply fail_total|apply perform_steps_total].
Qed.

Lemma Poll_total : total (Poll opts).
Proof.
  unfold Poll. apply total_bind; [apply total_call|]. intros [err|[run|]]; [apply total_ret| |apply total_ret].
  apply total_bind; [apply work_total|]. intros _. apply total_ret.
Qed.
End termination.

(** The turns of a wait loop, and one more. *)
Definition enough_fuel (o : ExecOptions.t) : nat :=
  S (Z.to_nat (ExecOptions.SettleTimeout o / ExecOptions.PollInterval o + 1)).

Lemma enough_fuel_spec o :
  0 < ExecOptions.SettleTimeout o → 0 < ExecOptions.PollInterval o →
  ∃ n, enough_fuel o = S n ∧ ExecOptions.SettleTimeout o < Z.of_nat n * ExecOptions.PollInterval o.
Proof.
  intros Hs Hp. eexists. split; [reflexivity|].
  assert (0 <= ExecOptions.SettleTimeout o / ExecOptions.PollInterval o) by (apply Z.div_pos; lia).
  rewrite Z2Nat.id by lia.
  pose proof (Z.mod_pos_bound (ExecOptions.SettleTimeout o) _ Hp).
  pose proof (Z.div_mod (ExecOptions.SettleTimeout o) (ExecOptions.PollInterval o)). nia.
Qed.

(** Whatever the caller set, the timeouts an executor works with are positive. *)
Lemma withDefaults_timeouts o :
  let o' := ExecOptions.withDefaults o in
  0 < ExecOptions.SettleTimeout o' ∧ 0 < ExecOptions.PollInterval o'.
Proof.
  simpl. split; match goal with |- context [?a <=? ?b] => destruct (Z.leb_spec a b) end;
    unfold Minute, Second; lia.
Qed.

(** C22: polling always returns: with the options an executor is built with, in
any world with a clock, however the cluster and the stores answer, no wait
takes more turns than the settle timeout has poll intervals, and the claimed
run is worked to its end. *)
Theorem poll_returns {W} handle (clock : W → time) `{!Clocked handle clock} `{MapRange} o w :
  let opts := ExecOptions.withDefaults o in
  ∃ r w', run handle (enough_fuel opts) (Poll opts) w = Some (r, w').
Proof.
  intros opts. destruct (withDefaults_timeouts o) as [Hs Hp].
  destruct (Poll_total handle clock opts (enough_fuel opts) Hp (enough_fuel_spec opts Hs Hp) w) as [[r w'] E].
  by exists r, w'.
Qed.

(** A cluster where evicted pods never go: the clock still bounds the wait. *)
Definition stubborn (c : request) (w : Sim.t) : answer c * Sim.t :=
  match c return answer c * Sim.t with
  | PodPresent _ _ => (inr true, Sim.tick 0 w)
  | c => Sim.handle c w
  end.

#[local] Instance stubborn_clocked : Clocked stubborn Sim.now.
Proof.
  split.
  - intros c w. destruct c; simpl; lia.
  - intros w. simpl. lia.
  - intros d w _. simpl. lia.
Qed.

Lemma poll_returns_witness :
  ∃ r w', run stubborn (enough_fuel ex_options) (Poll (H:=listed_order) ex_options) (ex_sim steps_run) =
    Some (r, w').
Proof.
  apply (poll_returns stubborn Sim.now (H:=listed_order)
    (ExecOptions.mk "exec-0" (Limits.mk 5 1 false) true true 0 0 0 false
      Options.DefaultOptions (Impact.New (Thresholds.mk 0 0 0)) None) (ex_sim steps_run)).
Defined.
