(* ===== verification/RunStore.v ===== *)
(** * The run queue and its audit trail (internal/store/sqlstore/execution.go)

The [runs] and [run_events] tables and the statements on them.  A statement is
atomic, as both servers make it (SQLite has one writer, PostgreSQL skips locked
rows), so an interleaving of clients is a sequence of operations.  Rows hold
the decoded values: the JSON and time encodings of the columns round-trip.
Times are compared as the database compares them, as text. *)
From S2P Require Import Prelude GoLib GoTime Cluster Store.

Inductive store_error : Type := ErrNotFound | Failed (msg : string).

Abbreviation res A := (store_error + A)%type.

Module RunStore.

(** A row of [runs], with its sequence number. *)
Record row : Type := mk_row { run : Run.t; seq : Z }.

(** The rows and the events in insertion order. *)
Record t : Type := mk { rows : list row; events : list RunEvent.t }.

Definition empty : t := mk [] [].

Definition id_is (id : string) (r : row) : bool := (Run.ID (run r) =? id)%string.
Definition status_is (s : RunStatus) (r : row) : bool := bool_decide (Run.Status (run r) = s).

Definition max_seq (rs : list row) : Z := foldr (λ r m, Z.max (seq r) m) 0 rs.

(** [newID] is the random identifier, used when the request carries none. *)
Definition Enqueue (newID : string) (now : time) (r : Run.t) (s : t) : res string * t :=
  let r := Run.enqueued newID now r in
  if existsb (id_is (Run.ID r)) (rows s) then
    (inl (Failed "enqueue run: duplicate id"), s)
  else (inr (Run.ID r), mk (rows s ++ [mk_row r (max_seq (rows s) + 1)]) (events s)).

Definition RunByID (id : string) (s : t) : res Run.t :=
  match List.find (id_is id) (rows s) with
  | Some r => inr (run r)
  | None => inl ErrNotFound
  end.

(** [ORDER BY requested_at, seq] *)
Definition requested (r : row) : string := format_rfc3339nano (Run.RequestedAt (run r)).

Definition earlier (a b : row) : bool :=
  text_order (requested a, seq a) (requested b, seq b).

Definition update (id : string) (f : Run.t → Run.t) (rs : list row) : list row :=
  (λ r, if id_is id r then mk_row (f (run r)) (seq r) else r) <$> rs.

Definition next_pending (rs : list row) : option row :=
  head (sort_by earlier (List.filter (status_is RunPending) rs)).

Definition Claim (worker : string) (now : time) (s : t) : res Run.t * t :=
  match next_pending (rows s) with
  | None => (inl ErrNotFound, s)
  | Some r =>
      let s' := mk (update (Run.ID (run r)) (Run.claimed worker now) (rows s)) (events s) in
      (RunByID (Run.ID (run r)) s', s')
  end.

Definition Finish (now : time) (id : string) (status : RunStatus) (summary : string) (s : t) :
    option store_error * t :=
  if negb (Terminal status) then
    (Some (Failed ("cannot finish run " +:+ id +:+ " with non-terminal status " +:+ status_string status)), s)
  else if existsb (id_is id) (rows s) then
    (None, mk (update id (Run.finished status summary now) (rows s)) (events s))
  else (Some ErrNotFound, s).

Definition active (r : row) : bool := status_is RunPending r || status_is RunRunning r.

Definition RequestStop (id by_ : string) (s : t) : t :=
  mk ((λ r, if id_is id r && active r then mk_row (Run.stop_requested by_ (run r)) (seq r) else r)
        <$> rows s) (events s).

(** [ORDER BY requested_at LIMIT 1]; ties are the database's choice, here the
first inserted. *)
Definition ActiveRun (s : t) : res Run.t :=
  match sort_by (λ a b, str_ltb (requested a) (requested b)) (List.filter active (rows s)) with
  | r :: _ => inr (run r)
  | [] => inl ErrNotFound
  end.

Definition or_default (limit fallback : Z) : nat := Z.to_nat (if limit <=? 0 then fallback else limit).

Definition newest_first (rs : list row) (limit : Z) (fallback : Z) : list Run.t :=
  run <$> take (or_default limit fallback) (sort_by (λ a b, earlier b a) rs).

Definition RecentRuns (limit : Z) (s : t) : list Run.t := newest_first (rows s) limit 100.

Definition RunsForPlan (planID : string) (limit : Z) (s : t) : list Run.t :=
  newest_first (List.filter (λ r, (Run.PlanID (run r) =? planID)%string) (rows s)) limit 50.

(** ** Events *)

Definition of_run (id : string) (e : RunEvent.t) : bool := (RunEvent.RunID e =? id)%string.

Definition max_sequence (es : list RunEvent.t) : Z := foldr (λ e m, Z.max (RunEvent.Sequence e) m) 0 es.

(** The run must exist: [run_id] references [runs]. *)
Definition AppendEvent (now : time) (e : RunEvent.t) (s : t) : option store_error * t :=
  if negb (existsb (id_is (RunEvent.RunID e)) (rows s)) then (Some (Failed "append run event: no such run"), s)
  else
    let e := if IsZeroTime (RunEvent.At e) then RunEvent.set_At now e else e in
    let n := max_sequence (List.filter (of_run (RunEvent.RunID e)) (events s)) + 1 in
    (None, mk (rows s) (events s ++ [RunEvent.set_Sequence n e])).

Definition Events (id : string) (s : t) : list RunEvent.t :=
  sort_by (λ a b, RunEvent.Sequence a <? RunEvent.Sequence b) (List.filter (of_run id) (events s)).

(** ** Any client, at any time *)

Inductive op : Type :=
| OpEnqueue (newID : string) (now : time) (r : Run.t)
| OpClaim (worker : string) (now : time)
| OpFinish (now : time) (id : string) (status : RunStatus) (summary : string)
| OpRequestStop (id by_ : string)
| OpAppend (now : time) (e : RunEvent.t).

(** A request arrives pending. *)
Definition permitted (o : op) : bool :=
  match o with OpEnqueue _ _ r => bool_decide (Run.Status r = RunPending) | _ => true end.

Definition apply (o : op) (s : t) : t :=
  match o with
  | OpEnqueue newID now r => (Enqueue newID now r s).2
  | OpClaim worker now => (Claim worker now s).2
  | OpFinish now id status summary => (Finish now id status summary s).2
  | OpRequestStop id by_ => RequestStop id by_ s
  | OpAppend now e => (AppendEvent now e s).2
  end.

(** The run a claim hands out, if the operation is one. *)
Definition handed (o : op) (s : t) : list string :=
  match o with
  | OpClaim worker now => match (Claim worker now s).1 with inr r => [Run.ID r] | inl _ => [] end
  | _ => []
  end.

(** The store after a sequence of operations, and the claims handed out. *)
Fixpoint play (ops : list op) (s : t) : t * list string :=
  match ops with
  | [] => (s, [])
  | o :: ops => let '(s', l) := play ops (apply o s) in (s', handed o s ++ l)
  end.

End RunStore.
