(* ===== verification/RunStoreProps.v ===== *)
(** * What the run queue guarantees *)
From S2P Require Import Prelude GoLib GoTime Cluster Store RunStore.
From S2P Require Columns.
Import RunStore.

(** ** Order of requests *)

Lemma earlier_asym a b : earlier a b = true → earlier b a = false.
Proof. apply text_order_asym. Qed.

Lemma earlier_trans a b c : earlier b a = false → earlier c b = false → earlier c a = false.
Proof. apply text_order_trans. Qed.

Lemma next_pending_spec rs :
  match next_pending rs with
  | None => ∀ r, r ∈ rs → Run.Status (run r) ≠ RunPending
  | Some r => r ∈ rs ∧ Run.Status (run r) = RunPending ∧
      ∀ r', r' ∈ rs → Run.Status (run r') = RunPending → earlier r' r = false
  end.
Proof.
  unfold next_pending.
  pose proof (sort_by_head earlier (List.filter (status_is RunPending) rs) earlier_asym) as Hh.
  specialize (Hh (λ a b c _ _ _, earlier_trans a b c)).
  assert (Hin : ∀ r, r ∈ List.filter (status_is RunPending) rs ↔ r ∈ rs ∧ Run.Status (run r) = RunPending).
  { intros r. rewrite filter_elem. unfold status_is. by rewrite bool_decide_eq_true. }
  destruct (sort_by earlier _) as [|r l]; simpl.
  - intros r Hr Hs. assert (Hn : r ∈ List.filter (status_is RunPending) rs) by (by apply Hin).
    rewrite Hh in Hn. by apply elem_of_nil in Hn.
  - destruct Hh as [H1 H2]. apply Hin in H1 as [H1 H3]. split_and!; [done..|].
    intros r' Hr' Hs'. apply H2. by apply Hin.
Qed.

(** ** Well-formed stores *)

Definition ids (s : t) : list string := Run.ID ∘ run <$> rows s.

(** Identifiers are unique, as the primary key makes them. *)
Definition wf (s : t) : Prop := NoDup (ids s).

Lemma update_ids id f rs :
  (∀ r, Run.ID (f r) = Run.ID r) → Run.ID ∘ run <$> update id f rs = Run.ID ∘ run <$> rs.
Proof.
  intros Hf. unfold update. rewrite <- list_fmap_compose. apply list_fmap_ext. intros i r _. simpl.
  destruct (id_is id r); simpl; [apply Hf|done].
Qed.

Lemma find_update id f rs r :
  (∀ r, Run.ID (f r) = Run.ID r) → NoDup (Run.ID ∘ run <$> rs) → r ∈ rs → Run.ID (run r) = id →
  List.find (id_is id) (update id f rs) = Some (mk_row (f (run r)) (seq r)).
Proof.
  intros Hf Hnd Hin Hid. induction rs as [|x rs IH]; [by apply elem_of_nil in Hin|].
  simpl in *. apply NoDup_cons in Hnd as [Hx Hnd]. apply elem_of_cons in Hin as [<-|Hin].
  - assert (E : id_is id r = true) by (by apply String.eqb_eq). rewrite E. unfold id_is. simpl.
    by rewrite Hf, (proj2 (String.eqb_eq _ _) Hid).
  - assert (E : id_is id x = false).
    { apply String.eqb_neq. intros E. apply Hx. apply list_elem_of_fmap. exists r. split; [|done].
      simpl. by rewrite Hid. }
    rewrite E, E. by apply IH.
Qed.

Lemma apply_wf o s : wf s → wf (apply o s).
Proof.
  unfold wf, ids. intros Hw. destruct o as [newID now r|w now|now id st sum|id by_|now e]; simpl.
  - unfold Enqueue. cbn zeta. destruct (existsb _ _) eqn:E; [done|]. simpl.
    rewrite fmap_app. apply NoDup_app. split_and!; [done| |apply NoDup_singleton].
    intros i Hi ->%list_elem_of_singleton. apply list_elem_of_fmap in Hi as (x & Hx & Hin). simpl in *.
    apply not_true_iff_false in E. apply E, existsb_elem. exists x. split; [done|]. by apply String.eqb_eq.
  - unfold Claim. destruct (next_pending _); [|done]. simpl. by rewrite update_ids.
  - unfold Finish. destruct (negb _); [done|]. destruct (existsb _ _); [|done]. simpl. by rewrite update_ids.
  - rewrite <- list_fmap_compose. erewrite list_fmap_ext; [exact Hw|].
    intros i r _. simpl. by destruct (id_is id r && active r).
  - unfold AppendEvent. by destruct (negb _).
Qed.

(** ** Claims *)

Lemma claim_spec worker now s :
  wf s →
  match Claim worker now s with
  | (inl e, s') => e = ErrNotFound ∧ s' = s ∧ ∀ r, r ∈ rows s → Run.Status (run r) ≠ RunPending
  | (inr got, s') =>
      ∃ r, r ∈ rows s ∧ Run.Status (run r) = RunPending ∧
        (∀ r', r' ∈ rows s → Run.Status (run r') = RunPending → earlier r' r = false) ∧
        got = Run.claimed worker now (run r) ∧
        rows s' = (λ x, if id_is (Run.ID (run r)) x then mk_row got (seq r) else x) <$> rows s
  end.
Proof.
  intros Hw. unfold Claim. pose proof (next_pending_spec (rows s)) as Hn.
  destruct (next_pending (rows s)) as [r|]; [|done]. destruct Hn as (Hin & Hs & Hmin).
  unfold RunByID. simpl. rewrite (find_update _ _ _ r) by done. simpl.
  exists r. split_and!; [done..|]. unfold update. apply list_fmap_ext. intros i x Hx. simpl.
  destruct (id_is (Run.ID (run r)) x) eqn:E; [|done]. apply String.eqb_eq in E.
  apply list_elem_of_lookup_2 in Hx. by rewrite (fmap_unique _ _ x r Hw Hx Hin E).
Qed.

(** The status a run had can only move on. *)
Definition stage (s : RunStatus) : nat :=
  match s with RunPending => 0 | RunRunning => 1 | _ => 2 end.

(** Every run of [s] is in [s'], at the same stage or a later one. *)
Definition moves_on (s s' : t) : Prop :=
  ∀ r, r ∈ rows s → ∃ r', r' ∈ rows s' ∧ Run.ID (run r') = Run.ID (run r) ∧
    (stage (Run.Status (run r)) <= stage (Run.Status (run r')))%nat.

Lemma enqueued_in newID now r s x :
  x ∈ rows (Enqueue newID now r s).2 → x ∈ rows s ∨ ¬ Run.ID (run x) ∈ ids s.
Proof.
  unfold Enqueue. cbn zeta. destruct (existsb _ _) eqn:E; [by left|]. simpl.
  rewrite elem_of_app, list_elem_of_singleton. intros [Hx| ->]; [by left|right].
  intros Hin. apply list_elem_of_fmap in Hin as (y & Hy & Hin). simpl in *.
  apply not_true_iff_false in E. apply E, existsb_elem. exists y. split; [done|]. by apply String.eqb_eq.
Qed.

Lemma apply_moves_on o s : wf s → moves_on s (apply o s).
Proof.
  intros Hw r Hr. destruct o as [newID now q|w now|now id st sum|id by_|now e]; simpl.
  - unfold Enqueue. cbn zeta. destruct (existsb _ _); [by exists r|]. exists r.
    split; [|done]. apply elem_of_app. by left.
  - pose proof (next_pending_spec (rows s)) as Hn. unfold Claim.
    destruct (next_pending (rows s)) as [q|]; [|by exists r]. destruct Hn as (Hq & Hp & _).
    exists (if id_is (Run.ID (run q)) r then mk_row (Run.claimed w now (run r)) (seq r) else r). split.
    + apply list_elem_of_fmap. by exists r.
    + destruct (id_is (Run.ID (run q)) r) eqn:E; [|done]. split; [done|]. simpl.
      apply String.eqb_eq in E. rewrite (fmap_unique _ _ r q Hw Hr Hq E), Hp. simpl. lia.
  - unfold Finish. destruct (Terminal st) eqn:Ht; simpl; [|by exists r].
    destruct (existsb _ _); [|by exists r].
    exists (if id_is id r then mk_row (Run.finished st sum now (run r)) (seq r) else r). split.
    + apply list_elem_of_fmap. by exists r.
    + destruct (id_is id r); [|done]. split; [done|]. simpl.
      destruct st; [done..| | |done|]; destruct (Run.Status (run r)); simpl; lia.
  - exists (if id_is id r && active r then mk_row (Run.stop_requested by_ (run r)) (seq r) else r). split.
    + apply list_elem_of_fmap. by exists r.
    + by destruct (id_is id r && active r).
  - unfold AppendEvent. destruct (negb _); by exists r.
Qed.

Lemma apply_pending o s x :
  wf s → x ∈ rows (apply o s) → Run.Status (run x) = RunPending →
  (∃ y, y ∈ rows s ∧ Run.ID (run y) = Run.ID (run x) ∧ Run.Status (run y) = RunPending ∧
     Run.ID (run x) ∉ handed o s) ∨ Run.ID (run x) ∉ ids s.
Proof.
  intros Hw Hx Hp. destruct o as [newID now q|w now|now id st sum|id by_|now e]; simpl in *.
  - apply enqueued_in in Hx as [Hx|Hx]; [left; exists x|by right]. split_and!; [done..|]. by apply not_elem_of_nil.
  - left. pose proof (claim_spec w now s Hw) as Hc. destruct (Claim w now s) as [[e|got] s'].
    + destruct Hc as (_ & -> & Hnone). by destruct (Hnone x Hx).
    + destruct Hc as (r & Hr & _ & _ & -> & Hrows). simpl in *. rewrite Hrows in Hx.
      apply list_elem_of_fmap in Hx as (y & -> & Hy).
      destruct (id_is (Run.ID (run r)) y) eqn:E; [done|]. exists y. split_and!; [done..|].
      rewrite list_elem_of_singleton. by apply String.eqb_neq in E.
  - left. unfold Finish in Hx. destruct (Terminal st) eqn:Ht; simpl in Hx.
    2:{ exists x. split_and!; [done..|]. by apply not_elem_of_nil. }
    destruct (existsb _ _).
    2:{ exists x. split_and!; [done..|]. by apply not_elem_of_nil. }
    simpl in Hx. apply list_elem_of_fmap in Hx as (y & -> & Hy). destruct (id_is id y).
    { simpl in Hp. by destruct st. }
    exists y. split_and!; [done..|]. by apply not_elem_of_nil.
  - left. apply list_elem_of_fmap in Hx as (y & -> & Hy). exists y.
    destruct (id_is id y && active y); (split_and!; [done..|]; by apply not_elem_of_nil).
  - left. exists x. unfold AppendEvent in Hx. destruct (negb _); (split_and!; [done..|]; by apply not_elem_of_nil).
Qed.

Definition claimable (s : t) (id : string) : Prop :=
  id ∉ ids s ∨ ∃ r, r ∈ rows s ∧ Run.ID (run r) = id ∧ Run.Status (run r) = RunPending.

Lemma claimable_before o s id :
  wf s → claimable (apply o s) id → claimable s id ∧ id ∉ handed o s.
Proof.
  intros Hw Hc.
  assert (Hh : ∀ i, i ∈ handed o s → ∃ r, r ∈ rows s ∧ Run.ID (run r) = i ∧ Run.Status (run r) = RunPending).
  { intros i. destruct o as [| w now | | |]; simpl; try by intros ?%elem_of_nil.
    pose proof (claim_spec w now s Hw) as Hct. destruct (Claim w now s) as [[e|got] s']; simpl.
    { by intros ?%elem_of_nil. }
    destruct Hct as (r & Hr & Hp & _ & -> & _). intros ->%list_elem_of_singleton. by exists r. }
  assert (Hkeep : id ∈ ids s → id ∈ ids (apply o s)).
  { intros (r & -> & Hr)%list_elem_of_fmap. destruct (apply_moves_on o s Hw r Hr) as (r' & Hr' & E & _).
    simpl. rewrite <- E. by apply (list_elem_of_fmap_2 (Run.ID ∘ run)). }
  destruct Hc as [Hn|(x & Hx & <- & Hp)].
  - assert (id ∉ ids s) by auto. split; [by left|]. intros (r & Hr & <- & _)%Hh.
    apply Hn, Hkeep. by apply (list_elem_of_fmap_2 (Run.ID ∘ run)).
  - destruct (apply_pending o s x Hw Hx Hp) as [(y & Hy & E & Hyp & Hnh)|Hn].
    + split; [|done]. right. by exists y.
    + split; [by left|]. intros (r & Hr & E & _)%Hh. apply Hn. rewrite <- E.
      by apply (list_elem_of_fmap_2 (Run.ID ∘ run)).
Qed.

Lemma handed_nodup o s : NoDup (handed o s).
Proof.
  destruct o as [|w now| | |]; simpl; try constructor.
  destruct (Claim w now s).1; [constructor|apply NoDup_singleton].
Qed.

Lemma handed_claimable o s id : wf s → id ∈ handed o s → claimable s id.
Proof.
  intros Hw. destruct o as [|w now| | |]; simpl; try by intros ?%elem_of_nil.
  pose proof (claim_spec w now s Hw) as Hct. destruct (Claim w now s) as [[e|got] s']; simpl.
  { by intros ?%elem_of_nil. }
  destruct Hct as (r & Hr & Hp & _ & -> & _). intros ->%list_elem_of_singleton. right. by exists r.
Qed.

Lemma play_claims ops s :
  wf s → NoDup (play ops s).2 ∧ ∀ id, id ∈ (play ops s).2 → claimable s id.
Proof.
  revert s. induction ops as [|o ops IH]; intros s Hw; simpl.
  { split; [constructor|]. by intros id ?%elem_of_nil. }
  destruct (IH (apply o s) (apply_wf o s Hw)) as [Hnd Hcl]. destruct (play ops (apply o s)) as [s' l]. simpl in *.
  split.
  - apply NoDup_app. split_and!; [apply handed_nodup| |done].
    intros id Hh Hl. by destruct (claimable_before o s id Hw (Hcl id Hl)).
  - intros id [Hh|Hl]%elem_of_app; [by eapply handed_claimable|].
    by destruct (claimable_before o s id Hw (Hcl id Hl)).
Qed.

(** A claim takes the pending run whose request sorts first, marks it
running under the worker's name, hands it out, and leaves every other run as it
was; it finds nothing exactly when no run is pending. *)
Theorem claim_takes_first worker now s :
  wf s →
  match Claim worker now s with
  | (inl e, s') => e = ErrNotFound ∧ s' = s ∧ ∀ r, r ∈ rows s → Run.Status (run r) ≠ RunPending
  | (inr got, s') =>
      ∃ r, r ∈ rows s ∧ Run.Status (run r) = RunPending ∧
        (∀ r', r' ∈ rows s → Run.Status (run r') = RunPending → earlier r' r = false) ∧
        got = Run.claimed worker now (run r) ∧
        rows s' = (λ x, if id_is (Run.ID (run r)) x then mk_row got (seq r) else x) <$> rows s
  end.
Proof. apply claim_spec. Qed.

(** Which of two requests is earlier, by the instants. *)
Lemma earlier_instants r r' :
  0 <= Run.RequestedAt (run r') < Run.RequestedAt (run r) → Run.RequestedAt (run r) < Columns.year_10000 →
  earlier r' r = false →
  ∃ k, (k <= 9)%nat ∧ Run.RequestedAt (run r') mod 10 ^ Z.of_nat k = 0 ∧
    Run.RequestedAt (run r) / 10 ^ Z.of_nat k = Run.RequestedAt (run r') / 10 ^ Z.of_nat k.
Proof.
  intros Hl Hy He. apply Columns.text_misorders_iff; [done..|]. apply not_false_iff_true. intros Hn.
  unfold earlier, text_order in He. cbn in He. apply orb_false_iff in He as [He _]. unfold requested in *.
  pose proof (str_ltb_total _ _ He Hn) as Heq. apply Columns.format_inj in Heq; lia.
Qed.

(** C40: the oldest request is served first, but for the digits: a pending request older
than the one that is claimed was made at the same instant cut to fewer digits of a
second. *)
Theorem claims_oldest_but_for_digits worker now s got :
  wf s → (∀ r, r ∈ rows s → 0 <= Run.RequestedAt (run r) < Columns.year_10000) →
  (Claim worker now s).1 = inr got →
  ∀ r, r ∈ rows s → Run.Status (run r) = RunPending → Run.RequestedAt (run r) < Run.RequestedAt got →
  ∃ k, (k <= 9)%nat ∧ Run.RequestedAt (run r) mod 10 ^ Z.of_nat k = 0 ∧
    Run.RequestedAt got / 10 ^ Z.of_nat k = Run.RequestedAt (run r) / 10 ^ Z.of_nat k.
Proof.
  intros Hw Hy Hg r Hr Hp Hl. pose proof (claim_spec worker now s Hw) as Hc.
  destruct (Claim worker now s) as [[e|g] s']; [done|]. injection Hg as ->.
  destruct Hc as (x & Hx & _ & Hmin & -> & _). pose proof (Hy r Hr). pose proof (Hy x Hx).
  change (Run.RequestedAt (Run.claimed worker now (run x))) with (Run.RequestedAt (run x)) in *.
  apply (earlier_instants x r); [lia..|]. by apply Hmin.
Qed.

(** C14: however the operations of the API server and of any number of executors
interleave, no run is ever handed out twice. *)
Theorem no_run_claimed_twice ops s : wf s → NoDup (play ops s).2.
Proof. intros Hw. by apply play_claims. Qed.

(** A run never goes back: whatever operations follow, it is still in the
store, and a running run is not pending again nor a closed one reopened. *)
Theorem runs_only_move_on ops s : wf s → moves_on s (play ops s).1.
Proof.
  revert s. induction ops as [|o ops IH]; intros s Hw; simpl; [by intros r Hr; exists r|].
  intros r Hr. destruct (apply_moves_on o s Hw r Hr) as (r1 & H1 & E1 & L1).
  destruct (IH (apply o s) (apply_wf o s Hw) r1 H1) as (r2 & H2 & E2 & L2).
  destruct (play ops (apply o s)) as [s' l]. simpl in *. exists r2. split_and!; [done|congruence|lia].
Qed.

(** ** The audit trail *)

Lemma max_sequence_seqZ es n :
  RunEvent.Sequence <$> es = seqZ 1 (Z.of_nat n) → max_sequence es = Z.of_nat n.
Proof.
  assert (Hg : ∀ es m n, 0 <= m → RunEvent.Sequence <$> es = seqZ (m + 1) (Z.of_nat n) →
    Z.max m (max_sequence es) = m + Z.of_nat n).
  { clear. induction es as [|e es IH]; intros m [|n] Hm; simpl; try done.
    - lia.
    - by rewrite (seqZ_cons (m + 1) (Z.of_nat (S n)) ltac:(lia)).
    - rewrite (seqZ_cons (m + 1) (Z.of_nat (S n)) ltac:(lia)). intros [= He Hes].
      specialize (IH (m + 1) n).
      replace (Z.succ (m + 1)) with (m + 1 + 1) in Hes by lia.
      replace (Z.pred (Z.of_nat (S n))) with (Z.of_nat n) in Hes by lia.
      specialize (IH ltac:(lia) Hes). rewrite He. lia. }
  intros He. specialize (Hg es 0 n). simpl in Hg. specialize (Hg ltac:(lia) He).
  assert (0 <= max_sequence es); [|lia]. clear. induction es; simpl; lia.
Qed.

(** Each run's events are numbered from one, in the order they came. *)
Definition numbered (s : t) : Prop :=
  ∀ id, RunEvent.Sequence <$> List.filter (of_run id) (events s) =
    seqZ 1 (Z.of_nat (length (List.filter (of_run id) (events s)))).

Lemma append_numbered now e s : numbered s → numbered (AppendEvent now e s).2.
Proof.
  intros Hn id. unfold AppendEvent. destruct (negb _); [apply Hn|]. simpl.
  set (e' := if IsZeroTime _ then _ else _).
  assert (He' : RunEvent.RunID e' = RunEvent.RunID e) by (unfold e'; by destruct (IsZeroTime _)).
  assert (Hof : ∀ k, of_run id (RunEvent.set_Sequence k e') = (RunEvent.RunID e =? id)%string).
  { intros k. unfold of_run. simpl. by rewrite He'. }
  rewrite List.filter_app. simpl. rewrite Hof.
  destruct (String.eqb_spec (RunEvent.RunID e) id) as [<-|]; [|by rewrite app_nil_r].
  rewrite fmap_app, length_app, (Hn _). simpl.
  rewrite He', (max_sequence_seqZ _ _ (Hn (RunEvent.RunID e))).
  rewrite Nat2Z.inj_add. simpl. rewrite seqZ_app by lia. f_equal. by rewrite (Z.add_comm 1).
Qed.

Lemma apply_numbered o s : numbered s → numbered (apply o s).
Proof.
  intros Hn. destruct o as [newID now q|w now|now id st sum|id by_|now e]; simpl.
  - unfold Enqueue. cbn zeta. by destruct (existsb _ _).
  - unfold Claim. by destruct (next_pending _).
  - unfold Finish. destruct (negb _); [done|]. by destruct (existsb _ _).
  - exact Hn.
  - by apply append_numbered.
Qed.

Lemma sorted_is_sort {A} (less : A → A → bool) l :
  Sorted (λ a b, less b a = false) l → sort_by less l = l.
Proof.
  induction 1 as [|x l Hl IH Hhd]; simpl; [done|]. rewrite IH.
  destruct Hhd as [|y l Hxy]; simpl; [done|]. by rewrite Hxy.
Qed.

Lemma seqZ_sorted m n : Sorted Z.lt (seqZ m (Z.of_nat n)).
Proof.
  revert m. induction n as [|n IH]; intros m; [constructor|].
  rewrite seqZ_cons by lia. replace (Z.pred (Z.of_nat (S n))) with (Z.of_nat n) by lia.
  constructor; [apply IH|]. destruct n; [constructor|]. rewrite seqZ_cons by lia. constructor. lia.
Qed.

(** Reading a run's audit trail gives its events in the order they were
appended, numbered 1, 2, 3 and so on, whatever else happened in between. *)
Theorem audit_trail_in_order ops id :
  let s := (play ops empty).1 in
  Events id s = List.filter (of_run id) (events s) ∧
  RunEvent.Sequence <$> Events id s = seqZ 1 (Z.of_nat (length (Events id s))).
Proof.
  intros s. assert (Hn : numbered s).
  { assert (Hg : ∀ s0, numbered s0 → numbered (play ops s0).1); [|by apply Hg].
    clear s. induction ops as [|o ops IH]; intros s0 H0; simpl; [done|].
    specialize (IH (apply o s0) (apply_numbered o s0 H0)). by destruct (play ops (apply o s0)). }
  assert (He : Events id s = List.filter (of_run id) (events s)).
  { unfold Events. apply sorted_is_sort. pose proof (seqZ_sorted 1 (length (List.filter (of_run id) (events s)))) as Hs.
    rewrite <- (Hn id) in Hs. clear -Hs. induction (List.filter (of_run id) (events s)) as [|e l IH]; [constructor|].
    simpl in Hs. inversion Hs as [|x xs Hl Hh]; subst. constructor; [by apply IH|].
    destruct l; [constructor|]. inversion Hh; subst. constructor. apply Z.ltb_ge. lia. }
  rewrite He. split; [done|apply Hn].
Qed.

(** ** What the queue does not do *)

Lemma active_run_exists s r : r ∈ rows s → active r = true → ∃ a, ActiveRun s = inr a.
Proof.
  intros Hr Ha. unfold ActiveRun.
  assert (Hin : r ∈ sort_by (λ a b, str_ltb (requested a) (requested b)) (List.filter active (rows s))).
  { apply elem_of_sort_by. by apply filter_elem. }
  destruct (sort_by _ _) as [|x l]; [by apply elem_of_nil in Hin|]. by eexists.
Qed.

(** A stopped run never closes.  The executor closes a run that was asked to
stop with the status Stopped; [Terminal] does not count it, so [Finish] refuses
and changes nothing, the run stays running and [ActiveRun] keeps answering that
a run is in progress, which is what makes the API refuse the next one. *)
Theorem stopped_run_never_closes now summary s r :
  r ∈ rows s → Run.Status (run r) = RunRunning →
  (∃ e, Finish now (Run.ID (run r)) RunStopped summary s = (Some e, s)) ∧ ∃ a, ActiveRun s = inr a.
Proof.
  intros Hr Hs. split; [by eexists|]. eapply active_run_exists; [done|].
  unfold active, status_is. rewrite Hs. by rewrite orb_true_r.
Qed.

Definition ask (id : string) (at_ : time) : op :=
  OpEnqueue id at_ (Run.mk "" "p1" [1] false RunPending false "" "" "" None "ops" [] at_ None None "" "").

(** Asked for 100 ms and 120 ms into the same second. *)
Definition tenth : time := unix_epoch + 100000000.
Definition two_asked : t := (play [ask "first" tenth; ask "second" (tenth + 20000000)] empty).1.

(** The queue is not first-in first-out.  Request times are compared as
RFC 3339 text with the fraction's trailing zeros dropped, in which .12Z comes
before .1Z: of two runs requested 20 ms apart, the later is claimed first. *)
Theorem later_request_claimed_first :
  Run.RequestedAt <$> (run <$> rows two_asked) = [tenth; tenth + 20000000] ∧
  match (Claim "exec-0" (tenth + Second) two_asked).1 with
  | inr r => Run.ID r = "second" | inl _ => False end.
Proof. by vm_compute. Qed.

(** ** Witnesses *)

Lemma two_asked_wf : wf two_asked.
Proof. unfold wf. eapply bool_decide_eq_true_1. by vm_compute. Qed.

Lemma claim_takes_first_witness :
  ∃ r, r ∈ rows two_asked ∧ Run.Status (run r) = RunPending ∧
    Run.ID (run r) = "second".
Proof.
  pose proof (claim_takes_first "exec-0" tenth two_asked two_asked_wf) as Hc.
  assert (Hid : match (Claim "exec-0" tenth two_asked).1 with inr r => Run.ID r = "second" | inl _ => False end)
    by (by vm_compute).
  destruct (Claim "exec-0" tenth two_asked) as [[e|got] s']; [done|].
  destruct Hc as (r & Hr & Hp & _ & -> & _). by exists r.
Defined.

Lemma no_run_claimed_twice_witness :
  NoDup (play [OpClaim "a" tenth; OpClaim "b" tenth; OpClaim "a" tenth] two_asked).2.
Proof. apply no_run_claimed_twice, two_asked_wf. Defined.

Lemma claims_oldest_but_for_digits_witness :
  (Run.ID <$> (run <$> rows two_asked)) = ["first"; "second"] ∧
  ∃ k, (k <= 9)%nat ∧ tenth mod 10 ^ Z.of_nat k = 0 ∧ (tenth + 20000000) / 10 ^ Z.of_nat k = tenth / 10 ^ Z.of_nat k.
Proof.
  split; [by vm_compute|].
  assert (Hb : match (Claim "exec-0" tenth two_asked).1 with inr g => Run.RequestedAt g =? tenth + 20000000 | inl _ => false end = true)
    by (by vm_compute).
  assert (Hr : match rows two_asked with r :: _ => status_is RunPending r && (Run.RequestedAt (run r) =? tenth) | [] => false end = true)
    by (by vm_compute).
  assert (Hy : ∀ r, r ∈ rows two_asked → 0 <= Run.RequestedAt (run r) < Columns.year_10000).
  { apply Forall_forall. eapply bool_decide_eq_true_1. by vm_compute. }
  destruct (Claim "exec-0" tenth two_asked).1 as [e|got] eqn:Hg; [discriminate Hb|].
  pose proof (claims_oldest_but_for_digits "exec-0" tenth two_asked got two_asked_wf Hy Hg) as Hk.
  destruct (rows two_asked) as [|r rs]; [discriminate Hr|].
  apply andb_true_iff in Hr as [Hs%bool_decide_eq_true Ht%Z.eqb_eq]. apply Z.eqb_eq in Hb.
  specialize (Hk r (list_elem_of_here _ _) Hs). rewrite Hb, Ht in Hk. apply Hk. reflexivity.
Defined.

Lemma runs_only_move_on_witness :
  moves_on two_asked (play [OpClaim "a" tenth; OpRequestStop "second" "ops"] two_asked).1.
Proof. apply runs_only_move_on, two_asked_wf. Defined.

Definition claimed_one : t := (play [OpClaim "a" tenth] two_asked).1.

Lemma stopped_run_never_closes_witness :
  ∃ r, r ∈ rows claimed_one ∧ (∃ e, Finish tenth (Run.ID (run r)) RunStopped "" claimed_one = (Some e, claimed_one)) ∧
    ∃ a, ActiveRun claimed_one = inr a.
Proof.
  assert (Hr : ∃ r, rows claimed_one !! 1%nat = Some r ∧ Run.Status (run r) = RunRunning).
  { eexists. split; [by vm_compute|]. by vm_compute. }
  destruct Hr as (r & Hr%list_elem_of_lookup_2 & Hs). exists r. split; [done|].
  by apply (stopped_run_never_closes tenth "" claimed_one r).
Defined.
