(* ===== verification/Reclaim.v ===== *)
(** * Reclamation (internal/reclaim, store/sqlstore/reclamation.go)

What became of drained nodes: the rule that resolves pending records against a
snapshot, the sign of a reclaimer running in the cluster, and the table that
keeps the records, with the ledger it sums up. *)
From S2P Require Import Prelude GoLib GoTime Model Cluster Store RunStore.

(** ** observer.go *)

Module Transition.
Record t : Type := mk {
  Reclamation : Reclamation.t;
  Outcome : ReclamationOutcome;
  At : time;
  Took : duration;
}.
End Transition.

(** Cordoned or not, by name; of nodes of one name the last counts. *)
Definition cordoned_map (nodes : list Node.t) : gmap string bool :=
  fold_left (λ m n, <[Node.Name n := Node.Unschedulable n]> m) nodes ∅.

Definition resolve_one (cordoned : gmap string bool) (now : time) (r : Reclamation.t) :
    option Transition.t :=
  if negb (Reclamation.Pending r) then None
  else match cordoned !! Reclamation.Node r with
  | None => Some (Transition.mk r ReclaimedGone now (time_Sub now (Reclamation.DrainedAt r)))
  | Some false => Some (Transition.mk r ReclaimedReturned now 0)
  | Some true => None
  end.

Definition Resolve (pending : list Reclamation.t) (snap : option ClusterSnapshot.t) (now : time) :
    list Transition.t :=
  match pending, snap with
  | [], _ | _, None => []
  | _, Some snap => omap (resolve_one (cordoned_map (ClusterSnapshot.Nodes snap)) now) pending
  end.

Definition Awaiting (pending : list Reclamation.t) (olderThan : duration) (now : time) :
    list Reclamation.t :=
  List.filter (λ r, Reclamation.Pending r && (olderThan <=? Reclamation.Age r now)) pending.

(** ** detect.go *)

Definition reclaimer_of (p : Pod.t) : option string :=
  let name := label (Pod.Labels p) "app.kubernetes.io/name" in
  if (name =? "karpenter")%string || HasPrefix (Pod.Name p) "karpenter-" then Some "Karpenter"
  else if (name =? "cluster-autoscaler")%string ||
          (label (Pod.Labels p) "app" =? "cluster-autoscaler")%string ||
          HasPrefix (Pod.Name p) "cluster-autoscaler-" then Some "cluster-autoscaler"
  else None.

(** ["", false] is [None]. *)
Fixpoint detect (pods : list Pod.t) : option string :=
  match pods with
  | [] => None
  | p :: pods => match reclaimer_of p with Some n => Some n | None => detect pods end
  end.

Definition DetectReclaimer (snap : ClusterSnapshot.t) : option string := detect (ClusterSnapshot.Pods snap).

(** ** sqlstore/reclamation.go *)

Module ReclamationStats.
Record t : Type := mk {
  Awaiting : Z;
  Reclaimed : Z;
  Returned : Z;
  MedianTime : duration;
  ReclaimedCPUMilli : Z;
  ReclaimedMemBytes : Z;
  UncountedNodes : Z;
  ExternallyReclaimed : Z;
}.
Definition zero : t := mk 0 0 0 0 0 0 0 0.
End ReclamationStats.

Module Ledger.

(** The rows of [reclamations], keyed by node and drain time (as text). *)
Abbreviation t := (list Reclamation.t).

Definition at_ (r : Reclamation.t) : string := format_rfc3339nano (Reclamation.DrainedAt r).

Definition same_key (node : string) (drainedAt : time) (r : Reclamation.t) : bool :=
  (Reclamation.Node r =? node)%string && (at_ r =? format_rfc3339nano drainedAt)%string.

(** The inserted columns: no outcome yet. *)
Definition opened (r : Reclamation.t) : Reclamation.t :=
  Reclamation.mk (Reclamation.Node r) (Reclamation.DrainedAt r) (Reclamation.RunID r)
    (Reclamation.PlanID r) (Reclamation.Step r) None None (Reclamation.CPUMilli r)
    (Reclamation.MemBytes r) (Reclamation.InstanceType r) (Reclamation.CapacityType r)
    (Reclamation.External r).

Definition resolved (outcome : ReclamationOutcome) (now : time) (r : Reclamation.t) : Reclamation.t :=
  Reclamation.mk (Reclamation.Node r) (Reclamation.DrainedAt r) (Reclamation.RunID r)
    (Reclamation.PlanID r) (Reclamation.Step r) (Some now) (Some outcome) (Reclamation.CPUMilli r)
    (Reclamation.MemBytes r) (Reclamation.InstanceType r) (Reclamation.CapacityType r)
    (Reclamation.External r).

(** [ON CONFLICT (node, drained_at) DO NOTHING] *)
Definition RecordDrain (r : Reclamation.t) (s : t) : t :=
  if existsb (same_key (Reclamation.Node r) (Reclamation.DrainedAt r)) s then s else s ++ [opened r].

Definition before (a b : Reclamation.t) : bool := str_ltb (at_ a) (at_ b).

Definition PendingReclamations (s : t) : list Reclamation.t :=
  sort_by before (List.filter Reclamation.Pending s).

Definition Reclamations (limit : Z) (s : t) : list Reclamation.t :=
  take (RunStore.or_default limit 50) (sort_by (λ a b, before b a) s).

Definition ResolveReclamation (node : string) (drainedAt : time) (outcome : ReclamationOutcome)
    (now : time) (s : t) : option store_error * t :=
  let hit r := same_key node drainedAt r && Reclamation.Pending r in
  if existsb hit s then (None, (λ r, if hit r then resolved outcome now r else r) <$> s)
  else (Some ErrNotFound, s).

Definition median (d : list duration) : duration :=
  match d with
  | [] => 0
  | _ =>
      let d := sort_by Z.ltb d in
      let mid := Nat.div2 (length d) in
      if Nat.odd (length d) then nth mid d 0
      else Z.quot (int64_add (nth (mid - 1) d 0) (nth mid d 0)) 2
  end.

(** One row of the summary: the totals so far and the durations. *)
Definition tally (acc : ReclamationStats.t * list duration) (r : Reclamation.t) :
    ReclamationStats.t * list duration :=
  let '(o, ds) := acc in
  let gone := bool_decide (Reclamation.Outcome r = Some ReclaimedGone) in
  if Reclamation.External r then
    (if gone then ReclamationStats.mk (ReclamationStats.Awaiting o) (ReclamationStats.Reclaimed o)
       (ReclamationStats.Returned o) (ReclamationStats.MedianTime o)
       (ReclamationStats.ReclaimedCPUMilli o) (ReclamationStats.ReclaimedMemBytes o)
       (ReclamationStats.UncountedNodes o) (ReclamationStats.ExternallyReclaimed o + 1)
     else o, ds)
  else if gone then
    let counted := (0 <? Reclamation.CPUMilli r) || (0 <? Reclamation.MemBytes r) in
    let o := ReclamationStats.mk (ReclamationStats.Awaiting o) (ReclamationStats.Reclaimed o + 1)
       (ReclamationStats.Returned o) (ReclamationStats.MedianTime o)
       (if counted then int64_add (ReclamationStats.ReclaimedCPUMilli o) (Reclamation.CPUMilli r)
        else ReclamationStats.ReclaimedCPUMilli o)
       (if counted then int64_add (ReclamationStats.ReclaimedMemBytes o) (Reclamation.MemBytes r)
        else ReclamationStats.ReclaimedMemBytes o)
       (if counted then ReclamationStats.UncountedNodes o else ReclamationStats.UncountedNodes o + 1)
       (ReclamationStats.ExternallyReclaimed o) in
    (o, match Reclamation.ResolvedAt r with
        | Some at_ =>
            if negb (IsZeroTime (Reclamation.DrainedAt r)) && negb (IsZeroTime at_)
            then ds ++ [time_Sub at_ (Reclamation.DrainedAt r)] else ds
        | None => ds
        end)
  else if bool_decide (Reclamation.Outcome r = Some ReclaimedReturned) then
    (ReclamationStats.mk (ReclamationStats.Awaiting o) (ReclamationStats.Reclaimed o)
       (ReclamationStats.Returned o + 1) (ReclamationStats.MedianTime o)
       (ReclamationStats.ReclaimedCPUMilli o) (ReclamationStats.ReclaimedMemBytes o)
       (ReclamationStats.UncountedNodes o) (ReclamationStats.ExternallyReclaimed o), ds)
  else (o, ds).

(** [resolved_at >= cutoff], compared as text. *)
Definition since (cutoff : time) (r : Reclamation.t) : bool :=
  match Reclamation.ResolvedAt r with
  | None => false
  | Some at_ => negb (str_ltb (format_rfc3339nano at_) (format_rfc3339nano cutoff))
  end.

Definition ReclamationSummary (cutoff : time) (s : t) : ReclamationStats.t :=
  let awaiting := Z.of_nat (length (List.filter Reclamation.Pending s)) in
  let start := ReclamationStats.mk awaiting 0 0 0 0 0 0 0 in
  let '(o, ds) := fold_left tally (List.filter (since cutoff) s) (start, []) in
  ReclamationStats.mk (ReclamationStats.Awaiting o) (ReclamationStats.Reclaimed o)
    (ReclamationStats.Returned o) (median ds) (ReclamationStats.ReclaimedCPUMilli o)
    (ReclamationStats.ReclaimedMemBytes o) (ReclamationStats.UncountedNodes o)
    (ReclamationStats.ExternallyReclaimed o).

(** ** Operations in sequence *)

Inductive op : Type :=
| OpRecord (r : Reclamation.t)
| OpResolve (node : string) (drainedAt : time) (outcome : ReclamationOutcome) (now : time).

Definition apply (s : t) (o : op) : t :=
  match o with
  | OpRecord r => RecordDrain r s
  | OpResolve node at_ outcome now => (ResolveReclamation node at_ outcome now s).2
  end.

End Ledger.
