(* ===== verification/ReclaimProps.v ===== *)
(** * What reclamation tracking guarantees *)
From S2P Require Import Prelude GoLib GoTime Model Cluster Fixtures Store RunStore Reclaim.
Import Ledger.

(** ** Resolving *)

(** The node of that name that counts: the last one listed. *)
Definition last_named (nodes : list Node.t) (name : string) : option Node.t :=
  last (List.filter (λ n, (Node.Name n =? name)%string) nodes).

Lemma cordoned_map_lookup nodes name :
  cordoned_map nodes !! name = Node.Unschedulable <$> last_named nodes name.
Proof.
  unfold cordoned_map, last_named. rewrite <- (rev_involutive nodes). generalize (rev nodes). clear nodes.
  intros l. induction l as [|n l IH]; simpl; [apply lookup_empty|].
  rewrite fold_left_app, List.filter_app. simpl.
  destruct (String.eqb_spec (Node.Name n) name) as [<-|Hne].
  - rewrite lookup_insert, last_snoc. simpl. by rewrite decide_True.
  - rewrite lookup_insert_ne, app_nil_r by done. exact IH.
Qed.

(** A pending record is resolved exactly when its node is gone or back in
service: gone when the snapshot has no node of that name, with the time it
took; returned when it has one that is schedulable; and while the node is there
and cordoned, or once the record is resolved, nothing is reported. *)
Theorem resolve_iff pending snap now tr :
  tr ∈ Resolve pending (Some snap) now ↔
  ∃ r, r ∈ pending ∧ Reclamation.ResolvedAt r = None ∧
    match last_named (ClusterSnapshot.Nodes snap) (Reclamation.Node r) with
    | None => tr = Transition.mk r ReclaimedGone now (time_Sub now (Reclamation.DrainedAt r))
    | Some n => Node.Unschedulable n = false ∧ tr = Transition.mk r ReclaimedReturned now 0
    end.
Proof.
  assert (Heq : Resolve pending (Some snap) now =
    omap (resolve_one (cordoned_map (ClusterSnapshot.Nodes snap)) now) pending) by (by destruct pending).
  rewrite Heq, list_elem_of_omap. split; intros (r & Hr & H); exists r; (split; [done|]).
  - unfold resolve_one in H. rewrite cordoned_map_lookup in H. unfold Reclamation.Pending in H.
    case_bool_decide as Hp; [|done]. split; [done|]. simpl in H.
    destruct (last_named _ _) as [n|]; simpl in H; [|congruence].
    destruct (Node.Unschedulable n); [done|]. split; [done|congruence].
  - destruct H as [Hp H]. unfold resolve_one, Reclamation.Pending. rewrite cordoned_map_lookup, Hp. simpl.
    destruct (last_named _ _) as [n|]; simpl; [|by rewrite H]. destruct H as [-> ->]. done.
Qed.

(** ** One outcome per drain *)

Definition has_outcome (s : list Reclamation.t) (r : Reclamation.t) : Prop :=
  r ∈ s ∧ Reclamation.ResolvedAt r ≠ None.

Lemma apply_keeps s o r : has_outcome s r → has_outcome (apply s o) r.
Proof.
  intros [Hr Hp]. split; [|done]. destruct o as [q|node at_ out now]; simpl.
  - unfold RecordDrain. destruct (existsb _ _); [done|]. apply elem_of_app. by left.
  - unfold ResolveReclamation. destruct (existsb _ _); [|done]. simpl.
    apply list_elem_of_fmap. exists r. split; [|done]. unfold Reclamation.Pending.
    rewrite (bool_decide_eq_false_2 _ Hp), andb_false_r. done.
Qed.

(** Every drain is recorded once. *)
Definition keyed (s : list Reclamation.t) : Prop :=
  NoDup ((λ r, (Reclamation.Node r, at_ r)) <$> s).

Lemma apply_keyed s o : keyed s → keyed (apply s o).
Proof.
  unfold keyed. intros Hk. destruct o as [q|node at_' out now]; simpl.
  - unfold RecordDrain. destruct (existsb _ _) eqn:E; [done|]. rewrite fmap_app. apply NoDup_app.
    split_and!; [done| |apply NoDup_singleton].
    intros k (r & -> & Hr)%list_elem_of_fmap Hin%list_elem_of_singleton. injection Hin as Hn Ha.
    apply not_true_iff_false in E. apply E, existsb_elem. exists r. split; [done|].
    unfold same_key. rewrite Hn. unfold at_ in *. simpl in Ha. rewrite Ha.
    by rewrite !String.eqb_refl.
  - unfold ResolveReclamation. destruct (existsb _ _); [|done]. simpl. rewrite <- list_fmap_compose.
    erewrite list_fmap_ext; [exact Hk|]. intros i r _. simpl.
    by destruct (same_key node at_' r && Reclamation.Pending r).
Qed.

(** An outcome is observed once and never revised: whatever is recorded or
resolved afterwards, the record keeps its outcome, there is still one record per
node and drain time, and resolving it again reports that nothing was found. *)
Theorem outcome_never_revised s ops r :
  keyed s → has_outcome s r →
  let s' := fold_left apply ops s in
  r ∈ s' ∧ keyed s' ∧
  ∀ outcome now,
    ResolveReclamation (Reclamation.Node r) (Reclamation.DrainedAt r) outcome now s' = (Some ErrNotFound, s').
Proof.
  intros Hk Hr s'. assert (H : keyed s' ∧ has_outcome s' r).
  { unfold s'. clear s'. revert s Hk Hr. induction ops as [|o ops IH]; intros s Hk Hr; simpl; [done|].
    apply IH; [by apply apply_keyed|by apply apply_keeps]. }
  destruct H as [Hk' [Hin Hp]]. split_and!; [done..|]. intros outcome now. unfold ResolveReclamation.
  destruct (existsb _ s') eqn:E; [|done]. exfalso. apply existsb_elem in E as (q & Hq & Hh).
  unfold same_key in Hh. rewrite !andb_true_iff, !String.eqb_eq in Hh. destruct Hh as [[Hn Ha] Hqp].
  assert (q = r) as ->.
  { apply (fmap_unique _ _ q r Hk' Hq Hin). simpl. rewrite Hn. unfold at_ in *. by rewrite Ha. }
  unfold Reclamation.Pending in Hqp. by rewrite bool_decide_eq_true in Hqp.
Qed.

(** ** The ledger *)

Definition own_gone (r : Reclamation.t) : bool :=
  negb (Reclamation.External r) && bool_decide (Reclamation.Outcome r = Some ReclaimedGone).
Definition others_gone (r : Reclamation.t) : bool :=
  Reclamation.External r && bool_decide (Reclamation.Outcome r = Some ReclaimedGone).
Definition own_returned (r : Reclamation.t) : bool :=
  negb (Reclamation.External r) && bool_decide (Reclamation.Outcome r = Some ReclaimedReturned).
Definition measured (r : Reclamation.t) : bool :=
  (0 <? Reclamation.CPUMilli r) || (0 <? Reclamation.MemBytes r).

Definition countZ (f : Reclamation.t → bool) (l : list Reclamation.t) : Z :=
  Z.of_nat (length (List.filter f l)).
Definition sum64 (f : Reclamation.t → Z) (l : list Reclamation.t) : Z :=
  fold_left (λ a r, int64_add a (f r)) l 0.

Lemma tally_counts l o ds :
  let r := (fold_left tally l (o, ds)).1 in
  ReclamationStats.Awaiting r = ReclamationStats.Awaiting o ∧
  ReclamationStats.Reclaimed r = ReclamationStats.Reclaimed o + countZ own_gone l ∧
  ReclamationStats.Returned r = ReclamationStats.Returned o + countZ own_returned l ∧
  ReclamationStats.ExternallyReclaimed r = ReclamationStats.ExternallyReclaimed o + countZ others_gone l ∧
  ReclamationStats.UncountedNodes r =
    ReclamationStats.UncountedNodes o + countZ (λ r, own_gone r && negb (measured r)) l ∧
  ReclamationStats.ReclaimedCPUMilli r =
    fold_left (λ a r, int64_add a (Reclamation.CPUMilli r))
      (List.filter (λ r, own_gone r && measured r) l) (ReclamationStats.ReclaimedCPUMilli o) ∧
  ReclamationStats.ReclaimedMemBytes r =
    fold_left (λ a r, int64_add a (Reclamation.MemBytes r))
      (List.filter (λ r, own_gone r && measured r) l) (ReclamationStats.ReclaimedMemBytes o).
Proof.
  revert o ds. induction l as [|x l IH]; intros o ds; cbn [fold_left].
  { unfold countZ. simpl. split_and!; try done; lia. }
  destruct (tally (o, ds) x) as [o' ds'] eqn:Ht. specialize (IH o' ds'). cbn zeta in IH |- *.
  destruct IH as (-> & -> & -> & -> & -> & -> & ->).
  unfold countZ. cbn [List.filter].
  unfold tally, own_gone, others_gone, own_returned, measured in *.
  destruct (Reclamation.External x); cbn [negb andb] in *.
  - case_bool_decide; injection Ht as <- <-; cbn; split_and!; try done; lia.
  - case_bool_decide as Hg; [rewrite (bool_decide_eq_false_2 (Reclamation.Outcome x = Some ReclaimedReturned)) by congruence|
      case_bool_decide]; injection Ht as <- <-; cbn;
      try destruct ((0 <? Reclamation.CPUMilli x) || (0 <? Reclamation.MemBytes x)); cbn;
      split_and!; try done; lia.
Qed.

(** The savings ledger claims exactly what this product's drains returned:
over the records resolved since the cutoff, the nodes reclaimed and the nodes
put back are counted apart, someone else's reclamations count only in their own
column, and the capacity is the sum of what was measured at drain time. *)
Theorem ledger_counts_own cutoff s :
  let rows := List.filter (since cutoff) s in
  let o := ReclamationSummary cutoff s in
  ReclamationStats.Awaiting o = countZ Reclamation.Pending s ∧
  ReclamationStats.Reclaimed o = countZ own_gone rows ∧
  ReclamationStats.Returned o = countZ own_returned rows ∧
  ReclamationStats.ExternallyReclaimed o = countZ others_gone rows ∧
  ReclamationStats.UncountedNodes o = countZ (λ r, own_gone r && negb (measured r)) rows ∧
  ReclamationStats.ReclaimedCPUMilli o =
    sum64 Reclamation.CPUMilli (List.filter (λ r, own_gone r && measured r) rows) ∧
  ReclamationStats.ReclaimedMemBytes o =
    sum64 Reclamation.MemBytes (List.filter (λ r, own_gone r && measured r) rows).
Proof.
  intros rows o. unfold o, ReclamationSummary. fold rows.
  pose proof (tally_counts rows
    (ReclamationStats.mk (Z.of_nat (length (List.filter Reclamation.Pending s))) 0 0 0 0 0 0 0) []) as Ht.
  cbn zeta in Ht. destruct (fold_left tally rows _) as [o' ds]. exact Ht.
Qed.

(** ** Witnesses *)

Definition ex_reclamation (resolved : option time) : Reclamation.t :=
  Reclamation.mk "a" 1000 "r1" "p1" 1 resolved ((λ _, ReclaimedGone) <$> resolved)
    4000 8000000 "" "" false.

Lemma outcome_never_revised_witness :
  ex_reclamation (Some 2000) ∈
    fold_left apply [OpRecord (ex_reclamation None); OpResolve "a" 1000 ReclaimedReturned 3000]
      [ex_reclamation (Some 2000)].
Proof.
  apply (outcome_never_revised [ex_reclamation (Some 2000)]
    [OpRecord (ex_reclamation None); OpResolve "a" 1000 ReclaimedReturned 3000]).
  - unfold keyed. apply NoDup_singleton.
  - split; [by left|done].
Defined.
