(* ===== verification/PlanStore.v ===== *)
(** * The plan history (internal/store/store.go, store/sqlstore/sqlstore.go)

The [plans] and [plan_steps] tables and the statements on them.  As in
[RunStore], a statement is atomic, the rows of one [Save] are inserted in one
transaction, columns hold the decoded values and times are compared as text. *)
From S2P Require Import Prelude GoLib Float64 GoTime Cluster Analyzer Store RunStore.

Module Record.

(** The pointers of a record may be nil, except the plan: [Save] refuses a nil
plan before it does anything, and no other function is given one. *)
Record t : Type := mk {
  Plan : Plan.t;
  Snapshot : option ClusterSnapshot.t;
  Analysis : option Analysis.t;
  Strategy : string;
  StoredAt : time;
}.

End Record.

Module Summary.
Record t : Type := mk {
  ID : string;
  GeneratedAt : time;
  SnapshotTakenAt : time;
  Status : PlanStatus;
  Strategy : string;
  Steps : Z;
  NodesBefore : Z;
  NodesAfter : Z;
  Green : Z; Yellow : Z; Red : Z;
  StoredAt : time;
}.
End Summary.

Module PlanStore.

(** A row of [plans]. *)
Record row : Type := mk_row {
  id : string;
  generated_at : time;
  snapshot_taken_at : time;
  status : PlanStatus;
  strategy : string;
  nodes_before : Z;
  nodes_after : Z;
  pack_ceiling : float64;
  snapshot : option ClusterSnapshot.t;
  analysis : option Analysis.t;
  stored_at : time;
  seq : Z;
}.

(** A row of [plan_steps]: the plan it belongs to, and the step. *)
Definition step_row : Type := string * PlanStep.t.

Record t : Type := mk { plans : list row; plan_steps : list step_row }.

Definition empty : t := mk [] [].

Definition id_is (i : string) (r : row) : bool := (id r =? i)%string.

Definition stored (r : row) : string := format_rfc3339nano (stored_at r).

(** [ORDER BY stored_at DESC, seq DESC] *)
Definition newer (a b : row) : bool :=
  text_order (stored b, seq b) (stored a, seq a).

Definition newest_first (rs : list row) : list row := sort_by newer rs.

Definition latest (s : t) : option row := head (newest_first (plans s)).

(** ** Save *)

(** The columns that confirm a plan, and the snapshot when it was measured. *)
Definition touch (rec : Record.t) (storedAt : time) (r : row) : row :=
  let p := Record.Plan rec in
  let measured := match Record.Snapshot rec with
                  | Some snap => ClusterSnapshot.HasUsageData snap
                  | None => false
                  end in
  mk_row (id r) (generated_at r) (snapshot_taken_at r) (status r) (strategy r)
    (Plan.NodesBefore p) (Plan.NodesAfter p) (Plan.PackCeiling p)
    (if measured then Record.Snapshot rec else snapshot r) (analysis r) storedAt (seq r).

(** One step of [refreshStepText]: what the step says, not what it does. *)
Definition reword (planID : string) (rows : list step_row) (step : PlanStep.t) : list step_row :=
  (λ sr : step_row,
     if (sr.1 =? planID)%string && (PlanStep.SequenceNumber sr.2 =? PlanStep.SequenceNumber step)
     then (sr.1, PlanStep.set_rating (PlanStep.Impact step) (PlanStep.Rationale step)
                   (PlanStep.Reasons step) sr.2)
     else sr) <$> rows.

Definition refreshStepText (p : Plan.t) (rows : list step_row) : list step_row :=
  fold_left (reword (Plan.ID p)) (Plan.Steps p) rows.

(** The blob of an analysis has its exported fields only: the index is gone. *)
Definition encoded (a : option Analysis.t) : option Analysis.t :=
  (λ a, Analysis.mk (Analysis.TakenAt a) (Analysis.Pods a) None) <$> a.

Definition max_seq (rs : list row) : Z := foldr (λ r m, Z.max (seq r) m) 0 rs.

Definition inserted (rec : Record.t) (storedAt : time) (n : Z) : row :=
  let p := Record.Plan rec in
  mk_row (Plan.ID p) (Plan.GeneratedAt p) (Plan.SnapshotTakenAt p) (Plan.Status p)
    (Record.Strategy rec) (Plan.NodesBefore p) (Plan.NodesAfter p) (Plan.PackCeiling p)
    (Record.Snapshot rec) (encoded (Record.Analysis rec)) storedAt n.

(** [ON CONFLICT(id) DO UPDATE SET]: the columns of the old row that it names
take the values of the new one. *)
Definition replaced (new old : row) : row :=
  mk_row (id old) (generated_at new) (snapshot_taken_at old) (status new) (strategy old)
    (nodes_before old) (nodes_after old) (pack_ceiling new) (snapshot new) (analysis new)
    (stored_at new) (seq new).

Definition upsert (new : row) (rs : list row) : list row :=
  if existsb (id_is (id new)) rs then (λ r, if id_is (id new) r then replaced new r else r) <$> rs
  else rs ++ [new].

Definition of_plan (i : string) (sr : step_row) : bool := (sr.1 =? i)%string.

(** [(plan_id, sequence_number)] is the primary key of [plan_steps]. *)
Definition distinct_steps (p : Plan.t) : bool := bool_decide (NoDup (PlanStep.SequenceNumber <$> Plan.Steps p)).

(** [id = (SELECT id FROM plans ORDER BY stored_at DESC, seq DESC LIMIT 1)] *)
Definition is_latest (i : string) (s : t) : bool :=
  match latest s with Some r => id_is i r | None => false end.

(** The result tells whether the plan is new. *)
Definition Save (now : time) (rec : Record.t) (s : t) : res bool * t :=
  let p := Record.Plan rec in
  let storedAt := if IsZeroTime (Record.StoredAt rec) then now else Record.StoredAt rec in
  if is_latest (Plan.ID p) s then
    (inr false,
     mk ((λ r, if id_is (Plan.ID p) r then touch rec storedAt r else r) <$> plans s)
        (refreshStepText p (plan_steps s)))
  else if distinct_steps p then
    (inr true,
     mk (upsert (inserted rec storedAt (max_seq (plans s) + 1)) (plans s))
        (List.filter (λ sr, negb (of_plan (Plan.ID p) sr)) (plan_steps s) ++
         ((Plan.ID p,.) <$> Plan.Steps p)))
  else (inl (Failed "insert step"), s).

(** ** Reading *)

(** [ORDER BY sequence_number] *)
Definition stepsFor (i : string) (s : t) : list PlanStep.t :=
  sort_by (λ a b, PlanStep.SequenceNumber a <? PlanStep.SequenceNumber b)
    (snd <$> List.filter (of_plan i) (plan_steps s)).

(** No column holds [AlreadyReclaimable]. *)
Definition read_row (s : t) (r : row) : Record.t :=
  Record.mk
    (Plan.mk (id r) (generated_at r) (status r) (snapshot_taken_at r) (stepsFor (id r) s)
       (nodes_before r) (nodes_after r) 0 (pack_ceiling r))
    (snapshot r) (analysis r) (strategy r) (stored_at r).

Definition ByID (i : string) (s : t) : res Record.t :=
  match List.find (id_is i) (plans s) with
  | Some r => inr (read_row s r)
  | None => inl ErrNotFound
  end.

Definition Latest (s : t) : res Record.t :=
  match latest s with
  | Some r => ByID (id r) s
  | None => inl ErrNotFound
  end.

Definition rated (i : string) (rating : ImpactRating) (s : t) : Z :=
  Z.of_nat (length (List.filter (λ sr : step_row, of_plan i sr && bool_decide (PlanStep.Impact sr.2 = rating))
                      (plan_steps s))).

Definition summary (s : t) (r : row) : Summary.t :=
  Summary.mk (id r) (generated_at r) (snapshot_taken_at r) (status r) (strategy r)
    (Z.of_nat (length (List.filter (of_plan (id r)) (plan_steps s))))
    (nodes_before r) (nodes_after r)
    (rated (id r) ImpactGreen s) (rated (id r) ImpactYellow s) (rated (id r) ImpactRed s) (stored_at r).

Definition List (limit : Z) (s : t) : list Summary.t :=
  summary s <$> take (RunStore.or_default limit 50) (newest_first (plans s)).

(** ** Prune *)

Definition executed (runs : RunStore.t) (i : string) : bool :=
  existsb (λ r, (Run.PlanID (RunStore.run r) =? i)%string) (RunStore.rows runs).

Definition kept (keep : Z) (runs : RunStore.t) (s : t) (r : row) : bool :=
  existsb (id_is (id r)) (take (Z.to_nat keep) (newest_first (plans s))) || executed runs (id r).

(** Steps go with their plan: [ON DELETE CASCADE]. *)
Definition Prune (keep : Z) (runs : RunStore.t) (s : t) : Z * t :=
  if keep <=? 0 then (0, s)
  else
    let gone := List.filter (λ r, negb (kept keep runs s r)) (plans s) in
    (Z.of_nat (length gone),
     mk (List.filter (kept keep runs s) (plans s))
        (List.filter (λ sr : step_row, negb (existsb (id_is sr.1) gone)) (plan_steps s))).

End PlanStore.
