(* ===== verification/PlanStoreProps.v ===== *)
(** * What the plan history guarantees *)
From S2P Require Import Prelude GoLib Float64 GoTime Cluster Analyzer Store RunStore RunStoreProps PlanStore.
Import PlanStore.

(** ** The newest row *)

Lemma newer_asym a b : newer a b = true → newer b a = false.
Proof. apply text_order_asym. Qed.

Lemma newer_irrefl a : newer a a = false.
Proof. destruct (newer a a) eqn:E; [|done]. by rewrite (newer_asym _ _ E) in E. Qed.

Lemma newer_trans a b c : newer b a = false → newer c b = false → newer c a = false.
Proof. unfold newer. intros H1 H2. by eapply text_order_trans. Qed.

Lemma latest_spec s :
  match latest s with
  | None => plans s = []
  | Some r => r ∈ plans s ∧ ∀ x, x ∈ plans s → newer x r = false
  end.
Proof.
  unfold latest, newest_first.
  pose proof (sort_by_head newer (plans s) newer_asym (λ a b c _ _ _, newer_trans a b c)) as Hh.
  by destruct (sort_by newer (plans s)).
Qed.

(** ** The schema *)

(** The primary keys, the uniqueness of the order column, and the foreign key. *)
Record wf (s : t) : Prop := {
  wf_ids : NoDup (id <$> plans s);
  wf_seqs : NoDup (seq <$> plans s);
  wf_steps : NoDup ((λ sr : step_row, (sr.1, PlanStep.SequenceNumber sr.2)) <$> plan_steps s);
  wf_owner : ∀ sr, sr ∈ plan_steps s → sr.1 ∈ id <$> plans s;
}.

(** A row that none beats is the latest. *)
Lemma latest_is s r :
  wf s → r ∈ plans s → (∀ x, x ∈ plans s → newer x r = false) → latest s = Some r.
Proof.
  intros Hw Hin Hr. pose proof (latest_spec s) as Hl. destruct (latest s) as [h|].
  - destruct Hl as [Hh Hall]. f_equal. unfold newer in *.
    pose proof (text_order_total _ _ (Hr h Hh) (Hall r Hin)) as [= _ Hq].
    by eapply (fmap_unique seq); [apply wf_seqs|..].
  - rewrite Hl in Hin. by apply elem_of_nil in Hin.
Qed.

Lemma max_seq_above rs r : r ∈ rs → seq r <= max_seq rs.
Proof.
  unfold max_seq. induction rs as [|x rs IH]; [by intros ?%elem_of_nil|]. cbn.
  intros [->|Hin]%elem_of_cons; [lia|]. specialize (IH Hin). lia.
Qed.

Lemma upsert_ids new rs :
  id <$> upsert new rs = if existsb (id_is (id new)) rs then id <$> rs else (id <$> rs) ++ [id new].
Proof.
  unfold upsert. destruct (existsb _ _); [|by rewrite fmap_app].
  rewrite <- list_fmap_compose. apply list_fmap_ext. intros i r _. simpl.
  by destruct (id_is (id new) r).
Qed.

Lemma exists_id i rs : existsb (id_is i) rs = true ↔ i ∈ id <$> rs.
Proof.
  rewrite existsb_elem, list_elem_of_fmap. unfold id_is.
  setoid_rewrite String.eqb_eq. split; intros (r & ? & ?); exists r; [by subst|done].
Qed.

Lemma find_row i rs r :
  NoDup (id <$> rs) → r ∈ rs → id r = i → List.find (id_is i) rs = Some r.
Proof.
  intros Hnd Hin Hid. destruct (List.find (id_is i) rs) as [x|] eqn:Hf.
  - apply List.find_some in Hf as [Hx E]. apply String.eqb_eq in E. apply list_elem_of_In in Hx.
    f_equal. eapply (fmap_unique id); [done..|]. congruence.
  - apply list_elem_of_In in Hin. pose proof (List.find_none _ _ Hf r Hin) as Hn.
    by apply String.eqb_neq in Hn.
Qed.



(** *** Rewording *)

(** What [refreshStepText] leaves of one row. *)
Definition reworded (i : string) (steps : list PlanStep.t) (sr : step_row) : step_row :=
  fold_left (λ sr step,
    if (sr.1 =? i)%string && (PlanStep.SequenceNumber sr.2 =? PlanStep.SequenceNumber step)
    then (sr.1, PlanStep.set_rating (PlanStep.Impact step) (PlanStep.Rationale step)
                  (PlanStep.Reasons step) sr.2)
    else sr) steps sr.

Lemma refresh_rows p rows : refreshStepText p rows = reworded (Plan.ID p) (Plan.Steps p) <$> rows.
Proof.
  unfold refreshStepText, reworded. generalize (Plan.Steps p) as steps. intros steps.
  revert rows. induction steps as [|st steps IH]; intros rows; cbn [fold_left].
  { by rewrite list_fmap_id. }
  rewrite IH. unfold reword. by rewrite <- list_fmap_compose.
Qed.

Lemma reworded_key i steps sr :
  (reworded i steps sr).1 = sr.1 ∧
  PlanStep.SequenceNumber (reworded i steps sr).2 = PlanStep.SequenceNumber sr.2.
Proof.
  unfold reworded. revert sr. induction steps as [|st steps IH]; intros sr; cbn [fold_left]; [done|].
  destruct (_ && _); [|apply IH]. destruct (IH (sr.1, PlanStep.set_rating (PlanStep.Impact st)
    (PlanStep.Rationale st) (PlanStep.Reasons st) sr.2)) as [-> ->]. done.
Qed.

Lemma reworded_other i steps sr : sr.1 ≠ i → reworded i steps sr = sr.
Proof.
  intros Hi. unfold reworded. revert sr Hi. induction steps as [|st steps IH]; intros sr Hi; cbn [fold_left]; [done|].
  rewrite (proj2 (String.eqb_neq _ _) Hi). cbn [andb]. by apply IH.
Qed.

(** ** Every operation keeps the schema *)

Lemma upsert_keys new rs :
  NoDup (id <$> rs) → NoDup (seq <$> rs) → (∀ r, r ∈ rs → seq r ≠ seq new) →
  NoDup (id <$> upsert new rs) ∧ NoDup (seq <$> upsert new rs).
Proof.
  intros Hi Hq Hfresh. split.
  { rewrite upsert_ids. destruct (existsb _ _) eqn:E; [done|]. apply NoDup_app.
    split_and!; [done| |apply NoDup_singleton].
    intros i Hin ->%list_elem_of_singleton. apply exists_id in Hin. congruence. }
  unfold upsert. generalize (id new) as i. intros i. destruct (existsb _ _).
  - induction rs as [|r rs IH]; [constructor|]. cbn in *.
    apply NoDup_cons in Hi as [Hri Hi], Hq as [Hrq Hq]. apply NoDup_cons. split.
    + intros (x & Hx & (y & -> & Hy)%list_elem_of_fmap)%list_elem_of_fmap.
      destruct (id_is i r) eqn:Er, (id_is i y) eqn:Ey; unfold id_is in *; cbn in Hx.
      * apply String.eqb_eq in Er, Ey. apply Hri, list_elem_of_fmap. exists y. by split; [congruence|].
      * by apply (Hfresh y); [by right|].
      * by apply (Hfresh r); [by left|].
      * apply Hrq, list_elem_of_fmap. by exists y.
    + apply IH; [done..|]. intros x Hx. apply Hfresh. by right.
  - rewrite fmap_app. apply NoDup_app. split_and!; [done| |apply NoDup_singleton].
    intros q (r & -> & Hr)%list_elem_of_fmap Hq'%list_elem_of_singleton. by eapply Hfresh.
Qed.

Lemma new_steps_keys i steps rows :
  NoDup ((λ sr : step_row, (sr.1, PlanStep.SequenceNumber sr.2)) <$> rows) →
  NoDup (PlanStep.SequenceNumber <$> steps) →
  NoDup ((λ sr : step_row, (sr.1, PlanStep.SequenceNumber sr.2)) <$>
    List.filter (λ sr, negb (of_plan i sr)) rows ++ ((i,.) <$> steps)).
Proof.
  intros Hs Hd. rewrite fmap_app. apply NoDup_app. split_and!; [by apply NoDup_filter_list| |].
  - intros k (sr & -> & [_ Hsr]%filter_elem)%list_elem_of_fmap (x & Hx & (st & -> & _)%list_elem_of_fmap)%list_elem_of_fmap.
    unfold of_plan in Hsr. injection Hx as Hx _. by rewrite (proj2 (String.eqb_eq _ _) Hx) in Hsr.
  - rewrite <- list_fmap_compose.
    assert (Hc : (i,.) <$> (PlanStep.SequenceNumber <$> steps) =
      ((λ sr : step_row, (sr.1, PlanStep.SequenceNumber sr.2)) ∘ (i,.)) <$> steps).
    { by rewrite <- list_fmap_compose. }
    rewrite <- Hc. apply NoDup_fmap; [|done]. by intros ?? [=].
Qed.

(** Touching rows changes neither of their keys. *)
Lemma touched_keys {B} (g : row → B) i rec storedAt (rs : list row) :
  (∀ r, g (touch rec storedAt r) = g r) →
  g <$> ((λ r, if id_is i r then touch rec storedAt r else r) <$> rs) = g <$> rs.
Proof.
  intros Hg. rewrite <- list_fmap_compose. apply list_fmap_ext. intros k r _. simpl.
  by destruct (id_is _ _); [apply Hg|].
Qed.

Lemma Save_wf now rec s : wf s → wf (Save now rec s).2.
Proof.
  intros [Hi Hq Hs Ho]. unfold Save. cbn zeta.
  set (storedAt := if IsZeroTime (Record.StoredAt rec) then now else Record.StoredAt rec).
  set (p := Record.Plan rec). destruct (is_latest (Plan.ID p) s).
  - rewrite refresh_rows. constructor; cbn [plans plan_steps snd].
    1, 2: by rewrite touched_keys.
    + rewrite <- list_fmap_compose. erewrite list_fmap_ext; [exact Hs|]. intros k sr _. simpl.
      by destruct (reworded_key (Plan.ID p) (Plan.Steps p) sr) as [-> ->].
    + rewrite touched_keys by done. intros sr (sr0 & -> & Hin)%list_elem_of_fmap.
      rewrite (proj1 (reworded_key _ _ _)). by apply Ho.
  - destruct (distinct_steps p) eqn:Hd; [|by constructor].
    set (new := inserted rec storedAt (max_seq (plans s) + 1)).
    destruct (upsert_keys new (plans s)) as [Hni Hnq]; [done..| |].
    { intros r Hr%max_seq_above. cbn. lia. }
    constructor; cbn [plans plan_steps snd]; [done..| |].
    + apply new_steps_keys; [done|]. by apply bool_decide_eq_true in Hd.
    + assert (Hsub : ∀ i, i = id new ∨ i ∈ id <$> plans s → i ∈ id <$> upsert new (plans s)).
      { intros i Hin. rewrite upsert_ids. destruct (existsb _ _) eqn:E; [|rewrite elem_of_app, list_elem_of_singleton; tauto].
        destruct Hin as [->|?]; [by apply exists_id|done]. }
      intros sr [[Hin _]%filter_elem|(st & -> & _)%list_elem_of_fmap]%elem_of_app; apply Hsub; [|by left].
      right. by apply Ho.
Qed.

Lemma Prune_wf keep runs s : wf s → wf (Prune keep runs s).2.
Proof.
  intros [Hi Hq Hs Ho]. unfold Prune. destruct (keep <=? 0); [by constructor|]. cbn [snd].
  constructor; cbn [plans plan_steps]; [by apply NoDup_filter_list..|].
  intros sr [Hin Hg]%filter_elem. destruct (proj1 (list_elem_of_fmap _ _ _) (Ho sr Hin)) as (r & Hr & Hrin).
  rewrite Hr. apply list_elem_of_fmap. exists r. split; [done|]. apply filter_elem. split; [done|].
  apply negb_true_iff in Hg. apply not_false_iff_true. intros Hk. apply not_true_iff_false in Hg. apply Hg.
  apply existsb_elem. exists r. split; [apply filter_elem; by rewrite Hk|]. by apply String.eqb_eq.
Qed.

Inductive op : Type :=
| OpSave (now : time) (rec : Record.t)
| OpPrune (keep : Z) (runs : RunStore.t).

Definition apply (o : op) (s : t) : t :=
  match o with
  | OpSave now rec => (Save now rec s).2
  | OpPrune keep runs => (Prune keep runs s).2
  end.

(** C27: whatever is saved and pruned, in any order, the history keeps its schema: a
plan and an order number occur once, a step of a plan is numbered once, and no
step is left without its plan. *)
Theorem history_well_formed ops : wf (fold_left (λ s o, apply o s) ops empty).
Proof.
  assert (H0 : wf empty) by (constructor; [constructor..|by intros ? ?%elem_of_nil]).
  revert H0. generalize empty as s. induction ops as [|o ops IH]; intros s Hs; [done|]. cbn.
  apply IH. destruct o; [by apply Save_wf|by apply Prune_wf].
Qed.

(** ** Reading back *)

(** The moment the store stamps a record with. *)
Definition stamp (now : time) (rec : Record.t) : time :=
  if IsZeroTime (Record.StoredAt rec) then now else Record.StoredAt rec.

(** The clock has not gone back, as the text of the column orders it. *)
Definition current (now : time) (rec : Record.t) (s : t) : Prop :=
  ∀ r, r ∈ plans s → str_ltb (format_rfc3339nano (stamp now rec)) (stored r) = false.

(** The steps of a plan are in the order of their numbers. *)
Definition ascending (p : Plan.t) : Prop :=
  Sorted (λ a b, PlanStep.SequenceNumber a < PlanStep.SequenceNumber b) (Plan.Steps p).



Lemma ascending_distinct p : ascending p → distinct_steps p = true.
Proof.
  intros Ha. apply bool_decide_eq_true. unfold ascending in Ha.
  apply Sorted_StronglySorted in Ha; [|by intros ?????; etrans].
  induction Ha as [|x l Hl IH Hall]; [constructor|]. cbn. apply NoDup_cons. split; [|done].
  intros (y & E & Hy)%list_elem_of_fmap. rewrite Forall_forall in Hall. specialize (Hall y Hy). cbn in *. lia.
Qed.



Lemma Latest_spec s : wf s → Latest s = match latest s with Some r => inr (read_row s r) | None => inl ErrNotFound end.
Proof.
  intros Hw. unfold Latest, ByID. pose proof (latest_spec s) as Hl. destruct (latest s) as [r|]; [|done].
  by rewrite (find_row _ _ r); [|by apply wf_ids|by apply Hl|].
Qed.

(** The clock is ahead of every stamp, as text. *)
Definition ahead (now : time) (rec : Record.t) (s : t) : Prop :=
  ∀ r, r ∈ plans s → str_ltb (stored r) (format_rfc3339nano (stamp now rec)) = true.

Lemma ahead_newest now rec s r x :
  ahead now rec s → stored r = format_rfc3339nano (stamp now rec) → x ∈ plans s → newer x r = false.
Proof.
  intros Ha Hr Hx. specialize (Ha x Hx). unfold newer, text_order. cbn. rewrite Hr. apply orb_false_iff. split.
  - by apply str_ltb_asym.
  - apply andb_false_iff. left. apply String.eqb_neq. intros E. rewrite E in Ha.
    pose proof (str_ltb_asym _ _ Ha) as Hb. congruence.
Qed.

(** What is saved is the latest from then on, whether or not it was known. *)
Lemma Save_latest now rec s :
  wf s → distinct_steps (Record.Plan rec) = true → ahead now rec s →
  ∃ r, latest (Save now rec s).2 = Some r ∧ id r = Plan.ID (Record.Plan rec) ∧ stored_at r = stamp now rec ∧
    (Save now rec s).1 = inr (negb (is_latest (Plan.ID (Record.Plan rec)) s)).
Proof.
  intros Hw Hd Ha. pose proof (Save_wf now rec s Hw) as Hw'. set (p := Record.Plan rec) in *.
  revert Hw'. unfold Save. cbn zeta. fold p (stamp now rec).
  destruct (is_latest (Plan.ID p) s) eqn:Hl; [|rewrite Hd]; cbn [fst snd negb]; intros Hw'.
  - unfold is_latest in Hl. pose proof (latest_spec s) as Hs. destruct (latest s) as [r|]; [|done].
    apply String.eqb_eq in Hl. destruct Hs as [Hin _]. exists (touch rec (stamp now rec) r). split_and!; [|done..].
    apply latest_is; [done| |]; cbn [plans].
    + apply list_elem_of_fmap. exists r. split; [|done]. unfold id_is. by rewrite (proj2 (String.eqb_eq _ _) Hl).
    + intros x (y & -> & Hy)%list_elem_of_fmap. destruct (String.eqb_spec (id y) (Plan.ID p)) as [E|E]; unfold id_is.
      * rewrite (proj2 (String.eqb_eq _ _) E). assert (y = r) as -> by (eapply (fmap_unique id (plans s)); [apply wf_ids| | |]; congruence || done).
        apply newer_irrefl.
      * rewrite (proj2 (String.eqb_neq _ _) E). by eapply ahead_newest.
  - set (new := inserted rec (stamp now rec) (max_seq (plans s) + 1)) in *.
    assert (Hr : ∃ r, r ∈ upsert new (plans s) ∧ id r = Plan.ID p ∧ stored_at r = stamp now rec ∧
      ∀ x, x ∈ upsert new (plans s) → x = r ∨ x ∈ plans s).
    { unfold upsert. destruct (existsb _ _) eqn:E.
      - apply exists_id, list_elem_of_fmap in E as (o & Ho & Hino). exists (replaced new o). split_and!; [|done..|].
        + apply list_elem_of_fmap. exists o. split; [|done]. unfold id_is. by rewrite Ho, String.eqb_refl.
        + intros x (y & -> & Hy)%list_elem_of_fmap. unfold id_is. destruct (String.eqb_spec (id y) (id new)) as [Ey|]; [left|by right].
          f_equal. eapply (fmap_unique id (plans s)); [apply wf_ids| | |]; congruence || done.
      - exists new. split_and!; [apply elem_of_app; right; by left|done|done|].
        intros x [?|?%list_elem_of_singleton]%elem_of_app; auto. }
    destruct Hr as (r & Hin & Hid & Hst & Hall). exists r. split_and!; [|done..]. apply latest_is; [done|done|].
    intros x Hx. destruct (Hall x Hx) as [->|?]; [apply newer_irrefl|]. eapply ahead_newest; [done| |done].
    unfold stored. by rewrite Hst.
Qed.


(** *** Confirming *)

(** Two steps do the same: all but the wording and the rating. *)
Definition same_action (a b : PlanStep.t) : Prop :=
  PlanStep.ID a = PlanStep.ID b ∧ PlanStep.SequenceNumber a = PlanStep.SequenceNumber b ∧
  PlanStep.TargetNode a = PlanStep.TargetNode b ∧ PlanStep.Moves a = PlanStep.Moves b.

Lemma reworded_step i steps st :
  NoDup (PlanStep.SequenceNumber <$> steps) → st ∈ steps → ∀ old, same_action old st →
  reworded i steps (i, old) = (i, st).
Proof.
  intros Hnd Hin old (H1 & H2 & H3 & H4).
  assert (Hcons : ∀ x l o, reworded i (x :: l) (i, o) = reworded i l
      (if PlanStep.SequenceNumber o =? PlanStep.SequenceNumber x
       then (i, PlanStep.set_rating (PlanStep.Impact x) (PlanStep.Rationale x) (PlanStep.Reasons x) o)
       else (i, o))).
  { intros x l o. unfold reworded. cbn [fold_left fst snd]. by rewrite String.eqb_refl. }
  assert (Hskip : ∀ l x, PlanStep.SequenceNumber x ∉ PlanStep.SequenceNumber <$> l → reworded i l (i, x) = (i, x)).
  { induction l as [|y l IH]; intros x Hx; [done|]. cbn in Hx.
    apply not_elem_of_cons in Hx as [Hxy Hx]. rewrite Hcons, (proj2 (Z.eqb_neq _ _) Hxy). by apply IH. }
  revert Hnd Hin. induction steps as [|x steps IH]; intros Hnd Hin; [by apply elem_of_nil in Hin|].
  cbn in Hnd. apply NoDup_cons in Hnd as [Hx Hnd]. rewrite Hcons.
  apply elem_of_cons in Hin as [<-|Hin].
  - rewrite (proj2 (Z.eqb_eq _ _) H2). rewrite Hskip; [|by cbn; rewrite H2].
    f_equal. destruct st, old; cbn in *. by subst.
  - destruct (Z.eqb_spec (PlanStep.SequenceNumber old) (PlanStep.SequenceNumber x)) as [E|_]; [|by apply IH].
    destruct Hx. rewrite <- E, H2. apply list_elem_of_fmap. by exists st.
Qed.

(** The steps of the plan after its rows were reworded. *)
Lemma reworded_steps i steps s ps :
  stepsFor i (mk ps (reworded i steps <$> plan_steps s)) =
  (λ st, (reworded i steps (i, st)).2) <$> stepsFor i s.
Proof.
  unfold stepsFor. cbn [plan_steps].
  assert (Hf : List.filter (of_plan i) (reworded i steps <$> plan_steps s) =
    reworded i steps <$> List.filter (of_plan i) (plan_steps s)).
  { induction (plan_steps s) as [|sr rows IH]; [done|]. cbn.
    assert (E : of_plan i (reworded i steps sr) = of_plan i sr).
    { unfold of_plan. by rewrite (proj1 (reworded_key _ _ _)). }
    rewrite E. destruct (of_plan i sr); [|done]. cbn. by rewrite IH. }
  set (less a b := PlanStep.SequenceNumber a <? PlanStep.SequenceNumber b).
  rewrite Hf, <- (sort_by_fmap less less).
  - f_equal. rewrite <- !list_fmap_compose. apply list_fmap_ext. intros k sr Hk. cbn.
    apply list_elem_of_lookup_2, filter_elem in Hk as [_ Hk%String.eqb_eq]. destruct sr as [j st]. cbn in *. by subst.
  - intros a b. unfold less. destruct (reworded_key i steps (i, a)) as [_ ->]. by destruct (reworded_key i steps (i, b)) as [_ ->].
Qed.

(** The record a confirmation leaves. *)
Definition confirmed (at_ : time) (rec old : Record.t) : Record.t :=
  let p := Record.Plan rec in
  let q := Record.Plan old in
  Record.mk
    (Plan.mk (Plan.ID q) (Plan.GeneratedAt q) (Plan.Status q) (Plan.SnapshotTakenAt q) (Plan.Steps p)
       (Plan.NodesBefore p) (Plan.NodesAfter p) 0 (Plan.PackCeiling p))
    (if match Record.Snapshot rec with Some snap => ClusterSnapshot.HasUsageData snap | None => false end
     then Record.Snapshot rec else Record.Snapshot old)
    (Record.Analysis old) (Record.Strategy old) at_.

Lemma reworded_all i old steps :
  NoDup (PlanStep.SequenceNumber <$> steps) → Forall2 same_action old steps →
  (λ st, (reworded i steps (i, st)).2) <$> old = steps.
Proof.
  intros Hnd Hact. apply list_eq_Forall2. apply Forall2_fmap_l. revert Hact.
  assert (Hin : ∀ st, st ∈ steps → ∀ o, same_action o st → (reworded i steps (i, o)).2 = st).
  { intros st Hst o Ho. by rewrite (reworded_step i steps st). }
  intros Hact. apply Forall2_same_length_lookup. split; [by eapply Forall2_length|].
  intros k a b Hka Hkb. cbn. apply Hin; [by eapply list_elem_of_lookup_2|].
  by eapply Forall2_lookup_lr.
Qed.

(** Touching the latest row leaves it the latest, when time has not gone back. *)
Lemma touched_latest now rec s r rows :
  wf s → current now rec s → latest s = Some r →
  wf (mk ((λ x, if id_is (id r) x then touch rec (stamp now rec) x else x) <$> plans s) rows) →
  latest (mk ((λ x, if id_is (id r) x then touch rec (stamp now rec) x else x) <$> plans s) rows) =
  Some (touch rec (stamp now rec) r).
Proof.
  intros Hw Hc Hr Hw'. pose proof (latest_spec s) as Hls. rewrite Hr in Hls. destruct Hls as [Hin Hall].
  apply latest_is; cbn [plans]; [done| |].
  - apply list_elem_of_fmap. exists r. unfold id_is. by rewrite String.eqb_refl.
  - intros x (y & -> & Hy)%list_elem_of_fmap. destruct (id_is (id r) y) eqn:E.
    + apply String.eqb_eq in E. assert (y = r) as -> by (by apply (fmap_unique id (plans s)); [apply wf_ids|..]).
      apply newer_irrefl.
    + apply (text_order_trans _ (stored r, seq r)); [by apply Hall|].
      unfold text_order. cbn [fst snd touch seq]. rewrite (Hc r Hin : str_ltb (stored (touch _ _ _)) _ = false).
      rewrite (proj2 (Z.ltb_ge _ _)) by lia. by rewrite andb_false_r.
Qed.

(** Saving the plan that is the latest already reports that nothing is new and
adds no row; readers then see its node counts, its ceiling and its wording as
just computed, a fresh time of confirmation, and the new snapshot when usage is
measured; the rest is as it was. *)
Theorem plan_reconfirmed now rec s old :
  wf s → ascending (Record.Plan rec) → current now rec s →
  Latest s = inr old → Plan.ID (Record.Plan old) = Plan.ID (Record.Plan rec) →
  Forall2 same_action (Plan.Steps (Record.Plan old)) (Plan.Steps (Record.Plan rec)) →
  (Save now rec s).1 = inr false ∧
  id <$> plans (Save now rec s).2 = id <$> plans s ∧
  Latest (Save now rec s).2 = inr (confirmed (stamp now rec) rec old).
Proof.
  intros Hw Ha Hc Hl Hid Hact. pose proof (Save_wf now rec s Hw) as Hw'.
  rewrite Latest_spec in Hl by done. destruct (latest s) as [r|] eqn:Hr; [|done]. injection Hl as <-. cbn in Hid, Hact.
  assert (Hs : Save now rec s = (inr false,
     mk ((λ x, if id_is (id r) x then touch rec (stamp now rec) x else x) <$> plans s)
        (reworded (id r) (Plan.Steps (Record.Plan rec)) <$> plan_steps s))).
  { unfold Save, is_latest. cbn zeta. rewrite Hr, <- Hid. unfold id_is at 1. by rewrite String.eqb_refl, refresh_rows, Hid. }
  rewrite Hs in *. cbn [fst snd] in *. split_and!; [done|by apply touched_keys|].
  rewrite Latest_spec, touched_latest by done. unfold read_row, confirmed.
  change (id (touch rec (stamp now rec) r)) with (id r). rewrite reworded_steps, reworded_all; [done| |done].
  apply (proj1 (bool_decide_eq_true _)), (ascending_distinct _ Ha).
Qed.

(** *** A plan that comes back *)

(** A plan that is held but is no longer the latest is saved as new, yet reading
it back gives the node counts, the strategy and the snapshot time of the
occasion it was first stored on, not those just saved: a cluster that grew in
between is reported with the old number of nodes. *)
Theorem returning_plan_keeps_old_counts now rec s r :
  wf s → r ∈ plans s → id r = Plan.ID (Record.Plan rec) →
  is_latest (id r) s = false → distinct_steps (Record.Plan rec) = true →
  (Save now rec s).1 = inr true ∧
  ∃ got, ByID (id r) (Save now rec s).2 = inr got ∧
    Plan.NodesBefore (Record.Plan got) = nodes_before r ∧
    Plan.NodesAfter (Record.Plan got) = nodes_after r ∧
    Plan.SnapshotTakenAt (Record.Plan got) = snapshot_taken_at r ∧
    Record.Strategy got = strategy r ∧ Record.StoredAt got = stamp now rec.
Proof.
  intros Hw Hin Hid Hl Hd. pose proof (Save_wf now rec s Hw) as Hw'.
  unfold Save in *. cbn zeta in *. fold (stamp now rec) in *. rewrite <- Hid, Hl, Hd in *. cbn [fst snd] in *.
  split; [done|]. set (new := inserted rec (stamp now rec) (max_seq (plans s) + 1)) in *.
  exists (read_row (mk (upsert new (plans s))
    (List.filter (λ sr, negb (of_plan (id r) sr)) (plan_steps s) ++ ((id r,.) <$> Plan.Steps (Record.Plan rec))))
    (replaced new r)).
  split; [|done]. unfold ByID. rewrite (find_row _ _ (replaced new r)); cbn [plans]; [done|by apply wf_ids in Hw'| |done].
  unfold upsert. change (id new) with (Plan.ID (Record.Plan rec)). rewrite <- Hid.
  rewrite (proj2 (exists_id _ _)) by (by apply list_elem_of_fmap_2). apply list_elem_of_fmap. exists r.
  split; [|done]. unfold id_is. by rewrite String.eqb_refl.
Qed.

(** ** Pruning *)

Lemma latest_kept keep runs s r : 0 < keep → latest s = Some r → kept keep runs s r = true.
Proof.
  unfold latest, kept. intros Hk Hr. apply orb_true_iff. left. apply existsb_elem. exists r.
  split; [|by apply String.eqb_refl]. destruct (newest_first (plans s)) as [|x l]; [done|]. cbn in Hr. simplify_eq.
  destruct (Z.to_nat keep) eqn:E; [lia|]. by left.
Qed.

Lemma Prune_reads keep runs s r :
  wf s → 0 < keep → r ∈ plans s → kept keep runs s r = true →
  ByID (id r) (Prune keep runs s).2 = ByID (id r) s.
Proof.
  intros Hw Hk Hin Hr. pose proof (Prune_wf keep runs s Hw) as Hw'. revert Hw'. unfold Prune.
  rewrite (proj2 (Z.leb_gt _ _)) by lia. cbn [snd]. intros Hw'. unfold ByID.
  rewrite !(find_row (id r) _ r); try done; cbn [plans]; [|by apply wf_ids|by apply wf_ids in Hw'|by apply filter_elem].
  unfold read_row. do 3 f_equal. unfold stepsFor. f_equal. f_equal. cbn [plan_steps].
  apply filter_filter. intros sr _ ->%String.eqb_eq. apply negb_true_iff, not_true_iff_false.
  intros (x & [Hx Hn]%filter_elem & E)%existsb_elem. apply String.eqb_eq in E.
  assert (x = r) as -> by (by apply (fmap_unique id (plans s)); [apply wf_ids|..]). by rewrite Hr in Hn.
Qed.

Lemma Prune_latest keep runs s :
  wf s → 0 < keep → latest (Prune keep runs s).2 = latest s.
Proof.
  intros Hw Hk. pose proof (Prune_wf keep runs s Hw) as Hw'. revert Hw'. unfold Prune.
  rewrite (proj2 (Z.leb_gt _ _)) by lia. cbn [snd]. intros Hw'. pose proof (latest_spec s) as Hl.
  destruct (latest s) as [r|] eqn:Hr.
  - destruct Hl as [Hin Hall]. apply latest_is; [done| |]; cbn [plans].
    + apply filter_elem. split; [done|]. by apply latest_kept.
    + intros x [Hx _]%filter_elem. by apply Hall.
  - unfold latest. cbn [plans]. by rewrite Hl.
Qed.

Lemma ByID_absent i s : i ∉ id <$> plans s → ByID i s = inl ErrNotFound.
Proof.
  intros Hi. unfold ByID. destruct (List.find _ _) as [r|] eqn:Hf; [|done].
  apply List.find_some in Hf as [Hin E%String.eqb_eq]. apply list_elem_of_In in Hin.
  destruct Hi. apply list_elem_of_fmap. by exists r.
Qed.

(** A plan the pruning keeps reads as before, and so does one that is not there. *)
Lemma Prune_keeps keep runs s i :
  wf s → 0 < keep → (∀ r, r ∈ plans s → id r = i → kept keep runs s r = true) →
  ByID i (Prune keep runs s).2 = ByID i s.
Proof.
  intros Hw Hk Hi. destruct (decide (i ∈ id <$> plans s)) as [(r & -> & Hr)%list_elem_of_fmap|Hn].
  - apply Prune_reads; [done..|]. by apply Hi.
  - rewrite !ByID_absent; [done..|]. unfold Prune. rewrite (proj2 (Z.leb_gt _ _)) by lia. cbn [snd plans].
    intros (r & -> & [Hr _]%filter_elem)%list_elem_of_fmap. by apply Hn, list_elem_of_fmap_2.
Qed.

Lemma unexecuted_bound keep runs s :
  wf s → (length (List.filter (λ r, negb (executed runs (id r))) (List.filter (kept keep runs s) (plans s)))
    <= Z.to_nat keep)%nat.
Proof.
  intros Hw. etrans; [|eapply Nat.le_min_l]. rewrite <- (length_take (newest_first (plans s))).
  rewrite <- (length_fmap id), <- (length_fmap id (take _ _)). apply submseteq_length, NoDup_submseteq.
  - apply NoDup_filter_list, NoDup_filter_list, wf_ids, Hw.
  - intros i (r & -> & [[_ Hk]%filter_elem Hn%negb_true_iff]%filter_elem)%list_elem_of_fmap.
    unfold kept in Hk. rewrite Hn, orb_false_r in Hk. by apply exists_id in Hk.
Qed.

(** C30: pruning to a positive number of plans keeps the latest plan, every plan that
some run executed, and the [keep] newest, each with all its steps; it answers the
number of rows it removed, and of the plans no run executed at most [keep]
remain. *)
Theorem prune_keeps_the_audit keep runs s :
  wf s → 0 < keep →
  let '(n, s') := Prune keep runs s in
  Latest s' = Latest s ∧
  (∀ run, run ∈ RunStore.rows runs →
     ByID (Run.PlanID (RunStore.run run)) s' = ByID (Run.PlanID (RunStore.run run)) s) ∧
  (∀ r, r ∈ take (Z.to_nat keep) (newest_first (plans s)) → ByID (id r) s' = ByID (id r) s) ∧
  n + Z.of_nat (length (plans s')) = Z.of_nat (length (plans s)) ∧
  Z.of_nat (length (List.filter (λ r, negb (executed runs (id r))) (plans s'))) <= keep.
Proof.
  intros Hw Hk. pose proof (Prune_latest keep runs s Hw Hk) as Hl.
  pose proof (λ i, Prune_keeps keep runs s i Hw Hk) as Hread.
  pose proof (unexecuted_bound keep runs s Hw) as Hb. pose proof (filter_partition (kept keep runs s) (plans s)) as Hp.
  destruct (Prune keep runs s) as [n s'] eqn:He. cbn [snd] in *.
  assert (Hs : n = Z.of_nat (length (List.filter (λ r, negb (kept keep runs s r)) (plans s))) ∧
    plans s' = List.filter (kept keep runs s) (plans s)).
  { unfold Prune in He. rewrite (proj2 (Z.leb_gt _ _)) in He by lia. by injection He as <- <-. }
  destruct Hs as [-> Hs]. rewrite Hs. split_and!; [| | |lia|lia].
  - unfold Latest. rewrite Hl. destruct (latest s) as [r|] eqn:Hr; [|done]. apply Hread.
    intros x Hx E. assert (x = r) as ->; [|by apply latest_kept].
    pose proof (latest_spec s) as Hls. rewrite Hr in Hls. apply (fmap_unique id (plans s)); [by apply wf_ids|done|apply Hls|done].
  - intros run Hrun. apply Hread. intros r _ E. unfold kept, executed. apply orb_true_iff. right.
    apply existsb_elem. exists run. split; [done|]. by apply String.eqb_eq.
  - intros r Hr. apply Hread. intros x _ E. unfold kept. apply orb_true_iff. left. apply exists_id.
    rewrite E. by apply list_elem_of_fmap_2.
Qed.

(** ** A history *)

Definition plan_of (i : string) (nodes : Z) (why : string) : Plan.t :=
  Plan.mk i 10 PlanValid 10
    [PlanStep.mk "s1" 1 "c" [] ImpactGreen why []; PlanStep.mk "s2" 2 "d" [] ImpactRed why []]
    nodes (nodes - 2) 1 (F64.lit 85 100).

Definition record_of (i : string) (nodes : Z) (why : string) (at_ : time) : Record.t :=
  Record.mk (plan_of i nodes why) None None "greedy" at_.

Definition two_plans : t :=
  fold_left (λ s o, apply o s)
    [OpSave 0 (record_of "A" 6 "first" Second); OpSave 0 (record_of "B" 6 "then" (2 * Second))] empty.

Lemma two_plans_wf : wf two_plans.
Proof. unfold two_plans. cbn [fold_left]. repeat apply Save_wf. constructor; [constructor..|by intros ? ?%elem_of_nil]. Qed.

Lemma ascending_of i n why : ascending (plan_of i n why).
Proof. repeat constructor. Qed.

(** The condition on the clock, as a check. *)
Definition current_b (now : time) (rec : Record.t) (s : t) : bool :=
  forallb (λ r, negb (str_ltb (format_rfc3339nano (stamp now rec)) (stored r))) (plans s).

Lemma current_b_sound now rec s : current_b now rec s = true → current now rec s.
Proof. intros H r Hr. apply negb_true_iff. by eapply forallb_elem in H. Qed.


Lemma plan_reconfirmed_witness :
  Latest (Save 0 (record_of "B" 4 "reworded" (3 * Second)) two_plans).2 =
    inr (confirmed (3 * Second) (record_of "B" 4 "reworded" (3 * Second))
           (read_row two_plans (inserted (record_of "B" 6 "then" (2 * Second)) (2 * Second) 2))).
Proof.
  refine (proj2 (proj2 (plan_reconfirmed 0 (record_of "B" 4 "reworded" (3 * Second)) two_plans _ two_plans_wf
    (ascending_of _ _ _) (current_b_sound _ _ _ _) _ _ _))); [by vm_compute|by vm_compute|done|].
  vm_compute. repeat constructor.
Defined.

(** Plan A was stored for six nodes; it comes back for nine. *)
Lemma returning_plan_keeps_old_counts_witness :
  ∃ got, ByID "A" (Save 0 (record_of "A" 9 "back" (3 * Second)) two_plans).2 = inr got ∧
    Plan.NodesBefore (Record.Plan got) = 6.
Proof.
  destruct (returning_plan_keeps_old_counts 0 (record_of "A" 9 "back" (3 * Second)) two_plans
    (inserted (record_of "A" 6 "first" Second) Second 1) two_plans_wf) as (_ & got & Hg & Hn & _).
  - by left.
  - done.
  - by vm_compute.
  - by vm_compute.
  - exists got. by split.
Defined.

Definition ran_a : RunStore.t :=
  RunStore.mk [RunStore.mk_row (Run.mk "r" "A" [1] false RunSucceeded false "" "" "" None "ops" [] 1 None None "" "") 1] [].

Lemma prune_keeps_the_audit_witness :
  Latest (Prune 1 ran_a two_plans).2 = Latest two_plans ∧ ByID "A" (Prune 1 ran_a two_plans).2 = ByID "A" two_plans.
Proof.
  pose proof (prune_keeps_the_audit 1 ran_a two_plans two_plans_wf ltac:(lia)) as H.
  destruct (Prune 1 ran_a two_plans) as [n s']. destruct H as (Hl & Hr & _). split; [exact Hl|].
  exact (Hr _ (list_elem_of_here _ _)).
Defined.
