(* ===== verification/Samples.v ===== *)
(** * What is measured over time (internal/store/sqlstore/samples.go,
node_samples.go, recoveries.go)

The timeline of the fleet, the points of each node, and how long workloads took
to come back.  A statement is atomic; columns hold the decoded values; times are
compared as the text they are stored as; the percentages are computed as SQLite
does, in double precision. *)
From S2P Require Import Prelude GoLib Float64 GoTime.

Definition text (t : time) : string := format_rfc3339nano t.

(** [taken_at >= ?] and [taken_at < ?] *)
Definition at_or_after (since t : time) : bool := negb (str_ltb (text t) (text since)).

(** ** samples.go *)

Module Sample.
Record t : Type := mk {
  TakenAt : time; Nodes : Z; Pods : Z;
  CPUReqMilli : Z; CPUAllocMilli : Z; MemReqBytes : Z; MemAllocBytes : Z;
  CPUUsedMilli : Z; MemUsedBytes : Z; HasUsage : bool; Reclaimable : Z;
}.
End Sample.

Module NodeSample.
Record t : Type := mk { Node : string; TakenAt : time; CPUUsedMilli : Z; CPUAllocMilli : Z }.
End NodeSample.

Module NodeStability.
Record t : Type := mk { Node : string; Samples : Z; Since : time; MedianPct : Z; PeakPct : Z }.
End NodeStability.

Module Timeline.

(** The tables [samples] and [node_samples]. *)
Record t : Type := mk { samples : list Sample.t; node_samples : list NodeSample.t }.

Definition empty : t := mk [] [].

Definition SaveSample (sm : Sample.t) (s : t) : t := mk (samples s ++ [sm]) (node_samples s).

Definition earlier (a b : Sample.t) : bool := str_ltb (text (Sample.TakenAt a)) (text (Sample.TakenAt b)).

Definition Samples (since : time) (s : t) : list Sample.t :=
  sort_by earlier (List.filter (λ sm, at_or_after since (Sample.TakenAt sm)) (samples s)).

Definition PruneSamples (before : time) (s : t) : Z * t :=
  let keep := List.filter (λ sm, at_or_after before (Sample.TakenAt sm)) (samples s) in
  (Z.of_nat (length (samples s)) - Z.of_nat (length keep), mk keep (node_samples s)).

(** ** node_samples.go *)

(** [ON CONFLICT (node, taken_at) DO NOTHING] *)
Definition same_point (a b : NodeSample.t) : bool :=
  (NodeSample.Node a =? NodeSample.Node b)%string &&
  (text (NodeSample.TakenAt a) =? text (NodeSample.TakenAt b))%string.

Definition insert_point (rows : list NodeSample.t) (n : NodeSample.t) : list NodeSample.t :=
  if existsb (same_point n) rows then rows else rows ++ [n].

Definition SaveNodeSamples (ns : list NodeSample.t) (s : t) : t :=
  mk (samples s) (fold_left insert_point ns (node_samples s)).

(** The rows of [pct]: a node, the time, the percentage. *)
Module point.
Record t : Type := mk { node : string; taken_at : time; p : float64 }.
End point.

Definition percentage (n : NodeSample.t) : float64 :=
  F64.div (F64.mul (F64.of_Z (NodeSample.CPUUsedMilli n)) (F64.of_Z 100)) (F64.of_Z (NodeSample.CPUAllocMilli n)).

Definition pct (since : time) (rows : list NodeSample.t) : list point.t :=
  (λ n, point.mk (NodeSample.Node n) (NodeSample.TakenAt n) (percentage n)) <$>
    List.filter (λ n, at_or_after since (NodeSample.TakenAt n) && (0 <? NodeSample.CPUAllocMilli n)) rows.

(** [MIN(taken_at)] and [MAX(p)] of a partition that is not empty. *)
Definition oldest (t0 : time) (ts : list time) : time :=
  fold_left (λ a b, if str_ltb (text b) (text a) then b else a) ts t0.

Definition peak (p0 : float64) (ps : list float64) : float64 :=
  fold_left (λ a b, if F64.ltb a b then b else a) ps p0.

(** [int(f + 0.5)] *)
Definition rounded (f : float64) : Z := F64.to_Z (F64.add f (F64.lit 1 2)).

(** The row at rank [(n / 2) + 1] of a partition ordered by [p]. *)
Definition stability (name : string) (pts : list point.t) : option NodeStability.t :=
  match pts with
  | [] => None
  | q :: qs =>
      median ← sort_by F64.ltb (point.p <$> pts) !! (length pts / 2)%nat;
      Some (NodeStability.mk name (Z.of_nat (length pts)) (oldest (point.taken_at q) (point.taken_at <$> qs))
        (rounded median) (rounded (peak (point.p q) (point.p <$> qs))))
  end.

Definition partition_of (name : string) (pts : list point.t) : list point.t :=
  List.filter (λ q, (point.node q =? name)%string) pts.

(** [ORDER BY node] *)
Definition node_names (pts : list point.t) : list string :=
  sort_by str_ltb (elements (list_to_set (point.node <$> pts) : gset string)).

Definition NodeStabilitySince (since : time) (s : t) : list NodeStability.t :=
  let pts := pct since (node_samples s) in
  omap (λ name, stability name (partition_of name pts)) (node_names pts).

Definition PruneNodeSamples (before : time) (s : t) : Z * t :=
  let keep := List.filter (λ n, at_or_after before (NodeSample.TakenAt n)) (node_samples s) in
  (Z.of_nat (length (node_samples s)) - Z.of_nat (length keep), mk (samples s) keep).

End Timeline.

(** ** recoveries.go *)

Module Recovery.
Record t : Type := mk {
  Workload : string; Observations : Z; TypicalSeconds : Z; WorstSeconds : Z; LastSeen : time;
}.
End Recovery.

Module Recoveries.

(** A row of [recoveries]. *)
Record row : Type := mk_row { workload : string; observed_at : time; took_seconds : Z }.

Definition t : Type := list row.

(** [int64(took.Seconds())] *)
Definition whole_seconds (took : duration) : Z :=
  F64.to_Z (F64.add (F64.of_Z (Z.quot took Second)) (F64.div (F64.of_Z (Z.rem took Second)) (F64.of_Z Second))).

Definition same_row (w : string) (at_ : time) (r : row) : bool :=
  (workload r =? w)%string && (text (observed_at r) =? text at_)%string.

Definition RecordRecovery (w : string) (at_ : time) (took : duration) (s : t) : t :=
  if existsb (same_row w at_) s then s else s ++ [mk_row w at_ (whole_seconds took)].

Definition history (w : string) (s : t) : list row := List.filter (λ r, (workload r =? w)%string) s.

Definition worst (x0 : Z) (xs : list Z) : Z := fold_left Z.max xs x0.

Definition last_seen (t0 : time) (ts : list time) : time :=
  fold_left (λ a b, if str_ltb (text a) (text b) then b else a) ts t0.

Definition recovery (w : string) (rows : list row) : option Recovery.t :=
  match rows with
  | [] => None
  | r :: rs =>
      typical ← sort_by Z.ltb (took_seconds <$> rows) !! (length rows / 2)%nat;
      Some (Recovery.mk w (Z.of_nat (length rows)) typical (worst (took_seconds r) (took_seconds <$> rs))
        (last_seen (observed_at r) (observed_at <$> rs)))
  end.

Definition RecoveryFor (workloads : list string) (s : t) : gmap string Recovery.t :=
  fold_left (λ out w, match recovery w (history w s) with
                      | Some r => <[w := r]> out
                      | None => out
                      end) workloads ∅.

Definition PruneRecoveries (before : time) (s : t) : Z * t :=
  let keep := List.filter (λ r, at_or_after before (observed_at r)) s in
  (Z.of_nat (length s) - Z.of_nat (length keep), keep).

End Recoveries.
