(* ===== verification/SamplesProps.v ===== *)
(** * What the measurements say *)
From S2P Require Import Prelude GoLib Float64 GoTime Samples.

(** ** Recoveries *)

Module RecoveryFacts.
Import Recoveries.

Lemma worst_spec x0 xs : worst x0 xs ∈ x0 :: xs ∧ ∀ x, x ∈ x0 :: xs → x <= worst x0 xs.
Proof.
  unfold worst. revert x0. induction xs as [|x xs IH]; intros x0; cbn [fold_left].
  { split; [by left|]. by intros x ->%list_elem_of_singleton. }
  destruct (IH (Z.max x0 x)) as [Hin Hle]. split.
  - apply elem_of_cons in Hin as [->|Hin]; [|by do 2 right]. destruct (Z.max_spec x0 x) as [[_ ->]|[_ ->]]; [by right; left|by left].
  - intros y [->|[->|Hy]%elem_of_cons]%elem_of_cons.
    + transitivity (Z.max x0 x); [lia|]. apply Hle. by left.
    + transitivity (Z.max x0 x); [lia|]. apply Hle. by left.
    + apply Hle. by right.
Qed.

Lemma recovery_known w rows : rows ≠ [] → is_Some (recovery w rows).
Proof.
  destruct rows as [|r rs]; [done|]. intros _. unfold recovery.
  destruct (sort_by Z.ltb (took_seconds <$> r :: rs) !! _) eqn:E; [by eexists|].
  apply lookup_ge_None_1 in E. rewrite length_sort_by, length_fmap in E.
  assert (length (r :: rs) / 2 < length (r :: rs))%nat; [|lia]. apply Nat.div_lt; cbn; lia.
Qed.

Lemma RecoveryFor_lookup ws s w :
  RecoveryFor ws s !! w = if bool_decide (w ∈ ws) then recovery w (history w s) else None.
Proof.
  unfold RecoveryFor. induction ws as [|x ws IH] using rev_ind; [by apply lookup_empty|].
  rewrite fold_left_app. cbn [fold_left]. set (m := fold_left _ ws ∅) in *. destruct (decide (x = w)) as [->|Hne].
  - rewrite bool_decide_eq_true_2 by (apply elem_of_app; right; by left).
    destruct (recovery w (history w s)) as [r|] eqn:E; [apply lookup_insert_eq|]. rewrite IH. by case_bool_decide.
  - assert (match recovery x (history x s) with Some r => <[x := r]> m | None => m end !! w = m !! w) as ->
      by (destruct (recovery x _); [by rewrite lookup_insert_ne|done]).
    rewrite IH. erewrite bool_decide_ext; [done|]. rewrite elem_of_app, list_elem_of_singleton. naive_solver.
Qed.

End RecoveryFacts.

(** What a screen is told of a workload's recoveries: an answer exactly when the
workload was asked for and has been observed; it counts the observations; the
typical time is one that was observed, with at most half of the observations
below it and fewer than half above it; the worst is the largest observed. *)
Theorem recovery_exact ws (s : Recoveries.t) w :
  let obs := Recoveries.took_seconds <$> Recoveries.history w s in
  (is_Some (Recoveries.RecoveryFor ws s !! w) ↔ w ∈ ws ∧ obs ≠ []) ∧
  ∀ r, Recoveries.RecoveryFor ws s !! w = Some r →
    Recovery.Workload r = w ∧ Recovery.Observations r = Z.of_nat (length obs) ∧
    Recovery.TypicalSeconds r ∈ obs ∧
    (2 * length (List.filter (λ x, (x <? Recovery.TypicalSeconds r)%Z) obs) <= length obs)%nat ∧
    (2 * length (List.filter (Z.ltb (Recovery.TypicalSeconds r)) obs) < length obs)%nat ∧
    Recovery.WorstSeconds r ∈ obs ∧ ∀ x, x ∈ obs → x <= Recovery.WorstSeconds r.
Proof.
  cbn zeta. rewrite RecoveryFacts.RecoveryFor_lookup. set (rows := Recoveries.history w s). split.
  - case_bool_decide as Hw; [|split; [by intros []|by intros [? _]]]. split.
    + intros Hs. split; [done|]. intros E%fmap_nil_inv. rewrite E in Hs. by destruct Hs.
    + intros [_ Hn]. apply RecoveryFacts.recovery_known. by intros ->.
  - intros r. case_bool_decide; [|done]. destruct rows as [|q qs]; [done|]. unfold Recoveries.recovery. intros (m & Hm & [= <-])%bind_Some.
    rewrite length_fmap. cbn [Recovery.Workload Recovery.Observations Recovery.TypicalSeconds Recovery.WorstSeconds].
    apply sort_by_rank in Hm as (Hin & Hlo & Hhi);
      [|intros a b; rewrite Z.ltb_lt, Z.ltb_ge; lia|intros a b c _ _ _; rewrite !Z.ltb_ge; lia].
    rewrite length_fmap in Hhi. pose proof (RecoveryFacts.worst_spec (Recoveries.took_seconds q) (Recoveries.took_seconds <$> qs)) as [Hw1 Hw2].
    pose proof (Nat.div_mod_eq (length (q :: qs)) 2) as Hd. pose proof (Nat.mod_upper_bound (length (q :: qs)) 2 ltac:(done)).
    split_and!; [done|done|done|lia|lia|done|done].
Qed.

(** ** Stability *)

Module TimelineFacts.
Import Timeline.

Lemma nltb_trans a b c :
  F64.is_nan a = false → F64.is_nan b = false → F64.is_nan c = false →
  F64.ltb b a = false → F64.ltb c b = false → F64.ltb c a = false.
Proof.
  intros Ha Hb Hc. rewrite <- !not_true_iff_false, !F64.ltb_lex, !F64.lex_lt by done. lia.
Qed.

Lemma peak_spec p0 ps :
  (∀ p, p ∈ p0 :: ps → F64.is_nan p = false) →
  peak p0 ps ∈ p0 :: ps ∧ ∀ p, p ∈ p0 :: ps → F64.ltb (peak p0 ps) p = false.
Proof.
  unfold peak. revert p0. induction ps as [|q ps IH]; intros p0 Hn; cbn [fold_left].
  { split; [by left|]. intros p ->%list_elem_of_singleton. apply F64.ltb_irrefl. }
  set (p1 := if F64.ltb p0 q then q else p0).
  assert (H1 : p1 = p0 ∨ p1 = q) by (unfold p1; destruct (F64.ltb p0 q); auto).
  destruct (IH p1) as [Hin Hle].
  { intros p [->|Hp]%elem_of_cons; [destruct H1 as [->| ->]; apply Hn; [by left|by right; left]|]. apply Hn. by do 2 right. }
  assert (H0 : F64.ltb p1 p0 = false ∧ F64.ltb p1 q = false).
  { unfold p1. destruct (F64.ltb p0 q) eqn:E; split; auto using F64.ltb_irrefl, F64.ltb_asym. }
  set (pk := fold_left _ ps p1) in *.
  assert (Hpk : F64.is_nan pk = false).
  { apply Hn. apply elem_of_cons in Hin as [->|]; [destruct H1 as [->| ->]; [by left|by right; left]|by do 2 right]. }
  assert (Hp1 : F64.is_nan p1 = false) by (destruct H1 as [->| ->]; apply Hn; [by left|by right; left]).
  assert (Hle1 : F64.ltb pk p1 = false) by (apply Hle; by left).
  split.
  - apply elem_of_cons in Hin as [E|Hin]; [|by do 2 right]. rewrite E. destruct H1 as [->| ->]; [by left|by right; left].
  - intros p [->|[->|Hp]%elem_of_cons]%elem_of_cons.
    + apply (nltb_trans p0 p1 pk); [apply Hn; by left|done|done|by apply H0|done].
    + apply (nltb_trans q p1 pk); [apply Hn; by right; left|done|done|by apply H0|done].
    + apply Hle. by right.
Qed.

Lemma stability_known name pts : pts ≠ [] → is_Some (stability name pts).
Proof.
  destruct pts as [|q qs]; [done|]. intros _. unfold stability.
  destruct (sort_by F64.ltb (point.p <$> q :: qs) !! _) eqn:E; [by eexists|].
  apply lookup_ge_None_1 in E. rewrite length_sort_by, length_fmap in E.
  assert (length (q :: qs) / 2 < length (q :: qs))%nat; [|lia]. apply Nat.div_lt; cbn; lia.
Qed.

Lemma elem_of_node_names name pts : name ∈ node_names pts ↔ partition_of name pts ≠ [].
Proof.
  unfold node_names. rewrite elem_of_sort_by, elem_of_elements, elem_of_list_to_set, list_elem_of_fmap. split.
  - intros (q & -> & Hq) E. apply (not_elem_of_nil q). rewrite <- E. apply filter_elem. split; [done|apply String.eqb_refl].
  - intros Hn. destruct (partition_of name pts) as [|q qs] eqn:E; [done|].
    assert (Hq : q ∈ partition_of name pts) by (rewrite E; left). apply filter_elem in Hq as [? Hq%String.eqb_eq]. by exists q.
Qed.

End TimelineFacts.

(** The percentages of one node in a window. *)
Definition readings (since : time) (s : Timeline.t) (name : string) : list float64 :=
  Timeline.point.p <$> Timeline.partition_of name (Timeline.pct since (Timeline.node_samples s)).

(** The stability report has one line for each node with a usable point in the
window, in name order; the line counts the node's points; the median is a
reading with at most half of the readings below it and fewer than half above
it, the peak is a reading none exceeds, and both are given rounded. *)
Theorem stability_exact since s :
  (∀ name p, p ∈ readings since s name → F64.is_nan p = false) →
  let report := Timeline.NodeStabilitySince since s in
  Sorted (in_order str_ltb) (NodeStability.Node <$> report) ∧ NoDup (NodeStability.Node <$> report) ∧
  (∀ name, name ∈ NodeStability.Node <$> report ↔ readings since s name ≠ []) ∧
  ∀ st, st ∈ report → ∃ median peak, let ps := readings since s (NodeStability.Node st) in
    NodeStability.Samples st = Z.of_nat (length ps) ∧
    NodeStability.MedianPct st = Timeline.rounded median ∧ median ∈ ps ∧
    (2 * length (List.filter (λ p, F64.ltb p median) ps) <= length ps)%nat ∧
    (2 * length (List.filter (F64.ltb median) ps) < length ps)%nat ∧
    NodeStability.PeakPct st = Timeline.rounded peak ∧ peak ∈ ps ∧ ∀ p, p ∈ ps → F64.ltb peak p = false.
Proof.
  intros Hnan. cbn zeta. unfold Timeline.NodeStabilitySince. set (pts := Timeline.pct _ _) in *.
  assert (Hnames : NodeStability.Node <$> omap (λ name, Timeline.stability name (Timeline.partition_of name pts)) (Timeline.node_names pts)
    = Timeline.node_names pts).
  { assert (Hall : ∀ name, name ∈ Timeline.node_names pts → Timeline.partition_of name pts ≠ [])
      by (intros name; apply TimelineFacts.elem_of_node_names).
    induction (Timeline.node_names pts) as [|name names IH]; [done|]. cbn.
    destruct (TimelineFacts.stability_known name (Timeline.partition_of name pts)) as [st Hst]; [apply Hall; by left|].
    rewrite Hst. cbn. f_equal; [|apply IH; intros; apply Hall; by right].
    unfold Timeline.stability in Hst. destruct (Timeline.partition_of name pts); [done|].
    by apply bind_Some in Hst as (? & _ & [= <-]). }
  rewrite Hnames. split_and!.
  - apply sort_by_sorted. intros a b. apply str_ltb_asym.
  - unfold Timeline.node_names. rewrite sort_by_perm. apply NoDup_elements.
  - intros name. rewrite TimelineFacts.elem_of_node_names. unfold readings. fold pts.
    by destruct (Timeline.partition_of name pts).
  - intros st (name & Hname & Hst)%list_elem_of_omap. unfold Timeline.stability in Hst.
    specialize (Hnan name). unfold readings in Hnan. fold pts in Hnan.
    destruct (Timeline.partition_of name pts) as [|q qs] eqn:Eq; [done|].
    apply bind_Some in Hst as (m & Hm & [= <-]). cbn [NodeStability.Node NodeStability.Samples NodeStability.MedianPct NodeStability.PeakPct].
    unfold readings. fold pts. rewrite Eq. exists m, (Timeline.peak (Timeline.point.p q) (Timeline.point.p <$> qs)).
    apply sort_by_rank in Hm as (Hin & Hlo & Hhi); [|apply F64.ltb_asym|intros a b c Ha Hb Hc; apply TimelineFacts.nltb_trans; by apply Hnan].
    rewrite length_fmap in Hhi. destruct (TimelineFacts.peak_spec (Timeline.point.p q) (Timeline.point.p <$> qs)) as [Hp1 Hp2]; [exact Hnan|].
    pose proof (Nat.div_mod_eq (length (q :: qs)) 2) as Hd. pose proof (Nat.mod_upper_bound (length (q :: qs)) 2 ltac:(done)).
    rewrite length_fmap. split_and!; [done|done|done|lia|lia|done|done|done].
Qed.

Definition three_readings : Timeline.t :=
  Timeline.mk [] [NodeSample.mk "a" 0 100 1000; NodeSample.mk "a" Hour 900 1000; NodeSample.mk "a" (2 * Hour) 200 1000].

Lemma stability_exact_witness :
  Timeline.NodeStabilitySince 0 three_readings = [NodeStability.mk "a" 3 0 20 90] ∧
  "a" ∈ NodeStability.Node <$> Timeline.NodeStabilitySince 0 three_readings.
Proof.
  split; [by vm_compute|].
  destruct (stability_exact 0 three_readings) as (_ & _ & H & _).
  - intros name p Hp. unfold readings in Hp. apply list_elem_of_fmap in Hp as (q & -> & [Hq _]%filter_elem).
    revert Hq. assert (forallb (λ q, negb (F64.is_nan (Timeline.point.p q)))
      (Timeline.pct 0 (Timeline.node_samples three_readings)) = true) as Hall by (by vm_compute).
    rewrite forallb_elem in Hall. intros Hq%Hall. by apply negb_true_iff in Hq.
  - apply H. by vm_compute.
Defined.

(** ** Retention *)

(** Pruning the timeline removes no point a later question can ask for: a window
that opens no earlier than the cutoff, in the text the times are stored as,
holds the same points before and after, on both tables. *)
Theorem prune_keeps_window before since s :
  str_ltb (text since) (text before) = false →
  Timeline.Samples since (Timeline.PruneSamples before s).2 = Timeline.Samples since s ∧
  Timeline.NodeStabilitySince since (Timeline.PruneNodeSamples before s).2 = Timeline.NodeStabilitySince since s.
Proof.
  intros Hle.
  assert (Hin : ∀ t, at_or_after since t = true → at_or_after before t = true).
  { unfold at_or_after. intros t. rewrite !negb_true_iff. intros Ht. by eapply str_nltb_trans. }
  unfold Timeline.Samples, Timeline.NodeStabilitySince, Timeline.pct. cbn. rewrite !filter_filter; [done| |].
  - intros n _ [? _]%andb_true_iff. by apply Hin.
  - intros sm _. apply Hin.
Qed.

Lemma prune_keeps_window_witness :
  let point taken := Sample.mk taken 3 4 0 0 0 0 0 0 false 0 in
  let s := Timeline.mk [point 0; point (2 * Hour); point (3 * Hour)] [] in
  length (Timeline.Samples (2 * Hour) (Timeline.PruneSamples Hour s).2) = 2%nat.
Proof.
  cbn zeta. rewrite (proj1 (prune_keeps_window Hour (2 * Hour) _ ltac:(by vm_compute))). by vm_compute.
Defined.
