(* ===== verification/Recommend.v ===== *)
(** * What would unblock consolidation (internal/recommend/recommend.go)

The queue of findings: the plan's own blocking rules, grouped by rule and
workload, then the advice drawn from a snapshot alone.  Maps are ranged over in
whatever order [MapRange] gives. *)
From Stdlib Require Import SpecFloat.
From S2P Require Import Prelude GoLib Float64 GoText GoTime GoFlag.
From S2P Require Import Model Cluster.

(** * What reclaimed capacity is worth (internal/pricing/pricing.go)

An operator's price table, as it is read, and the valuation of a set of nodes. *)

Module Table.

Record t : Type := mk { Currency : string; PerHour : gmap string float64 }.

Definition Empty (p : t) : bool := bool_decide (size (PerHour p) = 0%nat).

(** [None] is an unknown price, which is not a price of zero. *)
Definition Hourly (p : t) (instanceType capacityType : string) : option float64 :=
  if (instanceType =? "")%string then None
  else
    let exact :=
      if (capacityType =? "")%string then None
      else PerHour p !! (instanceType +:+ "/" +:+ ToLower capacityType) in
    match exact with
    | Some v => Some v
    | None => PerHour p !! instanceType
    end.

(** [strings.Trim] of the quotes around a text. *)
Definition unquoted (raw : string) : string := TrimRight (TrimLeft raw dquote) dquote.

(** The prices of the entries, in the order they are ranged over. *)
Fixpoint prices (entries : list (string * string)) (perHour : gmap string float64) : string + gmap string float64 :=
  match entries with
  | [] => inr perHour
  | (k, raw) :: entries =>
      let s := unquoted raw in
      match ParseFloat s with
      | None => inl ("price for " +:+ quoted k +:+ " is not a number: " +:+ s)
      | Some f => prices entries (<[k := f]> perHour)
      end
  end.

(** [unmarshal] decodes a document into the currency and the raw texts of the prices,
the entries of a map. *)
Definition UnmarshalJSON (unmarshal : string → string + (string * list (string * string))) (b : string) : string + t :=
  match unmarshal b with
  | inl err => inl err
  | inr (currency, entries) =>
      match prices entries ∅ with
      | inl err => inl err
      | inr perHour => inr (mk currency perHour)
      end
  end.

End Table.

Module Reclaimed.
Record t : Type := mk { PerHour : float64; PerMonth : float64; Priced : Z; Unpriced : Z; Currency : string }.
End Reclaimed.

Module PricedNode.
Record t : Type := mk { InstanceType : string; CapacityType : string }.
End PricedNode.

(** One node of the loop: the rate so far, and the nodes counted. *)
Definition value_step (p : Table.t) (acc : float64 * Z * Z) (n : PricedNode.t) : float64 * Z * Z :=
  let '(rate, priced, unpriced) := acc in
  match Table.Hourly p (PricedNode.InstanceType n) (PricedNode.CapacityType n) with
  | None => (rate, priced, unpriced + 1)
  | Some r => (F64.add rate r, priced + 1, unpriced)
  end.

Definition Value (p : Table.t) (nodes : list PricedNode.t) : Reclaimed.t :=
  let '(rate, priced, unpriced) := fold_left (value_step p) nodes (F64.zero, 0, 0) in
  Reclaimed.mk rate (F64.mul rate (F64.of_Z 730)) priced unpriced (Table.Currency p).

(** A node is counted once, as priced exactly when the table has a rate for it,
and only priced nodes add to the sum. *)
Lemma Value_counts p nodes :
  let known := List.filter (λ n, bool_decide (is_Some
    (Table.Hourly p (PricedNode.InstanceType n) (PricedNode.CapacityType n)))) nodes in
  Reclaimed.Priced (Value p nodes) = Z.of_nat (length known) ∧
  Reclaimed.Unpriced (Value p nodes) = Z.of_nat (length nodes) - Z.of_nat (length known) ∧
  Reclaimed.PerHour (Value p nodes) =
    fold_left F64.add (omap (λ n, Table.Hourly p (PricedNode.InstanceType n) (PricedNode.CapacityType n)) nodes)
      F64.zero.
Proof.
  unfold Value. cbn zeta.
  assert (Hs : ∀ rate a b,
    fold_left (value_step p) nodes (rate, a, b) =
    (fold_left F64.add (omap (λ n, Table.Hourly p (PricedNode.InstanceType n) (PricedNode.CapacityType n)) nodes) rate,
     a + Z.of_nat (length (List.filter (λ n, bool_decide (is_Some
       (Table.Hourly p (PricedNode.InstanceType n) (PricedNode.CapacityType n)))) nodes)),
     b + Z.of_nat (length nodes) - Z.of_nat (length (List.filter (λ n, bool_decide (is_Some
       (Table.Hourly p (PricedNode.InstanceType n) (PricedNode.CapacityType n)))) nodes)))).
  { induction nodes as [|n nodes IH]; intros rate a b; cbn [fold_left List.filter omap list_omap].
    { cbn. f_equal; [f_equal|]; lia. }
    unfold value_step at 2. destruct (Table.Hourly p _ _) as [r|]; rewrite IH; cbn;
      repeat (f_equal; try lia). }
  rewrite Hs. cbn. split_and!; [lia|lia|done].
Qed.

(** ** The table as it was written *)

Lemma prices_spec es m :
  NoDup es.*1 →
  match Table.prices es m with
  | inr p => (∀ k raw, (k, raw) ∈ es → is_Some (ParseFloat (Table.unquoted raw))) ∧
      ∀ k, p !! k = match list_to_map (M := gmap string string) es !! k with
                    | Some raw => ParseFloat (Table.unquoted raw) | None => m !! k end
  | inl _ => ∃ k raw, (k, raw) ∈ es ∧ ParseFloat (Table.unquoted raw) = None
  end.
Proof.
  revert m. induction es as [|[k raw] es IH]; intros m Hd; cbn [Table.prices].
  { split; [|done]. intros k raw Hin. by apply elem_of_nil in Hin. }
  apply NoDup_cons in Hd as [Hk Hd]. destruct (ParseFloat (Table.unquoted raw)) as [f|] eqn:Ef.
  2:{ exists k, raw. split; [apply list_elem_of_here|done]. }
  specialize (IH (<[k := f]> m) Hd). destruct (Table.prices es _) as [err|p].
  { destruct IH as (k' & raw' & Hin & Hn). exists k', raw'. split; [by apply list_elem_of_further|done]. }
  destruct IH as [Hall Hl]. split.
  - intros k' raw' [[= -> ->]|Hin]%elem_of_cons; [by rewrite Ef|by eapply Hall].
  - intros k'. rewrite Hl. cbn [list_to_map foldr]. destruct (decide (k' = k)) as [->|Hne].
    + rewrite lookup_insert_eq, (not_elem_of_list_to_map_1 _ _ Hk), lookup_insert_eq. done.
    + by rewrite !lookup_insert_ne by done.
Qed.

(** A table is read exactly if every price in it is a number or the text of one, and
has then the price of each entry and no other. *)
Theorem table_as_written unmarshal b currency es :
  NoDup es.*1 → unmarshal b = inr (currency, es) →
  match Table.UnmarshalJSON unmarshal b with
  | inr p => Table.Currency p = currency ∧
      ∀ k, Table.PerHour p !! k = list_to_map (M := gmap string string) es !! k ≫= λ raw, ParseFloat (Table.unquoted raw)
  | inl _ => ∃ k raw, (k, raw) ∈ es ∧ ParseFloat (Table.unquoted raw) = None
  end.
Proof.
  intros Hd Hu. unfold Table.UnmarshalJSON. rewrite Hu. pose proof (prices_spec es ∅ Hd) as Hp.
  destruct (Table.prices es ∅) as [err|p]; [done|]. destruct Hp as [_ Hl]. split; [done|].
  intros k. cbn. rewrite Hl, lookup_empty. by destruct (list_to_map es !! k).
Qed.

(** A number and the same number as a text are one price; a word is none; but a text
can also be no finite number, and every sum that it enters is then none. *)
Example prices_read :
  let read := Table.UnmarshalJSON (λ b, inr ("EUR", [("e2", b)])) in
  let worth b := match read b with
                 | inr p => Some (Reclaimed.PerHour (Value p [PricedNode.mk "e2" ""; PricedNode.mk "" ""]))
                 | inl _ => None end in
  read (dquote +:+ "0.5" +:+ dquote) = read "0.5" ∧ worth "0.5" = Some (F64.lit 1 2) ∧ worth "cheap" = None ∧
  worth (dquote +:+ "NaN" +:+ dquote) = Some S754_nan.
Proof. by vm_compute. Qed.

(** * The findings *)

Inductive Severity : Type := SeverityHigh | SeverityMedium | SeverityInfo.

#[global] Instance Severity_eq_dec : EqDecision Severity.
Proof. solve_decision. Defined.

(** The table of ranks that both sorts use. *)
Definition rank (s : Severity) : Z :=
  match s with SeverityHigh => 0 | SeverityMedium => 1 | SeverityInfo => 2 end.

Module BlockedPool.
Record t : Type := mk { Name : string; CapacityType : string; Nodes : Z }.
End BlockedPool.

Module Recommendation.

Record t : Type := mk {
  Kind : string;
  Severity : Recommend.Severity;
  Workload : string;
  Why : string;
  Fix : string;
  UnblocksSteps : list Z;
  Pools : list BlockedPool.t;
}.

(** A finding of [Build], which sets neither steps nor pools. *)
Definition advice (kind : string) (s : Recommend.Severity) (workload why fix_ : string) : t :=
  mk kind s workload why fix_ [] [].

End Recommendation.

Definition workload_key (p : Pod.t) (o : OwnerRef.t) : string :=
  Pod.Namespace p +:+ "/" +:+ OwnerRef.Kind o +:+ "/" +:+ OwnerRef.Name o.

(** ** Pools *)

Definition pool_before (a b : BlockedPool.t) : bool :=
  if negb (BlockedPool.Nodes a =? BlockedPool.Nodes b) then BlockedPool.Nodes b <? BlockedPool.Nodes a
  else if negb (BlockedPool.Name a =? BlockedPool.Name b)%string
  then str_ltb (BlockedPool.Name a) (BlockedPool.Name b)
  else str_ltb (BlockedPool.CapacityType a) (BlockedPool.CapacityType b).

Definition by_name (nodes : list Node.t) : gmap string Node.t :=
  fold_left (λ m n, <[Node.Name n := n]> m) nodes ∅.

(** A node that says neither where it belongs nor how it is bought is skipped. *)
Definition pool_of (byNode : gmap string Node.t) (name : string) : option (string * string) :=
  n ← byNode !! name;
  if (Node.Pool n =? "")%string && (Node.CapacityType n =? "")%string then None
  else Some (Node.Pool n, Node.CapacityType n).

Definition count_pools (byNode : gmap string Node.t) (names : list string) : gmap (string * string) Z :=
  fold_left (λ seen name,
    match pool_of byNode name with
    | Some key => <[key := default 0 (seen !! key) + 1]> seen
    | None => seen
    end) names ∅.

(** The order [seen] is ranged over does not matter, since no two pools of the
result compare equal. *)
Definition poolsOf (nodes : gset string) (snap : ClusterSnapshot.t) : list BlockedPool.t :=
  sort_by pool_before
    ((λ '(key, n), BlockedPool.mk key.1 key.2 n) <$>
       map_to_list (count_pools (by_name (ClusterSnapshot.Nodes snap)) (elements nodes))).

(** ** The plan's blocking rules *)

Module group.
Record t : Type := mk {
  kind : string;
  workload : string;
  why : string;
  steps : gset Z;
  nodes : gset string;
  worst : ImpactRating;
}.
End group.

(** The workload a pod belongs to, by pod key; of pods with one key the last. *)
Definition owners (pods : list Pod.t) : gmap string string :=
  fold_left (λ m p, match Pod.Owner p with
                    | Some o => <[Pod.Key p := workload_key p o]> m
                    | None => m
                    end) pods ∅.

Definition subject_of (ownerOf : gmap string string) (r : ImpactReason.t) : string :=
  default (ImpactReason.Subject r) (ownerOf !! ImpactReason.Subject r).

Definition group_key (ownerOf : gmap string string) (r : ImpactReason.t) : string :=
  ImpactReason.Kind r +:+ "|" +:+ subject_of ownerOf r.

(** What one reason of a step adds to its group. *)
Definition add_reason (step : PlanStep.t) (r : ImpactReason.t) (g : group.t) : group.t :=
  group.mk (group.kind g) (group.workload g)
    (if (group.why g =? "")%string then ImpactReason.Detail r else group.why g)
    ({[PlanStep.SequenceNumber step]} ∪ group.steps g)
    (if (PlanStep.TargetNode step =? "")%string then group.nodes g
     else {[PlanStep.TargetNode step]} ∪ group.nodes g)
    (if bool_decide (PlanStep.Impact step = ImpactRed) then ImpactRed else group.worst g).

Definition new_group (ownerOf : gmap string string) (step : PlanStep.t) (r : ImpactReason.t) : group.t :=
  group.mk (ImpactReason.Kind r) (subject_of ownerOf r) (ImpactReason.Detail r) ∅ ∅ (PlanStep.Impact step).

(** The groups with the order their keys were first met. *)
Definition file_reason (ownerOf : gmap string string) (step : PlanStep.t)
    (acc : gmap string group.t * list string) (r : ImpactReason.t) : gmap string group.t * list string :=
  let '(groups, order) := acc in
  let key := group_key ownerOf r in
  match groups !! key with
  | Some g => (<[key := add_reason step r g]> groups, order)
  | None => (<[key := add_reason step r (new_group ownerOf step r)]> groups, order ++ [key])
  end.

Definition file_step (ownerOf : gmap string string) (acc : gmap string group.t * list string)
    (step : PlanStep.t) : gmap string group.t * list string :=
  if bool_decide (PlanStep.Impact step = ImpactGreen) then acc
  else fold_left (file_reason ownerOf step) (PlanStep.Reasons step) acc.

Definition finding_of (snap : ClusterSnapshot.t) (g : group.t) : Recommendation.t :=
  Recommendation.mk (group.kind g)
    (if bool_decide (group.worst g = ImpactRed) then SeverityHigh else SeverityMedium)
    (group.workload g) (group.why g) ""
    (sort_by Z.ltb (elements (group.steps g))) (poolsOf (group.nodes g) snap).

Definition fromPlanReasons (plan : option Plan.t) (snap : option ClusterSnapshot.t) : list Recommendation.t :=
  match plan, snap with
  | Some plan, Some snap =>
      let '(groups, order) :=
        fold_left (file_step (owners (ClusterSnapshot.Pods snap))) (Plan.Steps plan) (∅, []) in
      omap (λ key, finding_of snap <$> groups !! key) order
  | _, _ => []
  end.

(** ** Advice *)

Definition platformNamespaces : list string :=
  ["kube-system"; "kube-public"; "kube-node-lease"; "gmp-system"; "gmp-public"].

Definition platform_prefixes : list string :=
  ["gke-managed-"; "gke-system"; "aks-"; "eks-"; "openshift-"].

(** The sample is never nil where the code calls it. *)
Definition notYours (namespace : string) (sample : Pod.t) : bool :=
  existsb (String.eqb namespace) platformNamespaces ||
  existsb (HasPrefix namespace) platform_prefixes ||
  (label (Pod.Labels sample) "app.kubernetes.io/part-of" =? "k8s-dencer")%string.

Fixpoint first_set (labels : gmap string string) (ks : list string) : option (string * string) :=
  match ks with
  | [] => None
  | k :: ks =>
      let v := label labels k in
      if negb (v =? "")%string then Some (k, v) else first_set labels ks
  end.

Definition selectorLabel (p : Pod.t) : option (string * string) :=
  first_set (Pod.Labels p) ["app"; "app.kubernetes.io/name"; "k8s-app"; "component"; "name"].

Module workload.
Record t : Type := mk { namespace : string; kind : string; name : string; sample : Pod.t; others : list Pod.t }.

Definition replicas (w : t) : Z := 1 + Z.of_nat (length (others w)).
End workload.

(** The pods of each workload, terminating ones and those without owner aside. *)
Definition add_pod (m : gmap string workload.t) (p : Pod.t) : gmap string workload.t :=
  match Pod.Owner p with
  | None => m
  | Some o =>
      if Pod.Terminating p then m
      else
        let key := workload_key p o in
        match m !! key with
        | None => <[key := workload.mk (Pod.Namespace p) (OwnerRef.Kind o) (OwnerRef.Name o) p []]> m
        | Some w => <[key := workload.mk (workload.namespace w) (workload.kind w) (workload.name w)
                               (workload.sample w) (workload.others w ++ [p])]> m
        end
  end.

Definition workloads (pods : list Pod.t) : gmap string workload.t := fold_left add_pod pods ∅.

Definition covered (snap : ClusterSnapshot.t) (p : Pod.t) : bool :=
  existsb (λ pdb, (PodDisruptionBudget.Namespace pdb =? Pod.Namespace p)%string &&
                  LabelSelector.Matches (PodDisruptionBudget.Selector pdb) (Pod.Labels p))
    (ClusterSnapshot.PDBs snap).

Definition nl : string := String (Ascii.ascii_of_nat 10) EmptyString.

Definition pdb_yaml (name namespace key value : string) : string :=
  "apiVersion: policy/v1" +:+ nl +:+ "kind: PodDisruptionBudget" +:+ nl +:+ "metadata:" +:+ nl +:+
  "  name: " +:+ name +:+ nl +:+ "  namespace: " +:+ namespace +:+ nl +:+ "spec:" +:+ nl +:+
  "  maxUnavailable: 1" +:+ nl +:+ "  selector:" +:+ nl +:+ "    matchLabels:" +:+ nl +:+
  "      # check this matches every pod of this workload, and only those" +:+ nl +:+
  "      " +:+ key +:+ ": " +:+ value.

Definition requests_yaml (u : Resources.t) : string :=
  "resources:" +:+ nl +:+ "  requests:" +:+ nl +:+
  "    # measured just now — set from your own percentiles, not one sample" +:+ nl +:+
  "    cpu: " +:+ pretty (Resources.MilliCPU u) +:+ "m" +:+ nl +:+
  "    memory: " +:+ pretty (Z.shiftr (Resources.MemoryBytes u) 20) +:+ "Mi".

Definition missing_pdb (snap : ClusterSnapshot.t) (key : string) (w : workload.t) : list Recommendation.t :=
  let sample := workload.sample w in
  if (2 <=? workload.replicas w) && negb (covered snap sample) then
    let why := pretty (workload.replicas w) +:+
      " replicas and no PodDisruptionBudget: evictions are ungoverned, so the API server cannot pace a drain for this workload." in
    match selectorLabel sample with
    | Some (k, v) =>
        [Recommendation.advice "MissingPDB" SeverityMedium key why
           (pdb_yaml (workload.name w) (workload.namespace w) k v)]
    | None =>
        [Recommendation.advice "MissingPDB" SeverityMedium key
           (why +:+ " No single label identifies its pods, so write the selector by hand rather than trusting a generated one.") ""]
    end
  else [].

Definition single_replica (key : string) (w : workload.t) : list Recommendation.t :=
  if (workload.replicas w =? 1) &&
     ((workload.kind w =? "Deployment")%string || (workload.kind w =? "ReplicaSet")%string ||
      (workload.kind w =? "StatefulSet")%string) then
    [Recommendation.advice "SingleReplica" SeverityHigh key
       ("One replica: every eviction — voluntary or a node dying — is downtime. " +:+
        "A second replica turns drains from outages into non-events.") ""]
  else [].

Definition missing_requests (key : string) (w : workload.t) : list Recommendation.t :=
  let r := Pod.Requests (workload.sample w) in
  if (Resources.MilliCPU r =? 0) && (Resources.MemoryBytes r =? 0) then
    let fix_ := match Pod.Usage (workload.sample w) with
                | Some u => if (0 <? Resources.MilliCPU u) || (0 <? Resources.MemoryBytes u)
                            then requests_yaml u else ""
                | None => ""
                end in
    [Recommendation.advice "MissingRequests" SeverityHigh key
       ("No resource requests: the scheduler and every capacity number in this product " +:+
        "are blind to what this workload needs.") fix_]
  else [].

Definition hands_off (key : string) (w : workload.t) : list Recommendation.t :=
  if Pod.DoNotDisrupt (workload.sample w) then
    [Recommendation.advice "HandsOff" SeverityInfo key
       ("Annotated do-not-disrupt (or safe-to-evict: " +:+ quoted "false" +:+ "): this workload will " +:+
        "never be moved by k8s-dencer or the autoscalers. Deliberate — and worth " +:+
        "remembering when this node shows as undrainable.") ""]
  else [].

(** One round of the loop over the workloads. *)
Definition advise (snap : ClusterSnapshot.t) (kw : string * workload.t) : list Recommendation.t :=
  let '(key, w) := kw in
  if (workload.kind w =? "DaemonSet")%string then []
  else if notYours (workload.namespace w) (workload.sample w) then []
  else missing_pdb snap key w ++ single_replica key w ++ missing_requests key w ++ hands_off key w.

Definition zero_headroom (pdb : PodDisruptionBudget.t) : list Recommendation.t :=
  if PodDisruptionBudget.Blocks pdb then
    [Recommendation.advice "ZeroHeadroomPDB" SeverityHigh
       (PodDisruptionBudget.Namespace pdb +:+ "/PodDisruptionBudget/" +:+ PodDisruptionBudget.Name pdb)
       ("Allows 0 disruptions (" +:+ pretty (PodDisruptionBudget.CurrentHealthy pdb) +:+ " healthy, " +:+
        pretty (PodDisruptionBudget.DesiredHealthy pdb) +:+
        " required): every drain is refused and any node loss violates it. Add a replica or lower the requirement.") ""]
  else [].

Definition advice_before (a b : Recommendation.t) : bool :=
  if negb (rank (Recommendation.Severity a) =? rank (Recommendation.Severity b))
  then rank (Recommendation.Severity a) <? rank (Recommendation.Severity b)
  else str_ltb (Recommendation.Workload a) (Recommendation.Workload b).

Definition Build `{MapRange} (snap : ClusterSnapshot.t) : list Recommendation.t :=
  sort_by advice_before
    (flat_map (advise snap) (entries (workloads (ClusterSnapshot.Pods snap))) ++
     flat_map zero_headroom (ClusterSnapshot.PDBs snap)).

(** ** The queue *)

Definition queue_before (a b : Recommendation.t) : bool :=
  let la := Z.of_nat (length (Recommendation.UnblocksSteps a)) in
  let lb := Z.of_nat (length (Recommendation.UnblocksSteps b)) in
  if negb (la =? lb) then lb <? la else advice_before a b.

Definition Queue `{MapRange} (plan : option Plan.t) (snap : ClusterSnapshot.t) : list Recommendation.t :=
  sort_by queue_before (fromPlanReasons plan (Some snap) ++ Build snap).
