(* ===== verification/RecommendProps.v ===== *)
(** * What the queue of findings says *)
From S2P Require Import Prelude GoLib Model Cluster Recommend.

(** ** The order of maps *)

Lemma advice_before_asym a b : advice_before a b = true → advice_before b a = false.
Proof.
  unfold advice_before. destruct (Z.eqb_spec (rank (Recommendation.Severity a)) (rank (Recommendation.Severity b))) as [E|E];
    cbn [negb].
  - rewrite E, Z.eqb_refl. cbn [negb]. apply str_ltb_asym.
  - rewrite (proj2 (Z.eqb_neq _ _) (not_eq_sym E)). cbn [negb]. rewrite Z.ltb_lt, Z.ltb_ge. lia.
Qed.

Lemma advice_before_trans a b c :
  advice_before b a = false → advice_before c b = false → advice_before c a = false.
Proof.
  unfold advice_before. set (ra := rank (Recommendation.Severity a)). set (rb := rank (Recommendation.Severity b)).
  set (rc := rank (Recommendation.Severity c)).
  destruct (Z.eqb_spec rb ra) as [E1|E1], (Z.eqb_spec rc rb) as [E2|E2], (Z.eqb_spec rc ra) as [E3|E3]; cbn [negb];
    rewrite ?Z.ltb_ge; try lia; try (intros; lia). apply str_nltb_trans.
Qed.

Lemma advice_comparable a b :
  Recommendation.Workload a ≠ Recommendation.Workload b → comparable advice_before a b.
Proof.
  intros Hw. unfold comparable, advice_before.
  destruct (Z.eqb_spec (rank (Recommendation.Severity a)) (rank (Recommendation.Severity b))) as [E|E]; cbn [negb].
  - rewrite E, Z.eqb_refl. cbn [negb]. destruct (str_ltb (Recommendation.Workload a) _) eqn:H1; [by left|].
    destruct (str_ltb (Recommendation.Workload b) _) eqn:H2; [by right|]. by destruct Hw; apply str_ltb_total.
  - rewrite (proj2 (Z.eqb_neq _ _) (not_eq_sym E)). cbn [negb]. rewrite !Z.ltb_lt. lia.
Qed.

(** Every finding of a workload carries its key. *)
Lemma advise_workload snap kw r : r ∈ advise snap kw → Recommendation.Workload r = kw.1.
Proof.
  destruct kw as [key w]. unfold advise. destruct (_ =? _)%string; [by intros ?%elem_of_nil|].
  destruct (notYours _ _); [by intros ?%elem_of_nil|]. rewrite !elem_of_app.
  unfold missing_pdb, single_replica, missing_requests, hands_off. cbn zeta.
  intros [H|[H|[H|H]]]; revert H; repeat case_match;
    first [by intros ?%elem_of_nil | by intros ->%list_elem_of_singleton].
Qed.

Lemma Build_order H1 H2 snap : @Build H1 snap = @Build H2 snap.
Proof.
  unfold Build. set (ws := workloads (ClusterSnapshot.Pods snap)).
  assert (Hnd : NoDup (@entries H1 _ ws)) by (rewrite entries_perm; apply NoDup_map_to_list).
  apply (sort_by_blocks advice_before advice_before_asym advice_before_trans); [done|by rewrite !entries_perm|].
  intros [k w] [k' w'] x y Hk Hk' Hne Hx Hy. apply advice_comparable.
  apply advise_workload in Hx as ->. apply advise_workload in Hy as ->. cbn. intros ->. apply Hne.
  rewrite entries_perm in Hk, Hk'. apply elem_of_map_to_list in Hk, Hk'. congruence.
Qed.

(** The queue is a function of the plan and the snapshot: the order in which the
program ranges over its maps, which Go leaves open, never shows. *)
Theorem queue_ignores_map_order H1 H2 plan snap : @Queue H1 plan snap = @Queue H2 plan snap.
Proof. unfold Queue. by rewrite (Build_order H1 H2). Qed.

(** ** Blocking rules *)

(** The reasons of the steps that are not Green, each with its step. *)
Definition attributions (plan : Plan.t) : list (PlanStep.t * ImpactReason.t) :=
  flat_map (λ st, if bool_decide (PlanStep.Impact st = ImpactGreen) then [] else (st,.) <$> PlanStep.Reasons st)
    (Plan.Steps plan).

Lemma elem_of_attributions plan st r :
  (st, r) ∈ attributions plan ↔
  st ∈ Plan.Steps plan ∧ PlanStep.Impact st ≠ ImpactGreen ∧ r ∈ PlanStep.Reasons st.
Proof.
  unfold attributions. rewrite list_elem_of_In, in_flat_map. split.
  - intros (x & Hx & Hin). apply list_elem_of_In in Hx. revert Hin. case_bool_decide; [done|].
    rewrite <- list_elem_of_In. intros (r' & [= -> ->] & Hr)%list_elem_of_fmap. done.
  - intros (Hs & Hi & Hr). exists st. split; [by apply list_elem_of_In|]. rewrite bool_decide_eq_false_2 by done.
    apply list_elem_of_In, list_elem_of_fmap. by exists r.
Qed.

Lemma file_steps ow plan acc :
  fold_left (file_step ow) (Plan.Steps plan) acc =
  fold_left (λ acc '(st, r), file_reason ow st acc r) (attributions plan) acc.
Proof.
  unfold attributions. revert acc. induction (Plan.Steps plan) as [|st steps IH]; intros acc; [done|]. cbn [fold_left flat_map].
  rewrite fold_left_app, IH. f_equal. unfold file_step. case_bool_decide; [done|].
  revert acc. clear IH. induction (PlanStep.Reasons st) as [|r rs IH]; intros acc; [done|]. cbn. apply IH.
Qed.

(** What the groups say of the attributions filed so far. *)
Record filed (ow : gmap string string) (l : list (PlanStep.t * ImpactReason.t))
    (groups : gmap string group.t) (order : list string) : Prop := {
  filed_order : ∀ key, key ∈ order ↔ is_Some (groups !! key);
  filed_all : ∀ st r, (st, r) ∈ l → is_Some (groups !! group_key ow r);
  filed_key : ∀ key g, groups !! key = Some g → key = group.kind g +:+ "|" +:+ group.workload g;
  filed_steps : ∀ key g n, groups !! key = Some g →
    n ∈ group.steps g ↔ ∃ st r, (st, r) ∈ l ∧ group_key ow r = key ∧ PlanStep.SequenceNumber st = n;
  filed_worst : ∀ key g, groups !! key = Some g →
    group.worst g = ImpactRed ↔ ∃ st r, (st, r) ∈ l ∧ group_key ow r = key ∧ PlanStep.Impact st = ImpactRed;
  filed_some : ∀ key g, groups !! key = Some g → ∃ st r, (st, r) ∈ l ∧ group_key ow r = key;
}.

Lemma filed_nil ow : filed ow [] ∅ [].
Proof.
  split.
  - intros key. rewrite lookup_empty, elem_of_nil. split; [done|by intros []].
  - by intros st r ?%elem_of_nil.
  - intros key g. by rewrite lookup_empty.
  - intros key g n. by rewrite lookup_empty.
  - intros key g. by rewrite lookup_empty.
  - intros key g. by rewrite lookup_empty.
Qed.

Lemma filed_add ow l groups order st r groups' order' :
  filed ow l groups order → file_reason ow st (groups, order) r = (groups', order') →
  filed ow (l ++ [(st, r)]) groups' order'.
Proof.
  intros [Ho Ha Hk Hs Hw He] Hf. set (key := group_key ow r).
  (* The group the reason goes to, and what it said before. *)
  assert (Hg : ∃ g, groups' = <[key := add_reason st r g]> groups ∧
    (∀ k, k ∈ order' ↔ k ∈ order ∨ k = key) ∧ key = group.kind g +:+ "|" +:+ group.workload g ∧
    (∀ n, n ∈ group.steps g ↔ ∃ st r, (st, r) ∈ l ∧ group_key ow r = key ∧ PlanStep.SequenceNumber st = n) ∧
    (group.worst g = ImpactRed →
       PlanStep.Impact st = ImpactRed ∨ ∃ st r, (st, r) ∈ l ∧ group_key ow r = key ∧ PlanStep.Impact st = ImpactRed) ∧
    ((∃ st r, (st, r) ∈ l ∧ group_key ow r = key ∧ PlanStep.Impact st = ImpactRed) → group.worst g = ImpactRed)).
  { unfold file_reason in Hf. fold key in Hf. destruct (groups !! key) as [g|] eqn:Hg; simplify_eq.
    - exists g. split_and!; [done| |by apply Hk|intros n; by apply (Hs _ _ n Hg)| |by apply (Hw _ _ Hg)].
      + intros k. split; [by left|]. intros [?| ->]; [done|]. apply Ho. by eexists.
      + intros Hr. right. by apply (Hw _ _ Hg).
    - exists (new_group ow st r).
      assert (Hn : ∀ st' r', (st', r') ∈ l → group_key ow r' ≠ key).
      { intros st' r' Hin E. destruct (Ha _ _ Hin) as [x Hx]. rewrite E in Hx. congruence. }
      split_and!; [done| |done| | |].
      + intros k. by rewrite elem_of_app, list_elem_of_singleton.
      + intros n. split; [by intros ?%elem_of_empty|]. intros (st' & r' & Hin & E & _). by destruct (Hn _ _ Hin).
      + by left.
      + intros (st' & r' & Hin & E & _). by destruct (Hn _ _ Hin). }
  destruct Hg as (g & -> & Horder & Hkey & Hsteps & Hred & Hred').
  assert (Hlast : ∀ (P : PlanStep.t → Prop) k, (∃ st' r', (st', r') ∈ l ++ [(st, r)] ∧ group_key ow r' = k ∧ P st') ↔
    (∃ st' r', (st', r') ∈ l ∧ group_key ow r' = k ∧ P st') ∨ (k = key ∧ P st)).
  { intros P k. split.
    - intros (st' & r' & [Hin|[= -> ->]%list_elem_of_singleton]%elem_of_app & <- & HP); [|by right].
      left. by exists st', r'.
    - intros [(st' & r' & Hin & ? & ?)|[-> HP]]; [exists st', r'|exists st, r]; rewrite elem_of_app, list_elem_of_singleton; auto. }
  split.
  - intros k. rewrite Horder, Ho, lookup_insert_is_Some. destruct (decide (key = k)); naive_solver.
  - intros st' r' [Hin|[= -> ->]%list_elem_of_singleton]%elem_of_app; rewrite lookup_insert_is_Some; [|by left].
    destruct (decide (key = group_key ow r')); [by left|right]. split; [done|]. by eapply Ha.
  - intros k x [[<- <-]|[? Hx]]%lookup_insert_Some; [done|by apply Hk].
  - intros k x n Hx. rewrite (Hlast (λ st', PlanStep.SequenceNumber st' = n)).
    apply lookup_insert_Some in Hx as [[<- <-]|[Hne Hx]].
    + cbn. rewrite elem_of_union, elem_of_singleton, Hsteps. naive_solver.
    + rewrite (Hs _ _ _ Hx). naive_solver.
  - intros k x Hx. rewrite (Hlast (λ st', PlanStep.Impact st' = ImpactRed)).
    apply lookup_insert_Some in Hx as [[<- <-]|[Hne Hx]].
    + cbn. case_bool_decide as Hi; [naive_solver|]. split; [|naive_solver]. intros [?|?]%Hred; naive_solver.
    + rewrite (Hw _ _ Hx). naive_solver.
  - intros k x [[<- <-]|[Hne Hx]]%lookup_insert_Some.
    + exists st, r. rewrite elem_of_app, list_elem_of_singleton. auto.
    + destruct (He _ _ Hx) as (st' & r' & ? & ?). exists st', r'. rewrite elem_of_app. auto.
Qed.

Lemma filed_attributions ow plan :
  ∃ groups order, fold_left (file_step ow) (Plan.Steps plan) (∅, []) = (groups, order) ∧
    filed ow (attributions plan) groups order.
Proof.
  rewrite file_steps.
  assert (Hgen : ∀ l done groups order, filed ow done groups order →
    ∃ g' o', fold_left (λ acc '(st, r), file_reason ow st acc r) l (groups, order) = (g', o') ∧ filed ow (done ++ l) g' o').
  { induction l as [|[st r] l IH]; intros dn groups order Hf; cbn [fold_left].
    { exists groups, order. by rewrite app_nil_r. }
    destruct (file_reason ow st (groups, order) r) as [g1 o1] eqn:E.
    destruct (IH (dn ++ [(st, r)]) g1 o1) as (g' & o' & Hg & Hf'); [by eapply filed_add|].
    exists g', o'. by rewrite <- app_assoc in Hf'. }
  exact (Hgen _ [] _ _ (filed_nil ow)).
Qed.

(** A blocking rule of the queue is exactly the impact classifier's attribution
read back: its steps are those of the plan, not Green, that carry a reason of
that rule about that workload, each once and in order; it is high exactly when
one of them is Red and otherwise medium; and every reason of such a step is
reported. *)
Theorem blocking_rules_exact plan snap :
  let ow := owners (ClusterSnapshot.Pods snap) in
  let holds rec st r := (st, r) ∈ attributions plan ∧
    group_key ow r = Recommendation.Kind rec +:+ "|" +:+ Recommendation.Workload rec in
  (∀ rec, rec ∈ fromPlanReasons (Some plan) (Some snap) →
     Recommendation.UnblocksSteps rec ≠ [] ∧ Sorted Z.lt (Recommendation.UnblocksSteps rec) ∧
     (∀ n, n ∈ Recommendation.UnblocksSteps rec ↔ ∃ st r, holds rec st r ∧ PlanStep.SequenceNumber st = n) ∧
     (Recommendation.Severity rec = SeverityHigh ↔ ∃ st r, holds rec st r ∧ PlanStep.Impact st = ImpactRed) ∧
     Recommendation.Severity rec ≠ SeverityInfo) ∧
  (∀ st r, (st, r) ∈ attributions plan → ∃ rec, rec ∈ fromPlanReasons (Some plan) (Some snap) ∧ holds rec st r).
Proof.
  cbn zeta. set (ow := owners (ClusterSnapshot.Pods snap)).
  destruct (filed_attributions ow plan) as (groups & order & Hfold & [Ho Ha Hk Hs Hw He]).
  assert (Hin : ∀ rec, rec ∈ fromPlanReasons (Some plan) (Some snap) ↔
    ∃ key g, groups !! key = Some g ∧ rec = finding_of snap g).
  { intros rec. unfold fromPlanReasons. fold ow. rewrite Hfold, list_elem_of_omap. split.
    - intros (key & _ & (g & Hg & ->)%fmap_Some). by exists key, g.
    - intros (key & g & Hg & ->). exists key. rewrite Ho, Hg. by split; [eexists|]. }
  split.
  - intros rec (key & g & Hg & ->)%Hin. pose proof (Hk _ _ Hg) as Hkey. cbn. rewrite <- Hkey.
    assert (Hel : ∀ n, n ∈ sort_by Z.ltb (elements (group.steps g)) ↔
      ∃ st r, ((st, r) ∈ attributions plan ∧ group_key ow r = key) ∧ PlanStep.SequenceNumber st = n).
    { intros n. rewrite elem_of_sort_by, elem_of_elements, (Hs _ _ _ Hg). naive_solver. }
    split_and!; [| |done| |by case_bool_decide].
    + intros E. destruct (He _ _ Hg) as (st & r & ? & ?).
      assert (Hn : PlanStep.SequenceNumber st ∈ sort_by Z.ltb (elements (group.steps g))) by (apply Hel; eauto).
      rewrite E in Hn. by apply elem_of_nil in Hn.
    + apply sorted_strict; [|rewrite sort_by_perm; apply NoDup_elements]. apply sort_by_sorted.
      intros a b ?%Z.ltb_lt. apply Z.ltb_ge. lia.
    + case_bool_decide as Hr; [rewrite (Hw _ _ Hg) in Hr; naive_solver|]. split; [done|].
      intros (st & r & [? ?] & ?). destruct Hr. rewrite (Hw _ _ Hg). naive_solver.
  - intros st r Hst. destruct (Ha _ _ Hst) as [g Hg]. exists (finding_of snap g).
    split; [apply Hin; eauto|]. split; [done|]. by apply Hk.
Qed.

(** ** Which workloads are advised *)

Definition owned_by (key : string) (p : Pod.t) : bool :=
  match Pod.Owner p with
  | Some o => negb (Pod.Terminating p) && (workload_key p o =? key)%string
  | None => false
  end.

Definition workload_of (p : Pod.t) (o : OwnerRef.t) (ps : list Pod.t) : workload.t :=
  workload.mk (Pod.Namespace p) (OwnerRef.Kind o) (OwnerRef.Name o) p ps.

(** A workload is its live pods, the first of them the sample. *)
Lemma workloads_lookup pods key :
  workloads pods !! key =
  match filter (λ p, owned_by key p) pods with
  | [] => None
  | p :: ps => (λ o, workload_of p o ps) <$> Pod.Owner p
  end.
Proof.
  unfold workloads. induction pods as [|p pods IH] using rev_ind; [by apply lookup_empty|].
  rewrite fold_left_app, filter_app. cbn [fold_left]. unfold add_pod at 1.
  assert (filter (λ p, owned_by key p) [p] = if owned_by key p then [p] else []) as ->
    by (rewrite filter_cons; by destruct (owned_by key p)).
  set (m := fold_left add_pod pods ∅) in *. unfold owned_by at 3.
  destruct (Pod.Owner p) as [o|] eqn:Ho; [|by rewrite app_nil_r].
  destruct (Pod.Terminating p); cbn [negb andb]; [by rewrite app_nil_r|].
  destruct (String.eqb_spec (workload_key p o) key) as [->|Hne].
  - rewrite IH. destruct (filter _ pods) as [|q qs] eqn:Hq; cbn.
    + by rewrite lookup_insert_eq, Ho.
    + assert (Hin : q ∈ filter (λ p, owned_by key p) pods) by (rewrite Hq; left).
      apply list_elem_of_filter in Hin as [Hin _]. unfold owned_by in Hin.
      destruct (Pod.Owner q); [|done]. cbn. by rewrite lookup_insert_eq.
  - rewrite app_nil_r, <- IH. destruct (m !! workload_key p o); by rewrite lookup_insert_ne.
Qed.

Lemma advice_kinds r snap kw :
  r ∈ advise snap kw → Recommendation.Kind r = "MissingPDB" →
  r ∈ missing_pdb snap kw.1 kw.2.
Proof.
  destruct kw as [key w]. unfold advise. repeat (case_match; [by intros ?%elem_of_nil|]). rewrite !elem_of_app.
  unfold single_replica, missing_requests, hands_off. cbn zeta.
  intros [Hr|[Hr|[Hr|Hr]]] Hk; [done|exfalso..]; revert Hr; repeat case_match;
    first [by intros ?%elem_of_nil | intros ->%list_elem_of_singleton; discriminate Hk].
Qed.

(** A workload is told it misses a disruption budget exactly when at least two of
its pods are not terminating, it is neither a daemon set nor part of the
platform, and no budget of its namespace selects its first pod. *)
Theorem missing_budget_iff `{MapRange} snap key :
  (∃ r, r ∈ Build snap ∧ Recommendation.Kind r = "MissingPDB" ∧ Recommendation.Workload r = key) ↔
  ∃ p q ps o, filter (λ p, owned_by key p) (ClusterSnapshot.Pods snap) = p :: q :: ps ∧ Pod.Owner p = Some o ∧
    OwnerRef.Kind o ≠ "DaemonSet" ∧ notYours (Pod.Namespace p) p = false ∧ covered snap p = false.
Proof.
  unfold Build. setoid_rewrite elem_of_sort_by. setoid_rewrite elem_of_app. split.
  - intros (r & [Hr|Hr] & Hk & Hw); apply list_elem_of_In, in_flat_map in Hr as (kw & Hkw & Hr%list_elem_of_In).
    + destruct kw as [key' w]. apply list_elem_of_In in Hkw. rewrite entries_perm in Hkw.
      apply elem_of_map_to_list in Hkw. assert (key' = key) as ->.
      { by apply advise_workload in Hr as Hr'; rewrite <- Hw, Hr'. }
      rewrite workloads_lookup in Hkw. destruct (filter _ _) as [|p ps] eqn:Hf; [done|].
      apply fmap_Some in Hkw as (o & Ho & ->). pose proof (advice_kinds _ _ _ Hr Hk) as Hm. revert Hr.
      unfold advise, workload_of. cbn. destruct (String.eqb_spec (OwnerRef.Kind o) "DaemonSet"); [by intros ?%elem_of_nil|].
      destruct (notYours _ _) eqn:Hy; [by intros ?%elem_of_nil|]. intros _. revert Hm. unfold missing_pdb. cbn.
      destruct ps as [|q ps]; [by intros ?%elem_of_nil|].
      destruct (covered snap p) eqn:Hc; [rewrite andb_false_r; by intros ?%elem_of_nil|]. intros _.
      by exists p, q, ps, o.
    + unfold zero_headroom in Hr. case_match; [|by apply elem_of_nil in Hr]. apply list_elem_of_singleton in Hr as ->. done.
  - intros (p & q & ps & o & Hf & Ho & Hkind & Hy & Hc).
    assert (Hl : workloads (ClusterSnapshot.Pods snap) !! key = Some (workload_of p o (q :: ps))).
    { by rewrite workloads_lookup, Hf, Ho. }
    assert (∃ r, r ∈ missing_pdb snap key (workload_of p o (q :: ps)) ∧ Recommendation.Kind r = "MissingPDB" ∧
      Recommendation.Workload r = key) as (r & Hr & ? & ?).
    { unfold missing_pdb, workload_of, workload.replicas. cbn [workload.sample workload.others].
      rewrite Hc, (proj2 (Z.leb_le _ _)) by (cbn [length]; lia). cbn [andb negb].
      destruct (selectorLabel p) as [[]|]; (eexists; split; [by apply list_elem_of_singleton|done]). }
    exists r. split; [left|done]. apply list_elem_of_In, in_flat_map. exists (key, workload_of p o (q :: ps)).
    split; apply list_elem_of_In.
    + rewrite entries_perm. by apply elem_of_map_to_list.
    + unfold advise. cbn. rewrite Hy, (proj2 (String.eqb_neq _ _) Hkind). apply elem_of_app. by left.
Qed.
