(* ===== verification/Schemas.v ===== *)
(** * The schema, version by version (internal/store/sqlstore/sqlstore.go)

The statements of each version as they are written, in the spelling of SQLite.
[Dialect] puts them in order and translates them. *)
From S2P Require Import Prelude.

(** Plans and their steps. *)
Definition schemaV1 : string := "
CREATE TABLE IF NOT EXISTS plans (
    id                 TEXT PRIMARY KEY,
    generated_at       TEXT NOT NULL,
    snapshot_taken_at  TEXT NOT NULL,
    status             TEXT NOT NULL,
    strategy           TEXT NOT NULL,
    nodes_before       INTEGER NOT NULL,
    nodes_after        INTEGER NOT NULL,
    snapshot           BLOB NOT NULL,
    analysis           BLOB NOT NULL,
    stored_at          TEXT NOT NULL
);

CREATE INDEX IF NOT EXISTS plans_stored_at ON plans (stored_at DESC);

-- Steps are rows rather than a blob on the plan: doc §5 requires them to be
-- independently addressable and independently executable, and Phase 2 writes
-- per-step audit results back here.
CREATE TABLE IF NOT EXISTS plan_steps (
    plan_id                     TEXT NOT NULL REFERENCES plans(id) ON DELETE CASCADE,
    step_id                     TEXT NOT NULL,
    sequence_number             INTEGER NOT NULL,
    target_node                 TEXT,
    moves                       BLOB NOT NULL,
    impact                      TEXT NOT NULL,
    rationale                   TEXT NOT NULL,
    reasons                     BLOB,
    requires_maintenance_window INTEGER NOT NULL DEFAULT 0,
    executed_at                 TEXT,
    executed_by                 TEXT,
    result                      TEXT,
    PRIMARY KEY (plan_id, sequence_number)
);
".

(** Runs and their audit trail. *)
Definition schemaV2 : string := "
CREATE TABLE IF NOT EXISTS runs (
    id            TEXT PRIMARY KEY,
    -- No ON DELETE CASCADE, deliberately: see Prune. An audit record that
    -- vanishes with its plan is not an audit record.
    plan_id       TEXT NOT NULL,
    steps         BLOB NOT NULL,
    dry_run       INTEGER NOT NULL DEFAULT 0,
    status        TEXT NOT NULL,
    actor         TEXT NOT NULL,
    actor_groups  BLOB,
    requested_at  TEXT NOT NULL,
    started_at    TEXT,
    finished_at   TEXT,
    worker        TEXT,
    summary       TEXT
);

CREATE INDEX IF NOT EXISTS runs_status ON runs (status, requested_at);
CREATE INDEX IF NOT EXISTS runs_plan ON runs (plan_id, requested_at DESC);

CREATE TABLE IF NOT EXISTS run_events (
    run_id    TEXT NOT NULL REFERENCES runs(id) ON DELETE CASCADE,
    sequence  INTEGER NOT NULL,
    at        TEXT NOT NULL,
    level     TEXT NOT NULL,
    step      INTEGER NOT NULL DEFAULT 0,
    node      TEXT,
    pod       TEXT,
    action    TEXT NOT NULL,
    rule      TEXT,
    message   TEXT NOT NULL,
    PRIMARY KEY (run_id, sequence)
);
".

(** What became of drained nodes. *)
Definition schemaV3 : string := "
CREATE TABLE IF NOT EXISTS reclamations (
    node         TEXT NOT NULL,
    drained_at   TEXT NOT NULL,
    run_id       TEXT,
    plan_id      TEXT,
    step         INTEGER,
    -- NULL while the node is still drained and still present.
    resolved_at  TEXT,
    outcome      TEXT,
    -- Keyed on the attempt, not the node: the same node can be drained,
    -- uncordoned and drained again, and each attempt is its own observation.
    PRIMARY KEY (node, drained_at)
);

CREATE INDEX IF NOT EXISTS reclamations_pending ON reclamations (resolved_at);
CREATE INDEX IF NOT EXISTS reclamations_recent ON reclamations (drained_at DESC);
".

(** The mode and the envelope of a run. *)
Definition schemaV4 : string := "
ALTER TABLE runs ADD COLUMN mode TEXT NOT NULL DEFAULT '';
ALTER TABLE runs ADD COLUMN envelope BLOB;
".

(** The capacity of a drained node. *)
Definition schemaV5 : string := "
ALTER TABLE reclamations ADD COLUMN cpu_milli INTEGER NOT NULL DEFAULT 0;
ALTER TABLE reclamations ADD COLUMN mem_bytes INTEGER NOT NULL DEFAULT 0;
".

(** A run for one node. *)
Definition schemaV6 : string := "
ALTER TABLE runs ADD COLUMN node TEXT NOT NULL DEFAULT '';
".

(** The timeline. *)
Definition schemaV7 : string := "
CREATE TABLE IF NOT EXISTS samples (
    taken_at        TEXT NOT NULL,
    nodes           INTEGER NOT NULL,
    pods            INTEGER NOT NULL,
    cpu_req_milli   INTEGER NOT NULL,
    cpu_alloc_milli INTEGER NOT NULL,
    mem_req_bytes   INTEGER NOT NULL,
    mem_alloc_bytes INTEGER NOT NULL,
    cpu_used_milli  INTEGER NOT NULL,
    mem_used_bytes  INTEGER NOT NULL,
    has_usage       INTEGER NOT NULL,
    reclaimable     INTEGER NOT NULL
);
CREATE INDEX IF NOT EXISTS samples_taken_at ON samples (taken_at);
".

(** The packing ceiling of a plan. *)
Definition schemaV8 : string := "
ALTER TABLE plans ADD COLUMN pack_ceiling REAL NOT NULL DEFAULT 0;
".

(** Nodes this product did not drain. *)
Definition schemaV9 : string := "
ALTER TABLE reclamations ADD COLUMN external INTEGER NOT NULL DEFAULT 0;
".

(** What a drained node was. *)
Definition schemaV10 : string := "
ALTER TABLE reclamations ADD COLUMN instance_type TEXT NOT NULL DEFAULT '';
ALTER TABLE reclamations ADD COLUMN capacity_type TEXT NOT NULL DEFAULT '';
".

(** Utilisation per node. *)
Definition schemaV11 : string := "
CREATE TABLE IF NOT EXISTS node_samples (
    node            TEXT NOT NULL,
    taken_at        TEXT NOT NULL,
    cpu_used_milli  INTEGER NOT NULL,
    cpu_alloc_milli INTEGER NOT NULL,
    PRIMARY KEY (node, taken_at)
) WITHOUT ROWID;
CREATE INDEX IF NOT EXISTS node_samples_taken_at ON node_samples (taken_at);
".

(** How long workloads took to come back. *)
Definition schemaV12 : string := "
CREATE TABLE IF NOT EXISTS recoveries (
    workload     TEXT NOT NULL,
    observed_at  TEXT NOT NULL,
    took_seconds INTEGER NOT NULL,
    PRIMARY KEY (workload, observed_at)
) WITHOUT ROWID;
CREATE INDEX IF NOT EXISTS recoveries_observed_at ON recoveries (observed_at);
".

(** A run can be asked to stop. *)
Definition schemaV13 : string := "
ALTER TABLE runs ADD COLUMN stop_requested INTEGER NOT NULL DEFAULT 0;
ALTER TABLE runs ADD COLUMN stop_requested_by TEXT NOT NULL DEFAULT '';
".

(** The order of insertion. *)
Definition schemaV14 : string := "
ALTER TABLE plans ADD COLUMN seq INTEGER NOT NULL DEFAULT 0;
ALTER TABLE runs  ADD COLUMN seq INTEGER NOT NULL DEFAULT 0;
CREATE INDEX IF NOT EXISTS plans_seq ON plans (seq DESC);
CREATE INDEX IF NOT EXISTS runs_seq  ON runs  (seq DESC);
".

(** The integers of version 0.6.0 on PostgreSQL, widened. *)
Definition schemaV15Postgres : string := "
ALTER TABLE node_samples ALTER COLUMN cpu_used_milli TYPE BIGINT;
ALTER TABLE node_samples ALTER COLUMN cpu_alloc_milli TYPE BIGINT;
ALTER TABLE plan_steps ALTER COLUMN sequence_number TYPE BIGINT;
ALTER TABLE plan_steps ALTER COLUMN requires_maintenance_window TYPE BIGINT;
ALTER TABLE plans ALTER COLUMN nodes_before TYPE BIGINT;
ALTER TABLE plans ALTER COLUMN nodes_after TYPE BIGINT;
ALTER TABLE plans ALTER COLUMN seq TYPE BIGINT;
ALTER TABLE reclamations ALTER COLUMN step TYPE BIGINT;
ALTER TABLE reclamations ALTER COLUMN cpu_milli TYPE BIGINT;
ALTER TABLE reclamations ALTER COLUMN mem_bytes TYPE BIGINT;
ALTER TABLE reclamations ALTER COLUMN external TYPE BIGINT;
ALTER TABLE recoveries ALTER COLUMN took_seconds TYPE BIGINT;
ALTER TABLE run_events ALTER COLUMN sequence TYPE BIGINT;
ALTER TABLE run_events ALTER COLUMN step TYPE BIGINT;
ALTER TABLE runs ALTER COLUMN dry_run TYPE BIGINT;
ALTER TABLE runs ALTER COLUMN stop_requested TYPE BIGINT;
ALTER TABLE runs ALTER COLUMN seq TYPE BIGINT;
ALTER TABLE samples ALTER COLUMN nodes TYPE BIGINT;
ALTER TABLE samples ALTER COLUMN pods TYPE BIGINT;
ALTER TABLE samples ALTER COLUMN cpu_req_milli TYPE BIGINT;
ALTER TABLE samples ALTER COLUMN cpu_alloc_milli TYPE BIGINT;
ALTER TABLE samples ALTER COLUMN mem_req_bytes TYPE BIGINT;
ALTER TABLE samples ALTER COLUMN mem_alloc_bytes TYPE BIGINT;
ALTER TABLE samples ALTER COLUMN cpu_used_milli TYPE BIGINT;
ALTER TABLE samples ALTER COLUMN mem_used_bytes TYPE BIGINT;
ALTER TABLE samples ALTER COLUMN has_usage TYPE BIGINT;
ALTER TABLE samples ALTER COLUMN reclaimable TYPE BIGINT;
".
