(* ===== verification/Dialect.v ===== *)
(** * Two servers, one spelling (internal/store/sqlstore/dialect.go, and Migrate of
sqlstore.go)

Queries and schemas are written in SQLite's spelling and rewritten for
PostgreSQL; migrations run in one transaction.  What a server answers to a
statement is an argument. *)
From S2P Require Import Prelude GoLib Schemas.

Inductive dialect : Type := sqliteDialect | postgresDialect.

#[global] Instance dialect_eq_dec : EqDecision dialect.
Proof. solve_decision. Defined.

Definition dialect_string (d : dialect) : string :=
  match d with sqliteDialect => "sqlite" | postgresDialect => "postgres" end.

(** ** Placeholders *)

Definition quote : Ascii.ascii := "'"%char.
Definition double_quote : Ascii.ascii := Ascii.ascii_of_nat 34.
Definition placeholder : Ascii.ascii := "?"%char.

(** The state of the scan: inside single quotes, inside double quotes. *)
Definition quoting : Type := bool * bool.

Definition scan (q : quoting) (c : Ascii.ascii) : quoting :=
  let '(inSingle, inDouble) := q in
  if Ascii.eqb c quote && negb inDouble then (negb inSingle, inDouble)
  else if Ascii.eqb c double_quote && negb inSingle then (inSingle, negb inDouble)
  else q.

Definition is_hole (q : quoting) (c : Ascii.ascii) : bool := Ascii.eqb c placeholder && negb q.1 && negb q.2.

(** The loop of [rebind], with [n] placeholders numbered so far. *)
Fixpoint rebind_from (query : string) (n : Z) (q : quoting) : string :=
  match query with
  | EmptyString => EmptyString
  | String c query =>
      if is_hole q c then String "$"%char (pretty (n + 1)) +:+ rebind_from query (n + 1) q
      else String c (rebind_from query n (scan q c))
  end.

Fixpoint has_char (c : Ascii.ascii) (s : string) : bool :=
  match s with EmptyString => false | String c' s => Ascii.eqb c' c || has_char c s end.

Definition rebind (d : dialect) (query : string) : string :=
  if negb (bool_decide (d = postgresDialect)) || negb (has_char placeholder query) then query
  else rebind_from query 0 (false, false).

(** ** Types of columns *)

Definition ddlTypes (w : string) : string :=
  if (w =? "BLOB")%string then "BYTEA"
  else if (w =? "REAL")%string then "DOUBLE PRECISION"
  else if (w =? "INTEGER")%string then "BIGINT"
  else w.

(** What [\b] takes for part of a word: letters, digits, underscore. *)
Definition is_word (c : Ascii.ascii) : bool :=
  let n := Ascii.N_of_ascii c in
  ((48 <=? n) && (n <=? 57) || (65 <=? n) && (n <=? 90) || (97 <=? n) && (n <=? 122) || (n =? 95))%N.

(** A match of [\b(BLOB|REAL|INTEGER)\b] is a whole word: [w] is the word read so
far. *)
Fixpoint translate_words (ddl w : string) : string :=
  match ddl with
  | EmptyString => ddlTypes w
  | String c ddl =>
      if is_word c then translate_words ddl (w +:+ String c EmptyString)
      else ddlTypes w +:+ String c (translate_words ddl EmptyString)
  end.

(** [strings.ReplaceAll] for a text that is not empty; [fuel] bounds the scan by the
length of [s]. *)
Fixpoint replace_from (old new s : string) (fuel : nat) : string :=
  match fuel, s with
  | O, _ | _, EmptyString => s
  | S fuel, String c rest =>
      if HasPrefix s old then new +:+ replace_from old new (str_drop (String.length old) s) fuel
      else String c (replace_from old new rest fuel)
  end.

Definition ReplaceAll (s old new : string) : string := replace_from old new s (String.length s).

Definition translateDDL (d : dialect) (ddl : string) : string :=
  if negb (bool_decide (d = postgresDialect)) then ddl
  else translate_words (ReplaceAll ddl ") WITHOUT ROWID;" ");") EmptyString.

(** ** Migrations *)

Module Schema.

(** The version the database records, and the statements that made it. *)
Record t : Type := mk { version : Z; statements : list string }.

End Schema.

Definition schemaVersion : Z := 15.

(** PostgreSQL only: an integer of SQLite was never narrow. *)
Definition schemaV15 (d : dialect) : string :=
  match d with postgresDialect => schemaV15Postgres | sqliteDialect => "" end.

Definition migrations (d : dialect) : list string :=
  [schemaV1; schemaV2; schemaV3; schemaV4; schemaV5; schemaV6; schemaV7; schemaV8; schemaV9; schemaV10; schemaV11;
   schemaV12; schemaV13; schemaV14; schemaV15 d].

Definition backfill (table : string) : string := "UPDATE " +:+ table +:+ " SET seq = rowid WHERE seq = 0".

(** [backfillSeq] *)
Definition backfillSeq (d : dialect) : list string :=
  match d with postgresDialect => [] | sqliteDialect => [backfill "plans"; backfill "runs"] end.

(** What one schema version executes. *)
Definition migration (d : dialect) (v : Z) (ddl : string) : list string :=
  (if (TrimSpace ddl =? "")%string then [] else [translateDDL d ddl]) ++
  (if v =? 14 then backfillSeq d else []).

(** The loop over the versions after [v]. *)
Fixpoint pending (d : dialect) (current v : Z) (ddls : list string) : list string :=
  match ddls with
  | [] => []
  | ddl :: ddls =>
      (if v + 1 <=? current then [] else migration d (v + 1) ddl) ++ pending d current (v + 1) ddls
  end.

(** [exec]: the error of a statement after those executed before it. *)
Fixpoint execute (exec : list string → string → option string) (done todo : list string) : string + list string :=
  match todo with
  | [] => inr done
  | st :: todo =>
      match exec done st with
      | Some err => inl err
      | None => execute exec (done ++ [st]) todo
      end
  end.

(** What the server answers during one call: [begin] covers starting the
transaction, taking the lock and reading the version; [finish] recording the
version and committing. *)
Module answers.
Record t : Type := mk { begin : option string; exec : list string → string → option string; finish : option string }.
End answers.

(** An error rolls everything back. *)
Definition Migrate (d : dialect) (a : answers.t) (s : Schema.t) : option string * Schema.t :=
  match answers.begin a with
  | Some err => (Some err, s)
  | None =>
      if schemaVersion <=? Schema.version s then (None, s)
      else match execute (answers.exec a) (Schema.statements s) (pending d (Schema.version s) 0 (migrations d)) with
           | inl err => (Some err, s)
           | inr done =>
               match answers.finish a with
               | Some err => (Some err, s)
               | None => (None, Schema.mk schemaVersion done)
               end
           end
  end.
