(* ===== verification/Dsn.v ===== *)
(** * Opening the store (internal/store/sqlstore/fromenv.go)

Which database the environment names, and the connection string for it, with
the parts of [net] and [net/url] it is put together by; then the connection string
read back. *)
From S2P Require Import Prelude GoLib GoText GoTime GoFlag.

(** ** The environment *)

Abbreviation environ := (gmap string string).

(** [os.Getenv] *)
Definition Getenv (e : environ) (key : string) : string := default "" (e !! key).

(** [env]: an empty value is none. *)
Definition env (e : environ) (key def : string) : string :=
  let v := Getenv e key in if negb (v =? "")%string then v else def.

(** ** net/url *)

Inductive encoding : Type := encodeHost | encodePath | encodeUserPassword | encodeQueryComponent.

Definition hex_digit (n : Z) : Ascii.ascii :=
  Ascii.ascii_of_N (Z.to_N (if n <? 10 then 48 + n else 55 + n)).

Definition is_alphanumeric (c : Ascii.ascii) : bool :=
  let n := byte c in is_digit c || ((97 <=? n) && (n <=? 122)) || ((65 <=? n) && (n <=? 90)).

Definition one_of (set : string) (c : Ascii.ascii) : bool := in_set set c.

Definition dquote_string : string := String (Ascii.ascii_of_nat 34) EmptyString.

Definition shouldEscape (mode : encoding) (c : Ascii.ascii) : bool :=
  if is_alphanumeric c then false
  else if match mode with encodeHost => one_of ("!$&'()*+,;=:[]<>" +:+ dquote_string) c | _ => false end then false
  else if one_of "-_.~" c then false
  else if one_of "$&+,/:;=?@" c then
    match mode with
    | encodePath => Ascii.eqb c "?"%char
    | encodeUserPassword => one_of "@/?:" c
    | encodeQueryComponent | encodeHost => true
    end
  else true.

Definition escaped (c : Ascii.ascii) : string :=
  String "%"%char (String (hex_digit (byte c / 16)) (String (hex_digit (byte c mod 16)) EmptyString)).

Definition space : Ascii.ascii := " "%char.

Fixpoint escape (mode : encoding) (s : string) : string :=
  match s with
  | EmptyString => EmptyString
  | String c s =>
      (if shouldEscape mode c then
         match mode with
         | encodeQueryComponent => if Ascii.eqb c space then "+" else escaped c
         | _ => escaped c
         end
       else String c EmptyString) +:+ escape mode s
  end.

Module Userinfo.
Record t : Type := mk { username : string; password : option string }.

Definition to_string (u : t) : string :=
  match password u with
  | Some pw => escape encodeUserPassword (username u) +:+ ":" +:+ escape encodeUserPassword pw
  | None => escape encodeUserPassword (username u)
  end.
End Userinfo.

Module URL.
Record t : Type := mk { Scheme : string; User : Userinfo.t; Host : string; Path : string; RawQuery : string }.

(** [URL.String], where there are a scheme, a host, and a path from the root. *)
Definition to_string (u : t) : string :=
  Scheme u +:+ "://" +:+ Userinfo.to_string (User u) +:+ "@" +:+ escape encodeHost (Host u) +:+
  escape encodePath (Path u) +:+ (if (RawQuery u =? "")%string then "" else "?" +:+ RawQuery u).
End URL.

(** [Values.Encode] of values under keys already in order *)
Definition Encode (q : list (string * string)) : string :=
  join "&" ((λ '(k, v), escape encodeQueryComponent k +:+ "=" +:+ escape encodeQueryComponent v) <$> q).

(** [net.JoinHostPort] *)
Definition JoinHostPort (host port : string) : string :=
  if in_set host ":"%char then "[" +:+ host +:+ "]:" +:+ port else host +:+ ":" +:+ port.

(** ** fromenv.go *)

Definition verified (mode ca : string) : string :=
  if negb (ca =? "")%string || (mode =? "verify-full")%string || (mode =? "verify-ca")%string
  then "server certificate verified" else "server certificate NOT verified".

(** An error, or the connection string and its description. *)
Definition postgresDSN (e : environ) : string + string * string :=
  let host := env e "POSTGRES_HOST" "" in
  if (host =? "")%string then inl "DATABASE_TYPE is postgres but POSTGRES_HOST is empty"
  else
    let port := env e "POSTGRES_PORT" "5432" in
    let name := TrimPrefix (env e "POSTGRES_DATABASE" "dencer") "/" in
    let user := env e "POSTGRES_USER" "dencer" in
    let pw := env e "POSTGRES_PASSWORD" "" in
    let mode := env e "POSTGRES_SSLMODE" "require" in
    let ca := env e "POSTGRES_SSLROOTCERT" "" in
    let addr := JoinHostPort host port in
    let q := ("sslmode", mode) :: (if negb (ca =? "")%string then [("sslrootcert", ca)] else []) in
    let u := URL.mk "postgres" (Userinfo.mk user (if negb (pw =? "")%string then Some pw else None))
               addr ("/" +:+ name) (Encode q) in
    inr (URL.to_string u,
         "postgres at " +:+ addr +:+ "/" +:+ name +:+ " (sslmode=" +:+ mode +:+ ", " +:+ verified mode ca +:+ ")").

(** What is opened: a file, or a server by its connection string. *)
Inductive target : Type := Sqlite (dsn : string) | Postgres (dsn : string).

(** The connection string of [Open]. *)
Definition sqlite_dsn (path : string) : string :=
  "file:" +:+ path +:+ "?_pragma=journal_mode(WAL)&_pragma=busy_timeout(5000)&_pragma=foreign_keys(1)".

(** [dial] is the error of reaching the database, as [Open] and [OpenPostgres] wrap it. *)
Definition OpenFromEnv (e : environ) (dial : target → option string) : string + target * string :=
  let reach t desc := match dial t with Some err => inl err | None => inr (t, desc) end in
  let type := env e "DATABASE_TYPE" "sqlite" in
  if (type =? "sqlite")%string then
    let path := env e "DATABASE_PATH" "/data/dencer.db" in
    reach (Sqlite (sqlite_dsn path)) ("sqlite at " +:+ path)
  else if (type =? "postgres")%string then
    match postgresDSN e with
    | inl err => inl err
    | inr (dsn, desc) => reach (Postgres dsn) desc
    end
  else inl ("unsupported DATABASE_TYPE " +:+ quoted type +:+ ": want sqlite or postgres").

Example postgresDSN_example :
  postgresDSN (<["POSTGRES_HOST" := "::1"]> (<["POSTGRES_PASSWORD" := "p@ss/w:d"]> ∅)) =
  inr ("postgres://dencer:p%40ss%2Fw%3Ad@[::1]:5432/dencer?sslmode=require",
       "postgres at [::1]:5432/dencer (sslmode=require, server certificate NOT verified)").
Proof. by vm_compute. Qed.

(** * Where the store is

The connection string read back, as a client reads an address. *)

#[local] Arguments String.append : simpl nomatch.

(** ** Percent encoding read back *)

Definition unhex (c : Ascii.ascii) : option Z := v ← digit_value c; if v <? 16 then Some v else None.

Fixpoint unescape (form : bool) (s : string) : option string :=
  match s with
  | EmptyString => Some EmptyString
  | String c rest =>
      if Ascii.eqb c "%"%char then
        match rest with
        | String a (String b rest) =>
            x ← unhex a; y ← unhex b; String (Ascii.ascii_of_N (Z.to_N (16 * x + y))) <$> unescape form rest
        | _ => None
        end
      else String (if form && Ascii.eqb c "+"%char then space else c) <$> unescape form rest
  end.

(** A query is a form: it has [+] for a space. *)
Definition is_form (mode : encoding) : bool := match mode with encodeQueryComponent => true | _ => false end.

Definition one_byte (mode : encoding) (c : Ascii.ascii) : string := escape mode (String c EmptyString).

Lemma escape_cons mode c s : escape mode (String c s) = one_byte mode c +:+ escape mode s.
Proof. unfold one_byte. cbn. by rewrite str_app_nil_r. Qed.

(** Each byte is read back, whatever follows. *)
Lemma unescape_byte mode c s :
  unescape (is_form mode) (one_byte mode c +:+ s) = String c <$> unescape (is_form mode) s.
Proof. by destruct mode, c as [[] [] [] [] [] [] [] []]. Qed.

Lemma unescape_escape mode s : unescape (is_form mode) (escape mode s) = Some s.
Proof. induction s as [|c s IH]; [done|]. by rewrite escape_cons, unescape_byte, IH. Qed.

(** What escaping leaves no trace of. *)
Definition reserved (mode : encoding) : string :=
  match mode with
  | encodeHost => "/?#@"
  | encodePath => "?#"
  | encodeUserPassword => "/?#@:"
  | encodeQueryComponent => "/?#@&="
  end.

Lemma in_set_in set c : in_set set c = true ↔ In c (String.list_ascii_of_string set).
Proof.
  unfold in_set. rewrite existsb_exists. split.
  - by intros (r & Hr & ->%Ascii.eqb_eq).
  - intros Hc. exists c. split; [done|]. by apply Ascii.eqb_eq.
Qed.

(** The cases of a separator. *)
Ltac separators H := apply in_set_in in H; cbn in H; repeat destruct H as [<-|H]; try done.

Lemma reserved_escaped mode c s : in_set (reserved mode) c = true → no_char c (escape mode s) = true.
Proof.
  intros Hc. induction s as [|x s IH]; [done|]. rewrite escape_cons, no_char_app, IH, andb_true_r.
  destruct mode; separators Hc; by destruct x as [[] [] [] [] [] [] [] []].
Qed.

(** ** A connection string read back *)

(** Split after the last [@] there is; here there is one. *)
Definition read_user (s : string) : option (string * option string) :=
  match Cut s ":"%char with
  | Some (user, pw) => u ← unescape false user; p ← unescape false pw; Some (u, Some p)
  | None => u ← unescape false s; Some (u, None)
  end.

Definition read_pair (s : string) : option (string * string) :=
  '(k, v) ← Cut s "="%char; k ← unescape true k; v ← unescape true v; Some (k, v).

Module Address.
Record t : Type := mk {
  user : string; password : option string; host : string; path : string; params : list (string * string);
}.
End Address.

(** The parts of an address by its separators: the query begins at the first
question mark, the path at the first slash, and the host after the at sign. *)
Definition read_address (s : string) : option Address.t :=
  let s := TrimPrefix s "postgres://" in
  '(s, q) ← Cut s "?"%char;
  '(authority, path) ← Cut s "/"%char;
  '(who, host) ← Cut authority "@"%char;
  '(user, pw) ← read_user who;
  host ← unescape false host;
  path ← unescape false path;
  params ← mapM read_pair (Split_on "&"%char q);
  Some (Address.mk user pw host path params).

Lemma read_user_back u :
  read_user (Userinfo.to_string u) = Some (Userinfo.username u, Userinfo.password u).
Proof.
  destruct u as [user [pw|]]; unfold Userinfo.to_string, read_user; cbn [Userinfo.username Userinfo.password].
  - change (":" +:+ ?x) with (String ":" x). rewrite Cut_at by (by apply reserved_escaped).
    rewrite (unescape_escape encodeUserPassword). cbn. by rewrite (unescape_escape encodeUserPassword).
  - rewrite Cut_none by (by apply reserved_escaped). by rewrite (unescape_escape encodeUserPassword).
Qed.

Lemma user_avoids u c : in_set "/?#@" c = true → no_char c (Userinfo.to_string u) = true.
Proof.
  intros Hc. destruct u as [user [pw|]]; unfold Userinfo.to_string; cbn [Userinfo.username Userinfo.password];
    rewrite ?no_char_app, ?reserved_escaped by separators Hc; separators Hc.
Qed.

Definition pair_text (kv : string * string) : string :=
  escape encodeQueryComponent kv.1 +:+ "=" +:+ escape encodeQueryComponent kv.2.

Lemma read_pair_back kv : read_pair (pair_text kv) = Some kv.
Proof.
  destruct kv as [k v]. unfold read_pair, pair_text. cbn [fst snd]. change ("=" +:+ ?x) with (String "=" x).
  rewrite Cut_at by (by apply reserved_escaped). cbn. rewrite (unescape_escape encodeQueryComponent). cbn.
  by rewrite (unescape_escape encodeQueryComponent).
Qed.

Lemma pair_avoids kv c : in_set "/?#@&" c = true → no_char c (pair_text kv) = true.
Proof. intros Hc. unfold pair_text. rewrite !no_char_app, !reserved_escaped by separators Hc. separators Hc. Qed.

Lemma Encode_pairs q : Encode q = join "&" (pair_text <$> q).
Proof. unfold Encode. f_equal. apply list_fmap_ext. by intros _ [k v] _. Qed.

Lemma read_query_back q : q ≠ [] → mapM read_pair (Split_on "&" (Encode q)) = Some q.
Proof.
  intros Hq. rewrite Encode_pairs. change "&" with (String "&" "").
  rewrite Split_on_join.
  - apply mapM_Some. induction q as [|kv q' IH]; constructor; [apply read_pair_back|].
    destruct q'; [constructor|by apply IH].
  - by destruct q.
  - intros w (kv & -> & _)%list_elem_of_fmap. by apply pair_avoids.
Qed.

Lemma pair_not_empty kv s : pair_text kv +:+ s ≠ "".
Proof. unfold pair_text. by destruct (escape encodeQueryComponent kv.1). Qed.

Lemma Encode_not_empty q : q ≠ [] → (Encode q =? "")%string = false.
Proof.
  intros Hq. apply String.eqb_neq. rewrite Encode_pairs. destruct q as [|kv [|kv' q]]; [done| |].
  - rewrite <- (str_app_nil_r (join _ _)). apply pair_not_empty.
  - apply pair_not_empty.
Qed.

Lemma trim_scheme s : TrimPrefix ("postgres" +:+ "://" +:+ s) "postgres://" = s.
Proof. by destruct s. Qed.

Lemma read_address_back user host name q :
  q ≠ [] →
  read_address (URL.to_string (URL.mk "postgres" user host ("/" +:+ name) (Encode q))) =
  Some (Address.mk (Userinfo.username user) (Userinfo.password user) host name q).
Proof.
  intros Hq. unfold URL.to_string. cbn [URL.Scheme URL.User URL.Host URL.Path URL.RawQuery].
  rewrite Encode_not_empty by done. set (w := Userinfo.to_string user). set (h := escape encodeHost host).
  change (escape encodePath ("/" +:+ name)) with (String "/" (escape encodePath name)).
  set (p := escape encodePath name). change ("?" +:+ ?x) with (String "?" x). change ("@" +:+ ?x) with (String "@" x).
  assert (read_address ("postgres" +:+ "://" +:+ ((w +:+ String "@" h) +:+ String "/" p) +:+ String "?" (Encode q)) =
    Some (Address.mk (Userinfo.username user) (Userinfo.password user) host name q)) as H.
  { unfold read_address. rewrite trim_scheme.
    rewrite Cut_at.
    2: { rewrite !no_char_app. cbn. subst w h p. by rewrite user_avoids, !reserved_escaped. }
    cbn [mbind option_bind]. rewrite Cut_at.
    2: { rewrite !no_char_app. cbn. subst w h. by rewrite user_avoids, reserved_escaped. }
    cbn [mbind option_bind]. rewrite Cut_at by (subst w; by apply user_avoids).
    cbn [mbind option_bind]. subst w h p.
    rewrite read_user_back. cbn [mbind option_bind]. rewrite (unescape_escape encodeHost). cbn [mbind option_bind].
    rewrite (unescape_escape encodePath). cbn [mbind option_bind]. by rewrite read_query_back. }
  rewrite <- H. f_equal. by rewrite !str_app_assoc.
Qed.

(** What the environment asks for: an empty value counts as none. *)
Definition configured (e : environ) : Address.t :=
  let pw := Getenv e "POSTGRES_PASSWORD" in
  let ca := Getenv e "POSTGRES_SSLROOTCERT" in
  Address.mk (env e "POSTGRES_USER" "dencer") (if (pw =? "")%string then None else Some pw)
    (JoinHostPort (Getenv e "POSTGRES_HOST") (env e "POSTGRES_PORT" "5432"))
    (TrimPrefix (env e "POSTGRES_DATABASE" "dencer") "/")
    (("sslmode", env e "POSTGRES_SSLMODE" "require") :: (if (ca =? "")%string then [] else [("sslrootcert", ca)])).

(** C34: whatever bytes the environment holds, the connection string, read as an
address, names the user, the password, the server, the database and the encryption
that are configured and nothing else, encryption being required where nothing is
said; only a missing host is refused; and the description that is logged is the
same for every password. *)
Theorem connection_as_configured e :
  match postgresDSN e with
  | inl _ => Getenv e "POSTGRES_HOST" = ""
  | inr (dsn, desc) =>
      Getenv e "POSTGRES_HOST" ≠ "" ∧ read_address dsn = Some (configured e) ∧
      ∀ pw, ∃ dsn', postgresDSN (<["POSTGRES_PASSWORD" := pw]> e) = inr (dsn', desc)
  end.
Proof.
  assert (Hother : ∀ pw key def, key ≠ "POSTGRES_PASSWORD" → env (<["POSTGRES_PASSWORD" := pw]> e) key def = env e key def).
  { intros pw key def Hk. unfold env, Getenv. by rewrite lookup_insert_ne. }
  assert (Hval : ∀ key, env e key "" = Getenv e key).
  { intros key. unfold env. by destruct (String.eqb_spec (Getenv e key) "") as [->|]. }
  unfold postgresDSN. rewrite !Hval.
  destruct (String.eqb_spec (Getenv e "POSTGRES_HOST") "") as [|Hh]; [done|]. split_and!; [done| |].
  - rewrite read_address_back by done. unfold configured. cbn [Userinfo.username Userinfo.password].
    by destruct (Getenv e "POSTGRES_PASSWORD" =? "")%string, (Getenv e "POSTGRES_SSLROOTCERT" =? "")%string.
  - intros pw. rewrite (Hother pw "POSTGRES_HOST"), (Hother pw "POSTGRES_PORT"), (Hother pw "POSTGRES_DATABASE"),
      (Hother pw "POSTGRES_USER"), (Hother pw "POSTGRES_SSLMODE"), (Hother pw "POSTGRES_SSLROOTCERT") by done.
    rewrite !Hval. rewrite (proj2 (String.eqb_neq _ _) Hh). eexists. reflexivity.
Qed.
