(* ===== verification/DialectProps.v ===== *)
(** * What the rewriting and the migrations guarantee *)
From S2P Require Import Prelude GoLib Schemas Dialect.

#[local] Arguments String.append : simpl nomatch.

(** ** Placeholders *)

(** The state after a text. *)
Fixpoint after (s : string) (q : quoting) : quoting :=
  match s with EmptyString => q | String c s => after s (scan q c) end.

(** The placeholders of a text: its question marks outside quotes. *)
Fixpoint holes (s : string) (q : quoting) : nat :=
  match s with
  | EmptyString => 0
  | String c s => (if is_hole q c then 1 else 0) + holes s (scan q c)
  end%nat.

(** A query cut at its placeholders, and put together with numbers for them. *)
Fixpoint weave (n : Z) (ps : list string) : string :=
  match ps with
  | [] => EmptyString
  | p :: ps => String "$"%char (pretty (n + 1)) +:+ p +:+ weave (n + 1) ps
  end.

Fixpoint plain_weave (ps : list string) : string :=
  match ps with
  | [] => EmptyString
  | p :: ps => String placeholder p +:+ plain_weave ps
  end.

Lemma hole_keeps q c : is_hole q c = true → c = placeholder ∧ scan q c = q ∧ q = (false, false).
Proof.
  unfold is_hole, scan. destruct q as [a b]. cbn.
  intros [[Hc Ha]%andb_true_iff Hb]%andb_true_iff. apply Ascii.eqb_eq in Hc as ->.
  apply negb_true_iff in Ha as ->, Hb as ->. done.
Qed.

(** The abstract reading of the loop. *)
Lemma rebind_cut s n q :
  ∃ p ps, s = p +:+ plain_weave ps ∧ rebind_from s n q = p +:+ weave n ps ∧
    length ps = holes s q ∧ holes p q = 0%nat ∧
    ∀ x, x ∈ ps → holes x (false, false) = 0%nat.
Proof.
  revert n q. induction s as [|c s IH]; intros n q; cbn.
  { exists "", []. split_and!; try done. intros x Hx. by apply elem_of_nil in Hx. }
  destruct (is_hole q c) eqn:E.
  - destruct (hole_keeps q c E) as (-> & Eq & Es). rewrite Eq.
    destruct (IH (n + 1) q) as (p & ps & -> & -> & Hl & Hp & Hps).
    exists "", (p :: ps). split_and!; try done.
    + by cbn; rewrite Hl.
    + intros x [->|Hx]%elem_of_cons; [|by apply Hps]. by rewrite <- Es.
  - destruct (IH n (scan q c)) as (p & ps & -> & -> & Hl & Hp & Hps).
    exists (String c p), ps. split_and!; try done. cbn. by rewrite E, Hp.
Qed.

(** ** Numbers hold neither quotes nor placeholders *)

Definition inert (c : Ascii.ascii) : bool :=
  negb (Ascii.eqb c quote) && negb (Ascii.eqb c double_quote) && negb (Ascii.eqb c placeholder).

Fixpoint all_chars (f : Ascii.ascii → bool) (s : string) : bool :=
  match s with EmptyString => true | String c s => f c && all_chars f s end.

Lemma pretty_N_go_chars x s : all_chars inert s = true → all_chars inert (pretty_N_go x s) = true.
Proof.
  revert s. induction (N.lt_wf_0 x) as [x _ IH]; intros s Hs.
  assert (x = 0 ∨ 0 < x)%N as [->|?] by lia; [done|].
  rewrite pretty_N_go_step by done. apply IH; [by apply N.div_lt|]. cbn. rewrite Hs, andb_true_r.
  unfold pretty_N_char. by repeat case_match.
Qed.

Lemma pretty_chars (z : Z) : all_chars inert (pretty z) = true.
Proof.
  destruct z as [|p|p]; [done| |]; unfold pretty, pretty_Z, pretty, pretty_N; cbn;
    by apply (pretty_N_go_chars (N.pos p) "").
Qed.

Lemma holes_inert t s q : all_chars inert t = true → holes (t +:+ s) q = holes s q.
Proof.
  induction t as [|c t IH]; [done|]. cbn. intros [Hc Ht]%andb_true_iff.
  apply andb_true_iff in Hc as [[H1 H2]%andb_true_iff H3]. rewrite negb_true_iff in H1, H2, H3.
  unfold is_hole, scan. destruct q as [a b]. rewrite H1, H2, H3. cbn. by apply IH.
Qed.

Lemma rebind_no_holes s n q : holes (rebind_from s n q) q = 0%nat.
Proof.
  revert n q. induction s as [|c s IH]; intros n q; cbn; [done|].
  destruct (is_hole q c) eqn:E.
  - destruct (hole_keeps q c E) as (_ & _ & ->).
    change (holes (String "$"%char (pretty (n + 1)) +:+ rebind_from s (n + 1) (false, false)) (false, false) = 0%nat).
    rewrite holes_inert; [apply IH|]. cbn. apply pretty_chars.
  - cbn. by rewrite E, IH.
Qed.

Lemma no_holes_same s n q : holes s q = 0%nat → rebind_from s n q = s.
Proof.
  revert q. induction s as [|c s IH]; intros q; cbn; [done|].
  destruct (is_hole q c); cbn; [done|]. intros Hs. by rewrite IH.
Qed.

Lemma no_char_no_holes s q : has_char placeholder s = false → holes s q = 0%nat.
Proof.
  revert q. induction s as [|c s IH]; intros q; cbn; [done|].
  intros [Hc Hs]%orb_false_iff. unfold is_hole. rewrite Hc. cbn. by apply IH.
Qed.

Lemma rebind_postgres s : rebind postgresDialect s = rebind_from s 0 (false, false).
Proof.
  unfold rebind. rewrite bool_decide_eq_true_2 by done. cbn.
  destruct (has_char placeholder s) eqn:E; [done|]. cbn. symmetry. by apply no_holes_same, no_char_no_holes.
Qed.

(** For PostgreSQL a query is cut exactly at its question marks outside quotes,
and put together again with [$1], [$2], ... in their place, in order; what is
quoted stays as it is, no placeholder is left, and rewriting again changes
nothing.  SQLite gets the query as it is written. *)
Theorem rebind_numbers_placeholders query :
  rebind sqliteDialect query = query ∧
  rebind postgresDialect (rebind postgresDialect query) = rebind postgresDialect query ∧
  holes (rebind postgresDialect query) (false, false) = 0%nat ∧
  ∃ p ps, query = p +:+ plain_weave ps ∧ rebind postgresDialect query = p +:+ weave 0 ps ∧
    length ps = holes query (false, false) ∧ holes p (false, false) = 0%nat ∧
    ∀ x, x ∈ ps → holes x (false, false) = 0%nat.
Proof.
  rewrite !rebind_postgres. split_and!; [done| |apply rebind_no_holes|apply rebind_cut].
  apply no_holes_same, rebind_no_holes.
Qed.

(** ** Types of columns *)

(** The words of a text; [w] is the one being read. *)
Fixpoint words (s w : string) : list string :=
  match s with
  | EmptyString => [w]
  | String c s => if is_word c then words s (w +:+ String c EmptyString) else w :: words s EmptyString
  end.

Definition foreign (w : string) : Prop := w ≠ "BLOB" ∧ w ≠ "REAL" ∧ w ≠ "INTEGER".

Lemma words_app w s u : all_chars is_word w = true → words (w +:+ s) u = words s (u +:+ w).
Proof.
  revert u. induction w as [|c w IH]; intros u; cbn; [by rewrite str_app_nil_r|].
  intros [-> Hw]%andb_true_iff. rewrite IH by done. by rewrite str_app_assoc.
Qed.

Lemma all_chars_app f s t : all_chars f (s +:+ t) = all_chars f s && all_chars f t.
Proof. induction s as [|c s IH]; cbn; [done|]. by rewrite IH, andb_assoc. Qed.

(** A translated word, followed by the end or by what is no part of a word. *)
Lemma ddlTypes_words w s :
  all_chars is_word w = true →
  (∃ ws, words (ddlTypes w) "" = ws ∧ Forall foreign ws) ∧
  ∀ c, is_word c = false →
    ∃ ws, words (ddlTypes w +:+ String c s) "" = ws ++ words s "" ∧ Forall foreign ws.
Proof.
  intros Hw. unfold ddlTypes.
  destruct (String.eqb_spec w "BLOB") as [->|H1]; [|destruct (String.eqb_spec w "REAL") as [->|H2];
    [|destruct (String.eqb_spec w "INTEGER") as [->|H3]]].
  1-3: split; [eexists; split; [reflexivity|]; by repeat constructor|]; intros c Hc.
  - exists ["BYTEA"]. cbn. rewrite Hc. split; [done|]. by repeat constructor.
  - exists ["DOUBLE"; "PRECISION"]. cbn. rewrite Hc. split; [done|]. by repeat constructor.
  - exists ["BIGINT"]. cbn. rewrite Hc. split; [done|]. by repeat constructor.
  - split.
    + exists [w]. rewrite <- (str_app_nil_r w) at 1. rewrite words_app by done. cbn. split; [done|].
      by repeat constructor.
    + intros c Hc. exists [w]. rewrite words_app by done. cbn. rewrite Hc. split; [done|]. by repeat constructor.
Qed.

Lemma translate_words_foreign s w :
  all_chars is_word w = true → Forall foreign (words (translate_words s w) "").
Proof.
  revert w. induction s as [|c s IH]; intros w Hw; cbn.
  - destruct (ddlTypes_words w "" Hw) as [(ws & -> & Hf) _]. done.
  - destruct (is_word c) eqn:E.
    + apply IH. rewrite all_chars_app, Hw. cbn. by rewrite E.
    + destruct (ddlTypes_words w (translate_words s "") Hw) as [_ Hc].
      destruct (Hc c E) as (ws & -> & Hf). apply Forall_app. split; [done|]. by apply IH.
Qed.

(** No column of a schema sent to PostgreSQL has a type of SQLite's that is
narrower there: none of its words is BLOB, REAL or INTEGER.  SQLite gets the
schema as it is written. *)
Theorem postgres_types ddl w :
  translateDDL sqliteDialect ddl = ddl ∧
  (w ∈ words (translateDDL postgresDialect ddl) "" → foreign w).
Proof.
  split; [done|]. unfold translateDDL. rewrite bool_decide_eq_true_2 by done. cbn.
  assert (Hf := translate_words_foreign (ReplaceAll ddl ") WITHOUT ROWID;" ");") "" eq_refl).
  rewrite Forall_forall in Hf. apply Hf.
Qed.

(** ** Migrations *)

Lemma execute_all exec done todo r : execute exec done todo = inr r → r = done ++ todo.
Proof.
  revert done. induction todo as [|st todo IH]; intros done; cbn; [intros [= <-]; by rewrite app_nil_r|].
  destruct (exec done st); [done|]. intros E. by rewrite (IH _ E), <- app_assoc.
Qed.

(** The schema a complete migration makes of [s]. *)
Definition migrated (d : dialect) (s : Schema.t) : Schema.t :=
  Schema.mk schemaVersion (Schema.statements s ++ pending d (Schema.version s) 0 (migrations d)).

Lemma Migrate_spec d a s :
  (Migrate d a s).2 = s ∧ (schemaVersion <= Schema.version s ∨ (Migrate d a s).1 ≠ None) ∨
  Schema.version s < schemaVersion ∧ Migrate d a s = (None, migrated d s).
Proof.
  unfold Migrate. destruct (answers.begin a); [left; split; [done|by right]|].
  destruct (Z.leb_spec schemaVersion (Schema.version s)); [left; split; [done|by left]|].
  destruct (execute _ _ _) as [err|l] eqn:E; [left; split; [done|by right]|].
  destruct (answers.finish a); [left; split; [done|by right]|].
  right. split; [done|]. by rewrite (execute_all _ _ _ _ E).
Qed.


(** ** What the columns of the schema can hold *)

(** SQL read just far enough: comments dropped, statements apart, what is between
commas apart, each piece as its words. *)
Definition newline : Ascii.ascii := Ascii.ascii_of_nat 10.

Definition uncommented (line : string) : string :=
  match String.index 0 "--" line with Some n => str_take n line | None => line end.

Definition blank (c : Ascii.ascii) : bool := existsb (Ascii.eqb c) [" "%char; newline; "("%char; ")"%char].

Fixpoint blanks_apart (s w : string) : list string :=
  match s with
  | EmptyString => [w]
  | String c s => if blank c then w :: blanks_apart s EmptyString else blanks_apart s (w +:+ String c EmptyString)
  end.

Definition sql_words (piece : string) : list string := List.filter (λ w, negb (w =? "")%string) (blanks_apart piece "").

Definition sql_statements (sql : string) : list (list (list string)) :=
  map (λ st, map sql_words (Split_on ","%char st))
    (Split_on ";"%char (join (String newline EmptyString) (map uncommented (Split_on newline sql)))).

(** The columns of one statement that are declared with type [ty]. *)
Definition declared_in (ty : string) (st : list (list string)) : list (string * string) :=
  match st with
  | ("CREATE" :: "TABLE" :: "IF" :: "NOT" :: "EXISTS" :: t :: first) :: pieces =>
      omap (λ p, match p with c :: ty' :: _ => if (ty' =? ty)%string then Some (t, c) else None | _ => None end)
        (first :: pieces)
  | ["ALTER" :: "TABLE" :: t :: "ADD" :: "COLUMN" :: c :: ty' :: _] => if (ty' =? ty)%string then [(t, c)] else []
  | _ => []
  end%string.

Definition declared (ty sql : string) : list (string * string) := sql_statements sql ≫= declared_in ty.

(** The columns one statement gives the type [ty] that were there before. *)
Definition altered_in (ty : string) (st : list (list string)) : list (string * string) :=
  match st with
  | ["ALTER" :: "TABLE" :: t :: "ALTER" :: "COLUMN" :: c :: "TYPE" :: ty' :: _] => if (ty' =? ty)%string then [(t, c)] else []
  | _ => []
  end%string.

Definition altered (ty sql : string) : list (string * string) := sql_statements sql ≫= altered_in ty.

Example declared_integers :
  declared "INTEGER" schemaV2 = [("runs", "dry_run"); ("run_events", "sequence"); ("run_events", "step")] ∧
  declared "INTEGER" schemaV9 = [("reclamations", "external")].
Proof. by vm_compute. Qed.

Definition column_in (l : list (string * string)) (c : string * string) : bool :=
  existsb (λ c', (c'.1 =? c.1)%string && (c'.2 =? c.2)%string) l.

(** The last version widens what any version declares an integer. *)
Lemma last_version_widens :
  forallb (column_in (altered "BIGINT" (translateDDL postgresDialect schemaV15Postgres)))
    (migrations postgresDialect ≫= declared "INTEGER") = true.
Proof. by vm_compute. Qed.

Lemma column_in_elem l c : column_in l c = true → c ∈ l.
Proof.
  intros ([t n] & Hin & [Ht Hn]%andb_true_iff)%existsb_exists. cbn in *.
  apply String.eqb_eq in Ht, Hn. apply list_elem_of_In. destruct c as [t' n']. cbn in *. by subst.
Qed.

Lemma pending_last d current :
  current < schemaVersion →
  ∃ sts, pending d current 0 (migrations d) = sts ++ migration d 15 (schemaV15 d).
Proof.
  intros Hc. unfold schemaVersion in Hc. unfold migrations. cbn [pending].
  rewrite app_nil_r. change (0 + 1 + 1 + 1 + 1 + 1 + 1 + 1 + 1 + 1 + 1 + 1 + 1 + 1 + 1 + 1) with 15.
  rewrite (proj2 (Z.leb_gt 15 current)) by lia. rewrite !app_assoc. eexists. reflexivity.
Qed.

Lemma last_version_not_blank : (TrimSpace (schemaV15 postgresDialect) =? "")%string = false.
Proof. by vm_compute. Qed.

(** C33: after a start that brings a PostgreSQL schema up to date, whatever version
it had, a statement has been executed for each column that any version declares an
integer, giving it 64 bits; the schema versions are as many as the number says. *)
Theorem upgrade_widens_integers a s t c :
  Schema.version s < schemaVersion →
  (Migrate postgresDialect a s).1 = None →
  (t, c) ∈ migrations postgresDialect ≫= declared "INTEGER" →
  Z.of_nat (length (migrations postgresDialect)) = schemaVersion ∧
  ∃ st, st ∈ Schema.statements (Migrate postgresDialect a s).2 ∧ (t, c) ∈ altered "BIGINT" st.
Proof.
  intros Hv Hok Hin. split; [done|].
  exists (translateDDL postgresDialect schemaV15Postgres). split.
  - destruct (Migrate_spec postgresDialect a s) as [[_ [?|?]]|[_ ->]]; [lia|done|].
    cbn [snd migrated Schema.statements]. destruct (pending_last postgresDialect (Schema.version s) Hv) as [sts ->].
    apply elem_of_app. right. apply elem_of_app. right. unfold migration.
    rewrite last_version_not_blank. by left.
  - apply column_in_elem. pose proof last_version_widens as Hw. rewrite forallb_forall in Hw. apply Hw.
    by apply list_elem_of_In.
Qed.

Theorem upgrade_widens_integers_witness :
  ∃ st, st ∈ Schema.statements (Migrate postgresDialect (answers.mk None (λ _ _, None) None) (Schema.mk 14 [])).2 ∧
    ("reclamations", "mem_bytes") ∈ altered "BIGINT" st.
Proof.
  apply (upgrade_widens_integers (answers.mk None (λ _ _, None) None) (Schema.mk 14 []) "reclamations" "mem_bytes").
  - by vm_compute.
  - by vm_compute.
  - apply column_in_elem. by vm_compute.
Defined.
