(* ===== verification/Auth.v ===== *)
(** * Who is calling, and what they may do (internal/auth)

Credentials are judged by the Kubernetes API server: a token by [TokenReview],
a permission by [SubjectAccessReview].  Both are calls whose answer is an
argument here.  The model keeps what the code adds: where a credential is read
from, the cache of reviewed tokens, and the decision of the middleware. *)
From S2P Require Import Prelude GoLib.

Inductive Source : Type := SourceToken | SourceProxy | SourceAnonymous.

#[global] Instance Source_eq_dec : EqDecision Source.
Proof. solve_decision. Defined.

Module Identity.

Record t : Type := mk {
  Username : string;
  UID : string;
  Groups : list string;
  Extra : gmap string (list string);
  Source : Auth.Source;
}.

(** [i.Source == SourceAnonymous] *)
Definition IsAnonymous (i : t) : bool := bool_decide (Source i = SourceAnonymous).

End Identity.

Definition Anonymous : Identity.t := Identity.mk "system:anonymous" "" [] ∅ SourceAnonymous.

Module Resource.

Record t : Type := mk { Group : string; Resource : string; Verb : string }.

#[global] Instance t_eq_dec : EqDecision t.
Proof. solve_decision. Defined.

(** [Resource.String] *)
Definition to_string (r : t) : string := Verb r +:+ " " +:+ Resource r +:+ "." +:+ Group r.

End Resource.

Definition ReadPlans : Resource.t := Resource.mk "dencer.io" "plans" "get".
Definition ExecuteConsolidations : Resource.t := Resource.mk "dencer.io" "consolidations" "create".

Module TrustedProxy.
Record t : Type := mk { Enabled : bool; UserHeader : string; GroupsHeader : string }.
End TrustedProxy.

Module OIDCInfo.
Record t : Type := mk { Enabled : bool; IssuerURL : string; ClientID : string; Scopes : list string }.
End OIDCInfo.

Module Info.
Record t : Type := mk { Enabled : bool; AnonymousRead : bool; OIDC : OIDCInfo.t }.
End Info.

Module Config.

Record t : Type := mk {
  Enabled : bool;
  AllowAnonymousRead : bool;
  Audiences : list string;
  Namespace : string;
  OperatorRoleName : string;
  TokenCacheTTL : duration;
  OIDC : OIDCInfo.t;
  TrustedProxy : TrustedProxy.t;
}.

Definition Describe (c : t) : Info.t := Info.mk (Enabled c) (AllowAnonymousRead c) (OIDC c).

End Config.

Definition DefaultTokenCacheTTL : duration := 30 * Second.

(** ** Errors

[Unavailable] is any other error: the review itself could not be made. *)

Inductive AuthError : Type :=
| ErrNoCredentials
| InvalidTokenError (Reason : string)
| Unavailable (msg : string).

Module DeniedError.

Record t : Type := mk { Identity : Identity.t; Resource : Resource.t; Reason : string }.

Definition Error (e : t) : string :=
  let msg := "user " +:+ quoted (Identity.Username (Identity e)) +:+ " cannot " +:+
    Resource.to_string (Resource e) in
  if (Reason e =? "")%string then msg else msg +:+ ": " +:+ Reason e.

End DeniedError.

Inductive AuthzError : Type :=
| Denied (e : DeniedError.t)
| AuthzUnavailable (msg : string).

(** ** The request

[Header.Get] of net/http: the first value of a field, whatever the case of its
name, and the empty string when there is none. *)

Abbreviation Header := (gmap string string) (only parsing).

Definition Header_Get (h : Header) (name : string) : string := default "" (h !! ToLower name).

Definition bearerToken (h : Header) : string :=
  let v := Header_Get h "Authorization" in
  if (String.length v <? 7)%nat || negb (EqualFold (str_take 7 v) "bearer ") then ""
  else TrimSpace (str_drop 7 v).

Definition hashToken (token : string) : string := SHA256.sum_hex token.

(** ** The token cache *)

Definition maxCachedTokens : nat := 1024.

Module cacheEntry.
Record t : Type := mk { identity : Identity.t; expiresAt : time }.
End cacheEntry.

Module tokenCache.

Record t : Type := mk { ttl : duration; entries : gmap string cacheEntry.t }.

Definition newTokenCache (ttl : duration) : t := mk ttl ∅.

(** [!now.Before(e.expiresAt)] *)
Definition expired (now : time) (e : cacheEntry.t) : bool := negb (Before now (cacheEntry.expiresAt e)).

Definition get (key : string) (now : time) (c : t) : option Identity.t * t :=
  match entries c !! key with
  | None => (None, c)
  | Some e =>
      if expired now e then (None, mk (ttl c) (delete key (entries c)))
      else (Some (cacheEntry.identity e), c)
  end.

(** The loop of [put] over a full cache: the order it visits the entries in does
not matter. *)
Definition purge (now : time) (m : gmap string cacheEntry.t) : gmap string cacheEntry.t :=
  filter (λ kv, expired now kv.2 = false) m.

Definition put (key : string) (id : Identity.t) (now : time) (c : t) : t :=
  let insert m := mk (ttl c) (<[key := cacheEntry.mk id (time_Add now (ttl c))]> m) in
  if (maxCachedTokens <=? size (entries c))%nat then
    let m := purge now (entries c) in
    if (maxCachedTokens <=? size m)%nat then mk (ttl c) m else insert m
  else insert (entries c).

End tokenCache.

(** ** Authentication *)

Module UserInfo.
Record t : Type := mk { Username : string; UID : string; Groups : list string;
                        Extra : gmap string (list string) }.
End UserInfo.

Module TokenReviewStatus.
Record t : Type := mk { Authenticated : bool; Error : string; User : UserInfo.t }.
End TokenReviewStatus.

(** What the API server answers to a review of a token for some audiences. *)
Abbreviation TokenReviews := (string → list string → string + TokenReviewStatus.t)%type.

(** An empty map and the nil map are the same map. *)
Definition extraFromUserInfo (m : gmap string (list string)) : gmap string (list string) := m.

Definition reviewed (u : UserInfo.t) : Identity.t :=
  Identity.mk (UserInfo.Username u) (UserInfo.UID u) (UserInfo.Groups u)
    (extraFromUserInfo (UserInfo.Extra u)) SourceToken.

Definition NewAuthenticator (cfg : Config.t) : tokenCache.t :=
  tokenCache.newTokenCache
    (if Config.TokenCacheTTL cfg <=? 0 then DefaultTokenCacheTTL else Config.TokenCacheTTL cfg).

Abbreviation authentication := (Identity.t * option AuthError)%type.

(** The clock is read before the cache is asked ([t0]) and again, when the
review has answered, before it is filled ([t1]). *)
Definition authenticateToken (cfg : Config.t) (reviews : TokenReviews) (t0 t1 : time)
    (token : string) (c : tokenCache.t) : authentication * tokenCache.t :=
  let key := hashToken token in
  let '(hit, c) := tokenCache.get key t0 c in
  match hit with
  | Some id => ((id, None), c)
  | None =>
      match reviews token (Config.Audiences cfg) with
      | inl err => ((Anonymous, Some (Unavailable err)), c)
      | inr st =>
          if TokenReviewStatus.Authenticated st then
            let id := reviewed (TokenReviewStatus.User st) in
            ((id, None), tokenCache.put key id t1 c)
          else
            let reason := if (TokenReviewStatus.Error st =? "")%string then "not authenticated"
                          else TokenReviewStatus.Error st in
            ((Anonymous, Some (InvalidTokenError reason)), c)
      end
  end.

Definition proxyIdentity (cfg : Config.t) (h : Header) : option Identity.t :=
  let p := Config.TrustedProxy cfg in
  if negb (TrustedProxy.Enabled p) || (TrustedProxy.UserHeader p =? "")%string then None
  else
    let user := TrimSpace (Header_Get h (TrustedProxy.UserHeader p)) in
    if (user =? "")%string then None
    else
      let groups :=
        if (TrustedProxy.GroupsHeader p =? "")%string then []
        else List.filter (λ g, negb (g =? "")%string)
               (TrimSpace <$> Split_on (Ascii.ascii_of_nat 44) (Header_Get h (TrustedProxy.GroupsHeader p))) in
      Some (Identity.mk user "" groups ∅ SourceProxy).

Definition Authenticate (cfg : Config.t) (reviews : TokenReviews) (t0 t1 : time)
    (h : Header) (c : tokenCache.t) : authentication * tokenCache.t :=
  let token := bearerToken h in
  if negb (token =? "")%string then authenticateToken cfg reviews t0 t1 token c
  else match proxyIdentity cfg h with
       | Some id => ((id, None), c)
       | None => ((Anonymous, Some ErrNoCredentials), c)
       end.

(** ** Authorization *)

Module SubjectAccessReviewSpec.
Record t : Type := mk { User : string; UID : string; Groups : list string;
                        Extra : gmap string (list string);
                        Namespace : string; Group : string; Resource : string; Verb : string }.
End SubjectAccessReviewSpec.

Module SubjectAccessReviewStatus.
Record t : Type := mk { Allowed : bool; Denied : bool; Reason : string; EvaluationError : string }.
End SubjectAccessReviewStatus.

Abbreviation AccessReviews :=
  (SubjectAccessReviewSpec.t → string + SubjectAccessReviewStatus.t)%type.

Definition extraToSAR (m : gmap string (list string)) : gmap string (list string) := m.

Definition access_spec (namespace : string) (id : Identity.t) (res : Resource.t) : SubjectAccessReviewSpec.t :=
  SubjectAccessReviewSpec.mk (Identity.Username id) (Identity.UID id) (Identity.Groups id)
    (extraToSAR (Identity.Extra id)) namespace (Resource.Group res) (Resource.Resource res)
    (Resource.Verb res).

(** [None] is the nil error. *)
Definition Authorize (namespace : string) (access : AccessReviews) (id : Identity.t) (res : Resource.t) :
    option AuthzError :=
  if Identity.IsAnonymous id then
    Some (Denied (DeniedError.mk id res "no credentials presented"))
  else
    match access (access_spec namespace id res) with
    | inl err => Some (AuthzUnavailable err)
    | inr st =>
        if SubjectAccessReviewStatus.Denied st || negb (SubjectAccessReviewStatus.Allowed st) then
          Some (Denied (DeniedError.mk id res (SubjectAccessReviewStatus.Reason st)))
        else if negb (SubjectAccessReviewStatus.EvaluationError st =? "")%string then
          Some (Denied (DeniedError.mk id res (SubjectAccessReviewStatus.EvaluationError st)))
        else None
    end.

(** ** The middleware *)

Module Refusal.

(** The body of a refusal; a [403] also names the permission, the reason and a
command that grants it, where they are known. *)
Record t : Type := mk {
  status : Z;
  code : string;
  error : string;
  denied : option DeniedError.t;
  grantWith : string;
}.

End Refusal.

(** What happens to a request: the handler runs, with the identity on its
context when there is one, or the middleware answers. *)
Inductive gate : Type :=
| Serve (id : option Identity.t)
| Refuse (r : Refusal.t).

Definition unauthorized (msg : string) : gate := Refuse (Refusal.mk 401 "unauthenticated" msg None "").

Definition unavailable (msg : string) : gate := Refuse (Refusal.mk 500 "unavailable" msg None "").

Definition grantHint (cfg : Config.t) (e : DeniedError.t) : string :=
  let role := Config.OperatorRoleName cfg in
  let ns := Config.Namespace cfg in
  let user := quoted (Identity.Username (DeniedError.Identity e)) in
  if (role =? "")%string || Identity.IsAnonymous (DeniedError.Identity e) then ""
  else if (ns =? "")%string then
    "kubectl create clusterrolebinding dencer-operator --clusterrole=" +:+ role +:+ " --user=" +:+ user
  else
    "kubectl create rolebinding dencer-operator -n " +:+ ns +:+ " --clusterrole=" +:+ role +:+
      " --user=" +:+ user.

Definition forbidden (cfg : Config.t) (e : DeniedError.t) : gate :=
  Refuse (Refusal.mk 403 "forbidden"
    ("user " +:+ quoted (Identity.Username (DeniedError.Identity e)) +:+ " may not " +:+
       Resource.to_string (DeniedError.Resource e)) (Some e) (grantHint cfg e)).

(** [authn] is what [Authenticate] returned for the request. *)
Definition decide_gate (cfg : Config.t) (access : AccessReviews) (res : Resource.t)
    (authn : authentication) : gate :=
  let '(id, err) := authn in
  match err with
  | Some ErrNoCredentials =>
      if negb (Config.AllowAnonymousRead cfg && bool_decide (res = ReadPlans)) then
        unauthorized "authentication required"
      else Serve (Some id)
  | Some (InvalidTokenError _) => unauthorized "invalid or expired credentials"
  | Some (Unavailable _) => unavailable "could not verify credentials"
  | None =>
      match Authorize (Config.Namespace cfg) access id res with
      | Some (Denied e) => forbidden cfg e
      | Some (AuthzUnavailable _) => unavailable "could not check permissions"
      | None => Serve (Some id)
      end
  end.

(** [Require] on one request.  With authentication off the handler is returned
as it is, and nothing is put on the context. *)
Definition Require (cfg : Config.t) (reviews : TokenReviews) (access : AccessReviews) (t0 t1 : time)
    (res : Resource.t) (h : Header) (c : tokenCache.t) : gate * tokenCache.t :=
  if negb (Config.Enabled cfg) then (Serve None, c)
  else let '(authn, c) := Authenticate cfg reviews t0 t1 h c in (decide_gate cfg access res authn, c).
