(* ===== verification/AuthProps.v ===== *)
(** * What the middleware lets through (internal/auth)

Exactly which requests reach a handler; what stands behind an identity taken
from the token cache, over any sequence of requests; and the bound of that
cache. *)
From S2P Require Import Prelude GoLib Auth.

(** ** A single request *)

(** A credential of the request establishes the identity: a token with a live
cache entry or a review that accepts it, or, without a token, the headers of a
trusted proxy. *)
Definition established (cfg : Config.t) (reviews : TokenReviews) (t0 : time) (h : Header)
    (c : tokenCache.t) (id : Identity.t) : Prop :=
  let tok := bearerToken h in
  (tok ≠ "" ∧
   match tokenCache.entries c !! hashToken tok with
   | Some e => if Before t0 (cacheEntry.expiresAt e) then id = cacheEntry.identity e
               else ∃ st, reviews tok (Config.Audiences cfg) = inr st ∧
                      TokenReviewStatus.Authenticated st = true ∧ id = reviewed (TokenReviewStatus.User st)
   | None => ∃ st, reviews tok (Config.Audiences cfg) = inr st ∧
               TokenReviewStatus.Authenticated st = true ∧ id = reviewed (TokenReviewStatus.User st)
   end) ∨
  (tok = "" ∧ proxyIdentity cfg h = Some id).

(** Nothing that could identify the caller: no token, and no proxy header that
the configuration trusts. *)
Definition no_credentials (cfg : Config.t) (h : Header) : Prop :=
  bearerToken h = "" ∧ proxyIdentity cfg h = None.

(** The cluster's own rules allow it, without a deny and without an error. *)
Definition granted (cfg : Config.t) (access : AccessReviews) (id : Identity.t) (res : Resource.t) : Prop :=
  Identity.Source id ≠ SourceAnonymous ∧
  ∃ st, access (access_spec (Config.Namespace cfg) id res) = inr st ∧
    SubjectAccessReviewStatus.Allowed st = true ∧ SubjectAccessReviewStatus.Denied st = false ∧
    SubjectAccessReviewStatus.EvaluationError st = "".

Lemma Authorize_None cfg access id res :
  Authorize (Config.Namespace cfg) access id res = None ↔ granted cfg access id res.
Proof.
  unfold Authorize, granted, Identity.IsAnonymous. case_bool_decide as Ha; [by split; [|intros [? _]]|].
  destruct (access _) as [err|st].
  { split; [done|]. by intros (_ & ? & ? & _). }
  destruct (SubjectAccessReviewStatus.Denied st) eqn:Hd; cbn [orb].
  { split; [done|]. intros (_ & st' & [= <-] & _ & ? & _). congruence. }
  destruct (SubjectAccessReviewStatus.Allowed st) eqn:Hl; cbn [negb].
  2:{ split; [done|]. intros (_ & st' & [= <-] & ? & _). congruence. }
  destruct (String.eqb_spec (SubjectAccessReviewStatus.EvaluationError st) "") as [He|He]; cbn [negb].
  - split; [|done]. intros _. split; [done|]. by exists st.
  - split; [done|]. intros (_ & st' & [= <-] & _ & _ & ?). done.
Qed.

(** What [Authenticate] returns with no error. *)
Lemma Authenticate_ok cfg reviews t0 t1 h c id :
  (Authenticate cfg reviews t0 t1 h c).1 = (id, None) ↔ established cfg reviews t0 h c id.
Proof.
  unfold Authenticate, established. destruct (String.eqb_spec (bearerToken h) "") as [He|He]; cbn [negb].
  { rewrite He. destruct (proxyIdentity cfg h) as [i|] eqn:Hp; cbn; split.
    - intros [= ->]. by right.
    - intros [[? _]|[_ [= ->]]]; done.
    - done.
    - by intros [[? _]|[_ ?]]. }
  unfold authenticateToken, tokenCache.get, tokenCache.expired.
  assert (Hr : ∀ c', (match reviews (bearerToken h) (Config.Audiences cfg) with
      | inl err => ((Anonymous, Some (Unavailable err)), c')
      | inr st => if TokenReviewStatus.Authenticated st then
           ((reviewed (TokenReviewStatus.User st), None), tokenCache.put (hashToken (bearerToken h))
              (reviewed (TokenReviewStatus.User st)) t1 c')
         else ((Anonymous, Some (InvalidTokenError (if (TokenReviewStatus.Error st =? "")%string
              then "not authenticated" else TokenReviewStatus.Error st))), c')
      end).1 = (id, None) ↔
      ∃ st, reviews (bearerToken h) (Config.Audiences cfg) = inr st ∧
        TokenReviewStatus.Authenticated st = true ∧ id = reviewed (TokenReviewStatus.User st)).
  { intros c'. destruct (reviews _ _) as [err|st]; cbn.
    - split; [done|]. by intros (? & ? & _).
    - destruct (TokenReviewStatus.Authenticated st) eqn:Ha; cbn; split; try done.
      + intros [= <-]. by exists st.
      + by intros (st' & [= <-] & _ & ->).
      + intros (st' & [= <-] & ? & _). congruence. }
  destruct (tokenCache.entries c !! hashToken (bearerToken h)) as [e|]; cbn [fst].
  - destruct (Before t0 (cacheEntry.expiresAt e)); cbn [negb].
    + split; [intros [= <-]; by left|]. by intros [[_ ->]|[? _]].
    + rewrite Hr. split; [by left|]. by intros [[_ ?]|[? _]].
  - rewrite Hr. split; [by left|]. by intros [[_ ?]|[? _]].
Qed.

Lemma Authenticate_none cfg reviews t0 t1 h c i :
  (Authenticate cfg reviews t0 t1 h c).1 = (i, Some ErrNoCredentials) ↔
  i = Anonymous ∧ no_credentials cfg h.
Proof.
  unfold Authenticate, no_credentials. destruct (String.eqb_spec (bearerToken h) "") as [He|He]; cbn [negb].
  { destruct (proxyIdentity cfg h); cbn; split; try done; [by intros (_ & _ & ?)|by intros [= <-]|by intros [-> _]]. }
  split; [|by intros (_ & ? & _)]. unfold authenticateToken.
  destruct (tokenCache.get _ _ _) as [[id|] c']; [done|].
  destruct (reviews _ _) as [err|st]; [done|]. by destruct (TokenReviewStatus.Authenticated st).
Qed.

(** Who the gate lets through. *)
Lemma Require_serves cfg reviews access t0 t1 res h c id :
  Config.Enabled cfg = true →
  (Require cfg reviews access t0 t1 res h c).1 = Serve (Some id) ↔
  (established cfg reviews t0 h c id ∧ granted cfg access id res) ∨
  (no_credentials cfg h ∧ id = Anonymous ∧ Config.AllowAnonymousRead cfg = true ∧ res = ReadPlans).
Proof.
  intros Hen. unfold Require. rewrite Hen. cbn [negb].
  pose proof (Authenticate_ok cfg reviews t0 t1 h c) as Hok.
  pose proof (Authenticate_none cfg reviews t0 t1 h c) as Hno.
  destruct (Authenticate cfg reviews t0 t1 h c) as [[i err] c']. cbn [fst] in *.
  unfold decide_gate. destruct err as [[| |]|].
  - destruct (proj1 (Hno i) eq_refl) as [-> Hn].
    assert (Hne : ∀ id, ¬ established cfg reviews t0 h c id) by (by intros id' ?%Hok).
    destruct (Config.AllowAnonymousRead cfg); cbn; [case_bool_decide as Hr|]; cbn; split.
    + intros [= <-]. by right.
    + intros [[?%Hne _]|(_ & -> & _)]; done.
    + done.
    + intros [[?%Hne _]|(_ & _ & _ & ?)]; done.
    + done.
    + intros [[?%Hne _]|(_ & _ & ? & _)]; done.
  - cbn. split; [done|]. intros [[?%Hok _]|[Hn _]]; [done|]. by pose proof (proj2 (Hno Anonymous) (conj eq_refl Hn)).
  - cbn. split; [done|]. intros [[?%Hok _]|[Hn _]]; [done|]. by pose proof (proj2 (Hno Anonymous) (conj eq_refl Hn)).
  - pose proof (proj1 (Hok i) eq_refl) as He. pose proof (Authorize_None cfg access i res) as Hz.
    assert (Hnn : ¬ no_credentials cfg h).
    { intros Hn. by pose proof (proj2 (Hno Anonymous) (conj eq_refl Hn)). }
    destruct (Authorize _ _ _ _) as [[d|m]|]; cbn.
    + split; [done|]. intros [[?%Hok Hg]|[? _]]; [|done]. simplify_eq. by apply Hz in Hg.
    + split; [done|]. intros [[?%Hok Hg]|[? _]]; [|done]. simplify_eq. by apply Hz in Hg.
    + split; [intros [= <-]; left; split; [done|by apply Hz]|].
      intros [[?%Hok Hg]|[? _]]; by simplify_eq.
Qed.

(** C25: with authentication on, a handler runs for exactly two kinds of request:
one whose credential establishes an identity that is not anonymous and that the
cluster's access review grants the permission at that moment; and, where
anonymous reading is configured, one without credentials for the read
permission.  A request to change the cluster is never of the second kind. *)
Theorem served_iff cfg reviews access t0 t1 res h c id :
  Config.Enabled cfg = true →
  (Require cfg reviews access t0 t1 res h c).1 = Serve (Some id) ↔
  (established cfg reviews t0 h c id ∧ granted cfg access id res) ∨
  (no_credentials cfg h ∧ id = Anonymous ∧ Config.AllowAnonymousRead cfg = true ∧ res = ReadPlans).
Proof. apply Require_serves. Qed.

(** ** Any sequence of requests *)

Module attempt.
Record t : Type := mk { reviews : TokenReviews; t0 : time; t1 : time; headers : Header }.
End attempt.

(** One authenticator over the requests in turn. *)
Fixpoint authenticate_all (cfg : Config.t) (l : list attempt.t) (c : tokenCache.t) : tokenCache.t :=
  match l with
  | [] => c
  | a :: l =>
      authenticate_all cfg l
        (Authenticate cfg (attempt.reviews a) (attempt.t0 a) (attempt.t1 a) (attempt.headers a) c).2
  end.

(** The API server accepted the token of this attempt, as that identity. *)
Definition accepted (cfg : Config.t) (a : attempt.t) (key : string) (id : Identity.t) : Prop :=
  let tok := bearerToken (attempt.headers a) in
  tok ≠ "" ∧ hashToken tok = key ∧
  ∃ st, attempt.reviews a tok (Config.Audiences cfg) = inr st ∧
    TokenReviewStatus.Authenticated st = true ∧ id = reviewed (TokenReviewStatus.User st).

Definition justified (cfg : Config.t) (past : list attempt.t) (c : tokenCache.t) : Prop :=
  ∀ key e, tokenCache.entries c !! key = Some e →
    ∃ a, a ∈ past ∧ accepted cfg a key (cacheEntry.identity e) ∧
      cacheEntry.expiresAt e = time_Add (attempt.t1 a) (tokenCache.ttl c).

Lemma get_entries key now c :
  ∃ m, (tokenCache.get key now c).2 = tokenCache.mk (tokenCache.ttl c) m ∧ m ⊆ tokenCache.entries c.
Proof.
  unfold tokenCache.get. destruct c as [ttl m]; cbn. destruct (m !! key) as [e|]; [|by exists m].
  destruct (tokenCache.expired now e); cbn; [|by exists m].
  eexists. split; [done|]. apply delete_subseteq.
Qed.

Lemma put_entries key id now c :
  tokenCache.ttl (tokenCache.put key id now c) = tokenCache.ttl c ∧
  ∀ k e, tokenCache.entries (tokenCache.put key id now c) !! k = Some e →
    tokenCache.entries c !! k = Some e ∨
    (k = key ∧ e = cacheEntry.mk id (time_Add now (tokenCache.ttl c))).
Proof.
  unfold tokenCache.put, tokenCache.purge.
  assert (Hin : ∀ (m : gmap string cacheEntry.t) k e, <[key := cacheEntry.mk id (time_Add now (tokenCache.ttl c))]> m !! k = Some e →
      m !! k = Some e ∨ (k = key ∧ e = cacheEntry.mk id (time_Add now (tokenCache.ttl c)))).
  { intros m k e. rewrite lookup_insert_Some. intros [[-> <-]|[_ ?]]; [by right|by left]. }
  destruct (_ <=? _)%nat; [destruct (_ <=? _)%nat|]; cbn; (split; [done|]); intros k e.
  - intros [? _]%map_lookup_filter_Some. by left.
  - intros [[? _]%map_lookup_filter_Some|?]%Hin; [by left|by right].
  - apply Hin.
Qed.

Lemma put_size key id now c :
  (size (tokenCache.entries c) <= maxCachedTokens)%nat →
  (size (tokenCache.entries (tokenCache.put key id now c)) <= maxCachedTokens)%nat.
Proof.
  intros Hc. unfold tokenCache.put, tokenCache.purge.
  assert (Hin : ∀ (m : gmap string cacheEntry.t) e, (maxCachedTokens <=? size m)%nat = false →
      (size (<[key := e]> m) <= maxCachedTokens)%nat).
  { intros m e Hm%Nat.leb_gt. rewrite map_size_insert. unfold maxCachedTokens in *. destruct (m !! key); cbn; lia. }
  destruct (maxCachedTokens <=? size (tokenCache.entries c))%nat eqn:H1; [|by apply Hin].
  match goal with |- context [if ?b then _ else _] => destruct b eqn:H2 end; [|by apply Hin].
  etrans; [apply map_size_filter|done].
Qed.

(** One attempt keeps the entries justified, and within the bound. *)
Lemma Authenticate_justified cfg past a c :
  justified cfg past c →
  justified cfg (past ++ [a])
    (Authenticate cfg (attempt.reviews a) (attempt.t0 a) (attempt.t1 a) (attempt.headers a) c).2.
Proof.
  intros Hj. assert (Hw : ∀ c', tokenCache.ttl c' = tokenCache.ttl c →
      tokenCache.entries c' ⊆ tokenCache.entries c → justified cfg (past ++ [a]) c').
  { intros c' Ht Hs k e Hk. destruct (Hj k e) as (b & Hb & Hacc & Hexp); [by eapply lookup_weaken|].
    exists b. rewrite Ht. split_and!; [|done..]. apply elem_of_app. by left. }
  unfold Authenticate. destruct (String.eqb_spec (bearerToken (attempt.headers a)) "") as [He|He]; cbn [negb].
  { destruct (proxyIdentity _ _); by apply Hw. }
  unfold authenticateToken.
  destruct (get_entries (hashToken (bearerToken (attempt.headers a))) (attempt.t0 a) c) as (m & Hg & Hs).
  destruct (tokenCache.get _ _ c) as [[id|] c'] eqn:Hget; cbn in Hg; subst c'; cbn [snd].
  { by apply Hw. }
  destruct (attempt.reviews a _ _) as [err|st] eqn:Hr; [by apply Hw|].
  destruct (TokenReviewStatus.Authenticated st) eqn:Ha; [|by apply Hw]. cbn [snd].
  intros k e Hk. destruct (put_entries (hashToken (bearerToken (attempt.headers a)))
    (reviewed (TokenReviewStatus.User st)) (attempt.t1 a) (tokenCache.mk (tokenCache.ttl c) m)) as [Ht Hp].
  rewrite Ht. destruct (Hp k e Hk) as [Hold|[-> ->]].
  - destruct (Hw (tokenCache.mk (tokenCache.ttl c) m) eq_refl Hs k e Hold) as (b & ? & ? & ?). by exists b.
  - exists a. split_and!; [apply elem_of_app; right; by apply list_elem_of_singleton| |done].
    split_and!; [done..|]. by exists st.
Qed.

Lemma authenticate_all_justified cfg l : ∀ past c,
  justified cfg past c → justified cfg (past ++ l) (authenticate_all cfg l c).
Proof.
  induction l as [|a l IH]; intros past c Hj; cbn; [by rewrite app_nil_r|].
  replace (past ++ a :: l) with ((past ++ [a]) ++ l) by (by rewrite <- app_assoc).
  by apply IH, Authenticate_justified.
Qed.

Lemma Authenticate_keeps_ttl cfg a c :
  tokenCache.ttl (Authenticate cfg (attempt.reviews a) (attempt.t0 a) (attempt.t1 a) (attempt.headers a) c).2 =
  tokenCache.ttl c.
Proof.
  unfold Authenticate. destruct (negb _); [|by destruct (proxyIdentity _ _)]. unfold authenticateToken.
  destruct (get_entries (hashToken (bearerToken (attempt.headers a))) (attempt.t0 a) c) as (m & Hg & _).
  destruct (tokenCache.get _ _ c) as [[id|] c']; cbn in Hg; subst c'; [done|].
  destruct (attempt.reviews a _ _) as [err|st]; [done|]. destruct (TokenReviewStatus.Authenticated st); [|done].
  cbn [snd]. by rewrite (proj1 (put_entries _ _ _ _)).
Qed.

Lemma authenticate_all_ttl cfg l c : tokenCache.ttl (authenticate_all cfg l c) = tokenCache.ttl c.
Proof. revert c. induction l as [|a l IH]; intros c; cbn; [done|]. by rewrite IH, Authenticate_keeps_ttl. Qed.

(** C26: over any sequence of requests, whatever the API server answers to each, a
request with a token that is authenticated speaks for a token with the same
digest that the API server itself accepted as that very identity: for this
request, or for an earlier one whose review is no older than the time to live
of the cache.  No header and no failed review ever puts an identity in it. *)
Theorem authenticated_was_reviewed cfg past a id :
  let tok := bearerToken (attempt.headers a) in
  tok ≠ "" →
  (Authenticate cfg (attempt.reviews a) (attempt.t0 a) (attempt.t1 a) (attempt.headers a)
     (authenticate_all cfg past (NewAuthenticator cfg))).1 = (id, None) →
  Identity.Source id = SourceToken ∧
  (accepted cfg a (hashToken tok) id ∨
   ∃ b, b ∈ past ∧ accepted cfg b (hashToken tok) id ∧
     attempt.t0 a < attempt.t1 b + tokenCache.ttl (NewAuthenticator cfg)).
Proof.
  intros tok Htok Hid.
  assert (Hj : justified cfg past (authenticate_all cfg past (NewAuthenticator cfg))).
  { apply (authenticate_all_justified cfg past []). intros k e. cbn. by rewrite lookup_empty. }
  assert (Hs : ∀ b key, accepted cfg b key id → Identity.Source id = SourceToken).
  { by intros b key (_ & _ & st & _ & _ & ->). }
  enough (Hg : accepted cfg a (hashToken tok) id ∨ ∃ b, b ∈ past ∧ accepted cfg b (hashToken tok) id ∧
     attempt.t0 a < attempt.t1 b + tokenCache.ttl (NewAuthenticator cfg)).
  { split; [|done]. destruct Hg as [?|(b & _ & ? & _)]; by eapply Hs. }
  apply Authenticate_ok in Hid as [[_ Hid]|[? _]]; [|done]. fold tok in Hid.
  destruct (tokenCache.entries _ !! hashToken tok) as [e|] eqn:Hk; [|left; by split_and!].
  destruct (Before _ _) eqn:Hb; [|left; by split_and!]. subst id. right.
  destruct (Hj _ _ Hk) as (b & Hin & Hacc & Hexp). exists b. split_and!; [done..|].
  apply Z.ltb_lt in Hb. rewrite Hexp, authenticate_all_ttl in Hb. done.
Qed.

(** However many tokens are presented, the cache never holds more than
[maxCachedTokens] identities. *)
Theorem token_cache_bounded cfg l :
  (size (tokenCache.entries (authenticate_all cfg l (NewAuthenticator cfg))) <= maxCachedTokens)%nat.
Proof.
  assert (H0 : (size (tokenCache.entries (NewAuthenticator cfg)) <= maxCachedTokens)%nat).
  { cbn [NewAuthenticator tokenCache.newTokenCache tokenCache.entries]. rewrite map_size_empty. apply Nat.le_0_l. }
  revert H0. generalize (NewAuthenticator cfg). induction l as [|a l IH]; intros c Hc; [done|]. cbn [authenticate_all].
  apply IH. unfold Authenticate. destruct (negb _); [|by destruct (proxyIdentity _ _)]. unfold authenticateToken.
  destruct (get_entries (hashToken (bearerToken (attempt.headers a))) (attempt.t0 a) c) as (m & Hg & Hs).
  assert (Hm : (size m <= maxCachedTokens)%nat) by (etrans; [by apply map_subseteq_size|done]).
  destruct (tokenCache.get _ _ c) as [[id|] c']; cbn in Hg; subst c'; [done|].
  destruct (attempt.reviews a _ _) as [err|st]; [done|]. destruct (TokenReviewStatus.Authenticated st); [|done].
  by apply put_size.
Qed.

(** ** A caller *)

Definition operator_cfg : Config.t :=
  Config.mk true true [] "dencer" "dencer-operator" 0 (OIDCInfo.mk false "" "" [])
    (TrustedProxy.mk true "X-Forwarded-User" "X-Forwarded-Groups").

Definition alice : UserInfo.t := UserInfo.mk "alice" "u1" ["ops"] ∅.

(** The API server knows one token. *)
Definition one_token : TokenReviews := λ tok _,
  inr (if (tok =? "s3cret")%string then TokenReviewStatus.mk true "" alice
       else TokenReviewStatus.mk false "expired" (UserInfo.mk "" "" [] ∅)).

Definition outage : TokenReviews := λ _ _, inl "connection refused".

(** One role binding: the group [ops] may execute. *)
Definition ops_may : AccessReviews := λ spec,
  inr (SubjectAccessReviewStatus.mk
    (bool_decide ("ops" ∈ SubjectAccessReviewSpec.Groups spec)) false "" "").

Definition with_token : Header := {[ "authorization" := "Bearer  s3cret " ]}.
Definition with_proxy : Header :=
  {[ "x-forwarded-user" := "bob" ]} ∪ {[ "x-forwarded-groups" := "dev, ops" ]}.

(** A token, a proxy header and nothing at all, for reading and for executing. *)
Lemma served_iff_witness :
  (established operator_cfg one_token 0 with_token (NewAuthenticator operator_cfg) (reviewed alice) ∧
   granted operator_cfg ops_may (reviewed alice) ExecuteConsolidations) ∧
  (Require operator_cfg one_token ops_may 0 0 ExecuteConsolidations with_proxy
     (NewAuthenticator operator_cfg)).1 = Serve (Some (Identity.mk "bob" "" ["dev"; "ops"] ∅ SourceProxy)) ∧
  (Require operator_cfg one_token ops_may 0 0 ExecuteConsolidations ∅
     (NewAuthenticator operator_cfg)).1 = unauthorized "authentication required".
Proof.
  refine (conj _ (conj _ _)); [|by vm_compute|by vm_compute].
  destruct (proj1 (served_iff operator_cfg one_token ops_may 0 0 ExecuteConsolidations with_token
    (NewAuthenticator operator_cfg) (reviewed alice) eq_refl)) as [H|(_ & _ & _ & H)];
    [by vm_compute|exact H|discriminate H].
Defined.

Definition asked (r : TokenReviews) (t : time) : attempt.t := attempt.mk r t (t + 5) with_token.

(** The second request, during an outage, is answered from the cache. *)
Lemma authenticated_was_reviewed_witness :
  accepted operator_cfg (asked outage 100) (hashToken "s3cret") (reviewed alice) ∨
  ∃ b, b ∈ [asked one_token 0] ∧ accepted operator_cfg b (hashToken "s3cret") (reviewed alice) ∧
    100 < attempt.t1 b + 30 * Second.
Proof.
  exact (proj2 (authenticated_was_reviewed operator_cfg [asked one_token 0] (asked outage 100)
    (reviewed alice) ltac:(by vm_compute) ltac:(by vm_compute))).
Defined.
