(* ===== verification/Admission.v ===== *)
(** * Requests that change the cluster (internal/api/rest/execute.go)

The handlers that queue a run, ask one to stop, and report on runs.  A handler
drains nothing: it validates, checks that nothing else is in flight, and writes
a row for the executor.  Here [admit_*] is a handler up to and including that
check, and [submit] is the insertion that follows, so that handlers serving
different requests can be interleaved; [handle*] is the two in a row. *)
From S2P Require Import Prelude GoLib GoTime Cluster Analyzer Store RunStore PlanStore Auth Executor.

(** ** Faults (store/unavailable.go)

A call of a store may fail for a reason of its own.  What [errors.Is] and
[errors.As] find in the error is recorded with its text. *)

Module Fault.

Record t : Type := mk {
  msg : string;
  sentinel : bool;
  net : bool;
  sqlstate : option string;
}.

End Fault.

Definition unusable_states : list string := ["42P01"; "3D000"; "57P03"; "53300"].

Definition IsUnavailable (f : Fault.t) : bool :=
  Fault.sentinel f || Fault.net f ||
  match Fault.sqlstate f with
  | Some code => HasPrefix code "08" || existsb (String.eqb code) unusable_states
  | None => false
  end ||
  str_contains (Fault.msg f) "no such table" ||
  str_contains (Fault.msg f) "database is locked" ||
  str_contains (Fault.msg f) "unable to open database".

(** The calls a handler makes, to say which of them fail. *)
Inductive store_call : Type :=
| CLatest | CByID | CList | CActiveRun | CRunByID | CEvents | CRecentRuns | CRunsForPlan
| CEnqueue | CRequestStop | CRecovery | CPending | CReclamations | CSummary | CSamples | CStability.

Abbreviation faults := (store_call → option Fault.t).

Inductive call_error : Type := NotFound | Broken (f : Fault.t).

(** The result of a call, when it does not fail for a reason of its own.  Of the
errors of the stores' own logic only [ErrNotFound] is told apart. *)
Definition ask {A} (up : faults) (c : store_call) (r : res A) : call_error + A :=
  match up c with
  | Some f => inl (Broken f)
  | None =>
      match r with
      | inr a => inr a
      | inl ErrNotFound => inl NotFound
      | inl (Failed msg) => inl (Broken (Fault.mk msg false false None))
      end
  end.

(** ** Responses *)

Inductive body : Type :=
| BError (msg : string)
| BInProgress (msg runId : string) (status : RunStatus)
| BQueued (runId planId : string) (steps : list Z) (dryRun : bool)
| BConverge (runId planId : string) (maxNodes : Z) (maxImpact : string) (dryRun : bool)
| BDrain (runId node : string) (dryRun : bool)
| BStopping (runId : string) (status : RunStatus)
| BRun (run : Run.t) (events : list RunEvent.t)
| BRuns (active latest : option Run.t)
| BPlanRuns (planId : string) (runs : list Run.t).

(** [Aborted]: the handler panicked on a nil pointer and the connection is cut. *)
Inductive response : Type :=
| Reply (status : Z) (b : body)
| Aborted.

Definition writeError (status : Z) (msg : string) : response := Reply status (BError msg).

(** [Server.fail] *)
Definition fail_with (e : call_error) : response :=
  match e with
  | NotFound => writeError 404 "no plan available yet"
  | Broken f =>
      if IsUnavailable f then
        writeError 503 "plan store unavailable — the API is up but cannot reach its database"
      else writeError 500 "internal error"
  end.

Definition failRun (e : call_error) : response :=
  match e with
  | NotFound => writeError 404 "no such run"
  | Broken f =>
      if IsUnavailable f then
        writeError 503
          "plan store unavailable — the run may still be executing; the executor owns it, not this request"
      else writeError 500 "internal error"
  end.

(** What connected browsers are told. *)
Inductive notice : Type :=
| RunNotice (runId planId mode node : string) (steps : list Z) (dryRun : bool).

(** ** The server *)

Module Server.

(** [runs] is [None] in a deployment without an executor. *)
Record t : Type := mk { store : PlanStore.t; runs : option RunStore.t }.

Definition set_runs (r : RunStore.t) (s : t) : t := mk (store s) (Some r).

End Server.

Module outcome.
Record t : Type := mk { answer : response; server : Server.t; published : list notice }.
End outcome.

Definition record (up : faults) (id : string) (s : Server.t) : call_error + Record.t :=
  if (id =? "latest")%string || (id =? "")%string
  then ask up CLatest (PlanStore.Latest (Server.store s))
  else ask up CByID (PlanStore.ByID id (Server.store s)).

(** The caller, when authentication put one on the context. *)
Definition actor_of (who : option Identity.t) : Identity.t :=
  match who with
  | Some id => id
  | None => Identity.mk "auth-disabled" "" [] ∅ SourceAnonymous
  end.

(** ** Validation *)

Definition maxStepsPerRequest : Z := 200.

Definition has_step (plan : Plan.t) (seq : Z) : bool :=
  existsb (λ s, PlanStep.SequenceNumber s =? seq) (Plan.Steps plan).

(** The loop over the requested numbers: those kept so far are [out]. *)
Fixpoint pick_steps (plan : Plan.t) (requested : list Z) (seen : gset Z) (out : list Z) :
    string + list Z :=
  match requested with
  | [] => inr out
  | seq :: requested =>
      if negb (has_step plan seq) then
        inl ("plan " +:+ Plan.ID plan +:+ " has no step " +:+ pretty seq)
      else if bool_decide (seq ∈ seen) then pick_steps plan requested seen out
      else pick_steps plan requested ({[seq]} ∪ seen) (out ++ [seq])
  end.

Definition validateSteps (requested : list Z) (plan : Plan.t) : string + list Z :=
  let n := Z.of_nat (length requested) in
  if n =? 0 then inl "no steps requested"
  else if maxStepsPerRequest <? n then
    inl ("too many steps requested (" +:+ pretty n +:+ "); the maximum is " +:+ pretty maxStepsPerRequest)
  else match pick_steps plan requested ∅ [] with
       | inl err => inl err
       | inr out => inr (sort_by Z.ltb out)
       end.

(** ** Admission *)

(** A run that may be queued, and what to answer and publish once it is. *)
Module ticket.
Record t : Type := mk { run : Run.t; accepted : string → body; event : string → notice }.
End ticket.

Definition no_executor : response :=
  writeError 501 "this deployment has no executor; install with executor.enabled=true".

Definition bad_json : response := writeError 400 "request body is not valid JSON".

(** One consolidation at a time. *)
Definition none_active (up : faults) (runs : RunStore.t) (k : response + ticket.t) : response + ticket.t :=
  match ask up CActiveRun (RunStore.ActiveRun runs) with
  | inr active =>
      inl (Reply 409 (BInProgress
        ("run " +:+ Run.ID active +:+ " is already " +:+ status_string (Run.Status active))
        (Run.ID active) (Run.Status active)))
  | inl NotFound => k
  | inl e => inl (fail_with e)
  end.

(** [store.Run{...}]: the status left empty is stored as pending. *)
Definition new_run (planID mode node : string) (steps : list Z) (env : option Envelope.t) (dry : bool)
    (who : option Identity.t) : Run.t :=
  Run.mk "" planID steps dry RunPending false "" mode node env
    (Identity.Username (actor_of who)) (Identity.Groups (actor_of who)) 0 None None "" "".

Module executeRequest.
Record t : Type := mk { Steps : list Z; DryRun : bool }.
End executeRequest.

(** The body is [None] when it is not JSON of that shape. *)
Definition admit_execute (up : faults) (planID : string) (req : option executeRequest.t)
    (who : option Identity.t) (s : Server.t) : response + ticket.t :=
  match Server.runs s with
  | None => inl no_executor
  | Some runs =>
      match record up planID s with
      | inl e => inl (fail_with e)
      | inr rec =>
          match req with
          | None => inl bad_json
          | Some req =>
              match validateSteps (executeRequest.Steps req) (Record.Plan rec) with
              | inl err => inl (writeError 400 err)
              | inr steps =>
                  let id := Plan.ID (Record.Plan rec) in
                  let dry := executeRequest.DryRun req in
                  none_active up runs (inr (ticket.mk (new_run id "" "" steps None dry who)
                    (λ runID, BQueued runID id steps dry) (λ runID, RunNotice runID id "" "" steps dry)))
              end
          end
      end
  end.

Module convergeRequest.
Record t : Type := mk { MaxNodes : Z; MaxImpact : string; DryRun : bool }.
End convergeRequest.

(** [model.ImpactRating(s)] *)
Definition ImpactRating_of (s : string) : ImpactRating :=
  if (s =? "Green")%string then ImpactGreen
  else if (s =? "Yellow")%string then ImpactYellow
  else if (s =? "Red")%string then ImpactRed
  else ImpactOther s.

(** The plan on the screen when the request was made; empty if it cannot be read. *)
Definition latest_id (up : faults) (s : Server.t) : string :=
  match ask up CLatest (PlanStore.Latest (Server.store s)) with
  | inr rec => Plan.ID (Record.Plan rec)
  | inl _ => ""
  end.

Definition admit_converge (up : faults) (req : option convergeRequest.t) (who : option Identity.t)
    (s : Server.t) : response + ticket.t :=
  match Server.runs s, req with
  | None, _ => inl no_executor
  | Some _, None => inl bad_json
  | Some runs, Some req =>
      let max := convergeRequest.MaxNodes req in
      let dry := convergeRequest.DryRun req in
      let ceiling := ImpactRating_of (convergeRequest.MaxImpact req) in
      if (max <? 1) || (maxStepsPerRequest <? max) then
        inl (writeError 400 ("maxNodes must be between 1 and " +:+ pretty maxStepsPerRequest +:+
          "; an unbounded loop is not a grantable consent"))
      else if negb (bool_decide (ceiling = ImpactGreen)) && negb (bool_decide (ceiling = ImpactYellow)) then
        inl (writeError 400
          "maxImpact must be Green or Yellow; Red always requires a maintenance window and cannot be pre-consented here")
      else
        let id := latest_id up s in
        none_active up runs (inr (ticket.mk
          (new_run id RunModeConverge "" [] (Some (Envelope.mk max ceiling)) dry who)
          (λ runID, BConverge runID id max (convergeRequest.MaxImpact req) dry)
          (λ runID, RunNotice runID id RunModeConverge "" [] dry)))
  end.

Module drainRequest.
Record t : Type := mk { Node : string; DryRun : bool }.
End drainRequest.

(** Is the node in the latest snapshot?  A store that cannot answer does not stop
the request; a record without a snapshot is a nil pointer. *)
Definition known_node (up : faults) (node : string) (s : Server.t) : option bool :=
  match ask up CLatest (PlanStore.Latest (Server.store s)) with
  | inl _ => Some true
  | inr rec =>
      (λ snap, existsb (λ n, (Node.Name n =? node)%string) (ClusterSnapshot.Nodes snap)) <$>
        Record.Snapshot rec
  end.

Definition admit_drain (up : faults) (req : option drainRequest.t) (who : option Identity.t)
    (s : Server.t) : response + ticket.t :=
  match Server.runs s, req with
  | None, _ => inl no_executor
  | Some _, None => inl bad_json
  | Some runs, Some req =>
      let node := drainRequest.Node req in
      let dry := drainRequest.DryRun req in
      if (node =? "")%string then inl (writeError 400 "which node? a drain names exactly one")
      else match known_node up node s with
      | None => inl Aborted
      | Some false => inl (writeError 400 ("node " +:+ quoted node +:+ " is not in the latest snapshot"))
      | Some true =>
          none_active up runs (inr (ticket.mk
            (new_run (latest_id up s) RunModeDrain node [] None dry who)
            (λ runID, BDrain runID node dry) (λ runID, RunNotice runID "" RunModeDrain node [] dry)))
      end
  end.

(** [newID] and [now] are what the store draws and reads when it inserts. *)
Definition submit (up : faults) (newID : string) (now : time) (t : ticket.t) (s : Server.t) : outcome.t :=
  match Server.runs s with
  | None => outcome.mk no_executor s []
  | Some runs =>
      match up CEnqueue with
      | Some f => outcome.mk (fail_with (Broken f)) s []
      | None =>
          match RunStore.Enqueue newID now (ticket.run t) runs with
          | (inl (Failed msg), runs) =>
              outcome.mk (fail_with (Broken (Fault.mk msg false false None))) (Server.set_runs runs s) []
          | (inl ErrNotFound, runs) => outcome.mk (fail_with NotFound) (Server.set_runs runs s) []
          | (inr runID, runs) =>
              outcome.mk (Reply 202 (ticket.accepted t runID)) (Server.set_runs runs s) [ticket.event t runID]
          end
      end
  end.

Definition handle (up : faults) (newID : string) (now : time) (admitted : response + ticket.t)
    (s : Server.t) : outcome.t :=
  match admitted with
  | inl r => outcome.mk r s []
  | inr t => submit up newID now t s
  end.

Definition handleExecute (up : faults) (newID : string) (now : time) (planID : string)
    (req : option executeRequest.t) (who : option Identity.t) (s : Server.t) : outcome.t :=
  handle up newID now (admit_execute up planID req who s) s.

Definition handleConverge (up : faults) (newID : string) (now : time) (req : option convergeRequest.t)
    (who : option Identity.t) (s : Server.t) : outcome.t :=
  handle up newID now (admit_converge up req who s) s.

Definition handleDrain (up : faults) (newID : string) (now : time) (req : option drainRequest.t)
    (who : option Identity.t) (s : Server.t) : outcome.t :=
  handle up newID now (admit_drain up req who s) s.

Definition handleStopRun (up : faults) (runID : string) (who : option Identity.t) (s : Server.t) : outcome.t :=
  match Server.runs s with
  | None => outcome.mk (writeError 501 "this deployment has no executor") s []
  | Some runs =>
      match ask up CRunByID (RunStore.RunByID runID runs) with
      | inl e => outcome.mk (failRun e) s []
      | inr run =>
          match up CRequestStop with
          | Some f => outcome.mk (fail_with (Broken f)) s []
          | None =>
              outcome.mk (Reply 202 (BStopping (Run.ID run) (Run.Status run)))
                (Server.set_runs (RunStore.RequestStop (Run.ID run) (Identity.Username (actor_of who)) runs) s) []
          end
      end
  end.

(** ** Reports on runs *)

Definition handleRun (up : faults) (runID : string) (s : Server.t) : response :=
  match Server.runs s with
  | None => writeError 501 "this deployment has no executor"
  | Some runs =>
      match ask up CRunByID (RunStore.RunByID runID runs) with
      | inl e => failRun e
      | inr run =>
          match ask up CEvents (inr (RunStore.Events (Run.ID run) runs)) with
          | inl e => fail_with e
          | inr events => Reply 200 (BRun run events)
          end
      end
  end.

(** Without an executor the answer names no plan. *)
Definition handleRunsForPlan (up : faults) (planID : string) (s : Server.t) : response :=
  match Server.runs s with
  | None => Reply 200 (BPlanRuns "" [])
  | Some runs =>
      match record up planID s with
      | inl e => fail_with e
      | inr rec =>
          let id := Plan.ID (Record.Plan rec) in
          match ask up CRunsForPlan (inr (RunStore.RunsForPlan id 50 runs)) with
          | inl e => fail_with e
          | inr l => Reply 200 (BPlanRuns id l)
          end
      end
  end.

Definition handleActiveRun (up : faults) (s : Server.t) : response :=
  match Server.runs s with
  | None => Reply 200 (BRuns None None)
  | Some runs =>
      let latest := match ask up CRecentRuns (inr (RunStore.RecentRuns 1 runs)) with
                    | inr (r :: _) => Some r
                    | _ => None
                    end in
      match ask up CActiveRun (RunStore.ActiveRun runs) with
      | inr run => Reply 200 (BRuns (Some run) latest)
      | inl NotFound => Reply 200 (BRuns None latest)
      | inl e => fail_with e
      end
  end.

(** ** The three requests for a run *)

Inductive request : Type :=
| Execute (planID : string) (req : option executeRequest.t)
| Converge (req : option convergeRequest.t)
| Drain (req : option drainRequest.t).

Definition admission (up : faults) (r : request) (who : option Identity.t) (s : Server.t) : response + ticket.t :=
  match r with
  | Execute planID req => admit_execute up planID req who s
  | Converge req => admit_converge up req who s
  | Drain req => admit_drain up req who s
  end.

Definition handle_request (up : faults) (newID : string) (now : time) (r : request)
    (who : option Identity.t) (s : Server.t) : outcome.t :=
  match r with
  | Execute planID req => handleExecute up newID now planID req who s
  | Converge req => handleConverge up newID now req who s
  | Drain req => handleDrain up newID now req who s
  end.
