(* ===== verification/AdmissionProps.v ===== *)
(** * What the execution API queues *)
From S2P Require Import Prelude GoLib GoTime Cluster Analyzer Store RunStore RunStoreProps PlanStore PlanStoreProps Auth Executor Admission.

(** ** The steps of a request *)

Lemma has_step_iff plan seq : has_step plan seq = true ↔ is_Some (findStep plan seq).
Proof.
  unfold has_step, findStep. rewrite existsb_elem. split.
  - intros (s & Hs & E). destruct (List.find _ _) as [x|] eqn:Hf; [by eexists|].
    apply list_elem_of_In in Hs. by rewrite (List.find_none _ _ Hf s Hs) in E.
  - intros [s Hs]. apply List.find_some in Hs as [Hin E]. exists s. by rewrite list_elem_of_In.
Qed.

Lemma pick_steps_spec plan req : ∀ seen out,
  (∀ x, x ∈ seen ↔ x ∈ out) → NoDup out →
  match pick_steps plan req seen out with
  | inl _ => ∃ x, x ∈ req ∧ has_step plan x = false
  | inr out' => (∀ x, x ∈ req → has_step plan x = true) ∧ NoDup out' ∧
      ∀ x, x ∈ out' ↔ x ∈ out ∨ x ∈ req
  end.
Proof.
  induction req as [|seq req IH]; intros seen out Hs Hnd; cbn [pick_steps].
  { split_and!; [by intros x ?%elem_of_nil|done|]. intros x. rewrite elem_of_nil. tauto. }
  destruct (has_step plan seq) eqn:Hh; cbn [negb]; [|exists seq; split; [by left|done]].
  case_bool_decide as Hin.
  - specialize (IH seen out Hs Hnd). destruct (pick_steps _ _ _ _) as [e|out'].
    + destruct IH as (x & ? & ?). exists x. split; [by right|done].
    + destruct IH as (H1 & H2 & H3). split_and!; [|done|].
      * intros x [->|?]%elem_of_cons; auto.
      * intros x. rewrite H3, elem_of_cons. apply Hs in Hin. naive_solver.
  - assert (Hs' : ∀ x, x ∈ ({[seq]} ∪ seen : gset Z) ↔ x ∈ out ++ [seq]).
    { intros x. rewrite elem_of_union, elem_of_singleton, elem_of_app, list_elem_of_singleton, Hs. tauto. }
    assert (Hnd' : NoDup (out ++ [seq])).
    { apply NoDup_app. split_and!; [done| |apply NoDup_singleton]. intros x Hx ->%list_elem_of_singleton.
      by apply Hin, Hs. }
    specialize (IH _ _ Hs' Hnd'). destruct (pick_steps _ _ _ _) as [e|out'].
    + destruct IH as (x & ? & ?). exists x. split; [by right|done].
    + destruct IH as (H1 & H2 & H3). split_and!; [|done|].
      * intros x [->|?]%elem_of_cons; auto.
      * intros x. rewrite H3, elem_of_app, list_elem_of_singleton, elem_of_cons. tauto.
Qed.

(** What validation accepts, and what it makes of it. *)
Lemma validate_spec requested plan :
  match validateSteps requested plan with
  | inr out =>
      0 < Z.of_nat (length requested) <= maxStepsPerRequest ∧
      (∀ seq, seq ∈ requested → is_Some (findStep plan seq)) ∧
      Sorted Z.lt out ∧ (∀ seq, seq ∈ out ↔ seq ∈ requested)
  | inl _ =>
      requested = [] ∨ maxStepsPerRequest < Z.of_nat (length requested) ∨
      ∃ seq, seq ∈ requested ∧ findStep plan seq = None
  end.
Proof.
  unfold validateSteps. cbn zeta. destruct (Z.eqb_spec (Z.of_nat (length requested)) 0) as [E|E].
  { left. apply nil_length_inv. lia. }
  destruct (Z.ltb_spec maxStepsPerRequest (Z.of_nat (length requested))) as [Hl|Hl]; [by right; left|].
  pose proof (pick_steps_spec plan requested ∅ []) as Hp. destruct (pick_steps _ _ _ _) as [e|out].
  - destruct Hp as (x & Hx & Hf); [set_solver|constructor|]. right. right. exists x. split; [done|].
    apply eq_None_not_Some. by rewrite <- has_step_iff, Hf.
  - destruct Hp as (H1 & H2 & H3); [set_solver|constructor|]. split_and!; [lia|lia| | |].
    + intros seq Hs. by apply has_step_iff, H1.
    + apply sorted_strict; [|by rewrite sort_by_perm]. apply sort_by_sorted.
      intros a b ?%Z.ltb_lt. apply Z.ltb_ge. lia.
    + intros seq. rewrite elem_of_sort_by, H3, elem_of_nil. tauto.
Qed.

(** A list of steps is accepted exactly when it is not empty, not over the limit
and every step is one the executor finds in the plan; what is queued is the same
set of steps, each once, in ascending order. *)
Theorem steps_validated requested plan :
  match validateSteps requested plan with
  | inr out =>
      0 < Z.of_nat (length requested) <= maxStepsPerRequest ∧
      (∀ seq, seq ∈ requested → is_Some (findStep plan seq)) ∧
      Sorted Z.lt out ∧ (∀ seq, seq ∈ out ↔ seq ∈ requested)
  | inl _ =>
      requested = [] ∨ maxStepsPerRequest < Z.of_nat (length requested) ∨
      ∃ seq, seq ∈ requested ∧ findStep plan seq = None
  end.
Proof. apply validate_spec. Qed.

(** ** What a request does *)

Lemma none_active_ok up runs k t :
  none_active up runs k = inr t → k = inr t ∧ ∀ x, x ∈ RunStore.rows runs → RunStore.active x = false.
Proof.
  unfold none_active, ask. destruct (up CActiveRun); [done|].
  destruct (RunStore.ActiveRun runs) as [[|msg]|r] eqn:Ha; try done. intros Hk. split; [done|].
  unfold RunStore.ActiveRun in Ha. destruct (sort_by _ _) eqn:Hs; [|done].
  apply (f_equal length) in Hs. rewrite length_sort_by in Hs. apply nil_length_inv in Hs.
  intros x Hx. apply not_true_iff_false. intros Hact.
  assert (Hin : x ∈ List.filter RunStore.active (RunStore.rows runs)) by (by apply filter_elem).
  rewrite Hs in Hin. by apply elem_of_nil in Hin.
Qed.

(** No refusal is an acceptance. *)
Definition refusal (r : response) : Prop := ∀ b, r ≠ Reply 202 b.

Lemma fail_refusal e : refusal (fail_with e).
Proof. intros b. unfold fail_with. destruct e as [|f]; [done|]. by destruct (IsUnavailable f). Qed.

Lemma none_active_refusal up runs t r : none_active up runs (inr t) = inl r → refusal r.
Proof.
  unfold none_active. destruct (ask _ _ _) as [[|f]|a]; intros [= <-]; [|done]. apply (fail_refusal (Broken f)).
Qed.

(** A handler that gets past its checks saw a store with no run in flight. *)
Lemma admit_ok up r who s t :
  admission up r who s = inr t →
  ∃ runs, Server.runs s = Some runs ∧ ∀ x, x ∈ RunStore.rows runs → RunStore.active x = false.
Proof.
  destruct r as [planID req|req|req]; cbn [admission]; intros Ht.
  - unfold admit_execute in Ht. destruct (Server.runs s) as [runs|]; [|done].
    destruct (record _ _ _); [done|]. destruct req; [|done]. destruct (validateSteps _ _); [done|].
    apply none_active_ok in Ht as [_ ?]. by exists runs.
  - unfold admit_converge in Ht. destruct (Server.runs s) as [runs|]; [|done]. destruct req; [|done]. cbn zeta in Ht.
    destruct (_ || _); [done|]. destruct (_ && _); [done|]. apply none_active_ok in Ht as [_ ?]. by exists runs.
  - unfold admit_drain in Ht. destruct (Server.runs s) as [runs|]; [|done]. destruct req; [|done]. cbn zeta in Ht.
    destruct (_ =? _)%string; [done|]. destruct (known_node _ _ _) as [[]|]; [|done..].
    apply none_active_ok in Ht as [_ ?]. by exists runs.
Qed.

Lemma admit_refusal up r who s a : admission up r who s = inl a → refusal a.
Proof.
  destruct r as [planID req|req|req]; cbn [admission]; intros Ht.
  - unfold admit_execute in Ht. destruct (Server.runs s) as [runs|]; [|by simplify_eq].
    destruct (record _ _ _); [by simplify_eq; apply fail_refusal|]. destruct req; [|by simplify_eq].
    destruct (validateSteps _ _); [by simplify_eq|]. by eapply none_active_refusal.
  - unfold admit_converge in Ht. destruct (Server.runs s) as [runs|]; [|by simplify_eq].
    destruct req; [|by simplify_eq]. cbn zeta in Ht.
    destruct (_ || _); [by simplify_eq|]. destruct (_ && _); [by simplify_eq|]. by eapply none_active_refusal.
  - unfold admit_drain in Ht. destruct (Server.runs s) as [runs|]; [|by simplify_eq].
    destruct req; [|by simplify_eq]. cbn zeta in Ht. destruct (_ =? _)%string; [by simplify_eq|].
    destruct (known_node _ _ _) as [[]|]; [|by simplify_eq..]. by eapply none_active_refusal.
Qed.

Lemma handle_admit up newID now r who s :
  handle_request up newID now r who s = handle up newID now (admission up r who s) s.
Proof. by destruct r. Qed.

(** The store with one more run. *)
Definition queued (newID : string) (now : time) (run : Run.t) (runs : RunStore.t) : RunStore.t :=
  RunStore.mk (RunStore.rows runs ++
      [RunStore.mk_row (Run.enqueued newID now run) (RunStore.max_seq (RunStore.rows runs) + 1)])
    (RunStore.events runs).

(** What a request does to the server. *)
Lemma request_effect up newID now r who s :
  let o := handle_request up newID now r who s in
  (outcome.server o = s ∧ outcome.published o = [] ∧ refusal (outcome.answer o)) ∨
  ∃ t runs, admission up r who s = inr t ∧ Server.runs s = Some runs ∧
    (∀ x, x ∈ RunStore.rows runs → RunStore.active x = false) ∧
    outcome.server o = Server.set_runs (queued newID now (ticket.run t) runs) s ∧
    let id := Run.ID (Run.enqueued newID now (ticket.run t)) in
    outcome.answer o = Reply 202 (ticket.accepted t id) ∧ outcome.published o = [ticket.event t id].
Proof.
  cbn zeta. rewrite handle_admit. destruct (admission up r who s) as [a|t] eqn:Ha; cbn [handle].
  { left. split_and!; [done..|]. by eapply admit_refusal. }
  apply admit_ok in Ha as Hok. destruct Hok as (runs & Hr & Hn). unfold submit. rewrite Hr.
  assert (Hsame : Server.set_runs runs s = s) by (destruct s; cbn in *; by subst).
  destruct (up CEnqueue) as [f|]; [left; split_and!; [done..|apply fail_refusal]|].
  unfold RunStore.Enqueue. cbn zeta. destruct (existsb _ _) eqn:He.
  - left. split_and!; [done..|]. apply (fail_refusal (Broken _)).
  - right. exists t, runs. by split_and!.
Qed.

(** C24: a request for a run either changes nothing, publishes nothing and is
refused, or it was admitted while no run was pending or running; then exactly one
run is added, the one it asks for, the answer is an acceptance carrying its
identifier, and that run is what the browsers are told of. *)
Theorem request_queues_one_run up newID now r who s :
  let o := handle_request up newID now r who s in
  (outcome.server o = s ∧ outcome.published o = [] ∧ refusal (outcome.answer o)) ∨
  ∃ t runs, admission up r who s = inr t ∧ Server.runs s = Some runs ∧
    (∀ x, x ∈ RunStore.rows runs → RunStore.active x = false) ∧
    outcome.server o = Server.set_runs (queued newID now (ticket.run t) runs) s ∧
    let id := Run.ID (Run.enqueued newID now (ticket.run t)) in
    outcome.answer o = Reply 202 (ticket.accepted t id) ∧ outcome.published o = [ticket.event t id].
Proof. apply request_effect. Qed.

(** What a run queued by a request looks like: a list of steps of the plan it
names, in order; or a policy within bounds that excludes Red; or one node. *)
Definition consented (s : Server.t) (run : Run.t) : Prop :=
  Run.ID run = "" ∧ Run.Status run = RunPending ∧
  ((Run.Mode run = "" ∧ Run.Envelope run = None ∧ Run.Steps run ≠ [] ∧ Sorted Z.lt (Run.Steps run) ∧
    ∃ i rec, PlanStore.ByID i (Server.store s) = inr rec ∧ Run.PlanID run = Plan.ID (Record.Plan rec) ∧
      ∀ seq, seq ∈ Run.Steps run → is_Some (findStep (Record.Plan rec) seq)) ∨
   (Run.Mode run = RunModeConverge ∧ ∃ env, Run.Envelope run = Some env ∧
      1 <= Envelope.MaxNodes env <= maxStepsPerRequest ∧
      (Envelope.MaxImpact env = ImpactGreen ∨ Envelope.MaxImpact env = ImpactYellow)) ∨
   (Run.Mode run = RunModeDrain ∧ Run.Node run ≠ "" ∧ Run.Envelope run = None)).

Lemma record_found up id s rec :
  record up id s = inr rec → ∃ i, PlanStore.ByID i (Server.store s) = inr rec.
Proof.
  unfold record, ask. destruct (_ || _).
  - destruct (up CLatest); [done|]. unfold PlanStore.Latest. destruct (PlanStore.latest _) as [r|]; [|done].
    destruct (PlanStore.ByID _ _) as [[]|] eqn:E; intros; simplify_eq. by eexists.
  - destruct (up CByID); [done|]. destruct (PlanStore.ByID _ _) as [[]|] eqn:E; intros; simplify_eq. by eexists.
Qed.

(** What an admitted run looks like. *)
Lemma admitted_consent up r who s t :
  admission up r who s = inr t → consented s (ticket.run t).
Proof.
  destruct r as [planID req|req|req]; cbn [admission]; intros Ht.
  - unfold admit_execute in Ht. destruct (Server.runs s) as [runs|]; [|done].
    destruct (record _ _ _) as [|rec] eqn:Hrec; [done|]. destruct req as [req|]; [|done].
    pose proof (validate_spec (executeRequest.Steps req) (Record.Plan rec)) as Hv.
    destruct (validateSteps _ _) as [|steps]; [done|]. apply none_active_ok in Ht as [[= <-] _].
    destruct Hv as (Hn & Hall & Hs & Hin). destruct (record_found _ _ _ _ Hrec) as [i Hi].
    do 2 (split; [done|]). left. cbn. split_and!; [done..| |done|].
    + intros ->. destruct (executeRequest.Steps req) as [|x l]; [cbn in Hn; lia|].
      assert (Hx : x ∈ (x :: l)) by (by left). apply Hin in Hx. by apply elem_of_nil in Hx.
    + exists i, rec. split_and!; [done..|]. intros seq Hq. by apply Hall, Hin.
  - unfold admit_converge in Ht. destruct (Server.runs s) as [runs|]; [|done].
    destruct req as [req|]; [|done]. cbn zeta in Ht.
    destruct (_ || _) eqn:Hb; [done|]. destruct (_ && _) eqn:Hc; [done|].
    apply none_active_ok in Ht as [[= <-] _]. do 2 (split; [done|]). right. left. cbn. split; [done|]. eexists. split; [done|]. cbn.
    apply orb_false_iff in Hb as [?%Z.ltb_ge ?%Z.ltb_ge]. split; [lia|].
    apply andb_false_iff in Hc as [?%negb_false_iff%bool_decide_eq_true|?%negb_false_iff%bool_decide_eq_true]; auto.
  - unfold admit_drain in Ht. destruct (Server.runs s) as [runs|]; [|done].
    destruct req as [req|]; [|done]. cbn zeta in Ht. destruct (String.eqb_spec (drainRequest.Node req) "") as [|Hne]; [done|].
    destruct (known_node _ _ _) as [[]|]; [|done..]. apply none_active_ok in Ht as [[= <-] _].
    do 2 (split; [done|]). right. right. by split_and!.
Qed.

(** C23: whatever is asked, a run the API admits is one the executor can take as
consent: a non-empty ascending list of steps that the stored plan has, or an
envelope of one to two hundred nodes rated Green or Yellow at most, or a drain
of one named node. *)
Theorem admitted_run_is_consent up r who s t :
  admission up r who s = inr t → consented s (ticket.run t).
Proof. apply admitted_consent. Qed.

(** A run is queued in the name of the caller. *)
Lemma admitted_actor up r who s t :
  admission up r who s = inr t → Run.Actor (ticket.run t) = Identity.Username (actor_of who).
Proof.
  destruct r as [planID req|req|req]; cbn [admission]; intros Ht.
  - unfold admit_execute in Ht. destruct (Server.runs s); [|done]. destruct (record _ _ _); [done|].
    destruct req; [|done]. destruct (validateSteps _ _); [done|]. by apply none_active_ok in Ht as [[= <-] _].
  - unfold admit_converge in Ht. destruct (Server.runs s); [|done]. destruct req; [|done]. cbn zeta in Ht.
    destruct (_ || _); [done|]. destruct (_ && _); [done|]. by apply none_active_ok in Ht as [[= <-] _].
  - unfold admit_drain in Ht. destruct (Server.runs s); [|done]. destruct req; [|done]. cbn zeta in Ht.
    destruct (_ =? _)%string; [done|]. destruct (known_node _ _ _) as [[]|]; [|done..].
    by apply none_active_ok in Ht as [[= <-] _].
Qed.

(** ** Two requests at one moment *)

Lemma submit_fresh up newID now t s runs :
  up CEnqueue = None → Server.runs s = Some runs → Run.ID (ticket.run t) = "" →
  (∀ x, x ∈ RunStore.rows runs → Run.ID (RunStore.run x) ≠ newID) →
  submit up newID now t s =
    outcome.mk (Reply 202 (ticket.accepted t newID))
      (Server.set_runs (queued newID now (ticket.run t) runs) s) [ticket.event t newID].
Proof.
  intros Hup Hr Hi Hf. unfold submit, RunStore.Enqueue. rewrite Hup, Hr. cbn zeta.
  assert (Hid : Run.ID (Run.enqueued newID now (ticket.run t)) = newID) by (cbn; by rewrite Hi). rewrite Hid.
  destruct (existsb _ _) eqn:E; [|done]. apply existsb_elem in E as (x & Hx & E).
  apply String.eqb_eq in E. by destruct (Hf x Hx).
Qed.

(** The check that nothing is in flight and the insertion are two statements:
two requests that are both past the check before either inserts are both
accepted, and the store then holds two pending runs, although the handlers
promise one consolidation at a time. *)
Theorem two_requests_pass_one_check up newID newID' now now' r r' who who' s t t' :
  up CEnqueue = None →
  admission up r who s = inr t → admission up r' who' s = inr t' →
  newID ≠ newID' →
  (∀ runs x, Server.runs s = Some runs → x ∈ RunStore.rows runs →
     Run.ID (RunStore.run x) ≠ newID ∧ Run.ID (RunStore.run x) ≠ newID') →
  let s1 := outcome.server (submit up newID now t s) in
  let s2 := outcome.server (submit up newID' now' t' s1) in
  ∃ runs, Server.runs s2 = Some runs ∧
    Run.ID ∘ RunStore.run <$> List.filter RunStore.active (RunStore.rows runs) = [newID; newID'].
Proof.
  intros Hup Ht Ht' Hne Hfresh. cbn zeta.
  apply admit_ok in Ht as Hok. destruct Hok as (runs & Hr & Hidle).
  apply admitted_consent in Ht as (Hi & Hp & _). apply admitted_consent in Ht' as (Hi' & Hp' & _).
  rewrite (submit_fresh up newID now t s runs) by (done || intros; by eapply Hfresh). cbn [outcome.server].
  rewrite (submit_fresh up newID' now' t' _ (queued newID now (ticket.run t) runs)); [| |done| |]; cycle 1.
  { done. }
  { done. }
  { intros x [Hx|Hx]%elem_of_app; [by eapply Hfresh|]. apply list_elem_of_singleton in Hx as ->. cbn. by rewrite Hi. }
  eexists. split; [done|]. unfold queued. cbn [RunStore.rows]. rewrite !List.filter_app, filter_none by done.
  assert (Ha : ∀ i n run k, Run.Status run = RunPending →
    RunStore.active (RunStore.mk_row (Run.enqueued i n run) k) = true).
  { intros i n run k Hs. unfold RunStore.active, RunStore.status_is. cbn. by rewrite Hs. }
  assert (Hid : ∀ i n run, Run.ID run = "" → Run.ID (Run.enqueued i n run) = i) by (intros i n run E; cbn; by rewrite E).
  cbn [List.filter app]. rewrite !Ha by done. cbn [app fmap list_fmap compose RunStore.run].
  unfold compose. cbn [RunStore.run]. by rewrite !Hid.
Qed.

(** ** A deployment *)

Definition up_all : faults := λ _, None.

Definition deployment : Server.t := Server.mk two_plans (Some RunStore.empty).

Definition some_steps : request := Execute "latest" (Some (executeRequest.mk [2; 1; 2] false)).
Definition some_policy : request := Converge (Some (convergeRequest.mk 3 "Yellow" true)).

Lemma admitted_run_is_consent_witness :
  ∃ t, admission up_all some_steps None deployment = inr t ∧ Run.Steps (ticket.run t) = [1; 2] ∧
    consented deployment (ticket.run t).
Proof.
  destruct (admission up_all some_steps None deployment) as [|t] eqn:Ht; [by vm_compute in Ht|].
  exists t. split; [done|]. split; [|exact (admitted_run_is_consent _ _ _ _ _ Ht)].
  vm_compute in Ht. by injection Ht as <-.
Defined.

Lemma two_requests_pass_one_check_witness :
  ∃ t t', admission up_all some_steps None deployment = inr t ∧ admission up_all some_policy None deployment = inr t' ∧
    let s2 := outcome.server (submit up_all "r2" 5 t' (outcome.server (submit up_all "r1" 5 t deployment))) in
    ∃ runs, Server.runs s2 = Some runs ∧
      Run.ID ∘ RunStore.run <$> List.filter RunStore.active (RunStore.rows runs) = ["r1"; "r2"].
Proof.
  destruct (admission up_all some_steps None deployment) as [|t] eqn:Ht; [by vm_compute in Ht|].
  destruct (admission up_all some_policy None deployment) as [|t'] eqn:Ht'; [by vm_compute in Ht'|].
  exists t, t'. do 2 (split; [done|]).
  refine (two_requests_pass_one_check up_all "r1" "r2" 5 5 _ _ _ _ _ _ _ eq_refl Ht Ht' _ _); [done|].
  intros runs x [= <-]. by intros ?%elem_of_nil.
Defined.
