(* ===== verification/AgentTools.v ===== *)
(** * What the agent is told (internal/api/agenttools/agenttools.go)

The four tools the conversational agent may call, over the plan store.  They
only read: the store is an argument and none is returned.  The protocol that
carries the calls is a library's. *)
From S2P Require Import Prelude GoLib Float64 GoText GoTime Model Cluster Analyzer Store PlanStore Admission.

(** A result, an error the model is shown, or the panic of a nil snapshot. *)
Inductive reply (A : Type) : Type :=
| Out (out : A)
| IsError (text : string)
| Panicked.

Arguments Out {A} out.
Arguments IsError {A} text.
Arguments Panicked {A}.

Definition readOnlyNote : string :=
  "k8s-dencer only plans and explains. It cannot drain, cordon or evict, and has no permission to do so.".

Definition storeMessage (e : call_error) : string :=
  match e with
  | NotFound =>
      "No consolidation plan has been produced yet. The planner publishes one once it has read the cluster, usually within a minute of starting."
  | Broken _ =>
      "The plan store could not be read. This is a k8s-dencer fault, not a problem with the question."
  end.

(** Every tool begins with the latest record. *)
Definition with_latest {A} (up : faults) (s : PlanStore.t) (k : Record.t → reply A) : reply A :=
  match ask up CLatest (PlanStore.Latest s) with
  | inl e => IsError (storeMessage e)
  | inr rec => k rec
  end.

(** [Format("2006-01-02 15:04:05 MST")] of a time the store read back, in UTC. *)
Definition plan_time (t : time) : string :=
  let '(y, m, d) := civil (t / Second / 86400) in
  let tod := t / Second mod 86400 in
  pad4 y +:+ "-" +:+ pad2 m +:+ "-" +:+ pad2 d +:+ " " +:+ pad2 (tod / 3600) +:+ ":" +:+
  pad2 (tod / 60 mod 60) +:+ ":" +:+ pad2 (tod mod 60) +:+ " UTC".

(** ** list_plan_steps *)

Module StepSummary.
Record t : Type := mk { Step : Z; TargetNode : string; Impact : string; PodsMoved : Z; WindowOnly : bool }.
End StepSummary.

Module ListStepsOutput.
Record t : Type := mk {
  PlanID : string; GeneratedAt : string; NodesBefore : Z; NodesAfter : Z; Reclaimed : Z;
  Green : Z; Yellow : Z; Red : Z; Steps : list StepSummary.t; ReadOnly : string;
}.
End ListStepsOutput.

Definition step_summary (step : PlanStep.t) : StepSummary.t :=
  StepSummary.mk (PlanStep.SequenceNumber step) (PlanStep.TargetNode step) (rating_string (PlanStep.Impact step))
    (Z.of_nat (length (PlanStep.Moves step))) (RequiresMaintenanceWindow (PlanStep.Impact step)).

Definition listPlanSteps (up : faults) (s : PlanStore.t) : reply ListStepsOutput.t :=
  with_latest up s (λ rec,
    let plan := Record.Plan rec in
    let ratings := Plan.CountByRating plan in
    let count r := default 0 (ratings !! r) in
    Out (ListStepsOutput.mk (Plan.ID plan) (plan_time (Plan.GeneratedAt plan)) (Plan.NodesBefore plan)
           (Plan.NodesAfter plan) (Plan.ReclaimedNodes plan) (count ImpactGreen) (count ImpactYellow) (count ImpactRed)
           (step_summary <$> Plan.Steps plan) readOnlyNote)).

(** ** explain_step *)

Module MoveDetail.
Record t : Type := mk { Pod : string; FromNode : string; ToNode : string }.
End MoveDetail.

Module ConstraintDetail.
Record t : Type := mk { Pod : string; Kind : string; Blocking : bool; Explanation : string }.
End ConstraintDetail.

Module ExplainStepOutput.
Record t : Type := mk {
  PlanID : string; Step : Z; TargetNode : string; Impact : string; WindowOnly : bool; Rationale : string;
  Reasons : list string; Moves : list MoveDetail.t; Constraints : list ConstraintDetail.t; ReadOnly : string;
}.
End ExplainStepOutput.

Definition flatten (pc : PodConstraints.t) : list ConstraintDetail.t :=
  (λ c, ConstraintDetail.mk (PodConstraints.Key pc) (kind_string (Constraint.kind c)) (Constraint.Blocking c)
          (Constraint.Explanation c)) <$> PodConstraints.Constraints pc.

Definition moved_pod (m : Move.t) : string := Move.Namespace m +:+ "/" +:+ Move.Pod m.

(** What the analysis has on the pod of one move. *)
Definition move_constraints (a : option Analysis.t) (m : Move.t) : list ConstraintDetail.t :=
  match a with
  | None => []
  | Some a => match Analysis.ForPod a (moved_pod m) with Some pc => flatten pc | None => [] end
  end.

Definition explainStep (up : faults) (s : PlanStore.t) (n : Z) : reply ExplainStepOutput.t :=
  with_latest up s (λ rec,
    let plan := Record.Plan rec in
    match List.find (λ st, PlanStep.SequenceNumber st =? n) (Plan.Steps plan) with
    | None =>
        let count := pretty (Z.of_nat (length (Plan.Steps plan))) in
        IsError ("Plan " +:+ Plan.ID plan +:+ " has no step " +:+ pretty n +:+ ". It has " +:+ count +:+
                 " steps, numbered 1 to " +:+ count +:+ ".")
    | Some step =>
        Out (ExplainStepOutput.mk (Plan.ID plan) (PlanStep.SequenceNumber step) (PlanStep.TargetNode step)
               (rating_string (PlanStep.Impact step)) (RequiresMaintenanceWindow (PlanStep.Impact step))
               (PlanStep.Rationale step) (ImpactReason.Detail <$> PlanStep.Reasons step)
               ((λ m, MoveDetail.mk (moved_pod m) (Move.FromNode m) (Move.ToNode m)) <$> PlanStep.Moves step)
               (PlanStep.Moves step ≫= move_constraints (Record.Analysis rec)) readOnlyNote)
    end).

(** ** A node of the snapshot *)

(** [nodeHint] *)
Definition nodeHint (snap : ClusterSnapshot.t) : string :=
  let names := sort_strings (Node.Name <$> ClusterSnapshot.Nodes snap) in
  match names with
  | [] => "The snapshot contains no nodes."
  | _ =>
      if (5 <? length names)%nat then
        "Known nodes include: " +:+ join ", " (take 5 names) +:+ " (and " +:+ pretty (Z.of_nat (length names) - 5) +:+ " more)."
      else "Known nodes: " +:+ join ", " names +:+ "."
  end.

(** The latest record with its snapshot and the node asked about. *)
Definition with_node {A} (up : faults) (s : PlanStore.t) (name : string)
    (k : Record.t → ClusterSnapshot.t → Node.t → reply A) : reply A :=
  with_latest up s (λ rec,
    match Record.Snapshot rec with
    | None => Panicked
    | Some snap =>
        match ClusterSnapshot.NodeByName snap name with
        | None => IsError ("No node named " +:+ quoted name +:+ " in this plan's snapshot. " +:+ nodeHint snap)
        | Some node => k rec snap node
        end
    end).

Definition drains (node : Node.t) (plan : Plan.t) : option PlanStep.t :=
  List.find (λ st, (PlanStep.TargetNode st =? Node.Name node)%string) (Plan.Steps plan).

(** ** get_node_constraints *)

Module NodeOutput.
Record t : Type := mk {
  PlanID : string; Node : string; Zone : string; Ready : bool; Cordoned : bool; CPURequested : string;
  Utilization : string; PodCount : Z; DrainedBy : Z; Impact : string; Constraints : list ConstraintDetail.t;
  ReadOnly : string;
}.
End NodeOutput.

Definition getNodeConstraints (up : faults) (s : PlanStore.t) (name : string) : reply NodeOutput.t :=
  with_node up s name (λ rec snap node,
    let plan := Record.Plan rec in
    let requested := ClusterSnapshot.RequestedOnNode snap (Node.Name node) in
    let by_ := drains node plan in
    Out (NodeOutput.mk (Plan.ID plan) (Node.Name node) (Node.Zone node) (Node.Ready node) (Node.Unschedulable node)
           (pretty (Resources.MilliCPU requested) +:+ "m of " +:+ pretty (Resources.MilliCPU (Node.Allocatable node)) +:+ "m")
           (fixed 0 (F64.mul (Resources.DominantRatio requested (Node.Allocatable node)) (F64.of_Z 100)) +:+ "%")
           (Z.of_nat (length (ClusterSnapshot.PodsOnNode snap (Node.Name node))))
           (match by_ with Some st => PlanStep.SequenceNumber st | None => 0 end)
           (match by_ with Some st => rating_string (PlanStep.Impact st) | None => "" end)
           (match Record.Analysis rec with
            | Some a => Analysis.ForNode a (Node.Name node) ≫= flatten
            | None => []
            end)
           readOnlyNote)).

(** ** why_not_drained *)

Module WhyNotOutput.
Record t : Type := mk {
  PlanID : string; Node : string; Answer : string; IsDrained : bool; DrainedBy : Z;
  Blockers : list ConstraintDetail.t; StuckPods : list string; ReadOnly : string;
}.
End WhyNotOutput.

Definition controlPlaneLabel (n : Node.t) : option string :=
  List.find (λ key, bool_decide (is_Some (Node.Labels n !! key)))
    ["node-role.kubernetes.io/control-plane"; "node-role.kubernetes.io/master"].

Definition blocker_detail (b : Constraint.t) : ConstraintDetail.t :=
  ConstraintDetail.mk (Constraint.Subject b) (kind_string (Constraint.kind b)) (Constraint.Blocking b) (Constraint.Explanation b).

Definition stuck (pc : PodConstraints.t) : bool :=
  PodConstraints.Movable pc && bool_decide (PodConstraints.CandidateNodes pc = []).

(** The reasons that do not depend on the analysis, most specific first. *)
Definition why_left (snap : ClusterSnapshot.t) (node : Node.t) : string :=
  let name := Node.Name node in
  if Node.Unschedulable node then
    name +:+ " is cordoned, so the planner excludes it as a drain target — its pods cannot be replaced there and nothing new may schedule onto it."
  else if negb (Node.Ready node) then
    name +:+ " is not Ready. The planner skips unready nodes: their pods are already the scheduler's problem, not a consolidation decision."
  else if bool_decide (is_Some (controlPlaneLabel node)) then
    name +:+ " is a control-plane node and is excluded by policy. Draining the API server out from under the cluster is not consolidation."
  else if Resources.IsZero (ClusterSnapshot.RequestedOnNode snap name) then
    name +:+ " holds no workload, so there is nothing to drain — it is already reclaimable."
  else
    name +:+ " is not drained by this plan. It is most likely serving as a destination for pods moved off other nodes, or the planner could not find room for its pods elsewhere. Use get_node_constraints for the detail.".

Definition whyNotDrained (up : faults) (s : PlanStore.t) (name : string) : reply WhyNotOutput.t :=
  with_node up s name (λ rec snap node,
    let plan := Record.Plan rec in
    let name := Node.Name node in
    match drains node plan with
    | Some step =>
        Out (WhyNotOutput.mk (Plan.ID plan) name
               (name +:+ " IS being drained, by step " +:+ pretty (PlanStep.SequenceNumber step) +:+ " (rated " +:+
                rating_string (PlanStep.Impact step) +:+ "). " +:+ PlanStep.Rationale step)
               true (PlanStep.SequenceNumber step) [] [] readOnlyNote)
    | None =>
        let '(drainable, blockers) :=
          match Record.Analysis rec with Some a => Analysis.NodeDrainable a name | None => (true, []) end in
        let stuckPods :=
          match Record.Analysis rec with
          | Some a => PodConstraints.Key <$> List.filter stuck (Analysis.ForNode a name)
          | None => []
          end in
        let answer :=
          match blockers with
          | b :: _ =>
              if negb drainable then
                name +:+ " cannot be drained because " +:+ pretty (Z.of_nat (length blockers)) +:+ " constraint(s) block it. " +:+
                Constraint.Explanation b
              else why_left snap node
          | [] => why_left snap node
          end in
        Out (WhyNotOutput.mk (Plan.ID plan) name answer false 0 (blocker_detail <$> blockers) stuckPods readOnlyNote)
    end).
