(* ===== verification/Reports.v ===== *)
(** * Reports on the latest plan (internal/api/rest)

The read handlers that compute something from a stored record: preflight.go,
resilience.go, whatif.go, rightsizing.go, recommendations.go and, of rest.go,
the detail of a step, the response about a plan and the forecast.  A handler
answers with its report or with an error response; encoding the report as JSON
is the standard library's and is not modelled. *)
From S2P Require Import Prelude GoLib Float64 GoTime Model Cluster WorkingPlacement Analyzer Store PlanStore Recommend Admission.

(** A record whose snapshot is nil is a nil pointer to every report. *)
Definition with_snapshot {A} (rec : Record.t) (k : ClusterSnapshot.t → response + A) : response + A :=
  match Record.Snapshot rec with
  | None => inl Aborted
  | Some snap => k snap
  end.

Definition with_record {A} (up : faults) (id : string) (s : Server.t) (k : Record.t → response + A) : response + A :=
  match record up id s with
  | inl e => inl (fail_with e)
  | inr rec => k rec
  end.

(** ** preflight.go *)

Module preflightBlocker.
Record t : Type := mk { Pod : string; Kind : string; Explanation : string }.
End preflightBlocker.

Module preflightNode.
Record t : Type := mk {
  Node : string; Ready : bool; Cordoned : bool; Pods : Z; Drainable : bool;
  Blockers : list preflightBlocker.t;
}.
End preflightNode.

Module preflightReport.
Record t : Type := mk { takenAt : time; planId : string; nodes : list preflightNode.t; drainable : Z; total : Z }.
End preflightReport.

(** One pod of the loop over a node's pods. *)
Definition preflight_pod (pc : PodConstraints.t) : list preflightBlocker.t :=
  if negb (PodConstraints.Movable pc) then
    (λ c, preflightBlocker.mk (PodConstraints.Key pc) (kind_string (Constraint.kind c)) (Constraint.Explanation c)) <$>
      PodConstraints.Blockers pc
  else if bool_decide (PodConstraints.CandidateNodes pc = []) then
    [preflightBlocker.mk (PodConstraints.Key pc) (kind_string KindResources) "No other node can currently accept this pod."]
  else [].

(** The pods grouped under a node; unscheduled ones are under none. *)
Definition by_node (a : Analysis.t) (name : string) : list PodConstraints.t :=
  List.filter (λ pc, negb (PodConstraints.NodeName pc =? "")%string && (PodConstraints.NodeName pc =? name)%string)
    (Analysis.Pods a).

Definition preflight_node (a : Analysis.t) (n : Node.t) : preflightNode.t :=
  let pods := by_node a (Node.Name n) in
  let blockers := pods ≫= preflight_pod in
  preflightNode.mk (Node.Name n) (Node.Ready n) (Node.Unschedulable n) (Z.of_nat (length pods))
    (bool_decide (length blockers = 0%nat)) blockers.

Definition preflight_before (a b : preflightNode.t) : bool :=
  if negb (Bool.eqb (preflightNode.Drainable a) (preflightNode.Drainable b))
  then negb (preflightNode.Drainable a)
  else str_ltb (preflightNode.Node a) (preflightNode.Node b).

Definition preflight (rec : Record.t) (snap : ClusterSnapshot.t) : preflightReport.t :=
  let analysis := Analyze Placement.t snap in
  let nodes := preflight_node analysis <$> ClusterSnapshot.Nodes snap in
  preflightReport.mk (ClusterSnapshot.TakenAt snap) (Plan.ID (Record.Plan rec)) (sort_by preflight_before nodes)
    (Z.of_nat (length (List.filter preflightNode.Drainable nodes))) (Z.of_nat (length nodes)).

Definition handlePreflight (up : faults) (s : Server.t) : response + preflightReport.t :=
  with_record up "latest" s (λ rec, with_snapshot rec (λ snap, inr (preflight rec snap))).

(** ** resilience.go *)

Module resilienceFinding.
Record t : Type := mk { Kind : string; Pod : string; Node : string; Explanation : string }.
End resilienceFinding.

Module resilienceReport.
Record t : Type := mk { takenAt : time; planId : string; findings : list resilienceFinding.t; pods : Z }.
End resilienceReport.

Definition resilience_pod (pc : PodConstraints.t) : list resilienceFinding.t :=
  if PodConstraints.Movable pc then []
  else if PodConstraints.PinnedToNode pc then []
  else (λ c, resilienceFinding.mk (kind_string (Constraint.kind c)) (PodConstraints.Key pc)
               (PodConstraints.NodeName pc) (Constraint.Explanation c)) <$> PodConstraints.Blockers pc.

Definition resilience_pdb (pdb : PodDisruptionBudget.t) : list resilienceFinding.t :=
  if PodDisruptionBudget.Blocks pdb then
    [resilienceFinding.mk "PDBZeroHeadroom" (PodDisruptionBudget.Key pdb) ""
       ("This PodDisruptionBudget allows zero disruptions right now. " +:+
        "A node loss — voluntary or not — violates it immediately.")]
  else [].

Definition finding_before (a b : resilienceFinding.t) : bool :=
  if negb (resilienceFinding.Kind a =? resilienceFinding.Kind b)%string
  then str_ltb (resilienceFinding.Kind a) (resilienceFinding.Kind b)
  else str_ltb (resilienceFinding.Pod a) (resilienceFinding.Pod b).

Definition resilience (rec : Record.t) (snap : ClusterSnapshot.t) : resilienceReport.t :=
  let analysis := Analyze Placement.t snap in
  resilienceReport.mk (ClusterSnapshot.TakenAt snap) (Plan.ID (Record.Plan rec))
    (sort_by finding_before
       ((Analysis.Pods analysis ≫= resilience_pod) ++ (ClusterSnapshot.PDBs snap ≫= resilience_pdb)))
    (Z.of_nat (length (Analysis.Pods analysis))).

Definition handleResilience (up : faults) (s : Server.t) : response + resilienceReport.t :=
  with_record up "latest" s (λ rec, with_snapshot rec (λ snap, inr (resilience rec snap))).

(** ** whatif.go *)

Module whatifRequest.
Record t : Type := mk { RemoveNodes : list string; RemoveZone : string }.
End whatifRequest.

Module whatifHomeless.
Record t : Type := mk { Pod : string; Why : list string }.
End whatifHomeless.

Module whatifReport.
Record t : Type := mk {
  removed : list string; displaced : Z; fits : bool; homeless : list whatifHomeless.t;
  basedOn : string; takenAt : time;
}.
End whatifReport.

(** The keys of the map [remove]. *)
Definition removal (req : whatifRequest.t) (nodes : list Node.t) : gset string :=
  list_to_set (whatifRequest.RemoveNodes req) ∪
  list_to_set (Node.Name <$> List.filter (λ n,
    negb (whatifRequest.RemoveZone req =? "")%string && (Node.Zone n =? whatifRequest.RemoveZone req)%string) nodes).

Definition no_such_node (name : string) : response :=
  writeError 400 ("node " +:+ quoted name +:+ " is not in the latest snapshot").

(** A removal that names unknown nodes is refused for the first of them met. *)
Definition check_removal `{MapRange} (remove : gset string) (nodes : list Node.t) : option response :=
  let known : gset string := list_to_set (Node.Name <$> nodes) in
  match List.find (λ kv, bool_decide (kv.1 ∉ known)) (entries (gset_to_gmap () remove)) with
  | Some kv => Some (no_such_node kv.1)
  | None =>
      if Nat.eqb (size remove) (length nodes) then
        Some (writeError 400 "that removes every node; nothing is left to simulate")
      else None
  end.

(** A pod of a removed node that can move waits for a place; one that cannot goes
with its node. *)
Definition displace (remove : gset string) (p : Pod.t) : list Pod.t :=
  if bool_decide (Pod.NodeName p ∉ remove) then [p]
  else if Pod.IsMovable p then [Pod.set_NodeName "" p]
  else [].

Definition displaced_pods (remove : gset string) (pods : list Pod.t) : list Pod.t :=
  List.filter (λ p, bool_decide (Pod.NodeName p ∈ remove) && Pod.IsMovable p) pods.

Definition simulated (now : time) (remove : gset string) (snap : ClusterSnapshot.t) : ClusterSnapshot.t :=
  ClusterSnapshot.mk now
    (List.filter (λ n, bool_decide (Node.Name n ∉ remove)) (ClusterSnapshot.Nodes snap))
    (ClusterSnapshot.Pods snap ≫= displace remove) (ClusterSnapshot.PDBs snap) false.

Definition whatif_why (pc : PodConstraints.t) : list string :=
  match Constraint.Explanation <$> PodConstraints.Blockers pc with
  | [] => ["No surviving node has room for this pod's requests."]
  | why => why
  end.

Definition homeless_pod (a : Analysis.t) (p : Pod.t) : option whatifHomeless.t :=
  pc ← Analysis.ForPod a (Pod.Key p);
  if bool_decide (PodConstraints.CandidateNodes pc = [])
  then Some (whatifHomeless.mk (Pod.Key p) (whatif_why pc)) else None.

Definition whatif (now : time) (remove : gset string) (rec : Record.t) (snap : ClusterSnapshot.t) : whatifReport.t :=
  let displaced := displaced_pods remove (ClusterSnapshot.Pods snap) in
  let analysis := Analyze Placement.t (simulated now remove snap) in
  let homeless := sort_by (λ a b, str_ltb (whatifHomeless.Pod a) (whatifHomeless.Pod b))
                    (omap (homeless_pod analysis) displaced) in
  whatifReport.mk (sort_strings (elements remove)) (Z.of_nat (length displaced))
    (Nat.eqb (length homeless) 0) homeless (Plan.ID (Record.Plan rec)) (ClusterSnapshot.TakenAt snap).

(** The body is [None] when it is not JSON of that shape. *)
Definition handleWhatif `{MapRange} (up : faults) (now : time) (req : option whatifRequest.t) (s : Server.t) :
    response + whatifReport.t :=
  with_record up "latest" s (λ rec,
    match req with
    | None => inl bad_json
    | Some req =>
        if Nat.eqb (length (whatifRequest.RemoveNodes req)) 0 && (whatifRequest.RemoveZone req =? "")%string
        then inl (writeError 400 "remove something: removeNodes or removeZone")
        else with_snapshot rec (λ snap,
          let remove := removal req (ClusterSnapshot.Nodes snap) in
          match check_removal remove (ClusterSnapshot.Nodes snap) with
          | Some r => inl r
          | None => inr (whatif now remove rec snap)
          end)
    end).

(** ** rightsizing.go *)

Module rightsizingRow.
Record t : Type := mk {
  Workload : string; Pods : Z; RequestedMilli : Z; UsedMilli : Z; RequestedBytes : Z; UsedBytes : Z;
}.
Definition start (workload : string) : t := mk workload 0 0 0 0 0.
End rightsizingRow.

(** The row of a workload so far, and whether any pod of it was measured. *)
Module agg.
Record t : Type := mk { row : rightsizingRow.t; hasUsage : bool }.
End agg.

Definition sizing_key (p : Pod.t) : string :=
  Pod.Namespace p +:+ "/" +:+
  match Pod.Owner p with
  | Some o => OwnerRef.Kind o +:+ "/" +:+ OwnerRef.Name o
  | None => "Pod/" +:+ Pod.Name p
  end.

Definition add_usage (u : option Resources.t) (a : agg.t) : agg.t :=
  match u with
  | None => a
  | Some u =>
      let r := agg.row a in
      agg.mk (rightsizingRow.mk (rightsizingRow.Workload r) (rightsizingRow.Pods r)
        (rightsizingRow.RequestedMilli r) (int64_add (rightsizingRow.UsedMilli r) (Resources.MilliCPU u))
        (rightsizingRow.RequestedBytes r) (int64_add (rightsizingRow.UsedBytes r) (Resources.MemoryBytes u))) true
  end.

Definition add_request (q : Resources.t) (a : agg.t) : agg.t :=
  let r := agg.row a in
  agg.mk (rightsizingRow.mk (rightsizingRow.Workload r) (rightsizingRow.Pods r + 1)
    (int64_add (rightsizingRow.RequestedMilli r) (Resources.MilliCPU q)) (rightsizingRow.UsedMilli r)
    (int64_add (rightsizingRow.RequestedBytes r) (Resources.MemoryBytes q)) (rightsizingRow.UsedBytes r))
    (agg.hasUsage a).

Definition add_size (p : Pod.t) (a : agg.t) : agg.t := add_usage (Pod.Usage p) (add_request (Pod.Requests p) a).

Definition size_pod (m : gmap string agg.t) (p : Pod.t) : gmap string agg.t :=
  let key := sizing_key p in
  <[key := add_size p (default (agg.mk (rightsizingRow.start key) false) (m !! key))]> m.

Definition sizes (pods : list Pod.t) : gmap string agg.t := fold_left size_pod pods ∅.

Definition measured_rows `{MapRange} (pods : list Pod.t) : list rightsizingRow.t :=
  agg.row <$> List.filter agg.hasUsage (snd <$> entries (sizes pods)).

Definition excess (r : rightsizingRow.t) : Z :=
  int64_sub (rightsizingRow.RequestedMilli r) (rightsizingRow.UsedMilli r).

Module rightsizingReport.
Record t : Type := mk {
  takenAt : time; workloads : list rightsizingRow.t; totalRequestedMilli : Z; totalUsedMilli : Z;
}.
End rightsizingReport.

(** [None]: the snapshot was taken without usage, and nothing is estimated. *)
Definition rightsizing `{MapRange} (snap : ClusterSnapshot.t) : option rightsizingReport.t :=
  if negb (ClusterSnapshot.HasUsageData snap) then None
  else
    let rows := measured_rows (ClusterSnapshot.Pods snap) in
    Some (rightsizingReport.mk (ClusterSnapshot.TakenAt snap)
      (sort_by (λ a b, excess b <? excess a) rows)
      (fold_left (λ t r, int64_add t (rightsizingRow.RequestedMilli r)) rows 0)
      (fold_left (λ t r, int64_add t (rightsizingRow.UsedMilli r)) rows 0)).

Definition handleRightsizing `{MapRange} (up : faults) (s : Server.t) : response + option rightsizingReport.t :=
  with_record up "latest" s (λ rec, with_snapshot rec (λ snap, inr (rightsizing snap))).

(** ** recommendations.go: a plan is never nil, the snapshot may be *)

Definition handleRecommendations `{MapRange} (up : faults) (s : Server.t) : response + (time * list Recommendation.t) :=
  with_record up "latest" s (λ rec, with_snapshot rec (λ snap,
    inr (ClusterSnapshot.TakenAt snap, Queue (Some (Record.Plan rec)) snap))).

(** ** rest.go: one step of a plan *)

Definition move_key (m : Move.t) : string := Move.Namespace m +:+ "/" +:+ Move.Pod m.

(** Of pods with one key the last. *)
Definition by_key (pods : list Pod.t) : gmap string Pod.t :=
  fold_left (λ m p, <[Pod.Key p := p]> m) pods ∅.

Definition replica_key (p : Pod.t) (o : OwnerRef.t) : string :=
  Pod.Namespace p +:+ "|" +:+ OwnerRef.Kind o +:+ "|" +:+ OwnerRef.Name o.

Definition replicas (pods : list Pod.t) : gmap string Z :=
  fold_left (λ m p, match Pod.Owner p with
                    | Some o => <[replica_key p o := default 0 (m !! replica_key p o) + 1]> m
                    | None => m
                    end) pods ∅.

Definition only_replica (counts : gmap string Z) (p : Pod.t) : bool :=
  match Pod.Owner p with
  | None => true
  | Some o => default 0 (counts !! replica_key p o) =? 1
  end.

Definition singletons (step : PlanStep.t) (snap : ClusterSnapshot.t) : list string :=
  let counts := replicas (ClusterSnapshot.Pods snap) in
  let byKey := by_key (ClusterSnapshot.Pods snap) in
  omap (λ m, p ← byKey !! move_key m; if only_replica counts p then Some (Pod.Key p) else None)
    (PlanStep.Moves step).

(** The workload of a move, as [Recommend] keys it. *)
Definition moved_workload (byKey : gmap string Pod.t) (m : Move.t) : option string :=
  p ← byKey !! move_key m; o ← Pod.Owner p; Some (workload_key p o).

(** Each workload once, in the order the moves name them. *)
Definition add_once (out : list string) (w : string) : list string :=
  if bool_decide (w ∈ out) then out else out ++ [w].

Definition workloadsOf (step : PlanStep.t) (snap : ClusterSnapshot.t) : list string :=
  fold_left add_once (omap (moved_workload (by_key (ClusterSnapshot.Pods snap))) (PlanStep.Moves step)) [].

Module stepDetail.
Record t : Type := mk {
  planId : string; step : PlanStep.t; constraints : list PodConstraints.t; singletons : list string;
  workloads : option (list string);
}.
End stepDetail.

(** [seq] is [None] when the path does not hold a number.  The history the store
has of [workloads] is added to the response; [None] where it is not asked. *)
Definition handleStep (up : faults) (id : string) (seq : option Z) (s : Server.t) : response + stepDetail.t :=
  with_record up id s (λ rec,
    match seq with
    | None => inl (writeError 400 "step sequence must be a number")
    | Some seq =>
        let plan := Record.Plan rec in
        match List.find (λ st, PlanStep.SequenceNumber st =? seq) (Plan.Steps plan) with
        | None => inl (writeError 404 ("plan " +:+ Plan.ID plan +:+ " has no step " +:+ pretty seq))
        | Some step =>
            inr (stepDetail.mk (Plan.ID plan) step
              (match Record.Analysis rec with
               | Some a => omap (λ m, Analysis.ForPod a (move_key m)) (PlanStep.Moves step)
               | None => []
               end)
              (match Record.Snapshot rec with Some snap => singletons step snap | None => [] end)
              (workloadsOf step <$> Record.Snapshot rec))
        end
    end).

(** ** rest.go: the plan and what it is worth *)

Definition capacity_count (byName : gmap string Node.t) (m : gmap string Z) (step : PlanStep.t) : gmap string Z :=
  match byName !! PlanStep.TargetNode step with
  | Some n =>
      let ct := Node.CapacityType n in
      if (ct =? "")%string then m else <[ct := default 0 (m !! ct) + 1]> m
  | None => m
  end.

Module planReport.
Record t : Type := mk {
  plan : Plan.t; strategy : string; storedAt : time; ratings : gmap ImpactRating Z;
  cpuReclaimableMilli : Z; memReclaimableBytes : Z; reclaimableByCapacity : gmap string Z;
}.
End planReport.

Definition planResponse (rec : Record.t) : response + planReport.t :=
  with_snapshot rec (λ snap,
    let plan := Record.Plan rec in
    let '(cpu, mem) := Plan.ReclaimableCapacity plan snap in
    inr (planReport.mk plan (Record.Strategy rec) (Record.StoredAt rec) (Plan.CountByRating plan) cpu mem
      (fold_left (capacity_count (by_name (ClusterSnapshot.Nodes snap))) (Plan.Steps plan) ∅))).

Definition handleLatestPlan (up : faults) (s : Server.t) : response + planReport.t :=
  match ask up CLatest (PlanStore.Latest (Server.store s)) with
  | inl e => inl (fail_with e)
  | inr rec => planResponse rec
  end.

Definition handlePlan (up : faults) (id : string) (s : Server.t) : response + planReport.t :=
  with_record up id s planResponse.

(** [limit] is what the query holds, when it is a number. *)
Definition handleListPlans (up : faults) (limit : option Z) (s : Server.t) : response + list Summary.t :=
  let limit := match limit with Some n => if 0 <? n then n else 50 | None => 50 end in
  match ask up CList (inr (PlanStore.List limit (Server.store s))) with
  | inl e => inl (fail_with e)
  | inr plans => inr plans
  end.

Definition handleSnapshot (up : faults) (id : string) (s : Server.t) : response + option ClusterSnapshot.t :=
  with_record up id s (λ rec, inr (Record.Snapshot rec)).

Definition handleConstraints (up : faults) (id : string) (s : Server.t) : response + option Analysis.t :=
  with_record up id s (λ rec, inr (Record.Analysis rec)).

Definition handlePodConstraints (up : faults) (id namespace pod : string) (s : Server.t) : response + PodConstraints.t :=
  with_record up id s (λ rec,
    let key := namespace +:+ "/" +:+ pod in
    match Record.Analysis rec with
    | None => inl (writeError 404 "plan has no constraint analysis")
    | Some a =>
        match Analysis.ForPod a key with
        | None => inl (writeError 404 ("pod " +:+ key +:+ " is not in plan " +:+ Plan.ID (Record.Plan rec)))
        | Some pc => inr pc
        end
    end).

Module Forecast.
Record t : Type := mk { Currency : string; PerMonth : float64; PricedNodes : Z; UnpricedNodes : Z }.
End Forecast.

(** The node a step drains, as it is priced. *)
Definition step_machine (byName : gmap string Node.t) (step : PlanStep.t) : option PricedNode.t :=
  n ← byName !! PlanStep.TargetNode step; Some (PricedNode.mk (Node.InstanceType n) (Node.CapacityType n)).

Definition forecast (table : Table.t) (rec : Record.t) : option Forecast.t :=
  match Record.Snapshot rec with
  | None => None
  | Some snap =>
      if Table.Empty table then None
      else
        let nodes := omap (step_machine (by_name (ClusterSnapshot.Nodes snap))) (Plan.Steps (Record.Plan rec)) in
        if Nat.eqb (length nodes) 0 then None
        else
          let v := Value table nodes in
          if (Reclaimed.Priced v =? 0) && (Reclaimed.Unpriced v =? 0) then None
          else Some (Forecast.mk (Table.Currency table) (Reclaimed.PerMonth v)
                       (Reclaimed.Priced v) (Reclaimed.Unpriced v))
  end.
