(* ===== verification/ReportsProps.v ===== *)
(** * What the reports say

Preflight against the analyzer it quotes; what a simulated loss leaves
homeless; rows of the sizing report; the singletons of a step; the forecast. *)
From S2P Require Import Prelude GoLib Float64 GoTime Model Cluster Fixtures WorkingPlacement PlacementFacts IndexFacts FeasibilityFacts Analyzer AnalyzerFacts Store PlanStore Recommend Admission Reports.

(** ** Preflight *)

Lemma elem_of_preflight rec snap pn :
  pn ∈ preflightReport.nodes (preflight rec snap) ↔
  ∃ n, n ∈ ClusterSnapshot.Nodes snap ∧ pn = preflight_node (Analyze Placement.t snap) n.
Proof. cbn. rewrite elem_of_sort_by, list_elem_of_fmap. naive_solver. Qed.

Lemma by_node_scheduled a name : name ≠ "" → by_node a name = Analysis.ForNode a name.
Proof.
  intros Hne. unfold by_node, Analysis.ForNode. apply List.filter_ext. intros pc.
  destruct (String.eqb_spec (PodConstraints.NodeName pc) name) as [->|]; [|by rewrite andb_false_r].
  by rewrite andb_true_r, (proj2 (String.eqb_neq _ _) Hne).
Qed.

(** The pods of a node, as the analyzer reports them. *)
Lemma elem_of_node snap name pc :
  wf_snapshot snap = true →
  pc ∈ Analysis.ForNode (Analyze Placement.t snap) name ↔
  ∃ pod, pod ∈ ClusterSnapshot.Pods snap ∧ Pod.NodeName pod = name ∧
    pc = report snap (Core.NewPlacementCeiling snap F64.zero) pod.
Proof.
  intros Hw. unfold Analysis.ForNode. rewrite filter_elem, String.eqb_eq, elem_of_analysis by done. split.
  - intros [(pod & Hin & ->) Hn]. rewrite report_node in Hn. by exists pod.
  - intros (pod & Hin & Hn & ->). split; [by exists pod|]. by rewrite report_node.
Qed.

Definition told (b : preflightBlocker.t) : string * string := (preflightBlocker.Kind b, preflightBlocker.Explanation b).

Definition quoted_constraint (c : Constraint.t) : string * string :=
  (kind_string (Constraint.kind c), Constraint.Explanation c).

Lemma preflight_pod_quotes pc :
  PodConstraints.PinnedToNode pc = false → told <$> preflight_pod pc = quoted_constraint <$> blockers_of pc.
Proof.
  intros Hp. unfold preflight_pod, blockers_of. rewrite Hp. destruct (PodConstraints.Movable pc); cbn [negb].
  - by case_bool_decide.
  - rewrite <- list_fmap_compose. by apply list_fmap_ext.
Qed.

Lemma bool_decide_nil {A} (l : list A) : bool_decide (length l = 0%nat) = match l with [] => true | _ => false end.
Proof. by destruct l. Qed.

Lemma app_eq_nil_iff {A} (l l' : list A) : l ++ l' = [] ↔ l = [] ∧ l' = [].
Proof. destruct l; naive_solver. Qed.

Lemma bind_nil {A B} (f : A → list B) l : l ≫= f = [] ↔ ∀ x, x ∈ l → f x = [].
Proof.
  induction l as [|x l IH]; cbn; [split; [by intros _ ? ?%elem_of_nil|done]|].
  rewrite app_eq_nil_iff, IH. setoid_rewrite elem_of_cons. naive_solver.
Qed.

(** Where no pod of a node is pinned to it or has finished, the preflight report
and the analyzer the planner drains by agree: the node is drainable to one
exactly when it is to the other, and the blockers reported are the analyzer's,
in its order, quoted. *)
Theorem preflight_agrees rec snap pn :
  wf_snapshot snap = true → pn ∈ preflightReport.nodes (preflight rec snap) → preflightNode.Node pn ≠ "" →
  (∀ pod, pod ∈ ClusterSnapshot.Pods snap → Pod.NodeName pod = preflightNode.Node pn →
     Pod.PinnedToNode pod = false ∧ Pod.finished pod = false) →
  let answer := Analysis.NodeDrainable (Analyze Placement.t snap) (preflightNode.Node pn) in
  preflightNode.Drainable pn = answer.1 ∧
  told <$> preflightNode.Blockers pn = quoted_constraint <$> answer.2.
Proof.
  intros Hw (n & Hn & ->)%elem_of_preflight Hne Hpods. cbn in Hne, Hpods |- *.
  rewrite by_node_scheduled, NodeDrainable_eq by done. cbn.
  set (pods := Analysis.ForNode _ _).
  assert (Hall : ∀ pc, pc ∈ pods → told <$> preflight_pod pc = quoted_constraint <$> blockers_of pc ∧
    (preflight_pod pc = [] ↔ can_leave pc = true)).
  { intros pc (pod & Hin & Hon & ->)%elem_of_node; [|done]. destruct (Hpods pod Hin Hon) as [Hp Hf].
    set (pc := report _ _ pod).
    assert (Hpin : PodConstraints.PinnedToNode pc = false).
    { unfold pc. rewrite report_pinned. unfold Pod.PinnedToNode, Pod.IsMirrorPod, Pod.owner_kind_is in *.
      by destruct (Pod.Owner pod). }
    split; [by apply preflight_pod_quotes|]. unfold preflight_pod, can_leave. rewrite Hpin. cbn [orb].
    destruct (PodConstraints.Movable pc) eqn:Hm; cbn [negb andb].
    - case_bool_decide; naive_solver.
    - pose proof (immovable_blocked _ _ _ Hm Hf) as Hb. fold pc in Hb. split; [|done].
      intros E%fmap_nil_inv. done. }
  split.
  - rewrite bool_decide_nil. destruct (pods ≫= preflight_pod) as [|b l] eqn:E; symmetry.
    + apply forallb_elem. intros pc Hpc. apply Hall; [done|]. by apply (proj1 (bind_nil _ _) E).
    + apply not_true_iff_false. rewrite forallb_elem. intros Hc.
      assert (pods ≫= preflight_pod = []) by (apply bind_nil; intros pc Hpc; apply Hall; auto). congruence.
  - clearbody pods. clear -Hall. induction pods as [|pc pods IH]; [done|]. rewrite !bind_cons, !fmap_app.
    f_equal; [apply Hall; by left|]. apply IH. intros ? ?. apply Hall. by right.
Qed.

Definition bare_record (snap : ClusterSnapshot.t) : Record.t :=
  Record.mk (Plan.mk "p" 0 PlanValid 0 [] 0 0 0 F64.zero) (Some snap) None "" 0.

Lemma preflight_agrees_witness :
  preflightNode.Drainable (preflight_node (Analyze Placement.t shop) (ex_node "a" "z1")) =
  (Analysis.NodeDrainable (Analyze Placement.t shop) "a").1.
Proof.
  refine (proj1 (preflight_agrees (bare_record shop) shop
    (preflight_node (Analyze Placement.t shop) (ex_node "a" "z1")) _ _ _ _)).
  - by vm_compute.
  - apply elem_of_preflight. eexists. split; [by left|done].
  - done.
  - intros pod Hin _. repeat (apply elem_of_cons in Hin as [->|Hin]; [done|]). by apply elem_of_nil in Hin.
Defined.

(** A node that a pod is pinned to, as a daemon set's or a static pod is, is
reported undrainable, with that pod as a blocker, whatever else runs there:
preflight does not pass over pinned pods as the analyzer does. *)
Theorem preflight_blames_pinned rec snap pod pn :
  wf_snapshot snap = true → pod ∈ ClusterSnapshot.Pods snap → Pod.PinnedToNode pod = true →
  pn ∈ preflightReport.nodes (preflight rec snap) → preflightNode.Node pn = Pod.NodeName pod → Pod.NodeName pod ≠ "" →
  preflightNode.Drainable pn = false ∧
  ∃ b, b ∈ preflightNode.Blockers pn ∧ preflightBlocker.Pod b = Pod.Key pod.
Proof.
  intros Hw Hin Hp (n & Hn & ->)%elem_of_preflight Hname Hne. cbn in Hname |- *.
  rewrite by_node_scheduled by congruence. rewrite Hname.
  set (pc := report snap (Core.NewPlacementCeiling snap F64.zero) pod).
  destruct (pinned_blocked snap (Core.NewPlacementCeiling snap F64.zero) pod Hp) as [Hm Hb]. fold pc in Hm, Hb.
  assert (Hpc : pc ∈ Analysis.ForNode (Analyze Placement.t snap) (Pod.NodeName pod)) by (apply elem_of_node; eauto).
  assert (∃ b, b ∈ preflight_pod pc ∧ preflightBlocker.Pod b = Pod.Key pod) as (b & Hbin & Hkey).
  { unfold preflight_pod. rewrite Hm. cbn [negb]. destruct (PodConstraints.Blockers pc) as [|c cs]; [done|].
    eexists. split; [by left|]. cbn. apply report_key. }
  assert (Hbs : b ∈ Analysis.ForNode (Analyze Placement.t snap) (Pod.NodeName pod) ≫= preflight_pod).
  { apply list_elem_of_bind. by exists pc. }
  split; [|by exists b]. rewrite bool_decide_nil. destruct (_ ≫= preflight_pod); [by apply elem_of_nil in Hbs|done].
Qed.

(** The log shipper of every managed node. *)
Definition shipper : Pod.t :=
  Pod.mk "logs" "ship" "a" ∅ PodRunning 0 (Resources.mk 100 100 0) ∅ [] None None [] true
    (Some (OwnerRef.mk "DaemonSet" "ship")) "" 0 false false false None.

Lemma preflight_blames_pinned_witness :
  let a := Analyze Placement.t (ex_snapshot [shipper]) in
  Analysis.NodeDrainable a "a" = (true, []) ∧
  preflightNode.Drainable (preflight_node a (ex_node "a" "z1")) = false.
Proof.
  split; [by vm_compute|].
  refine (proj1 (preflight_blames_pinned (bare_record (ex_snapshot [shipper])) (ex_snapshot [shipper]) shipper
    (preflight_node (Analyze Placement.t (ex_snapshot [shipper])) (ex_node "a" "z1")) _ _ _ _ _ _)).
  - by vm_compute.
  - by left.
  - done.
  - apply elem_of_preflight. eexists. split; [by left|done].
  - done.
  - done.
Defined.

(** ** What if *)

Lemma elem_of_simulated now remove snap p :
  p ∈ ClusterSnapshot.Pods (simulated now remove snap) ↔
  ∃ q, q ∈ ClusterSnapshot.Pods snap ∧ p ∈ displace remove q.
Proof. cbn. rewrite list_elem_of_bind. naive_solver. Qed.

(** A simulated pod is the pod it was, but for where it runs. *)
Lemma displace_same remove p q :
  q ∈ displace remove p → Pod.Key q = Pod.Key p ∧ Pod.TopologySpread q = Pod.TopologySpread p.
Proof. unfold displace. repeat case_match; rewrite ?list_elem_of_singleton; [by intros ->..|by intros ?%elem_of_nil]. Qed.

Lemma simulated_wf now remove snap : wf_snapshot snap = true → wf_snapshot (simulated now remove snap) = true.
Proof.
  unfold wf_snapshot. rewrite !andb_true_iff. intros [Hn Hp]. split.
  - apply bool_decide_eq_true in Hn. by apply bool_decide_eq_true, NoDup_filter_list.
  - rewrite forallb_elem in Hp |- *. intros p (q & Hq & Hin)%elem_of_simulated.
    unfold wf_pod. rewrite (proj2 (displace_same _ _ _ Hin)). by apply Hp.
Qed.

Lemma simulated_keys now remove snap : unique_keys snap → unique_keys (simulated now remove snap).
Proof.
  unfold unique_keys. cbn. induction (ClusterSnapshot.Pods snap) as [|p l IH]; [done|].
  rewrite fmap_cons, NoDup_cons, bind_cons, fmap_app. intros [Hp Hl]. apply NoDup_app. split_and!; [| |by apply IH].
  - unfold displace. repeat case_match; cbn; repeat constructor; by intros ?%elem_of_nil.
  - intros k (q & -> & Hq)%list_elem_of_fmap (q' & Hk & (r & Hr & Hin)%list_elem_of_bind)%list_elem_of_fmap. apply Hp.
    rewrite <- (proj1 (displace_same _ _ _ Hq)), Hk, (proj1 (displace_same _ _ _ Hr)). by apply list_elem_of_fmap_2.
Qed.

(** The assignment a simulation starts from: what survives, where it runs. *)
Definition survivors (now : time) (remove : gset string) (snap : ClusterSnapshot.t) : Core.t :=
  Core.NewPlacementCeiling (simulated now remove snap) F64.zero.

Lemma homeless_pod_iff now remove snap p :
  wf_snapshot snap = true → unique_keys snap → few_pods (survivors now remove snap) →
  p ∈ displaced_pods remove (ClusterSnapshot.Pods snap) →
  homeless_pod (Analyze Placement.t (simulated now remove snap)) p = None ↔
  budgets_allow snap p ∧ ∃ n, n ≠ "" ∧ feasible (survivors now remove snap) (Pod.set_NodeName "" p) n.
Proof.
  intros Hw Hk Hf [Hin [Hr%bool_decide_eq_true Hm]%andb_true_iff]%filter_elem.
  pose proof (simulated_wf now remove snap Hw) as Hw'. pose proof (simulated_keys now remove snap Hk) as Hk'.
  set (q := Pod.set_NodeName "" p).
  assert (Hq : q ∈ ClusterSnapshot.Pods (simulated now remove snap)).
  { apply elem_of_simulated. exists p. split; [done|]. unfold displace. rewrite bool_decide_eq_false_2 by naive_solver.
    rewrite Hm. by left. }
  unfold homeless_pod. change (Pod.Key p) with (Pod.Key q). rewrite ForPod_report by done. cbn [mbind option_bind].
  transitivity (PodConstraints.CandidateNodes (report (simulated now remove snap) (survivors now remove snap) q) ≠ []).
  - case_bool_decide; naive_solver.
  - unfold survivors. rewrite report_has_candidate by done. split; [by intros (_ & ? & ?)|]. intros [? ?]. by split.
Qed.

(** Losing nodes leaves a displaced pod homeless, in the report, exactly when
a disruption budget that covers it allows no disruption or no surviving node can
take it in the simulated cluster; the report says all fit exactly when no
displaced pod is left so. *)
Theorem whatif_homeless_iff now remove rec snap :
  wf_snapshot snap = true → unique_keys snap → few_pods (survivors now remove snap) →
  let report := whatif now remove rec snap in
  let housed p := budgets_allow snap p ∧
    ∃ n, n ≠ "" ∧ feasible (survivors now remove snap) (Pod.set_NodeName "" p) n in
  (∀ p, p ∈ displaced_pods remove (ClusterSnapshot.Pods snap) →
     (∃ h, h ∈ whatifReport.homeless report ∧ whatifHomeless.Pod h = Pod.Key p) ↔ ¬ housed p) ∧
  (whatifReport.fits report = true ↔
     ∀ p, p ∈ displaced_pods remove (ClusterSnapshot.Pods snap) → housed p).
Proof.
  intros Hw Hk Hf report housed.
  set (an := Analyze Placement.t (simulated now remove snap)).
  set (ds := displaced_pods remove (ClusterSnapshot.Pods snap)).
  assert (Hh : ∀ h, h ∈ whatifReport.homeless report ↔ ∃ p, p ∈ ds ∧ homeless_pod an p = Some h).
  { intros h. cbn. by rewrite elem_of_sort_by, list_elem_of_omap. }
  assert (Hiff : ∀ p, p ∈ ds → homeless_pod an p = None ↔ housed p) by (intros p; by apply homeless_pod_iff).
  assert (Hkey : ∀ p h, homeless_pod an p = Some h → whatifHomeless.Pod h = Pod.Key p).
  { intros p h (pc & _ & Hx)%bind_Some. by case_bool_decide; simplify_eq. }
  split.
  - intros p Hp. rewrite <- Hiff by done. split.
    + intros (h & (q & Hq & Hs)%Hh & E). rewrite (Hkey _ _ Hs) in E.
      assert (q = p) as -> by (apply (fmap_unique Pod.Key (ClusterSnapshot.Pods snap)); [done| | |done];
        by eapply filter_elem). by rewrite Hs.
    + intros [h Hs]%not_eq_None_Some. exists h. split; [apply Hh; eauto|by apply Hkey].
  - change (whatifReport.fits report) with (Nat.eqb (length (whatifReport.homeless report)) 0).
    destruct (whatifReport.homeless report) as [|h l] eqn:E; cbn; (split; [|intros H]).
    + intros _ p Hp. apply Hiff; [done|]. apply eq_None_not_Some. intros [h Hs].
      apply (not_elem_of_nil h), Hh. eauto.
    + done.
    + done.
    + exfalso. assert (Hin : h ∈ h :: l) by left. apply Hh in Hin as (p & Hp & Hs).
      assert (homeless_pod an p = None) by (apply Hiff; auto). congruence.
Qed.

Lemma whatif_homeless_iff_witness :
  let report := whatif 0 {["c"]} (bare_record shop) shop in
  whatifReport.displaced report = 1 ∧ whatifReport.fits report = true ∧
  ∃ n, n ≠ "" ∧ feasible (survivors 0 {["c"]} shop) (Pod.set_NodeName "" (db "d1" "c")) n.
Proof.
  destruct (whatif_homeless_iff 0 {["c"]} (bare_record shop) shop) as [_ Hfits].
  - by vm_compute.
  - unfold unique_keys. eapply bool_decide_eq_true_1. by vm_compute.
  - by vm_compute.
  - assert (H : whatifReport.fits (whatif 0 {["c"]} (bare_record shop) shop) = true) by (by vm_compute).
    split_and!; [by vm_compute|done|].
    refine (proj2 (proj1 Hfits H (db "d1" "c") _)).
    apply filter_elem. split; [by do 2 right; left|by vm_compute].
Defined.

Lemma no_removal `{MapRange} (nodes : list Node.t) : nodes ≠ [] → check_removal ∅ nodes = None.
Proof.
  intros Hn. unfold check_removal. rewrite gset_to_gmap_empty.
  assert (entries (∅ : gmap string ()) = []) as ->.
  { apply Permutation_nil_r. rewrite entries_perm. by rewrite map_to_list_empty. }
  by destruct nodes.
Qed.

(** A simulation that names a zone no node is in is not refused, as one that
names an unknown node is: nothing is removed, and the report says that the loss
displaces no pod and that everything fits. *)
Theorem unknown_zone_fits `{MapRange} up now zone rec snap s :
  record up "latest" s = inr rec → Record.Snapshot rec = Some snap → ClusterSnapshot.Nodes snap ≠ [] → zone ≠ "" →
  (∀ n, n ∈ ClusterSnapshot.Nodes snap → Node.Zone n ≠ zone) →
  handleWhatif up now (Some (whatifRequest.mk [] zone)) s =
  inr (whatifReport.mk [] 0 true [] (Plan.ID (Record.Plan rec)) (ClusterSnapshot.TakenAt snap)).
Proof.
  intros Hr Hs Hn Hz Hno. unfold handleWhatif, with_record, with_snapshot. rewrite Hr. cbn [whatifRequest.RemoveNodes length].
  cbn [Nat.eqb andb whatifRequest.RemoveZone]. rewrite (proj2 (String.eqb_neq _ _) Hz), Hs.
  assert (removal (whatifRequest.mk [] zone) (ClusterSnapshot.Nodes snap) = ∅) as ->.
  { unfold removal. cbn [whatifRequest.RemoveNodes whatifRequest.RemoveZone list_to_set]. rewrite filter_none; [set_solver|].
    intros n Hin. rewrite (proj2 (String.eqb_neq _ _) (Hno n Hin)). apply andb_false_r. }
  rewrite no_removal by done. unfold whatif.
  assert (displaced_pods ∅ (ClusterSnapshot.Pods snap) = []) as ->; [|done].
  apply filter_none. intros p _. by rewrite bool_decide_eq_false_2 by set_solver.
Qed.

Definition in_order_range : MapRange := {| range l := l; range_perm l := Permutation_refl l |}.

(** The server holds the plan just computed on the shop. *)
Definition shop_server : Server.t :=
  Server.mk (PlanStore.Save 1000 (bare_record shop) PlanStore.empty).2 None.

Definition no_faults : faults := λ _, None.

Lemma unknown_zone_fits_witness :
  ∃ rep, @handleWhatif in_order_range no_faults 0 (Some (whatifRequest.mk [] "z9")) shop_server = inr rep ∧
    whatifReport.fits rep = true.
Proof.
  eexists. split.
  - apply (@unknown_zone_fits in_order_range no_faults 0 "z9"
      (Record.mk (Record.Plan (bare_record shop)) (Some shop) None "" 1000) shop).
    + by vm_compute.
    + done.
    + done.
    + done.
    + intros n Hin. repeat (apply elem_of_cons in Hin as [->|Hin]; [by vm_compute|]). by apply elem_of_nil in Hin.
  - done.
Defined.

(** Two pods of four on nodes [a] and [b], and room on [c] for one of them. *)
Definition large (name node : string) : Pod.t := ex_pod name node "large" 3000 1000000 [] None.

Definition crowded : ClusterSnapshot.t := ex_snapshot [large "l1" "a"; large "l2" "b"].

(** The what-if report judges every displaced pod on its own: it says that a loss
fits although the displaced pods together request more CPU than the surviving
nodes have free, so that no assignment places them all. *)
Theorem whatif_judges_alone :
  ∃ snap remove, let report := whatif 0 remove (bare_record snap) snap in
    let total (f : Pod.t → Z) l := foldr (λ p n, f p + n) 0 l in
    wf_snapshot snap = true ∧ unique_keys snap ∧ whatifReport.fits report = true ∧
    foldr (λ n t, Resources.MilliCPU (Core.Free (survivors 0 remove snap) n) + t) 0
      (Core.NodeNames (survivors 0 remove snap)) <
    total (λ p, Resources.MilliCPU (Pod.Requests p)) (displaced_pods remove (ClusterSnapshot.Pods snap)).
Proof.
  exists crowded, {["a"; "b"]}. cbn zeta. split_and!; [by vm_compute| |by vm_compute|by vm_compute].
  unfold unique_keys. eapply bool_decide_eq_true_1. by vm_compute.
Qed.

(** ** Right-sizing *)

Definition sized (key : string) (p : Pod.t) : bool := (sizing_key p =? key)%string.

Definition size_of (key : string) (ps : list Pod.t) : agg.t :=
  fold_left (λ a p, add_size p a) ps (agg.mk (rightsizingRow.start key) false).

Lemma sizes_lookup pods key :
  sizes pods !! key = match filter (λ p, sized key p) pods with [] => None | ps => Some (size_of key ps) end.
Proof.
  unfold sizes. induction pods as [|p pods IH] using rev_ind; [by apply lookup_empty|].
  rewrite fold_left_app, filter_app. cbn [fold_left]. unfold size_pod at 1.
  assert (filter (λ p, sized key p) [p] = if sized key p then [p] else []) as ->
    by (rewrite filter_cons; by destruct (sized key p)).
  destruct (sized key p) eqn:Hs.
  - apply String.eqb_eq in Hs as Hs'. rewrite Hs', lookup_insert_eq, IH. destruct (filter _ pods) as [|q qs]; [done|]. cbn [default app].
    unfold size_of. rewrite app_comm_cons, fold_left_app. done.
  - apply String.eqb_neq in Hs. by rewrite app_nil_r, lookup_insert_ne.
Qed.

(** Sums wrap like the program's. *)
Definition sum64 (l : list Z) : Z := fold_left int64_add l 0.

Definition row_of (key : string) (ps : list Pod.t) : rightsizingRow.t :=
  let measured := omap Pod.Usage ps in
  rightsizingRow.mk key (Z.of_nat (length ps))
    (sum64 (Resources.MilliCPU ∘ Pod.Requests <$> ps)) (sum64 (Resources.MilliCPU <$> measured))
    (sum64 (Resources.MemoryBytes ∘ Pod.Requests <$> ps)) (sum64 (Resources.MemoryBytes <$> measured)).

Lemma sum64_snoc l x : sum64 (l ++ [x]) = int64_add (sum64 l) x.
Proof. unfold sum64. by rewrite fold_left_app. Qed.

Lemma size_of_row key ps :
  agg.row (size_of key ps) = row_of key ps ∧ agg.hasUsage (size_of key ps) = existsb (λ p, bool_decide (is_Some (Pod.Usage p))) ps.
Proof.
  unfold size_of. induction ps as [|p ps [IHr IHu]] using rev_ind; [done|].
  rewrite fold_left_app. cbn [fold_left]. set (a := fold_left _ ps _) in *.
  assert (Hl : Z.of_nat (length (ps ++ [p])) = Z.of_nat (length ps) + 1) by (rewrite length_app; cbn; lia).
  unfold row_of. rewrite !fmap_app, omap_app, Hl, existsb_app. unfold add_size, add_usage, add_request.
  rewrite <- IHu, IHr. destruct (Pod.Usage p) as [u|] eqn:Hu; cbn; rewrite Hu; cbn;
    rewrite ?fmap_app, ?app_nil_r; cbn [fmap list_fmap]; rewrite !sum64_snoc; unfold compose.
  - split; [done|]. by rewrite orb_true_r.
  - split; [done|]. by rewrite !orb_false_r.
Qed.

Lemma int64_add_swap t a b : int64_add (int64_add t a) b = int64_add (int64_add t b) a.
Proof.
  unfold int64_add, wrap64. f_equal.
  rewrite !(Z.add_comm _ b), !(Z.add_comm _ a), <- !Z.add_assoc, !Z.sub_add.
  rewrite !Z.add_mod_idemp_r by done. f_equal. lia.
Qed.

Lemma sum64_perm l l' : l ≡ₚ l' → sum64 l = sum64 l'.
Proof.
  intros Hp. unfold sum64. generalize 0. induction Hp as [|x l l' _ IH|x y l|l1 l2 l3 _ IH1 _ IH2]; intros t; cbn.
  - done.
  - apply IH.
  - by rewrite int64_add_swap.
  - by rewrite IH1.
Qed.

Lemma fold_total (f : rightsizingRow.t → Z) rows :
  fold_left (λ t r, int64_add t (f r)) rows 0 = sum64 (f <$> rows).
Proof.
  unfold sum64. generalize 0. induction rows as [|r rows IH]; intros t; [done|]. apply IH.
Qed.

Lemma elem_of_measured `{MapRange} pods row :
  row ∈ measured_rows pods ↔ ∃ key p ps, filter (λ p, sized key p) pods = ps ∧ p ∈ ps ∧ is_Some (Pod.Usage p) ∧
    row = row_of key ps.
Proof.
  unfold measured_rows. rewrite list_elem_of_fmap. split.
  - intros (a & -> & [Ha Hu]%filter_elem). apply list_elem_of_fmap in Ha as ([key a'] & -> & Hin). cbn in *.
    rewrite entries_perm in Hin. apply elem_of_map_to_list in Hin. rewrite sizes_lookup in Hin.
    destruct (filter _ pods) as [|q qs] eqn:E; [done|]. injection Hin as <-. destruct (size_of_row key (q :: qs)) as [Hr Hh].
    rewrite Hh in Hu. apply existsb_elem in Hu as (p & Hp & Hs%bool_decide_eq_true). by exists key, p, (q :: qs).
  - intros (key & p & ps & <- & Hp & Hs & ->). set (ps := filter _ pods) in *. exists (size_of key ps).
    destruct (size_of_row key ps) as [Hr Hh]. split; [done|]. apply filter_elem. split.
    + apply list_elem_of_fmap. exists (key, size_of key ps). split; [done|]. rewrite entries_perm.
      apply elem_of_map_to_list. rewrite sizes_lookup. fold ps. destruct ps; [by apply elem_of_nil in Hp|done].
    + rewrite Hh. apply existsb_elem. exists p. split; [done|]. by apply bool_decide_eq_true.
Qed.

(** Without measurements the sizing report is absent.  With them a workload has
a row exactly when at least one of its pods was measured; the row counts every
pod of the workload and adds up the requests of all of them, but the usage of
the measured ones only.  Rows come by falling excess, and neither which rows
there are nor the totals depend on the order the program's map is ranged over. *)
Theorem rightsizing_rows (H1 H2 : MapRange) snap :
  (ClusterSnapshot.HasUsageData snap = false ↔ @rightsizing H1 snap = None) ∧
  ∀ rep, @rightsizing H1 snap = Some rep →
    (∀ row, row ∈ rightsizingReport.workloads rep ↔
       ∃ key p ps, filter (λ p, sized key p) (ClusterSnapshot.Pods snap) = ps ∧ p ∈ ps ∧ is_Some (Pod.Usage p) ∧
         row = row_of key ps) ∧
    Sorted (λ a b, excess b <= excess a) (rightsizingReport.workloads rep) ∧
    ∃ rep', @rightsizing H2 snap = Some rep' ∧
      rightsizingReport.workloads rep ≡ₚ rightsizingReport.workloads rep' ∧
      rightsizingReport.totalRequestedMilli rep = rightsizingReport.totalRequestedMilli rep' ∧
      rightsizingReport.totalUsedMilli rep = rightsizingReport.totalUsedMilli rep'.
Proof.
  unfold rightsizing. split; [by destruct (ClusterSnapshot.HasUsageData snap)|].
  destruct (ClusterSnapshot.HasUsageData snap); [|done]. cbn [negb]. intros rep [= <-]. cbn.
  assert (Hp : @measured_rows H1 (ClusterSnapshot.Pods snap) ≡ₚ @measured_rows H2 (ClusterSnapshot.Pods snap)).
  { unfold measured_rows. apply fmap_Permutation, filter_perm, fmap_Permutation. by rewrite !entries_perm. }
  split_and!.
  - intros row. rewrite elem_of_sort_by. apply elem_of_measured.
  - eapply Sorted_weaken; [|apply sort_by_sorted]. { intros a b. unfold in_order. by rewrite Z.ltb_ge. }
    intros a b. rewrite Z.ltb_lt, Z.ltb_ge. lia.
  - eexists. split; [done|]. cbn. rewrite !fold_total. split_and!; [by rewrite !sort_by_perm| |];
      (apply sum64_perm, fmap_Permutation, Hp).
Qed.

(** ** One step *)

Lemma by_key_lookup pods key p :
  by_key pods !! key = Some p → p ∈ pods ∧ Pod.Key p = key.
Proof.
  unfold by_key. induction pods as [|q pods IH] using rev_ind; [cbn; by rewrite lookup_empty|].
  rewrite fold_left_app. cbn. rewrite elem_of_app, list_elem_of_singleton.
  intros [[<- <-]|[_ Hx]]%lookup_insert_Some; [by split; [right|]|]. apply IH in Hx as [? ?]. by split; [left|].
Qed.

Lemma by_key_some pods p : p ∈ pods → is_Some (by_key pods !! Pod.Key p).
Proof.
  unfold by_key. induction pods as [|q pods IH] using rev_ind; [by intros ?%elem_of_nil|].
  rewrite elem_of_app, list_elem_of_singleton, fold_left_app. cbn. rewrite lookup_insert_is_Some.
  intros [Hin| ->]; [|by left]. destruct (decide (Pod.Key q = Pod.Key p)); [by left|right; by auto].
Qed.

Lemma by_key_unique snap p :
  unique_keys snap → p ∈ ClusterSnapshot.Pods snap → by_key (ClusterSnapshot.Pods snap) !! Pod.Key p = Some p.
Proof.
  intros Hk Hin. destruct (by_key_some _ _ Hin) as [q Hq]. rewrite Hq. f_equal.
  apply by_key_lookup in Hq as [Hq E]. by apply (fmap_unique Pod.Key (ClusterSnapshot.Pods snap)).
Qed.

Definition replica_of (key : string) (p : Pod.t) : bool :=
  match Pod.Owner p with Some o => (replica_key p o =? key)%string | None => false end.

Lemma replicas_lookup pods key :
  default 0 (replicas pods !! key) = Z.of_nat (length (List.filter (replica_of key) pods)).
Proof.
  unfold replicas. induction pods as [|p pods IH] using rev_ind; [done|].
  rewrite fold_left_app, List.filter_app, length_app. cbn [fold_left List.filter]. unfold replica_of at 2.
  destruct (Pod.Owner p) as [o|]; [|rewrite IH; cbn; lia].
  destruct (String.eqb_spec (replica_key p o) key) as [<-|Hne].
  - rewrite lookup_insert_eq. cbn [default length]. rewrite IH. cbn; lia.
  - rewrite lookup_insert_ne by done. rewrite IH. cbn; lia.
Qed.

(** The pods a step's detail flags as singletons are exactly the pods it moves
that have no owner or are the only pod of the snapshot with that owner, whatever
phase the others would be in. *)
Theorem singletons_iff step snap key :
  unique_keys snap →
  key ∈ singletons step snap ↔
  ∃ m p, m ∈ PlanStep.Moves step ∧ p ∈ ClusterSnapshot.Pods snap ∧ Pod.Key p = move_key m ∧ key = Pod.Key p ∧
    (Pod.Owner p = None ∨
     ∃ o, Pod.Owner p = Some o ∧ List.filter (replica_of (replica_key p o)) (ClusterSnapshot.Pods snap) = [p]).
Proof.
  intros Hk. assert (Hone : ∀ p, p ∈ ClusterSnapshot.Pods snap →
    only_replica (replicas (ClusterSnapshot.Pods snap)) p = true ↔ Pod.Owner p = None ∨
     ∃ o, Pod.Owner p = Some o ∧ List.filter (replica_of (replica_key p o)) (ClusterSnapshot.Pods snap) = [p]).
  { intros p Hin. unfold only_replica. destruct (Pod.Owner p) as [o|] eqn:Ho; [|naive_solver].
    rewrite replicas_lookup, Z.eqb_eq.
    assert (Hp : p ∈ List.filter (replica_of (replica_key p o)) (ClusterSnapshot.Pods snap)).
    { apply filter_elem. split; [done|]. unfold replica_of. by rewrite Ho, String.eqb_refl. }
    split; [|by intros [?|(o' & [= <-] & ->)]]. intros Hl. right. exists o. split; [done|].
    destruct (List.filter _ _) as [|q [|q' qs]] eqn:E; [by apply elem_of_nil in Hp| |cbn in Hl; lia].
    by apply list_elem_of_singleton in Hp as ->. }
  unfold singletons. rewrite list_elem_of_omap. split.
  - intros (m & Hm & (p & Hp & Hx)%bind_Some). apply by_key_lookup in Hp as [Hin E].
    destruct (only_replica _ p) eqn:Hr; simplify_eq. exists m, p. split_and!; [done..|]. by apply Hone.
  - intros (m & p & Hm & Hin & E & -> & Hr). exists m. split; [done|]. rewrite <- E, by_key_unique by done. cbn.
    by rewrite (proj2 (Hone p Hin) Hr).
Qed.

Lemma singletons_iff_witness :
  "shop/w1" ∈ singletons (PlanStep.fresh 1 "a" [Move.mk "shop" "w1" "a" "c" 500 1000000]) (ex_snapshot [web "w1" "a"]).
Proof.
  apply (singletons_iff _ (ex_snapshot [web "w1" "a"])).
  - unfold unique_keys. eapply bool_decide_eq_true_1. by vm_compute.
  - exists (Move.mk "shop" "w1" "a" "c" 500 1000000), (web "w1" "a"). split_and!; [by left|by left|done..|].
    right. eexists. split; [done|]. by vm_compute.
Defined.

(** ** The forecast *)

Lemma by_name_known nodes name : is_Some (by_name nodes !! name) ↔ name ∈ Node.Name <$> nodes.
Proof.
  unfold by_name. induction nodes as [|n nodes IH] using rev_ind.
  { cbn. rewrite lookup_empty, elem_of_nil. split; [by intros []|done]. }
  rewrite fold_left_app, fmap_app, elem_of_app. cbn. rewrite lookup_insert_is_Some, IH, list_elem_of_singleton.
  destruct (decide (Node.Name n = name)); naive_solver.
Qed.

Lemma machines_count nodes steps :
  length (omap (step_machine (by_name nodes)) steps) =
  length (List.filter (λ st, bool_decide (PlanStep.TargetNode st ∈ Node.Name <$> nodes)) steps).
Proof.
  induction steps as [|st steps IH]; [done|]. cbn [omap list_omap List.filter]. unfold step_machine at 1.
  pose proof (by_name_known nodes (PlanStep.TargetNode st)) as Hk.
  case_bool_decide as Hin.
  - apply Hk in Hin as [n Hn]. rewrite Hn. cbn. by rewrite <- IH.
  - destruct (by_name nodes !! PlanStep.TargetNode st) as [n|] eqn:Hn; [|exact IH].
    destruct Hin. apply Hk. by eexists.
Qed.

(** A forecast is given exactly when prices are configured and some step drains a
node of the snapshot; every such step is then counted once, as priced or as
unpriced. *)
Theorem forecast_counts table rec :
  let drained snap := List.filter (λ st, bool_decide (PlanStep.TargetNode st ∈ Node.Name <$> ClusterSnapshot.Nodes snap))
    (Plan.Steps (Record.Plan rec)) in
  (is_Some (forecast table rec) ↔
     Table.Empty table = false ∧ ∃ snap, Record.Snapshot rec = Some snap ∧ drained snap ≠ []) ∧
  ∀ f snap, forecast table rec = Some f → Record.Snapshot rec = Some snap →
    Forecast.PricedNodes f + Forecast.UnpricedNodes f = Z.of_nat (length (drained snap)).
Proof.
  cbn zeta. unfold forecast. destruct (Record.Snapshot rec) as [snap|]; [|split; [|done]; split; [by intros []|by intros (_ & ? & ? & _)]].
  set (nodes := omap _ _). pose proof (machines_count (ClusterSnapshot.Nodes snap) (Plan.Steps (Record.Plan rec))) as Hl.
  fold nodes in Hl. destruct (Value_counts table nodes) as (Hp & Hu & _).
  assert (Hsum : Reclaimed.Priced (Value table nodes) + Reclaimed.Unpriced (Value table nodes) = Z.of_nat (length nodes)) by lia.
  assert (Hpos : 0 <= Reclaimed.Priced (Value table nodes)) by lia. clear Hp Hu.
  destruct (Table.Empty table); [split; [|done]; split; [by intros []|by intros [? _]]|].
  destruct (Nat.eqb_spec (length nodes) 0) as [Hz|Hz].
  { split; [|done]. split; [by intros []|]. intros (_ & ? & [= <-] & Hd). destruct Hd. apply nil_length_inv. congruence. }
  assert ((Reclaimed.Priced (Value table nodes) =? 0) && (Reclaimed.Unpriced (Value table nodes) =? 0) = false) as ->.
  { apply andb_false_iff. rewrite !Z.eqb_neq. lia. }
  split.
  - split; [|by eexists]. intros _. split; [done|]. exists snap. split; [done|]. intros E. by rewrite E in Hl.
  - intros f snap' [= <-] [= <-]. cbn. rewrite <- Hl. exact Hsum.
Qed.
