(* ===== verification/AgentToolsProps.v ===== *)
(** * The agent tells what the API tells

Explanations against the step inspector of the API; what the overview counts; why
a node is left. *)
From S2P Require Import Prelude GoLib Float64 GoText GoTime Model Cluster Fixtures WorkingPlacement Analyzer Store PlanStore Admission AgentTools Reports.

(** ** explain_step *)

(** What a detail says: of which pod, which rule, whether it blocks, in which words. *)
Definition told (c : ConstraintDetail.t) : string * string * bool * string :=
  (ConstraintDetail.Pod c, ConstraintDetail.Kind c, ConstraintDetail.Blocking c, ConstraintDetail.Explanation c).

Definition constraint_of (pc : PodConstraints.t) (c : Constraint.t) : string * string * bool * string :=
  (PodConstraints.Key pc, kind_string (Constraint.kind c), Constraint.Blocking c, Constraint.Explanation c).

(** What both surfaces say of a step. *)
Definition same_story (d : stepDetail.t) (o : ExplainStepOutput.t) : Prop :=
  ExplainStepOutput.PlanID o = stepDetail.planId d ∧
  ExplainStepOutput.Step o = PlanStep.SequenceNumber (stepDetail.step d) ∧
  ExplainStepOutput.TargetNode o = PlanStep.TargetNode (stepDetail.step d) ∧
  ExplainStepOutput.Impact o = rating_string (PlanStep.Impact (stepDetail.step d)) ∧
  ExplainStepOutput.Rationale o = PlanStep.Rationale (stepDetail.step d) ∧
  ExplainStepOutput.Reasons o = ImpactReason.Detail <$> PlanStep.Reasons (stepDetail.step d) ∧
  ExplainStepOutput.WindowOnly o = bool_decide (PlanStep.Impact (stepDetail.step d) = ImpactRed) ∧
  MoveDetail.Pod <$> ExplainStepOutput.Moves o = moved_pod <$> PlanStep.Moves (stepDetail.step d) ∧
  told <$> ExplainStepOutput.Constraints o =
    stepDetail.constraints d ≫= λ pc, constraint_of pc <$> PodConstraints.Constraints pc.

Lemma flatten_tells l :
  told <$> (l ≫= flatten) = l ≫= λ pc, constraint_of pc <$> PodConstraints.Constraints pc.
Proof.
  induction l as [|pc l IH]; [done|]. rewrite !bind_cons, fmap_app, IH. f_equal.
  unfold flatten. by rewrite <- list_fmap_compose.
Qed.

Lemma omap_bind {A B C} (f : A → option B) (g : B → list C) l :
  omap f l ≫= g = l ≫= λ x, match f x with Some y => g y | None => [] end.
Proof. induction l as [|x l IH]; cbn; [done|]. destruct (f x); cbn; by rewrite IH. Qed.

(** C37: asked about a step, the agent answers exactly when the API does, with the
same plan, rating, rationale and reasons, and with the analyzer's constraints that
the inspector shows for the pods moved, in order, word for word. *)
Theorem agent_agrees_with_api up s n :
  match handleStep up "latest" (Some n) s, explainStep up (Server.store s) n with
  | inr d, Out o => same_story d o
  | inl e, IsError _ => e = fail_with NotFound ∨ (∃ f, e = fail_with (Broken f)) ∨ (∃ msg, e = writeError 404 msg)
  | _, _ => False
  end.
Proof.
  unfold handleStep, with_record, record, explainStep, with_latest. cbn [String.eqb orb].
  destruct (ask up CLatest (PlanStore.Latest (Server.store s))) as [[|f]|rec]; cbn.
  - by left.
  - right. left. by exists f.
  - destruct (List.find _ (Plan.Steps (Record.Plan rec))) as [step|]; [|right; right; by eexists].
    unfold same_story. cbn. split_and!; try done; [by rewrite <- list_fmap_compose|].
    rewrite <- flatten_tells. f_equal.
    unfold move_constraints. destruct (Record.Analysis rec); cbn; [by rewrite omap_bind|].
    by induction (PlanStep.Moves step).
Qed.

(** ** list_plan_steps *)

Definition rated_as (r : ImpactRating) (p : Plan.t) : Z :=
  Z.of_nat (length (List.filter (λ st, bool_decide (PlanStep.Impact st = r)) (Plan.Steps p))).

Lemma CountByRating_fold r steps (m : gmap ImpactRating Z) :
  default 0 (fold_left (λ out st, <[PlanStep.Impact st := default 0 (out !! PlanStep.Impact st) + 1]> out) steps m !! r) =
  default 0 (m !! r) + Z.of_nat (length (List.filter (λ st, bool_decide (PlanStep.Impact st = r)) steps)).
Proof.
  revert m. induction steps as [|st steps IH]; intros m; cbn; [lia|]. rewrite IH.
  case_bool_decide as E; cbn [length].
  - rewrite E, lookup_insert_eq. cbn. lia.
  - by rewrite lookup_insert_ne.
Qed.

Lemma CountByRating_spec r p : r ∈ [ImpactGreen; ImpactYellow; ImpactRed] → default 0 (Plan.CountByRating p !! r) = rated_as r p.
Proof.
  intros Hr. unfold Plan.CountByRating. rewrite CountByRating_fold. unfold rated_as.
  rewrite !elem_of_cons, elem_of_nil in Hr. by destruct Hr as [->|[->|[->|[]]]].
Qed.

(** The overview lists the steps of the plan in order and counts them by rating:
for a plan whose steps are rated, the three counts add up to the steps listed. *)
Theorem overview_counts up s o :
  listPlanSteps up s = Out o →
  ∃ rec, PlanStore.Latest s = inr rec ∧
    StepSummary.Step <$> ListStepsOutput.Steps o = PlanStep.SequenceNumber <$> Plan.Steps (Record.Plan rec) ∧
    ListStepsOutput.Green o = rated_as ImpactGreen (Record.Plan rec) ∧
    ListStepsOutput.Yellow o = rated_as ImpactYellow (Record.Plan rec) ∧
    ListStepsOutput.Red o = rated_as ImpactRed (Record.Plan rec) ∧
    ((∀ st, st ∈ Plan.Steps (Record.Plan rec) → PlanStep.Impact st ∈ [ImpactGreen; ImpactYellow; ImpactRed]) →
     ListStepsOutput.Green o + ListStepsOutput.Yellow o + ListStepsOutput.Red o =
     Z.of_nat (length (ListStepsOutput.Steps o))).
Proof.
  unfold listPlanSteps, with_latest, ask. destruct (up CLatest); [done|].
  destruct (PlanStore.Latest s) as [[]|rec] eqn:E; [done|done|]. intros [= <-]. cbn.
  rewrite !CountByRating_spec by (repeat first [left; done | right]).
  exists rec. split; [done|]. split; [by rewrite <- list_fmap_compose|]. split_and!; [done..|].
  intros Hr. rewrite length_fmap. unfold rated_as. induction (Plan.Steps (Record.Plan rec)) as [|st l IH]; [done|].
  cbn. specialize (IH (λ x Hx, Hr x (list_elem_of_further _ _ _ Hx))).
  pose proof (Hr st (list_elem_of_here _ _)) as Hst. rewrite !elem_of_cons, elem_of_nil in Hst.
  destruct Hst as [-> |[-> |[-> |[]]]]; repeat (case_bool_decide; [|try done]); try done; cbn [length]; lia.
Qed.

(** ** why_not_drained *)

Lemma list_find_split name (l : list PlanStep.t) st :
  List.find (λ st, (PlanStep.TargetNode st =? name)%string) l = Some st →
  ∃ l1 l2, l = l1 ++ st :: l2 ∧ PlanStep.TargetNode st = name ∧ name ∉ PlanStep.TargetNode <$> l1.
Proof.
  induction l as [|x l IH]; cbn; [done|]. destruct (String.eqb_spec (PlanStep.TargetNode x) name) as [E|E].
  - intros [= <-]. exists [], l. split_and!; [done|done|by apply not_elem_of_nil].
  - intros (l1 & l2 & -> & Ht & Hl1)%IH. exists (x :: l1), l2. split_and!; [done|done|].
    cbn. by apply not_elem_of_cons.
Qed.

(** The reason the answer gives first. *)
Definition blocked_answer (name : string) (blockers : list Constraint.t) (b : Constraint.t) : string :=
  name +:+ " cannot be drained because " +:+ pretty (Z.of_nat (length blockers)) +:+ " constraint(s) block it. " +:+
  Constraint.Explanation b.

(** A pod that could leave and has nowhere to go keeps its node from draining. *)
Lemma stuck_not_drainable l acc pc :
  pc ∈ l → stuck pc = true → PodConstraints.PinnedToNode pc = false → (fold_left Analysis.drain_step l acc).1 = false.
Proof.
  assert (Hf : ∀ l bs, (fold_left Analysis.drain_step l (false, bs)).1 = false).
  { clear. induction l as [|pc l IH]; intros bs; [done|]. cbn. by repeat case_match. }
  revert acc. induction l as [|x l IH]; intros [d bs] Hin Hs Hp; [by apply elem_of_nil in Hin|]. cbn.
  apply elem_of_cons in Hin as [<-|Hin]; [|by apply IH].
  unfold stuck in Hs. apply andb_true_iff in Hs as [Hm Hc]. rewrite Hp, Hm, Hc. cbn. apply Hf.
Qed.

(** Asked why a node is not drained, the agent says it is exactly when a step of
the plan drains it, naming the first that does.  Otherwise it quotes the first of
the analyzer's blockers, if there is one, and lists as stuck just the pods of the
node that may move and have nowhere to go; where one of these is not pinned, the
analyzer calls the node undrainable too. *)
Theorem why_not_answers up s name o rec snap a :
  PlanStore.Latest s = inr rec → Record.Snapshot rec = Some snap → Record.Analysis rec = Some a →
  whyNotDrained up s name = Out o →
  let '(drainable, blockers) := Analysis.NodeDrainable a name in
  WhyNotOutput.Node o = name ∧
  (WhyNotOutput.IsDrained o = true ↔ name ∈ PlanStep.TargetNode <$> Plan.Steps (Record.Plan rec)) ∧
  (WhyNotOutput.IsDrained o = true →
   ∃ l1 st l2, Plan.Steps (Record.Plan rec) = (l1 ++ st :: l2) ∧ PlanStep.TargetNode st = name ∧
     (name ∉ PlanStep.TargetNode <$> l1) ∧ WhyNotOutput.DrainedBy o = PlanStep.SequenceNumber st) ∧
  (WhyNotOutput.IsDrained o = false →
   WhyNotOutput.Blockers o = blocker_detail <$> blockers ∧
   (∀ b, head blockers = Some b → drainable = false → WhyNotOutput.Answer o = blocked_answer name blockers b) ∧
   (∀ k, k ∈ WhyNotOutput.StuckPods o ↔ ∃ pc, pc ∈ Analysis.ForNode a name ∧ PodConstraints.Key pc = k ∧ stuck pc = true) ∧
   ((∃ pc, pc ∈ Analysis.ForNode a name ∧ stuck pc = true ∧ PodConstraints.PinnedToNode pc = false) → drainable = false)).
Proof.
  intros Hrec Hsnap Ha. unfold whyNotDrained, with_node, with_latest, ask.
  destruct (up CLatest); [done|]. rewrite Hrec, Hsnap, Ha.
  destruct (ClusterSnapshot.NodeByName snap name) as [node|] eqn:Hn; [|done].
  assert (Node.Name node = name) as Hname.
  { apply List.find_some in Hn as [_ Hn]. by apply String.eqb_eq. }
  rewrite Hname. pose proof (stuck_not_drainable (Analysis.ForNode a name) (true, [])) as Hst.
  fold (Analysis.NodeDrainable a name) in Hst.
  destruct (drains node (Record.Plan rec)) as [st|] eqn:Hd; unfold drains in Hd; rewrite Hname in Hd.
  - intros [= <-]. destruct (Analysis.NodeDrainable a name) as [drainable blockers]. cbn.
    apply list_find_split in Hd as (l1 & l2 & E & Ht & Hl1).
    split_and!; [done| |intros _; exists l1, st, l2|done].
    + split; [intros _|done]. rewrite E, fmap_app. apply elem_of_app. right. cbn. rewrite Ht. by left.
    + done.
  - destruct (Analysis.NodeDrainable a name) as [drainable blockers]. intros [= <-]. cbn. split_and!; [done| |done|].
    + split; [done|]. intros (st & -> & Hin)%list_elem_of_fmap. 
      apply list_elem_of_In in Hin. pose proof (List.find_none _ _ Hd st Hin) as Hno. cbn in Hno.
      by rewrite String.eqb_refl in Hno.
    + intros _. split_and!.
      * done.
      * intros b Hb ->. destruct blockers; [done|]. by injection Hb as ->.
      * intros k. rewrite list_elem_of_fmap. split.
        -- intros (pc & -> & Hin). apply list_elem_of_In, List.filter_In in Hin as [Hin Hs].
           exists pc. split; [by apply list_elem_of_In|done].
        -- intros (pc & Hin & <- & Hs). exists pc. split; [done|]. apply list_elem_of_In, List.filter_In.
           split; [by apply list_elem_of_In|done].
      * intros (pc & Hin & Hs & Hp). by apply (Hst pc).
Qed.

(** ** A cluster with a budget in the way *)

Definition budget : PodDisruptionBudget.t := PodDisruptionBudget.mk "shop" "web-budget" (app_selector "web") 0 2 2 2.

Definition guarded : ClusterSnapshot.t :=
  ClusterSnapshot.mk 1000 ex_nodes [web "w1" "a"; web "w2" "b"; db "d1" "c"; db "d2" "b"] [budget] false.

Definition guarded_record : Record.t :=
  Record.mk
    (Plan.mk "p" 7 PlanValid 7 [PlanStep.set_rating ImpactGreen "Room elsewhere." [] (PlanStep.fresh 1 "c" [])] 3 2 0 F64.zero)
    (Some guarded) (Some (Analyze Placement.t guarded)) "greedy" 7.

Definition guarded_store : PlanStore.t := (PlanStore.Save 7 guarded_record PlanStore.empty).2.

Definition all_up : faults := λ _, None.

Definition read_back : Record.t := Eval vm_compute in
  match PlanStore.Latest guarded_store with inr r => r | inl _ => guarded_record end.

Lemma read_back_latest : PlanStore.Latest guarded_store = inr read_back.
Proof. by vm_compute. Qed.

Lemma overview_counts_witness :
  ∃ o, listPlanSteps all_up guarded_store = Out o ∧
  ∃ rec, PlanStore.Latest guarded_store = inr rec ∧ ListStepsOutput.Green o = rated_as ImpactGreen (Record.Plan rec).
Proof.
  eexists. split; [by vm_compute|]. edestruct (overview_counts all_up guarded_store) as (rec & H1 & _ & H2 & _).
  - by vm_compute.
  - exists rec. by split.
Defined.

(** What the agent is told of node [a]. *)
Definition told_of_a : option WhyNotOutput.t :=
  match whyNotDrained all_up guarded_store "a" with Out o => Some o | _ => None end.

Lemma why_not_answers_witness :
  ∃ o, told_of_a = Some o ∧ WhyNotOutput.Node o = "a" ∧
    (WhyNotOutput.IsDrained o = true ↔ "a" ∈ PlanStep.TargetNode <$> Plan.Steps (Record.Plan read_back)).
Proof.
  destruct (Record.Snapshot read_back) as [snap|] eqn:Hs; [|discriminate Hs].
  destruct (Record.Analysis read_back) as [a|] eqn:Ha; [|discriminate Ha].
  assert (Hsome : match whyNotDrained all_up guarded_store "a" with Out _ => true | _ => false end = true) by (by vm_compute).
  unfold told_of_a. destruct (whyNotDrained all_up guarded_store "a") as [o| |] eqn:Ho; [|done|done].
  exists o. split; [done|].
  pose proof (why_not_answers all_up guarded_store "a" o read_back snap a read_back_latest Hs Ha Ho) as H.
  destruct (Analysis.NodeDrainable a "a"). destruct H as (H1 & H2 & _). by split.
Defined.

(** The blockers of [why_not_drained] carry the constraint's subject where the other
tools carry the pod: for a budget, the budget's name. *)
Lemma blocker_is_no_pod :
  (λ o, ConstraintDetail.Pod <$> WhyNotOutput.Blockers o) <$> told_of_a = Some ["shop/web-budget"] ∧
  "shop/web-budget" ∉ Pod.Key <$> ClusterSnapshot.Pods guarded.
Proof. split; [by vm_compute|]. refine (proj1 (bool_decide_eq_true _) _). by vm_compute. Qed.
