(* ===== verification/Publish.v ===== *)
(** * One planning cycle (internal/publish/publish.go)

Snapshot, analyse, plan, classify, publish, sample, observe reclamations, store,
notify.  Every call of the store may fail; metrics and logs are left out.  The
snapshot source and the strategy are interfaces of the package and arguments
here; the clock is read where the code reads it. *)
From S2P Require Import Prelude GoLib Float64 GoTime Model Cluster WorkingPlacement Analyzer Planner Impact Store RunStore Reclaim PlanStore Samples.

(** * Telling someone a plan exists (internal/notify/notify.go)

The transitions worth a message, the message, and its bounded delivery.  Sends
run on goroutines of their own: [PlanStored] gives the event it starts one for.
Encoding the event as JSON cannot fail and is not modelled, nor is the recovery
from a panic of that goroutine. *)

Inductive Kind : Type := KindActionable | KindSuperseded.

#[global] Instance Kind_eq_dec : EqDecision Kind.
Proof. solve_decision. Defined.

Module Event.
Record t : Type := mk {
  kind : Kind; PlanID : string; At : time; Cluster : string;
  SafeSteps : Z; TotalSteps : Z; NodesBefore : Z; NodesAfter : Z; Link : string; Text : string;
}.
End Event.

Definition sentence (kind : Kind) (cluster planID : string) (safe before after : Z) : string :=
  let where_ := if (cluster =? "")%string then "" else " on " +:+ cluster in
  match kind with
  | KindActionable =>
      "k8s-dencer" +:+ where_ +:+ ": " +:+ pretty safe +:+ " step" +:+ (if safe =? 1 then "" else "s") +:+
      " can be run safely" +:+
      (if (0 <? before) && (0 <? after)
       then " — " +:+ pretty before +:+ " nodes now, " +:+ pretty after +:+ " after" else "") +:+
      ". Nothing has been executed."
  | KindSuperseded =>
      "k8s-dencer" +:+ where_ +:+ ": the plan you were reviewing has been replaced by " +:+ planID +:+ "."
  end.

(** ** The webhook *)

(** [NewWebhook]: a blank address is no sink at all. *)
Definition has_sink (url : string) : bool := negb (TrimSpace url =? "")%string.

(** A post gives an error of the transport, or the status of the answer. *)
Definition post_error (r : string + (Z * string)) : option string :=
  match r with
  | inl err => Some err
  | inr (code, text) => if 300 <=? code then Some ("webhook returned " +:+ text) else None
  end.

(** [posts i] is what attempt [i] meets, and [expired i] the error of the context
when it ends during the pause before it.  The number of posts is returned with
the error, [None] for nil. *)
Fixpoint send_from (posts : nat → string + (Z * string)) (expired : nat → option string)
    (i more : nat) (last : option string) : option string * nat :=
  match more with
  | O => (last, i)
  | S more =>
      match (if Nat.eqb i 0 then None else expired i) with
      | Some err => (Some err, i)
      | None =>
          match post_error (posts i) with
          | None => (None, S i)
          | Some err => send_from posts expired (S i) more (Some err)
          end
      end
  end.

Definition Send (attempts : Z) (posts : nat → string + (Z * string)) (expired : nat → option string) :
    option string * nat :=
  send_from posts expired 0 (Z.to_nat (if attempts <? 1 then 1 else attempts)) None.

(** ** The notifier *)

Module Notifier.

(** The settings: [Sink] tells whether there is a sink. *)
Record config : Type := mk_config { Sink : bool; Cluster : string; BaseURL : string }.

Record t : Type := mk { wasSafe : bool; lastPlan : string }.

Definition fresh : t := mk false "".

Definition transition (n : t) (planID : string) (safe : Z) : option Kind :=
  if (0 <? safe) && negb (wasSafe n) then Some KindActionable
  else if wasSafe n && negb (lastPlan n =? "")%string && negb (lastPlan n =? planID)%string
  then Some KindSuperseded
  else None.

Definition event (cfg : config) (now : time) (k : Kind) (planID : string) (safe total before after : Z) : Event.t :=
  Event.mk k planID now (Cluster cfg) safe total before after (BaseURL cfg)
    (sentence k (Cluster cfg) planID safe before after).

Definition PlanStored (cfg : config) (now : time) (planID : string) (safe total before after : Z) (n : t) :
    option Event.t * t :=
  if negb (Sink cfg) then (None, n)
  else
    ((λ k, event cfg now k planID safe total before after) <$> transition n planID safe,
     mk (0 <? safe) planID).

End Notifier.

(** * The cycle *)

(** planner.go: the interface of a strategy, its options fixed. *)
Module Strategy.
Record t : Type := mk { Name : string; Plan : ClusterSnapshot.t → Analysis.t → string + Cluster.Plan.t }.
End Strategy.

(** The packer of [Planner] as a strategy. *)
Definition greedy (wall : time) (opts : Options.t) : Strategy.t :=
  Strategy.mk Planner.Name (λ snap analysis, inr (Greedy_Plan Placement.t wall snap analysis opts)).

(** The store, of which the interfaces for samples and reclamations are optional. *)
Module Database.
Record t : Type := mk { plans : PlanStore.t; timeline : Timeline.t; ledger : Ledger.t; runs : RunStore.t }.

Definition empty : t := mk PlanStore.empty Timeline.empty [] RunStore.empty.

Definition set_plans (p : PlanStore.t) (d : t) : t := mk p (timeline d) (ledger d) (runs d).
Definition set_timeline (l : Timeline.t) (d : t) : t := mk (plans d) l (ledger d) (runs d).
Definition set_ledger (l : Ledger.t) (d : t) : t := mk (plans d) (timeline d) l (runs d).
End Database.

(** The calls of the store, to say which of them fail; a failed one changes nothing. *)
Inductive store_op : Type :=
| QSaveSample | QPruneSamples | QSaveNodeSamples | QPruneNodeSamples
| QOurs | QPending | QRecordDrain (node : string) | QResolveExternal (node : string)
| QResolve (node : string) (drainedAt : time) | QSave | QPrune.

(** The instants the cycle reads off the clock, in order. *)
Module Clock.
Record t : Type := mk {
  sampled : time; prunedSamples : time; prunedNodes : time; external : time; resolved : time;
  stored : time; notified : time;
}.
End Clock.

Module Publisher.

Record config : Type := mk_config {
  strategy : Strategy.t; Classifier : Thresholds.t; Retain : Z; Notify : Notifier.config;
  HasSamples : bool; HasReclamations : bool;
}.

Record t : Type := mk {
  latest : option ClusterSnapshot.t; latestAnalysis : option Analysis.t; latestPlan : option Plan.t;
  seenNodes : option (gmap string Node.t); notifier : Notifier.t;
}.

Definition fresh : t := mk None None None None Notifier.fresh.

Definition set_seen (m : gmap string Node.t) (p : t) : t :=
  mk (latest p) (latestAnalysis p) (latestPlan p) (Some m) (notifier p).

Definition set_notifier (n : Notifier.t) (p : t) : t :=
  mk (latest p) (latestAnalysis p) (latestPlan p) (seenNodes p) n.

(** ** Samples *)

Definition used (snap : ClusterSnapshot.t) : Z * Z :=
  if ClusterSnapshot.HasUsageData snap then
    fold_left (λ '(cpu, mem) n,
      match Node.Usage n with
      | Some u => (int64_add cpu (Resources.MilliCPU u), int64_add mem (Resources.MemoryBytes u))
      | None => (cpu, mem)
      end) (ClusterSnapshot.Nodes snap) (0, 0)
  else (0, 0).

Definition sample_of (at_ : time) (snap : ClusterSnapshot.t) (plan : Plan.t) : Sample.t :=
  let '(allocatable, requested) := ClusterSnapshot.Totals snap in
  Sample.mk at_ (Z.of_nat (length (ClusterSnapshot.Nodes snap))) (Z.of_nat (length (ClusterSnapshot.Pods snap)))
    (Resources.MilliCPU requested) (Resources.MilliCPU allocatable)
    (Resources.MemoryBytes requested) (Resources.MemoryBytes allocatable)
    (used snap).1 (used snap).2 (ClusterSnapshot.HasUsageData snap) (Plan.ReclaimedNodes plan).

(** A node that was not measured has no point. *)
Definition node_sample (at_ : time) (n : Node.t) : option NodeSample.t :=
  (λ u, NodeSample.mk (Node.Name n) at_ (Resources.MilliCPU u) (Resources.MilliCPU (Node.Allocatable n))) <$>
    Node.Usage n.

Definition month : duration := 30 * 24 * Hour.
Definition fortnight : duration := 14 * 24 * Hour.

Definition unless (failed : bool) {A} (f : A → A) (a : A) : A := if failed then a else f a.

Definition save_samples (fails : store_op → bool) (clk : Clock.t) (snap : ClusterSnapshot.t) (plan : Plan.t)
    (l : Timeline.t) : Timeline.t :=
  let at_ := if IsZeroTime (ClusterSnapshot.TakenAt snap) then Clock.sampled clk else ClusterSnapshot.TakenAt snap in
  let l := unless (fails QSaveSample) (Timeline.SaveSample (sample_of at_ snap plan)) l in
  let l := unless (fails QPruneSamples)
             (λ l, (Timeline.PruneSamples (time_Add (Clock.prunedSamples clk) (- month)) l).2) l in
  if ClusterSnapshot.HasUsageData snap then
    let l := unless (fails QSaveNodeSamples)
               (Timeline.SaveNodeSamples (omap (node_sample at_) (ClusterSnapshot.Nodes snap))) l in
    unless (fails QPruneNodeSamples)
      (λ l, (Timeline.PruneNodeSamples (time_Add (Clock.prunedNodes clk) (- fortnight)) l).2) l
  else l.

(** ** Reclamations *)

Definition fleet (snap : ClusterSnapshot.t) : gmap string Node.t :=
  fold_left (λ m n, <[Node.Name n := n]> m) (ClusterSnapshot.Nodes snap) ∅.

(** The nodes whose drains are recorded; none are known when the read fails. *)
Definition ours (fails : store_op → bool) (l : Ledger.t) : gset string :=
  if fails QOurs then ∅ else list_to_set (Reclamation.Node <$> Ledger.PendingReclamations l).

Definition external_record (now : time) (name : string) (was : Node.t) : Reclamation.t :=
  Reclamation.mk name now "" "" 0 (Some now) (Some ReclaimedGone)
    (Resources.MilliCPU (Node.Allocatable was)) (Resources.MemoryBytes (Node.Allocatable was))
    (Node.InstanceType was) (Node.CapacityType was) true.

(** One node of the previous fleet. *)
Definition record_departure (fails : store_op → bool) (now : time) (current : gmap string Node.t) (mine : gset string)
    (l : Ledger.t) (seen : string * Node.t) : Ledger.t :=
  let '(name, was) := seen in
  if bool_decide (is_Some (current !! name)) || bool_decide (name ∈ mine) then l
  else if fails (QRecordDrain name) then l
  else
    let l := Ledger.RecordDrain (external_record now name was) l in
    if fails (QResolveExternal name) then l else (Ledger.ResolveReclamation name now ReclaimedGone now l).2.

Definition recordExternalReclaims `{MapRange} (fails : store_op → bool) (now : time) (snap : ClusterSnapshot.t)
    (p : t) (l : Ledger.t) : t * Ledger.t :=
  let current := fleet snap in
  match seenNodes p with
  | None => (set_seen current p, l)
  | Some seen =>
      (set_seen current p, fold_left (record_departure fails now current (ours fails l)) (entries seen) l)
  end.

Definition settle (fails : store_op → bool) (l : Ledger.t) (tr : Transition.t) : Ledger.t :=
  let r := Transition.Reclamation tr in
  let node := Reclamation.Node r in
  let at_ := Reclamation.DrainedAt r in
  if fails (QResolve node at_) then l
  else (Ledger.ResolveReclamation node at_ (Transition.Outcome tr) (Transition.At tr) l).2.

Definition observeReclamations `{MapRange} (fails : store_op → bool) (clk : Clock.t) (snap : ClusterSnapshot.t)
    (p : t) (l : Ledger.t) : t * Ledger.t :=
  let '(p, l) := recordExternalReclaims fails (Clock.external clk) snap p l in
  if fails QPending then (p, l)
  else
    let pending := Ledger.PendingReclamations l in
    (p, fold_left (settle fails) (Resolve pending (Some snap) (Clock.resolved clk)) l).

(** ** The cycle *)

Definition safe_steps (plan : Plan.t) : Z :=
  Z.of_nat (length (List.filter (λ st, bool_decide (PlanStep.Impact st = ImpactGreen)) (Plan.Steps plan))).

(** The tail of the cycle, once the plan is published. *)
Definition store_plan (cfg : config) (fails : store_op → bool) (clk : Clock.t) (snap : ClusterSnapshot.t)
    (analysis : Analysis.t) (plan : Plan.t) (p : t) (d : Database.t) : t * Database.t * option Event.t :=
  if fails QSave then (p, d, None)
  else
    match PlanStore.Save (Clock.stored clk)
            (Record.mk plan (Some snap) (Some analysis) (Strategy.Name (strategy cfg)) 0) (Database.plans d) with
    | (inl _, plans) => (p, Database.set_plans plans d, None)
    | (inr false, plans) => (p, Database.set_plans plans d, None)
    | (inr true, plans) =>
        let '(ev, n) := Notifier.PlanStored (Notify cfg) (Clock.notified clk) (Plan.ID plan) (safe_steps plan)
          (Z.of_nat (length (Plan.Steps plan))) (Plan.NodesBefore plan) (Plan.NodesAfter plan) (notifier p) in
        let plans := if fails QPrune then plans else (PlanStore.Prune (Retain cfg) (Database.runs d) plans).2 in
        (set_notifier n p, Database.set_plans plans d, ev)
    end.

(** [snapshot] is what the source gives. *)
Definition Cycle `{MapRange} (cfg : config) (fails : store_op → bool) (clk : Clock.t)
    (snapshot : string + ClusterSnapshot.t) (p : t) (d : Database.t) : t * Database.t * option Event.t :=
  match snapshot with
  | inl _ => (p, d, None)
  | inr snap =>
      let analysis := Analyze Placement.t snap in
      match Strategy.Plan (strategy cfg) snap analysis with
      | inl _ => (mk (Some snap) (Some analysis) (latestPlan p) (seenNodes p) (notifier p), d, None)
      | inr plan =>
          let plan := ClassifyPlan (Classifier cfg) plan snap analysis in
          let p := mk (Some snap) (Some analysis) (Some plan) (seenNodes p) (notifier p) in
          let d := if HasSamples cfg then
                     Database.set_timeline (save_samples fails clk snap plan (Database.timeline d)) d
                   else d in
          let '(p, d) :=
            if HasReclamations cfg then
              let '(p, l) := observeReclamations fails clk snap p (Database.ledger d) in (p, Database.set_ledger l d)
            else (p, d) in
          store_plan cfg fails clk snap analysis plan p d
      end
  end.

End Publisher.
