(* ===== verification/PublishProps.v ===== *)
(** * What a planning cycle guarantees

When the notifier speaks, how a delivery ends, and the invariants the header of
publish.go states: a failing store never stops planning, every cycle confirms
the plan, a steady cluster is silent, departures are recorded once. *)
From S2P Require Import Prelude GoLib Float64 GoTime Model Cluster Fixtures WorkingPlacement Analyzer Planner Impact Store RunStore Reclaim PlanStore PlanStoreProps Samples Publish.

(** ** The notifier *)

Module Call.
Record t : Type := mk { at_ : time; planID : string; safe : Z; total : Z; before : Z; after : Z }.
End Call.

Definition stored_plan (cfg : Notifier.config) (c : Call.t) (n : Notifier.t) : option Event.t * Notifier.t :=
  Notifier.PlanStored cfg (Call.at_ c) (Call.planID c) (Call.safe c) (Call.total c) (Call.before c) (Call.after c) n.

(** The notifier after a sequence of plans, and the kinds of what it sent. *)
Definition notified (cfg : Notifier.config) (cs : list Call.t) : Notifier.t * list (option Kind) :=
  fold_left (λ '(n, ks) c, let '(ev, n) := stored_plan cfg c n in (n, ks ++ [Event.kind <$> ev])) cs (Notifier.fresh, []).

(** What the plan before makes of the next one. *)
Definition announcement (prev : option Call.t) (c : Call.t) : option Kind :=
  let was := match prev with Some p => 0 <? Call.safe p | None => false end in
  if (0 <? Call.safe c) && negb was then Some KindActionable
  else match prev with
       | Some p => if was && negb (Call.planID p =? "")%string && negb (Call.planID p =? Call.planID c)%string
                   then Some KindSuperseded else None
       | None => None
       end.

Fixpoint announcements (prev : option Call.t) (cs : list Call.t) : list (option Kind) :=
  match cs with
  | [] => []
  | c :: cs => announcement prev c :: announcements (Some c) cs
  end.

Definition remembers (prev : option Call.t) (n : Notifier.t) : Prop :=
  match prev with
  | None => n = Notifier.fresh
  | Some p => n = Notifier.mk (0 <? Call.safe p) (Call.planID p)
  end.

Lemma announce_step cfg prev c n :
  Notifier.Sink cfg = true → remembers prev n →
  Event.kind <$> (stored_plan cfg c n).1 = announcement prev c ∧ remembers (Some c) (stored_plan cfg c n).2.
Proof.
  intros Hs Hn. unfold stored_plan, Notifier.PlanStored. rewrite Hs. cbn. split; [|done].
  rewrite <- option_fmap_compose. unfold Notifier.transition, announcement, compose. cbn.
  destruct prev as [p|]; cbn in Hn; subst n; cbn; [|by destruct (0 <? Call.safe c)].
  destruct (0 <? Call.safe c), (0 <? Call.safe p), (Call.planID p =? "")%string, (Call.planID p =? Call.planID c)%string; done.
Qed.

(** Over any sequence of stored plans, what is sent for a plan is determined by
that plan and the one before it: an actionable plan is announced exactly when
the one before had nothing safe, a replacement exactly when the plan replaced
had; so a plan that is stored again is announced at most once. *)
Theorem notifies_transitions cfg cs :
  Notifier.Sink cfg = true →
  (notified cfg cs).2 = announcements None cs ∧
  ∀ c, Call.planID c ≠ "" → announcement (Some c) c = None.
Proof.
  intros Hs. split.
  - unfold notified.
    assert (Hgen : ∀ cs prev n ks, remembers prev n →
      (fold_left (λ '(n, ks) c, let '(ev, n) := stored_plan cfg c n in (n, ks ++ [Event.kind <$> ev])) cs (n, ks)).2 =
      ks ++ announcements prev cs).
    { clear cs. induction cs as [|c cs IH]; intros prev n ks Hn; cbn [fold_left announcements]; [by rewrite app_nil_r|].
      destruct (announce_step cfg prev c n Hs Hn) as [Hk Hn']. destruct (stored_plan cfg c n) as [ev n'].
      rewrite (IH (Some c)) by done. rewrite <- app_assoc. cbn in *. by rewrite Hk. }
    by apply (Hgen cs None).
  - intros c Hc. unfold announcement. rewrite String.eqb_refl. destruct (0 <? Call.safe c); cbn; by rewrite ?andb_false_r.
Qed.

Definition loud : Notifier.config := Notifier.mk_config true "prod" "".

Lemma notifies_transitions_witness :
  (notified loud [Call.mk 1 "p1" 2 3 6 4; Call.mk 2 "p2" 1 3 6 4; Call.mk 3 "p3" 0 1 6 5; Call.mk 4 "p4" 0 1 6 5]).2 =
  [Some KindActionable; Some KindSuperseded; Some KindSuperseded; None].
Proof. rewrite (proj1 (notifies_transitions loud _ eq_refl)). reflexivity. Defined.

(** A delivery makes at most the configured number of attempts and at least one;
it succeeds exactly on the first attempt that is accepted, and otherwise it
ends with the error of its last attempt or of its context. *)
Theorem send_bounded attempts posts expired :
  let '(err, n) := Send attempts posts expired in
  (1 <= n <= Z.to_nat (Z.max 1 attempts))%nat ∧
  (err = None ↔ post_error (posts (n - 1)%nat) = None) ∧
  ∀ i, (S i < n)%nat → post_error (posts i) ≠ None ∧ expired (S i) = None.
Proof.
  unfold Send. set (m := Z.to_nat (if attempts <? 1 then 1 else attempts)).
  assert (Hm : m = Z.to_nat (Z.max 1 attempts)) by (subst m; destruct (Z.ltb_spec attempts 1); f_equal; lia).
  rewrite <- Hm. assert (H1 : (1 <= m)%nat) by lia. clearbody m.
  (* From attempt [i] on, after failures up to it. *)
  assert (Hgen : ∀ more i last, (1 <= i)%nat → last ≠ None → post_error (posts (i - 1)%nat) ≠ None →
    let '(err, n) := send_from posts expired i more last in
    (i <= n <= i + more)%nat ∧ (err = None ↔ post_error (posts (n - 1)%nat) = None) ∧
    ∀ j, (i <= j)%nat → (j < n)%nat → expired j = None ∧ ((S j < n)%nat → post_error (posts j) ≠ None)).
  { induction more as [|more IH]; intros i last Hi Hl Hp; cbn [send_from].
    { split; [lia|]. split; [split; intros ?; congruence|intros j ??; lia]. }
    rewrite (proj2 (Nat.eqb_neq i 0)) by lia.
    destruct (expired i) as [e|] eqn:Ex; [split; [lia|]; split; [split; intros ?; congruence|intros j ??; lia]|].
    destruct (post_error (posts i)) as [e|] eqn:Ep.
    - specialize (IH (S i) (Some e) ltac:(lia) ltac:(done)). replace (S i - 1)%nat with i in IH by lia.
      specialize (IH ltac:(congruence)). destruct (send_from posts expired (S i) more (Some e)) as [err n].
      destruct IH as (Hn & He & Hj). split; [lia|]. split; [exact He|]. intros j Hj1 Hj2.
      destruct (decide (j = i)) as [->|]; [|apply Hj; lia]. split; [done|]. congruence.
    - split; [lia|]. split; [split; [intros _; by replace (S i - 1)%nat with i by lia|done]|]. intros j Hj1 Hj2. assert (j = i) as -> by lia.
      split; [done|]. lia. }
  destruct m as [|m]; [lia|]. cbn [send_from]. cbn [Nat.eqb].
  destruct (post_error (posts 0%nat)) as [e|] eqn:E0.
  - specialize (Hgen m 1%nat (Some e) ltac:(lia) ltac:(done) ltac:(cbn; congruence)).
    destruct (send_from posts expired 1 m (Some e)) as [err n]. destruct Hgen as (Hn & He & Hj).
    split; [lia|]. split; [exact He|]. intros i Hi. split; [|apply Hj; lia].
    destruct i as [|i]; [congruence|]. apply Hj; lia.
  - split; [lia|]. split; [done|]. intros i Hi. lia.
Qed.

(** ** The cycle *)

Section cycle.
Context `{MapRange}.

(** What a cycle publishes to the rest of the process. *)
Definition published (p : Publisher.t) : option ClusterSnapshot.t * option Analysis.t * option Plan.t :=
  (Publisher.latest p, Publisher.latestAnalysis p, Publisher.latestPlan p).

(** The plan of a cycle, when the strategy gives one. *)
Definition plan_of_cycle (cfg : Publisher.config) (snap : ClusterSnapshot.t) : option Plan.t :=
  match Strategy.Plan (Publisher.strategy cfg) snap (Analyze Placement.t snap) with
  | inl _ => None
  | inr plan => Some (ClassifyPlan (Publisher.Classifier cfg) plan snap (Analyze Placement.t snap))
  end.

Lemma store_plan_publishes cfg fails clk snap a plan p d :
  published (Publisher.store_plan cfg fails clk snap a plan p d).1.1 = published p ∧
  Publisher.seenNodes (Publisher.store_plan cfg fails clk snap a plan p d).1.1 = Publisher.seenNodes p.
Proof.
  unfold Publisher.store_plan. destruct (fails QSave); [done|].
  destruct (PlanStore.Save _ _ _) as [[e|[|]] plans]; [done| |done]. by destruct (Notifier.PlanStored _ _ _ _ _ _ _ _).
Qed.

Lemma observe_publishes fails clk snap p l :
  published (Publisher.observeReclamations fails clk snap p l).1 = published p ∧
  Publisher.seenNodes (Publisher.observeReclamations fails clk snap p l).1 = Some (Publisher.fleet snap) ∧
  Publisher.notifier (Publisher.observeReclamations fails clk snap p l).1 = Publisher.notifier p.
Proof.
  unfold Publisher.observeReclamations, Publisher.recordExternalReclaims. destruct (Publisher.seenNodes p); cbn zeta;
    destruct (fails QPending); done.
Qed.

(** The state and the store a cycle hands to its last part. *)
Lemma Cycle_stores cfg fails clk snap p d plan :
  plan_of_cycle cfg snap = Some plan →
  ∃ p' d', Publisher.Cycle cfg fails clk (inr snap) p d =
      Publisher.store_plan cfg fails clk snap (Analyze Placement.t snap) plan p' d' ∧
    published p' = (Some snap, Some (Analyze Placement.t snap), Some plan) ∧
    Publisher.notifier p' = Publisher.notifier p ∧
    Publisher.seenNodes p' = (if Publisher.HasReclamations cfg then Some (Publisher.fleet snap) else Publisher.seenNodes p) ∧
    Database.plans d' = Database.plans d ∧ Database.runs d' = Database.runs d ∧
    Database.timeline d' = (if Publisher.HasSamples cfg then Publisher.save_samples fails clk snap plan (Database.timeline d)
                            else Database.timeline d).
Proof.
  unfold plan_of_cycle, Publisher.Cycle. cbn zeta. destruct (Strategy.Plan _ snap _) as [e|q]; [done|]. intros [= <-].
  set (plan := ClassifyPlan _ q snap _). set (p0 := Publisher.mk _ _ _ _ _).
  set (d0 := if Publisher.HasSamples cfg then _ else d). destruct (Publisher.HasReclamations cfg).
  - pose proof (observe_publishes fails clk snap p0 (Database.ledger d0)) as (Hp & Hs & Hn).
    destruct (Publisher.observeReclamations fails clk snap p0 (Database.ledger d0)) as [p1 l1]. cbn in Hp, Hs, Hn.
    exists p1, (Database.set_ledger l1 d0). split_and!; [done..| | |]; subst d0; by destruct (Publisher.HasSamples cfg).
  - exists p0, d0. split_and!; [done..| | |]; subst d0; by destruct (Publisher.HasSamples cfg).
Qed.

End cycle.

(** What the planner publishes does not depend on the store: whichever of its
calls fail, whatever it holds and whatever the clock says, a cycle publishes the
snapshot it took, its analysis and the classified plan; a snapshot that cannot
be taken leaves everything published, and the whole store, as it was. *)
Theorem planning_survives_store (H : MapRange) cfg fails clk p d :
  (∀ snap plan, plan_of_cycle cfg snap = Some plan →
     let p' := (Publisher.Cycle cfg fails clk (inr snap) p d).1.1 in
     published p' = (Some snap, Some (Analyze Placement.t snap), Some plan) ∧
     Publisher.seenNodes p' =
       (if Publisher.HasReclamations cfg then Some (Publisher.fleet snap) else Publisher.seenNodes p)) ∧
  (∀ snap, plan_of_cycle cfg snap = None →
     published (Publisher.Cycle cfg fails clk (inr snap) p d).1.1 =
       (Some snap, Some (Analyze Placement.t snap), Publisher.latestPlan p)) ∧
  ∀ err, Publisher.Cycle cfg fails clk (inl err) p d = (p, d, None).
Proof.
  split_and!; [| |done].
  - intros snap plan Hplan p'. subst p'.
    destruct (Cycle_stores cfg fails clk snap p d plan Hplan) as (p1 & d1 & -> & Hp & _ & Hs & _).
    destruct (store_plan_publishes cfg fails clk snap (Analyze Placement.t snap) plan p1 d1) as [-> ->]. by rewrite Hp, Hs.
  - intros snap Hn. unfold plan_of_cycle in Hn. unfold Publisher.Cycle. cbn zeta.
    by destruct (Strategy.Plan _ snap _).
Qed.

(** C31: every cycle that plans confirms its plan: when the write goes through and the
clock is ahead of the stamps in the history, the latest plan of the history is
the one just computed, stamped with the time of the write, changed or not; and
something is sent only when the plan was not the latest already. *)
Theorem cycle_confirms_plan (H : MapRange) cfg fails clk snap p d plan :
  plan_of_cycle cfg snap = Some plan → PlanStore.distinct_steps plan = true → wf (Database.plans d) →
  fails QSave = false → Clock.stored clk ≠ 0 →
  (∀ r, r ∈ PlanStore.plans (Database.plans d) →
     str_ltb (PlanStore.stored r) (format_rfc3339nano (Clock.stored clk)) = true) →
  let '(_, d', ev) := Publisher.Cycle cfg fails clk (inr snap) p d in
  (∃ r, PlanStore.latest (Database.plans d') = Some r ∧ PlanStore.id r = Plan.ID plan ∧
     PlanStore.stored_at r = Clock.stored clk) ∧
  wf (Database.plans d') ∧
  (PlanStore.is_latest (Plan.ID plan) (Database.plans d) = true → ev = None).
Proof.
  intros Hplan Hd Hw Hf Hc Ha.
  destruct (Cycle_stores cfg fails clk snap p d plan Hplan) as (p1 & d1 & -> & _ & _ & _ & Hdb & _).
  unfold Publisher.store_plan. rewrite Hf, Hdb. set (rec := Record.mk plan _ _ _ 0).
  assert (Hst : stamp (Clock.stored clk) rec = Clock.stored clk) by done.
  destruct (Save_latest (Clock.stored clk) rec (Database.plans d) Hw Hd Ha) as (r & Hr & Hid & Hat & Hnew).
  pose proof (Save_wf (Clock.stored clk) rec _ Hw) as Hw'. change (Record.Plan rec) with plan in *.
  destruct (PlanStore.Save (Clock.stored clk) rec (Database.plans d)) as [res plans]. cbn [fst snd] in *. subst res.
  destruct (PlanStore.is_latest (Plan.ID plan) (Database.plans d)); cbn [negb].
  { split_and!; [|done|done]. cbn. exists r. split; [done|]. by rewrite <- Hst. }
  destruct (Notifier.PlanStored _ _ _ _ _ _ _ _) as [ev n]. cbn [Database.plans Database.set_plans].
  destruct (fails QPrune).
  { split_and!; [|done|done]. exists r. split; [done|]. by rewrite <- Hst. }
  split_and!; [|by apply Prune_wf|done]. exists r. split; [|by rewrite <- Hst].
  destruct (Z.leb_spec (Publisher.Retain cfg) 0); [|by rewrite Prune_latest].
  unfold PlanStore.Prune. by rewrite (proj2 (Z.leb_le _ _)).
Qed.

Definition never_fails : store_op → bool := λ _, false.

Definition planner_config : Publisher.config :=
  Publisher.mk_config (greedy 1000 Options.DefaultOptions) Thresholds.DefaultThresholds 10 loud true true.

Definition clock_at (t : time) : Clock.t := Clock.mk t t t t t t t.

Definition by_keys : MapRange := {| range l := l; range_perm l := Permutation_refl l |}.

Lemma cycle_confirms_plan_witness :
  let out := @Publisher.Cycle by_keys planner_config never_fails (clock_at 5000) (inr shop) Publisher.fresh Database.empty in
  option_map PlanStore.stored_at (PlanStore.latest (Database.plans out.1.2)) = Some 5000.
Proof.
  destruct (plan_of_cycle planner_config shop) as [plan|] eqn:Hplan; [|by vm_compute in Hplan].
  pose proof (@cycle_confirms_plan by_keys planner_config never_fails (clock_at 5000) shop Publisher.fresh Database.empty plan Hplan) as H.
  vm_compute in Hplan. injection Hplan as <-. cbn zeta.
  destruct (Publisher.Cycle planner_config never_fails (clock_at 5000) (inr shop) Publisher.fresh Database.empty) as [[p d] ev].
  destruct H as ((r & Hr & _ & Hat) & _ & _); [by vm_compute|exact (history_well_formed [])|done|done| |].
  - intros r Hr. by apply elem_of_nil in Hr.
  - cbn. rewrite Hr. cbn. by rewrite Hat.
Defined.

(** A pod a disruption budget covers, alone on its node, and a neighbour to join. *)
Definition guarded (allowed : Z) : ClusterSnapshot.t :=
  ClusterSnapshot.mk 1000 ex_nodes [ex_pod "w1" "a" "web" 500 1000000 [] None; ex_pod "b1" "b" "back" 2000 1000000 [] None]
    [PodDisruptionBudget.mk "shop" "web" (app_selector "web") allowed 3 2 3] false.

(** A plan that turns safe without changing is never announced: two cycles compute
the same plan, whose steps a tight disruption budget makes unsafe the first time
and safe the second; the notifier, which speaks only when a plan is stored as
new, sends nothing either time. *)
Theorem safer_plan_unannounced :
  ∃ snap1 snap2, let run snap t p d := @Publisher.Cycle by_keys planner_config never_fails (clock_at t) (inr snap) p d in
    let safe p := option_map Publisher.safe_steps (Publisher.latestPlan p) in
    let '(p1, d1, e1) := run snap1 5000 Publisher.fresh Database.empty in
    let '(p2, d2, e2) := run snap2 6000 p1 d1 in
    option_map Plan.ID (Publisher.latestPlan p1) = option_map Plan.ID (Publisher.latestPlan p2) ∧
    safe p1 = Some 0 ∧ (∃ n, safe p2 = Some n ∧ 0 < n) ∧ e1 = None ∧ e2 = None.
Proof.
  exists (guarded 1), (guarded 5). vm_compute. split_and!; [done..| |done|done]. by eexists.
Qed.

(** ** Samples *)

(** A cycle invents no measurement: the points it adds for nodes are those of nodes
of the snapshot that were measured, each with what was measured, and it adds
none when the snapshot has no usage. *)
Theorem only_measured_nodes (H : MapRange) cfg fails clk snap p d n :
  n ∈ Timeline.node_samples (Database.timeline (Publisher.Cycle cfg fails clk (inr snap) p d).1.2) →
  n ∈ Timeline.node_samples (Database.timeline d) ∨
  (ClusterSnapshot.HasUsageData snap = true ∧ ∃ node u, node ∈ ClusterSnapshot.Nodes snap ∧ Node.Usage node = Some u ∧
     NodeSample.Node n = Node.Name node ∧ NodeSample.CPUUsedMilli n = Resources.MilliCPU u ∧
     NodeSample.CPUAllocMilli n = Resources.MilliCPU (Node.Allocatable node)).
Proof.
  destruct (plan_of_cycle cfg snap) as [plan|] eqn:Hplan.
  2:{ unfold plan_of_cycle in Hplan. unfold Publisher.Cycle. cbn zeta. destruct (Strategy.Plan _ snap _); [by left|done]. }
  destruct (Cycle_stores cfg fails clk snap p d plan Hplan) as (p1 & d1 & -> & _ & _ & _ & _ & _ & Ht).
  assert (Database.timeline (Publisher.store_plan cfg fails clk snap (Analyze Placement.t snap) plan p1 d1).1.2 = Database.timeline d1) as ->.
  { unfold Publisher.store_plan. destruct (fails QSave); [done|].
    destruct (PlanStore.Save _ _ _) as [[e|[|]] plans]; [done| |done]. by destruct (Notifier.PlanStored _ _ _ _ _ _ _ _). }
  rewrite Ht. clear Ht Hplan. destruct (Publisher.HasSamples cfg); [|by left]. unfold Publisher.save_samples. cbn zeta.
  set (at_ := if IsZeroTime _ then _ else _). set (l1 := Publisher.unless (fails QSaveSample) _ _).
  set (l2 := Publisher.unless (fails QPruneSamples) _ _).
  assert (H12 : Timeline.node_samples l2 = Timeline.node_samples (Database.timeline d)).
  { subst l2 l1. unfold Publisher.unless. destruct (fails QPruneSamples), (fails QSaveSample); done. }
  destruct (ClusterSnapshot.HasUsageData snap); [|rewrite H12; by left].
  set (l3 := Publisher.unless (fails QSaveNodeSamples) _ _). intros Hin.
  assert (Hl3 : n ∈ Timeline.node_samples l3).
  { revert Hin. unfold Publisher.unless at 1. destruct (fails QPruneNodeSamples); [done|]. by intros [? _]%filter_elem. }
  clear Hin. subst l3. revert Hl3. unfold Publisher.unless. destruct (fails QSaveNodeSamples); [rewrite H12; by left|]. cbn. rewrite H12.
  assert (Hins : ∀ ns rows, n ∈ fold_left Timeline.insert_point ns rows → n ∈ rows ∨ n ∈ ns).
  { induction ns as [|x ns IH]; intros rows; cbn [fold_left]; [by left|]. intros [Hi|Hi]%IH; [|right; by right].
    unfold Timeline.insert_point in Hi. destruct (existsb _ _); [by left|].
    apply elem_of_app in Hi as [Hi| ->%list_elem_of_singleton]; [by left|right; by left]. }
  intros [Hi|Hi]%Hins; [by left|right]. split; [done|]. apply list_elem_of_omap in Hi as (node & Hnode & Hs).
  unfold Publisher.node_sample in Hs. apply fmap_Some in Hs as (u & Hu & ->). by exists node, u.
Qed.

(** One node measured, two not. *)
Definition metered : ClusterSnapshot.t :=
  ClusterSnapshot.mk 1000
    (Node.mk "a" (ex_labels "z1") ∅ [] (Resources.mk 4000 8000000 110) (Resources.mk 4000 8000000 110) false true 0
       (Some (Resources.mk 700 1000 0)) :: tail ex_nodes) [] [] true.

Lemma only_measured_nodes_witness :
  ∃ node u, node ∈ ClusterSnapshot.Nodes metered ∧ Node.Usage node = Some u ∧ Node.Name node = "a" ∧ Resources.MilliCPU u = 700.
Proof.
  assert (Hin : NodeSample.mk "a" 1000 700 4000 ∈ Timeline.node_samples (Database.timeline
    (@Publisher.Cycle by_keys planner_config never_fails (clock_at 5000) (inr metered) Publisher.fresh Database.empty).1.2)).
  { vm_compute. by left. }
  apply only_measured_nodes in Hin as [Hin|(_ & node & u & Hn & Hu & Hname & Hcpu & _)].
  - by apply elem_of_nil in Hin.
  - exists node, u. by split_and!.
Defined.

(** ** Departures *)

Lemma fleet_lookup snap name :
  Publisher.fleet snap !! name = None ↔ name ∉ (Node.Name <$> ClusterSnapshot.Nodes snap).
Proof.
  unfold Publisher.fleet. induction (ClusterSnapshot.Nodes snap) as [|n nodes IH] using rev_ind.
  { cbn. rewrite lookup_empty. split; [by intros _ ?%elem_of_nil|done]. }
  rewrite fold_left_app, fmap_app, elem_of_app. cbn. rewrite lookup_insert_None, IH, list_elem_of_singleton. naive_solver.
Qed.

(** What the departure of one node leaves in a ledger with nothing recorded of it now. *)
Lemma record_departure_clean now current mine l name was :
  current !! name = None → name ∉ mine → existsb (Ledger.same_key name now) l = false →
  Publisher.record_departure never_fails now current mine l (name, was) = l ++ [Publisher.external_record now name was].
Proof.
  intros Hc Hm Hl. unfold Publisher.record_departure. rewrite Hc. rewrite !bool_decide_eq_false_2 by (done || by intros []).
  cbn [orb never_fails]. unfold Ledger.RecordDrain. cbn [Reclamation.Node Reclamation.DrainedAt Publisher.external_record].
  rewrite Hl. set (r := Ledger.opened _). unfold Ledger.ResolveReclamation.
  assert (Hr : Ledger.same_key name now r && Reclamation.Pending r = true).
  { subst r. unfold Ledger.same_key, Ledger.at_. cbn. by rewrite !String.eqb_refl. }
  assert (existsb (λ r, Ledger.same_key name now r && Reclamation.Pending r) (l ++ [r]) = true) as ->.
  { rewrite existsb_app. cbn [existsb]. rewrite Hr. by rewrite orb_true_r. }
  cbn [snd]. rewrite fmap_app. cbn [fmap list_fmap]. rewrite Hr. f_equal.
  rewrite <- (list_fmap_id l) at 2. apply list_fmap_ext. intros i x Hx. apply list_elem_of_lookup_2 in Hx.
  assert (Ledger.same_key name now x = false) as -> by (by apply (proj1 (existsb_false_elem _ _) Hl)). done.
Qed.

Lemma record_departures_elem now current mine seen l r :
  NoDup (seen.*1) → (∀ x, x ∈ l → Ledger.at_ x ≠ format_rfc3339nano now ∨ Reclamation.Node x ∉ (seen.*1)) →
  r ∈ fold_left (Publisher.record_departure never_fails now current mine) seen l ↔
  r ∈ l ∨ ∃ name was, (name, was) ∈ seen ∧ current !! name = None ∧ (name ∉ mine) ∧
    r = Publisher.external_record now name was.
Proof.
  revert l. induction seen as [|[name was] seen IH]; intros l; cbn [fold_left].
  { intros _ _. split; [by left|]. intros [?|(? & ? & ?%elem_of_nil & _)]; done. }
  rewrite fmap_cons, NoDup_cons. intros [Hn Hnd] Hl.
  assert (Hfree : existsb (Ledger.same_key name now) l = false).
  { apply not_true_iff_false. rewrite existsb_elem. intros (x & Hx & [E1%String.eqb_eq E2%String.eqb_eq]%andb_true_iff).
    destruct (Hl x Hx) as [?|Hx']; [done|]. apply Hx'. rewrite E1. by left. }
  destruct (decide (current !! name = None ∧ name ∉ mine)) as [[Hc Hm]|Hno].
  - rewrite record_departure_clean by done. rewrite IH; [|done|].
    + rewrite elem_of_app, list_elem_of_singleton. split.
      * intros [[?|Hr]|(n & w & ? & ?)]; [by left|right; exists name, was; by repeat split; [left|..]|].
        right. exists n, w. split; [by right|done].
      * intros [?|(n & w & [[= -> ->]|?]%elem_of_cons & Hr)]; [by do 2 left|left; right; apply Hr|].
        right. by exists n, w.
    + intros x [Hx| ->%list_elem_of_singleton]%elem_of_app; [|by right].
      destruct (Hl x Hx) as [?|Hx']; [by left|right]. intros ?. apply Hx'. by right.
  - assert (Publisher.record_departure never_fails now current mine l (name, was) = l) as ->.
    { unfold Publisher.record_departure. destruct (current !! name) eqn:E; [by rewrite bool_decide_eq_true_2 by eauto|].
      destruct (decide (name ∈ mine)); [by rewrite (bool_decide_eq_true_2 (name ∈ mine)), orb_true_r|naive_solver]. }
    rewrite IH; [|done|].
    + split; (intros [?|(n & w & Hin & Hr)]; [by left|right; exists n, w]); [by split; [right|]|].
      apply elem_of_cons in Hin as [[= -> ->]|?]; [by destruct Hno; split; apply Hr|done].
    + intros x Hx. destruct (Hl x Hx) as [?|Hx']; [by left|right]. intros ?. apply Hx'. by right.
Qed.

(** When the store answers, what a cycle adds to the ledger for nodes nobody
drained is one record for each node that was in the previous fleet, is gone from
the cluster, and has no drain of ours pending: resolved as gone, marked
external, with the capacity it was last seen with.  The first cycle only looks. *)
Theorem departures_recorded (H : MapRange) now snap p l :
  (∀ x, x ∈ l → Ledger.at_ x ≠ format_rfc3339nano now) →
  let '(p', l') := Publisher.recordExternalReclaims never_fails now snap p l in
  Publisher.seenNodes p' = Some (Publisher.fleet snap) ∧
  match Publisher.seenNodes p with
  | None => l' = l
  | Some seen =>
      ∀ r, r ∈ l' ↔ r ∈ l ∨
        (∃ name was, seen !! name = Some was ∧ (name ∉ (Node.Name <$> ClusterSnapshot.Nodes snap)) ∧
           (∀ q, q ∈ l → Reclamation.Pending q = true → Reclamation.Node q ≠ name) ∧
           r = Publisher.external_record now name was)
  end.
Proof.
  intros Hl. unfold Publisher.recordExternalReclaims. destruct (Publisher.seenNodes p) as [seen|]; [|done].
  split; [done|]. intros r.
  assert (Hnd : NoDup ((entries seen).*1)) by (rewrite entries_perm; apply NoDup_fst_map_to_list).
  rewrite record_departures_elem; [|done|intros x Hx; left; by apply Hl].
  assert (Hmine : ∀ name, name ∉ Publisher.ours never_fails l ↔
    ∀ q, q ∈ l → Reclamation.Pending q = true → Reclamation.Node q ≠ name).
  { intros name. unfold Publisher.ours, Ledger.PendingReclamations. cbn [never_fails]. rewrite elem_of_list_to_set, list_elem_of_fmap.
    setoid_rewrite elem_of_sort_by. setoid_rewrite filter_elem. naive_solver. }
  assert (Hin : ∀ name was, (name, was) ∈ entries seen ↔ seen !! name = Some was).
  { intros name was. rewrite entries_perm. apply elem_of_map_to_list. }
  setoid_rewrite Hin. setoid_rewrite fleet_lookup. by setoid_rewrite Hmine.
Qed.

Definition shop_seen : Publisher.t :=
  Publisher.set_seen (Publisher.fleet shop) Publisher.fresh.

Definition without_c : ClusterSnapshot.t := ClusterSnapshot.mk 2000 (take 2 ex_nodes) [] [] false.

Lemma departures_recorded_witness :
  Publisher.external_record 9000 "c" (ex_node "c" "z2") ∈
  (@Publisher.recordExternalReclaims by_keys never_fails 9000 without_c shop_seen []).2.
Proof.
  pose proof (@departures_recorded by_keys 9000 without_c shop_seen [] ltac:(by intros x ?%elem_of_nil)) as H.
  destruct (Publisher.recordExternalReclaims never_fails 9000 without_c shop_seen []) as [p l].
  destruct H as [_ H]. cbn [snd]. apply H. right. exists "c", (ex_node "c" "z2"). split_and!.
  - by vm_compute.
  - intros Hin. repeat (apply elem_of_cons in Hin as [Hin|Hin]; [done|]). by apply elem_of_nil in Hin.
  - by intros q ?%elem_of_nil.
  - done.
Defined.

(** Only the first read of the pending drains fails. *)
Definition first_read_fails (q : store_op) : bool := match q with QOurs => true | _ => false end.

(** A node this product drained is counted twice when the read that tells its
drains apart fails: one departure leaves both a record of a node that something
else removed and the drain's own record, resolved as reclaimed. *)
Theorem failed_read_counts_twice :
  ∃ l, length l = 1%nat ∧ (∀ r, r ∈ l → Reclamation.Node r = "c" ∧ Reclamation.Pending r = true) ∧
    let l' := (@Publisher.observeReclamations by_keys first_read_fails (clock_at (3 * Hour)) without_c shop_seen l).2 in
    let stats := Ledger.ReclamationSummary 0 l' in
    ReclamationStats.Reclaimed stats = 1 ∧ ReclamationStats.ExternallyReclaimed stats = 1.
Proof.
  exists [Reclamation.mk "c" Hour "run" "plan" 1 None None 4000 8000000 "" "" false]. split; [done|].
  split; [by intros r ->%list_elem_of_singleton|]. by vm_compute.
Qed.
