(* ===== verification/Graph.v ===== *)
(** * The picture of a plan (internal/api/graph/graph.go)

The elements the frontend draws: one per node, and one per scheduled pod unless
there are too many, and the headline figures. *)
From S2P Require Import Prelude GoLib Float64 Model Cluster Analyzer Reports.

Definition DefaultPodDetailLimit : Z := 4000.

(** The fields of a node and of a pod; those of the other kind are left at zero. *)
Module Data.

Record node : Type := mk_node {
  Label : string; Zone : string; InstanceType : string; Pool : string; CapacityType : string;
  Ready : bool; Cordoned : bool; CPUAllocatable : Z; CPURequested : Z; MemAllocatable : Z; MemRequested : Z;
  CPUUsed : Z; MemUsed : Z; DrainStep : Z; PodCount : Z; BlockedCount : Z; PinnedCount : Z;
}.

Record pod : Type := mk_pod {
  PodLabel : string; Namespace : string; CPURequest : Z; MemRequest : Z; OwnerKind : string; OwnerName : string;
  Movable : bool; Blocked : bool;
}.

End Data.

Inductive Element : Type :=
| NodeElement (id : string) (d : Data.node)
| PodElement (id parent : string) (d : Data.pod).

Definition element_id (e : Element) : string :=
  match e with NodeElement id _ => id | PodElement id _ _ => id end.

Definition nodeID (name : string) : string := "node:" +:+ name.
Definition podID (key : string) : string := "pod:" +:+ key.

Module Stats.
Record t : Type := mk {
  NodesBefore : Z; Reclaimable : Z; Steps : Z; AlreadyReclaimable : Z; Forecast : option Forecast.t;
  PackCeiling : float64;
}.
Definition set_forecast (f : option Forecast.t) (s : t) : t :=
  mk (NodesBefore s) (Reclaimable s) (Steps s) (AlreadyReclaimable s) f (PackCeiling s).
End Stats.

Module Payload.
Record t : Type := mk { PlanID : string; Elements : list Element; stats : Stats.t; Aggregated : bool }.
End Payload.

Definition buildStats (plan : Plan.t) : Stats.t :=
  Stats.mk (Plan.NodesBefore plan) (Plan.ReclaimedNodes plan) (Z.of_nat (length (Plan.Steps plan)))
    (Plan.AlreadyReclaimable plan) None (Plan.PackCeiling plan).

(** Of the steps that drain one node the last. *)
Definition drain_steps (plan : Plan.t) : gmap string Z :=
  fold_left (λ m st, if negb (PlanStep.TargetNode st =? "")%string
                     then <[PlanStep.TargetNode st := PlanStep.SequenceNumber st]> m else m)
    (Plan.Steps plan) ∅.

Module tally.
Record t : Type := mk { pods : Z; blocked : Z; pinned : Z; usedCPU : Z; usedMem : Z }.
Definition zero : t := mk 0 0 0 0 0.
End tally.

(** Does the analysis hold the pod and say it cannot move? *)
Definition blocked_in (analysis : option Analysis.t) (key : string) : bool :=
  match analysis with
  | Some a => match Analysis.ForPod a key with Some pc => negb (PodConstraints.Movable pc) | None => false end
  | None => false
  end.

Definition flag (b : bool) : Z := if b then 1 else 0.

Definition count_pod (analysis : option Analysis.t) (p : Pod.t) (t : tally.t) : tally.t :=
  let used f := match Pod.Usage p with Some u => f u | None => 0 end in
  let add x y := match Pod.Usage p with Some _ => int64_add x y | None => x end in
  tally.mk (tally.pods t + 1)
    (tally.blocked t + flag (blocked_in analysis (Pod.Key p)))
    (tally.pinned t + flag (negb (Pod.IsMovable p)))
    (add (tally.usedCPU t) (used Resources.MilliCPU)) (add (tally.usedMem t) (used Resources.MemoryBytes)).

Definition occupy (analysis : option Analysis.t) (m : gmap string tally.t) (p : Pod.t) : gmap string tally.t :=
  if (Pod.NodeName p =? "")%string then m
  else <[Pod.NodeName p := count_pod analysis p (default tally.zero (m !! Pod.NodeName p))]> m.

Definition occupancy (analysis : option Analysis.t) (pods : list Pod.t) : gmap string tally.t :=
  fold_left (occupy analysis) pods ∅.

Definition occ (m : gmap string tally.t) (name : string) : tally.t := default tally.zero (m !! name).

Definition node_element (snap : ClusterSnapshot.t) (steps : gmap string Z) (m : gmap string tally.t) (n : Node.t) : Element :=
  let name := Node.Name n in
  let requested := ClusterSnapshot.RequestedOnNode snap name in
  let t := occ m name in
  NodeElement (nodeID name)
    (Data.mk_node name (Node.Zone n) (Node.InstanceType n) (Node.Pool n) (Node.CapacityType n) (Node.Ready n)
       (Node.Unschedulable n) (Resources.MilliCPU (Node.Allocatable n)) (Resources.MilliCPU requested)
       (Resources.MemoryBytes (Node.Allocatable n)) (Resources.MemoryBytes requested)
       (tally.usedCPU t) (tally.usedMem t) (default 0 (steps !! name)) (tally.pods t) (tally.blocked t) (tally.pinned t)).

Definition pod_element (analysis : option Analysis.t) (p : Pod.t) : Element :=
  PodElement (podID (Pod.Key p)) (nodeID (Pod.NodeName p))
    (Data.mk_pod (Pod.Name p) (Pod.Namespace p) (Resources.MilliCPU (Pod.Requests p)) (Resources.MemoryBytes (Pod.Requests p))
       (match Pod.Owner p with Some o => OwnerRef.Kind o | None => "" end)
       (match Pod.Owner p with Some o => OwnerRef.Name o | None => "" end)
       (Pod.IsMovable p) (blocked_in analysis (Pod.Key p))).

Definition aggregated (limit : Z) (snap : ClusterSnapshot.t) : bool :=
  (0 <? limit) && (limit <? Z.of_nat (length (ClusterSnapshot.Pods snap))).

Definition scheduled (pods : list Pod.t) : list Pod.t := List.filter (λ p, negb (Pod.NodeName p =? "")%string) pods.

Definition BuildWith (plan : Plan.t) (snap : ClusterSnapshot.t) (analysis : option Analysis.t) (limit : Z) : Payload.t :=
  let m := occupancy analysis (ClusterSnapshot.Pods snap) in
  let nodes := node_element snap (drain_steps plan) m <$> ClusterSnapshot.Nodes snap in
  let pods := if aggregated limit snap then [] else pod_element analysis <$> scheduled (ClusterSnapshot.Pods snap) in
  Payload.mk (Plan.ID plan) (nodes ++ pods) (buildStats plan) (aggregated limit snap).

Definition Build (plan : Plan.t) (snap : ClusterSnapshot.t) (analysis : option Analysis.t) : Payload.t :=
  BuildWith plan snap analysis DefaultPodDetailLimit.

(** ** What the picture shows *)

Lemma occ_counts analysis pods name :
  name ≠ "" →
  let here := List.filter (λ p, (Pod.NodeName p =? name)%string) pods in
  let t := occ (occupancy analysis pods) name in
  tally.pods t = Z.of_nat (length here) ∧
  tally.blocked t = Z.of_nat (length (List.filter (λ p, blocked_in analysis (Pod.Key p)) here)) ∧
  tally.pinned t = Z.of_nat (length (List.filter (λ p, negb (Pod.IsMovable p)) here)).
Proof.
  intros Hne. cbn zeta. unfold occ, occupancy. induction pods as [|p pods IH] using rev_ind; [by cbn; rewrite lookup_empty|].
  rewrite fold_left_app, List.filter_app. cbn [fold_left List.filter]. unfold occupy at 1 3 5.
  destruct (String.eqb_spec (Pod.NodeName p) name) as [E|E].
  - rewrite E, (proj2 (String.eqb_neq _ _) Hne), lookup_insert_eq. cbn [default].
    set (t := default tally.zero _) in *. destruct IH as (I1 & I2 & I3).
    unfold count_pod, id. cbn [tally.pods tally.blocked tally.pinned]. rewrite !List.filter_app, !length_app.
    cbn [List.filter length]. rewrite ?I1, ?I2, ?I3.
    split_and!; [lia|destruct (blocked_in _ _); cbn; lia|destruct (negb _); cbn; lia].
  - rewrite app_nil_r. destruct (Pod.NodeName p =? "")%string; [done|]. by rewrite lookup_insert_ne.
Qed.
