(* ===== verification/Broker.v ===== *)
(** * Telling the browsers (internal/api/rest/events.go, and PollStore of rest.go)

The broker fans events out to connected clients, each with a goroutine of its
own and a channel of eight.  [Publish] collects the clients under the lock and
sends after releasing it, so what clients do in between interleaves with the
sends: the broker is a transition system whose actions are the atomic parts of
the code.  Writing to a connection that is gone is the client leaving; what an
event looks like on the wire, and keepalives, are not modelled. *)
From S2P Require Import Prelude Cluster RunStore PlanStore Admission.

Module Broker.
Section broker.
Context {Event : Type}.

(** [make(chan Event, 8)] *)
Definition capacity : nat := 8.

Record channel : Type := mk_channel { buffer : list Event; closed : bool }.

(** A call of [Publish] past its unlock: the event, and the clients collected but
not yet tried. *)
Record publication : Type := mk_publication { event : Event; waiting : gset nat }.

(** [clients] is the registered map; every channel ever made is in [channels], and
what its goroutine wrote to the connection in [written]. *)
Record t : Type := mk {
  clients : gset nat;
  lastEvent : option Event;
  channels : gmap nat channel;
  written : gmap nat (list Event);
  publications : list publication;
  panicked : bool;
}.

Definition NewBroker : t := mk ∅ None ∅ ∅ [] false.

Inductive action : Type :=
| Begin (e : Event)          (** [Publish] up to the unlock *)
| Try (i c : nat)            (** one round of the loop of publication [i] *)
| Connect (c : nat)          (** [ServeHTTP] up to its loop *)
| Deliver (c : nat)          (** [case e := <-ch] *)
| Unregister (c : nat)       (** the deferred function: the removal, under the lock *)
| Close (c : nat).           (** the deferred function: [close(ch)] *)

(** The select of [Publish]: a full channel is skipped; a closed one panics. *)
Definition offer (e : Event) (ch : channel) : channel :=
  if (length (buffer ch) <? capacity)%nat then mk_channel (buffer ch ++ [e]) (closed ch) else ch.

Definition try_client (p : publication) (c : nat) : publication :=
  mk_publication (event p) (waiting p ∖ {[c]}).

(** [None]: the action is not possible.  After a panic nothing is. *)
Definition next (a : action) (s : t) : option t :=
  if panicked s then None
  else match a with
  | Begin e =>
      Some (mk (clients s) (Some e) (channels s) (written s)
              (publications s ++ [mk_publication e (clients s)]) false)
  | Try i c =>
      p ← publications s !! i; ch ← channels s !! c;
      if negb (bool_decide (c ∈ waiting p)) then None
      else
        let ps := <[i := try_client p c]> (publications s) in
        if closed ch then Some (mk (clients s) (lastEvent s) (channels s) (written s) ps true)
        else Some (mk (clients s) (lastEvent s) (<[c := offer (event p) ch]> (channels s)) (written s) ps false)
  | Connect c =>
      if bool_decide (is_Some (channels s !! c)) then None
      else Some (mk ({[c]} ∪ clients s) (lastEvent s) (<[c := mk_channel [] false]> (channels s))
                   (<[c := option_list (lastEvent s)]> (written s)) (publications s) false)
  | Deliver c =>
      ch ← channels s !! c; w ← written s !! c;
      if negb (bool_decide (c ∈ clients s)) then None
      else match buffer ch with
           | [] => None
           | e :: rest => Some (mk (clients s) (lastEvent s) (<[c := mk_channel rest (closed ch)]> (channels s))
                                  (<[c := w ++ [e]]> (written s)) (publications s) false)
           end
  | Unregister c =>
      if negb (bool_decide (c ∈ clients s)) then None
      else Some (mk (clients s ∖ {[c]}) (lastEvent s) (channels s) (written s) (publications s) false)
  | Close c =>
      ch ← channels s !! c;
      if bool_decide (c ∈ clients s) || closed ch then None
      else Some (mk (clients s) (lastEvent s) (<[c := mk_channel (buffer ch) true]> (channels s)) (written s)
                   (publications s) false)
  end.

(** The executions from the start. *)
Inductive run : list action → t → Prop :=
| run_start : run [] NewBroker
| run_next as_ s a s' : run as_ s → next a s = Some s' → run (as_ ++ [a]) s'.

Definition play (as_ : list action) : option t :=
  fold_left (λ s a, s ← s; next a s) as_ (Some NewBroker).

Definition Clients (s : t) : Z := Z.of_nat (size (clients s)).

End broker.
Arguments t : clear implicits.
Arguments action : clear implicits.
Arguments channel : clear implicits.
Arguments publication : clear implicits.
End Broker.

(** ** PollStore: one tick, given the identifier last announced *)

Module PlanEvent.
Record t : Type := mk { planId : string; steps : Z; nodesBefore : Z; nodesAfter : Z; ratings : gmap ImpactRating Z }.
End PlanEvent.

Definition plan_event (plan : Plan.t) : PlanEvent.t :=
  PlanEvent.mk (Plan.ID plan) (Z.of_nat (length (Plan.Steps plan))) (Plan.NodesBefore plan) (Plan.NodesAfter plan)
    (Plan.CountByRating plan).

Definition PollTick (latest : call_error + Record.t) (lastID : string) : option PlanEvent.t * string :=
  match latest with
  | inl _ => (None, lastID)
  | inr rec =>
      let plan := Record.Plan rec in
      if (Plan.ID plan =? lastID)%string then (None, lastID)
      else (Some (plan_event plan), Plan.ID plan)
  end.

Fixpoint PollStore (ticks : list (call_error + Record.t)) (lastID : string) : list PlanEvent.t :=
  match ticks with
  | [] => []
  | latest :: ticks =>
      let '(e, lastID) := PollTick latest lastID in
      option_list e ++ PollStore ticks lastID
  end.
