(* ===== verification/BrokerProps.v ===== *)
(** * What the broker guarantees

A publication never waits for a client; a client is told of a publication at
most once, however publications, arrivals and departures interleave; and the
one way to panic. *)
From S2P Require Import Prelude Cluster RunStore PlanStore Admission Broker.
Import Broker.

Section facts.
Context {Event : Type}.
Implicit Types (s : Broker.t Event) (a : action Event) (p q : publication Event) (ps qs : list (publication Event)).

Definition begun (as_ : list (action Event)) : list Event :=
  omap (λ a, match a with Begin e => Some e | _ => None end) as_.

(** What a client was written or has waiting in its channel, and what the
publications under way still owe it. *)
Definition buffered s (c : nat) : list Event := match channels s !! c with Some ch => buffer ch | None => [] end.

Definition told s (c : nat) : list Event := default [] (written s !! c) ++ buffered s c.

Definition owed (ps : list (publication Event)) (c : nat) : list Event :=
  event <$> List.filter (λ p, bool_decide (c ∈ waiting p)) ps.

#[local] Arguments owed : simpl never.
#[local] Arguments told : simpl never.
#[local] Arguments buffered : simpl never.

Definition known s (c : nat) : Prop := is_Some (channels s !! c).

Definition backlog s : nat := foldr (λ p n, (size (waiting p) + n)%nat) 0%nat (publications s).

Record sound (es : list Event) s : Prop := {
  sound_written : ∀ c, is_Some (written s !! c) ↔ known s c;
  sound_clients : ∀ c, c ∈ clients s → known s c;
  sound_waiting : ∀ p c, p ∈ publications s → c ∈ waiting p → known s c;
  sound_buffer : ∀ c, (length (buffered s c) <= capacity)%nat;
  sound_last : lastEvent s = last es;
  sound_once : NoDup es → ∀ c, NoDup (told s c ++ owed (publications s) c);
  sound_begun : ∀ c e, e ∈ told s c ++ owed (publications s) c → e ∈ es;
}.

Lemma owed_app ps qs c : owed (ps ++ qs) c = owed ps c ++ owed qs c.
Proof. unfold owed. by rewrite List.filter_app, fmap_app. Qed.

Lemma owed_one p c : owed [p] c = if bool_decide (c ∈ waiting p) then [event p] else [].
Proof. unfold owed. cbn. by destruct (bool_decide _). Qed.

(** Trying a client settles one debt to it, and no other. *)
Lemma owed_try ps i p c d :
  ps !! i = Some p → c ∈ waiting p →
  (d = c → owed ps d ≡ₚ event p :: owed (<[i := try_client p c]> ps) d) ∧
  (d ≠ c → owed (<[i := try_client p c]> ps) d = owed ps d).
Proof.
  intros Hi Hc. pose proof (lookup_lt_Some _ _ _ Hi) as Hl.
  assert (E : owed ps d = owed (take i ps) d ++ owed [p] d ++ owed (drop (S i) ps) d).
  { rewrite <- (take_drop_middle ps i p Hi) at 1. rewrite cons_middle. by rewrite !owed_app. }
  rewrite insert_take_drop by done. rewrite cons_middle, !owed_app, E, !owed_one. cbn [waiting try_client].
  split.
  - intros ->. rewrite (bool_decide_eq_true_2 (c ∈ waiting p)) by done.
    rewrite bool_decide_eq_false_2 by set_solver. cbn. solve_Permutation.
  - intros Hd. by rewrite (bool_decide_ext (d ∈ waiting p ∖ {[c]}) (d ∈ waiting p)) by set_solver.
Qed.

(** The wait sets only shrink along a publication. *)
Lemma try_waiting ps i p c q d :
  ps !! i = Some p → q ∈ <[i := try_client p c]> ps → d ∈ waiting q → ∃ q', q' ∈ ps ∧ d ∈ waiting q'.
Proof.
  intros Hi [j Hj]%list_elem_of_lookup Hd.
  destruct (decide (j = i)) as [->|Hn].
  - rewrite list_lookup_insert_eq in Hj by (by eapply lookup_lt_Some). injection Hj as <-.
    exists p. split; [by eapply list_elem_of_lookup_2|]. cbn in Hd. set_solver.
  - rewrite list_lookup_insert_ne in Hj by done. exists q. split; [by eapply list_elem_of_lookup_2|done].
Qed.

Lemma backlog_try ps i p c :
  ps !! i = Some p → c ∈ waiting p →
  foldr (λ p n, (size (waiting p) + n)%nat) 0%nat ps =
  S (foldr (λ p n, (size (waiting p) + n)%nat) 0%nat (<[i := try_client p c]> ps)).
Proof.
  revert i. induction ps as [|q ps IH]; intros [|i] Hi Hc; try done; cbn in *.
  - injection Hi as ->. rewrite size_difference by set_solver. rewrite size_singleton.
    assert (size (waiting p) ≠ 0%nat) by (apply size_non_empty_iff; set_solver). lia.
  - rewrite (IH i Hi Hc). by rewrite Nat.add_succ_r.
Qed.

Lemma begun_snoc as_ a :
  begun (as_ ++ [a]) = begun as_ ++ match a with Begin e => [e] | _ => [] end.
Proof. unfold begun. rewrite omap_app. by destruct a. Qed.

Lemma buffered_insert s chs c ch d :
  channels s = <[c := ch]> chs → buffered s d = if decide (d = c) then buffer ch else
    match chs !! d with Some ch => buffer ch | None => [] end.
Proof.
  intros E. unfold buffered. rewrite E. destruct (decide (d = c)) as [->|Hn].
  - by rewrite lookup_insert_eq.
  - by rewrite lookup_insert_ne by done.
Qed.

Lemma sound_start : sound [] NewBroker.
Proof.
  split; unfold known, told, buffered; cbn; try done.
  - intros c. by rewrite !lookup_empty.
  - intros p c Hp. by apply elem_of_nil in Hp.
  - intros c. rewrite lookup_empty. cbn. lia.
Qed.

Lemma begin_sound es s e :
  sound es s →
  sound (es ++ [e]) (mk (clients s) (Some e) (channels s) (written s)
                       (publications s ++ [mk_publication e (clients s)]) false).
Proof.
  intros [H1 H2 H3 H4 H5 H6 H7]. split; cbn; try done.
  - intros p c [Hp| ->%list_elem_of_singleton]%elem_of_app Hc; [by eapply H3|by apply H2].
  - by rewrite last_snoc.
  - intros [Hn [Hf _]]%NoDup_app c. rewrite owed_app, owed_one. cbn.
    change (told _ c) with (told s c). rewrite app_assoc. destruct (bool_decide _).
    + apply NoDup_app. split_and!; [by apply H6| |apply NoDup_singleton].
      intros x Hx ->%list_elem_of_singleton. apply (Hf e); [by apply (H7 c)|by left].
    + rewrite app_nil_r. by apply H6.
  - intros c x. rewrite owed_app, owed_one, app_assoc. cbn. change (told _ c) with (told s c).
    intros [Hx|Hx]%elem_of_app; apply elem_of_app; [left; by apply (H7 c)|].
    right. destruct (bool_decide _); [done|by apply elem_of_nil in Hx].
Qed.

(** A debt settled, by a delivery or by a channel that was full. *)
Lemma settled (l o o' : list Event) e :
  o ≡ₚ e :: o' → l ++ o ≡ₚ (l ++ [e]) ++ o' ∧ (NoDup (l ++ o) → NoDup (l ++ o')).
Proof.
  intros E. split; [by rewrite E, <- app_assoc|]. rewrite E, <- Permutation_middle. by intros [_ ?]%NoDup_cons.
Qed.

(** Only [c]'s channel and debts change, and what it is told grows by nothing or by
the event. *)
Lemma try_sound es s i p c ch chs b :
  publications s !! i = Some p → channels s !! c = Some ch → c ∈ waiting p →
  (chs = channels s ∨ chs = <[c := offer (event p) ch]> (channels s)) →
  sound es s → sound es (mk (clients s) (lastEvent s) chs (written s) (<[i := try_client p c]> (publications s)) b).
Proof.
  intros Hi Hch Hc Hchs [H1 H2 H3 H4 H5 H6 H7].
  assert (Hk : ∀ d, is_Some (chs !! d) ↔ is_Some (channels s !! d)).
  { intros d. destruct Hchs as [->| ->]; [done|]. destruct (decide (d = c)) as [->|Hn].
    - rewrite lookup_insert_eq, Hch. split; by eexists.
    - by rewrite lookup_insert_ne. }
  set (s' := mk _ _ _ _ _ _).
  assert (Ht : told s' c = told s c ∨ told s' c = told s c ++ [event p] ∧ (length (buffered s c) < capacity)%nat).
  { unfold told, buffered, s'. cbn. rewrite Hch. destruct Hchs as [->| ->]; [left; by rewrite Hch|].
    rewrite lookup_insert_eq. unfold offer. destruct (Nat.ltb_spec (length (buffer ch)) capacity); [right|by left].
    cbn. by rewrite app_assoc. }
  assert (Hd : ∀ d, d ≠ c → told s' d = told s d ∧ buffered s' d = buffered s d).
  { intros d Hn. unfold told, buffered, s'. cbn. destruct Hchs as [->| ->]; [done|]. by rewrite lookup_insert_ne. }
  destruct (owed_try (publications s) i p c c Hi Hc) as [Hs _]. specialize (Hs eq_refl).
  assert (Hsub : ∀ d, (NoDup (told s d ++ owed (publications s) d) →
      NoDup (told s' d ++ owed (publications s') d)) ∧
    ∀ x, x ∈ told s' d ++ owed (publications s') d → x ∈ told s d ++ owed (publications s) d).
  { intros d. cbn. destruct (decide (d = c)) as [->|Hn].
    - destruct (settled (told s c) _ _ _ Hs) as [E1 E2]. destruct Ht as [->|[-> _]].
      + split; [done|]. intros x. rewrite Hs, !elem_of_app, elem_of_cons. tauto.
      + split; [by rewrite E1|]. intros x. by rewrite E1.
    - destruct (Hd d Hn) as [-> _]. by rewrite (proj2 (owed_try _ i p c d Hi Hc) Hn). }
  split; cbn.
  - intros d. rewrite H1. symmetry. apply Hk.
  - intros d Hd'. by apply Hk, H2.
  - intros q d Hq Hd'. destruct (try_waiting _ _ _ _ _ _ Hi Hq Hd') as (q' & Hq' & Hd''). apply Hk. by eapply H3.
  - intros d. destruct (decide (d = c)) as [->|Hn]; [|destruct (Hd d Hn) as [_ ->]; apply H4].
    specialize (H4 c). unfold buffered in *. cbn. destruct Hchs as [->| ->]; [done|].
    rewrite Hch in H4. rewrite lookup_insert_eq. unfold offer.
    destruct (Nat.ltb_spec (length (buffer ch)) capacity); cbn; rewrite ?length_app; cbn; lia.
  - done.
  - intros Hn d. by apply Hsub, H6.
  - intros d e He. by apply (H7 d), Hsub.
Qed.

Lemma connect_sound es s c :
  channels s !! c = None → sound es s →
  sound es (mk ({[c]} ∪ clients s) (lastEvent s) (<[c := mk_channel [] false]> (channels s))
              (<[c := option_list (lastEvent s)]> (written s)) (publications s) false).
Proof.
  intros Hc [H1 H2 H3 H4 H5 H6 H7].
  set (s' := mk _ _ _ _ _ _).
  assert (Hk : ∀ d, known s' d ↔ d = c ∨ known s d).
  { intros d. unfold known, s'. cbn. destruct (decide (d = c)) as [->|Hn].
    - rewrite lookup_insert_eq. split; [by left|by eexists].
    - rewrite lookup_insert_ne by done. tauto. }
  assert (Hw : owed (publications s) c = []).
  { unfold owed. rewrite filter_none; [done|]. intros p Hp. apply bool_decide_eq_false_2. intros Hcp.
    destruct (H3 p c Hp Hcp) as [? E]. congruence. }
  assert (Hs : told s' c = option_list (last es)).
  { unfold told, buffered, s'. cbn. by rewrite !lookup_insert_eq, H5, app_nil_r. }
  assert (Hd : ∀ d, d ≠ c → told s' d = told s d ∧ buffered s' d = buffered s d).
  { intros d Hn. unfold told, buffered, s'. cbn. by rewrite !lookup_insert_ne. }
  split; cbn.
  - intros d. rewrite Hk. destruct (decide (d = c)) as [->|Hn].
    + rewrite lookup_insert_eq. split; [by left|by eexists].
    + rewrite lookup_insert_ne, H1 by done. tauto.
  - intros d [->%elem_of_singleton|Hd']%elem_of_union; apply Hk; [by left|right; by apply H2].
  - intros p d Hp Hd'. apply Hk. right. by eapply H3.
  - intros d. destruct (decide (d = c)) as [->|Hn]; [|destruct (Hd d Hn) as [_ ->]; apply H4].
    unfold buffered, s'. cbn. rewrite lookup_insert_eq. cbn. lia.
  - done.
  - intros Hn d. destruct (decide (d = c)) as [->|Hne]; [|destruct (Hd d Hne) as [-> _]; by apply H6].
    rewrite Hs, Hw, app_nil_r. destruct (last es); cbn; [apply NoDup_singleton|constructor].
  - intros d e. destruct (decide (d = c)) as [->|Hne]; [|destruct (Hd d Hne) as [-> _]; by apply H7].
    rewrite Hs, Hw, app_nil_r. destruct (last es) as [x|] eqn:E; cbn; [|by rewrite elem_of_nil].
    intros ->%list_elem_of_singleton. apply last_Some in E as [es' ->]. apply elem_of_app. right. by left.
Qed.

(** Actions of one client that leave what it was told as it was. *)
Lemma client_sound es s cl chs wr :
  (∀ d, is_Some (chs !! d) ↔ is_Some (channels s !! d)) → (∀ d, is_Some (wr !! d) ↔ is_Some (written s !! d)) →
  cl ⊆ clients s →
  (∀ d, let s' := mk cl (lastEvent s) chs wr (publications s) false in
     told s' d = told s d ∧ (length (buffered s' d) <= length (buffered s d))%nat) →
  sound es s → sound es (mk cl (lastEvent s) chs wr (publications s) false).
Proof.
  intros Hk Hw Hcl Ht [H1 H2 H3 H4 H5 H6 H7]. split; cbn; try done.
  - intros d. rewrite Hw, H1. symmetry. apply Hk.
  - intros d Hd. apply Hk, H2. by apply Hcl.
  - intros p d Hp Hd. apply Hk. by eapply H3.
  - intros d. destruct (Ht d) as [_ Hl]. specialize (H4 d). lia.
  - intros Hn d. destruct (Ht d) as [-> _]. by apply H6.
  - intros d e. destruct (Ht d) as [-> _]. apply H7.
Qed.

Lemma is_some_insert {A} (m : gmap nat A) c x d : is_Some (m !! c) → is_Some (<[c := x]> m !! d) ↔ is_Some (m !! d).
Proof.
  intros Hc. destruct (decide (d = c)) as [->|Hn]; [|by rewrite lookup_insert_ne].
  rewrite lookup_insert_eq. split; [done|by eexists].
Qed.

Lemma next_sound es s a s' :
  sound es s → next a s = Some s' → sound (es ++ match a with Begin e => [e] | _ => [] end) s'.
Proof.
  unfold next. intros Hs. destruct (panicked s); [done|]. destruct a as [e|i c|c|c|c|c]; rewrite ?app_nil_r.
  - intros [= <-]. by apply begin_sound.
  - destruct (publications s !! i) as [p|] eqn:Ep; [|done]. destruct (channels s !! c) as [ch|] eqn:Ec; [|done].
    cbn. case_bool_decide as Hc; [|done]. cbn.
    destruct (closed ch); intros [= <-]; eapply try_sound; try done; tauto.
  - case_bool_decide as Hc; [done|]. intros [= <-]. apply connect_sound; [|done].
    destruct (channels s !! c) eqn:E; [|done]. exfalso. apply Hc. by eexists.
  - destruct (channels s !! c) as [ch|] eqn:Ec; [|done]. destruct (written s !! c) as [w|] eqn:Ew; [|done]. cbn.
    case_bool_decide as Hc; [|done]. cbn. destruct (buffer ch) as [|e rest] eqn:Eb; [done|]. intros [= <-].
    apply client_sound; try done.
    + intros d. apply is_some_insert. by eexists.
    + intros d. apply is_some_insert. by eexists.
    + intros d. cbn. unfold told, buffered. cbn. destruct (decide (d = c)) as [->|Hn].
      * rewrite !lookup_insert_eq, Ew, Ec, Eb. cbn. rewrite <- app_assoc. cbn. split; [done|lia].
      * by rewrite !lookup_insert_ne.
  - case_bool_decide as Hc; [|done]. intros [= <-]. apply client_sound; try done. set_solver.
  - destruct (channels s !! c) as [ch|] eqn:Ec; [|done]. cbn.
    destruct (_ || _); [done|]. intros [= <-]. apply client_sound; try done.
    + intros d. apply is_some_insert. by eexists.
    + intros d. cbn. unfold told, buffered. cbn. destruct (decide (d = c)) as [->|Hn].
      * by rewrite lookup_insert_eq, Ec.
      * by rewrite lookup_insert_ne.
Qed.

Lemma run_sound as_ s : run as_ s → sound (begun as_) s.
Proof.
  induction 1 as [|as_ s a s' Hr IH Hn]; [apply sound_start|].
  rewrite begun_snoc. by apply (next_sound _ s).
Qed.

(** What the executable semantics computes is an execution. *)
Lemma play_run as_ s : play as_ = Some s → run as_ s.
Proof.
  unfold play. revert s. induction as_ as [|a as_ IH] using rev_ind; intros s; [intros [= <-]; apply run_start|].
  rewrite fold_left_app. cbn. destruct (fold_left _ as_ _) as [s0|]; [|done]. cbn.
  intros Hn. eapply run_next; [by apply IH|done].
Qed.

(** A publication under way is never at a channel that is closed, unless a client
closed it meanwhile. *)
Definition safe s : Prop :=
  panicked s = false ∧
  (∀ c ch, channels s !! c = Some ch → closed ch = true → c ∉ clients s) ∧
  ∀ p c ch, p ∈ publications s → c ∈ waiting p → channels s !! c = Some ch → closed ch = false.

Lemma next_safe es s a s' :
  sound es s → safe s → next a s = Some s' →
  (∀ c, a = Close c → ∀ p, p ∈ publications s → c ∉ waiting p) → safe s'.
Proof.
  unfold next. intros Hs (Hp & Hcl & Hw). rewrite Hp. destruct a as [e|i c|c|c|c|c].
  - intros [= <-] _. split_and!; cbn; [done|done|].
    intros p c ch [Hq| ->%list_elem_of_singleton]%elem_of_app Hc Hch; [by eapply Hw|].
    destruct (closed ch) eqn:E; [|done]. by destruct (Hcl c ch Hch E).
  - destruct (publications s !! i) as [p|] eqn:Ep; [|done]. destruct (channels s !! c) as [ch|] eqn:Ec; [|done].
    cbn. case_bool_decide as Hc; [|done]. cbn.
    rewrite (Hw p c ch (list_elem_of_lookup_2 _ _ _ Ep) Hc Ec). intros [= <-] _.
    assert (Ho : ∀ d ch', <[c := offer (event p) ch]> (channels s) !! d = Some ch' →
      ∃ ch0, channels s !! d = Some ch0 ∧ closed ch' = closed ch0).
    { intros d ch'. destruct (decide (d = c)) as [->|Hn].
      - rewrite lookup_insert_eq. intros [= <-]. exists ch. split; [done|]. unfold offer. by destruct (_ <? _)%nat.
      - rewrite lookup_insert_ne by done. intros ?. by exists ch'. }
    split_and!; cbn; [done| |].
    + intros d ch' (ch0 & E & ->)%Ho. by apply Hcl.
    + intros q d ch' Hq Hd (ch0 & E & ->)%Ho.
      destruct (try_waiting _ _ _ _ _ _ Ep Hq Hd) as (q' & Hq' & Hd'). by eapply Hw.
  - case_bool_decide as Hc; [done|]. intros [= <-] _. split_and!; cbn; [done| |].
    + intros d ch. destruct (decide (d = c)) as [->|Hn]; [by rewrite lookup_insert_eq; intros [= <-]|].
      rewrite lookup_insert_ne by done. intros E Hcd. specialize (Hcl d ch E Hcd). set_solver.
    + intros p d ch Hq Hd. destruct (decide (d = c)) as [->|Hn].
      * by destruct (sound_waiting _ _ Hs p c Hq Hd) as [? E]; destruct Hc; eexists.
      * rewrite lookup_insert_ne by done. by eapply Hw.
  - destruct (channels s !! c) as [ch|] eqn:Ec; [|done]. destruct (written s !! c) as [w|] eqn:Ew; [|done]. cbn.
    case_bool_decide as Hc; [|done]. cbn. destruct (buffer ch) as [|e rest]; [done|]. intros [= <-] _.
    assert (Ho : ∀ d ch', <[c := mk_channel rest (closed ch)]> (channels s) !! d = Some ch' →
      ∃ ch0, channels s !! d = Some ch0 ∧ closed ch' = closed ch0).
    { intros d ch'. destruct (decide (d = c)) as [->|Hn].
      - rewrite lookup_insert_eq. intros [= <-]. by exists ch.
      - rewrite lookup_insert_ne by done. intros ?. by exists ch'. }
    split_and!; cbn; [done| |].
    + intros d ch' (ch0 & E & ->)%Ho. by apply Hcl.
    + intros q d ch' Hq Hd (ch0 & E & ->)%Ho. by eapply Hw.
  - case_bool_decide as Hc; [|done]. intros [= <-] _. split_and!; cbn; [done| |done].
    intros d ch E Hcd. specialize (Hcl d ch E Hcd). set_solver.
  - destruct (channels s !! c) as [ch|] eqn:Ec; [|done]. cbn.
    case_bool_decide as Hc; [done|]. cbn. destruct (closed ch); [done|]. intros [= <-] Hq.
    specialize (Hq c eq_refl). split_and!; cbn; [done| |].
    + intros d ch'. destruct (decide (d = c)) as [->|Hn]; [done|]. rewrite lookup_insert_ne by done. apply Hcl.
    + intros p d ch' Hp' Hd. destruct (decide (d = c)) as [->|Hn]; [by destruct (Hq p Hp')|].
      rewrite lookup_insert_ne by done. by eapply Hw.
Qed.

(** The execution contains a closing that a publication under way was to send to. *)
Definition closed_under_way (as_ : list (action Event)) : Prop :=
  ∃ pre c post s0 p, as_ = pre ++ Close c :: post ∧ run pre s0 ∧ p ∈ publications s0 ∧ c ∈ waiting p.

Lemma run_safe as_ s : run as_ s → closed_under_way as_ ∨ safe s.
Proof.
  induction 1 as [|as_ s a s' Hr IH Hn].
  { right. split_and!; cbn; [done| |]; intros *; by rewrite ?lookup_empty. }
  destruct IH as [(pre & c & post & s0 & p & -> & Hx)|IH].
  { left. exists pre, c, (post ++ [a]), s0, p. by rewrite <- app_assoc. }
  destruct (match a with Close c => bool_decide (Exists (λ p, c ∈ waiting p) (publications s)) | _ => false end) eqn:E.
  - left. destruct a as [| | | | |c]; try done. apply bool_decide_eq_true, Exists_exists in E as (p & Hp & Hc).
    exists as_, c, [], s, p. done.
  - right. eapply next_safe; [by eapply run_sound|done|done|].
    intros c -> p Hp Hc. apply bool_decide_eq_false in E. apply E, Exists_exists. by exists p.
Qed.

Lemma next_try s i p c ch :
  panicked s = false → publications s !! i = Some p → channels s !! c = Some ch → c ∈ waiting p →
  next (Try i c) s =
  Some (mk (clients s) (lastEvent s)
          (if closed ch then channels s else <[c := offer (event p) ch]> (channels s)) (written s)
          (<[i := try_client p c]> (publications s)) (closed ch)).
Proof.
  intros Hp Hi Hch Hc. unfold next. rewrite Hp, Hi, Hch. cbn. rewrite bool_decide_eq_true_2 by done.
  by destruct (closed ch).
Qed.

(** Publishing never waits for a client: whatever the clients do, every send that
a publication still has to make is possible at once, and brings it one send
nearer to its end; no client has more than eight events waiting. *)
Theorem publish_never_waits as_ s :
  run as_ s → panicked s = false →
  (∀ c, (length (buffered s c) <= capacity)%nat) ∧
  ∀ i p c, publications s !! i = Some p → c ∈ waiting p →
    ∃ s', next (Try i c) s = Some s' ∧ backlog s = S (backlog s') ∧ clients s' = clients s.
Proof.
  intros Hr Hp. apply run_sound in Hr as Hs. split; [apply (sound_buffer _ _ Hs)|].
  intros i p c Hi Hc. destruct (sound_waiting _ _ Hs p c (list_elem_of_lookup_2 _ _ _ Hi) Hc) as [ch Hch].
  rewrite (next_try s i p c ch Hp Hi Hch Hc). eexists. split; [done|].
  split; [|done]. exact (backlog_try _ _ _ _ Hi Hc).
Qed.

(** However publications, arrivals, departures and deliveries interleave, a client
is written each event at most once, and only events that were published: the
event it is greeted with is not sent to it again. *)
Theorem told_at_most_once as_ s c :
  run as_ s → NoDup (begun as_) →
  NoDup (default [] (written s !! c)) ∧ ∀ e, e ∈ default [] (written s !! c) → e ∈ begun as_.
Proof.
  intros Hr Hn. apply run_sound in Hr as Hs. split.
  - pose proof (sound_once _ _ Hs Hn c) as Ho. apply NoDup_app in Ho as [Ho _].
    by apply NoDup_app in Ho as [Ho _].
  - intros e He. apply (sound_begun _ _ Hs c). unfold told. rewrite !elem_of_app. by do 2 left.
Qed.

(** The broker panics only when a client's channel is closed while a publication
that collected the client has yet to send to it; a server whose clients never
leave during a publication never panics. *)
Theorem only_departures_panic as_ s : run as_ s → panicked s = true → closed_under_way as_.
Proof. intros Hr Hp. destruct (run_safe as_ s Hr) as [|[Hf _]]; [done|congruence]. Qed.

(** And then it does: a client that leaves between the unlock of a publication and
the send to it brings the publisher down, since sending on a closed channel
panics. *)
Theorem leaving_client_panics (e : Event) :
  ∃ as_ s, run as_ s ∧ begun as_ = [e] ∧ panicked s = true.
Proof.
  exists [Connect 1; Begin e; Unregister 1; Close 1; Try 0 1]. eexists.
  split; [apply play_run; reflexivity|done].
Qed.

End facts.

(** ** PollStore *)

(** Polling announces a plan exactly when it is not the one announced last: no
plan is announced twice in a row, and every plan a poll finds is the latest
announced, or is announced. *)
Theorem polls_announce_changes ticks lastID :
  let announced := PlanEvent.planId <$> PollStore ticks lastID in
  (∀ i a b, (lastID :: announced) !! i = Some a → announced !! i = Some b → a ≠ b) ∧
  ∀ rec, inr rec ∈ ticks → Plan.ID (Record.Plan rec) ∈ lastID :: announced.
Proof.
  revert lastID. induction ticks as [|[err|rec] ticks IH]; intros lastID; cbn.
  - split; [done|]. intros rec Hr. by apply elem_of_nil in Hr.
  - specialize (IH lastID). cbn in IH. destruct IH as [I1 I2]. split; [done|].
    intros rec [?|Hr]%elem_of_cons; [done|by apply I2].
  - destruct (String.eqb_spec (Plan.ID (Record.Plan rec)) lastID) as [<-|Hn]; cbn.
    + specialize (IH (Plan.ID (Record.Plan rec))). cbn in IH. destruct IH as [I1 I2]. split; [done|].
      intros r [[= ->]|Hr]%elem_of_cons; [by left|by apply I2].
    + specialize (IH (Plan.ID (Record.Plan rec))). cbn in IH. destruct IH as [I1 I2]. split.
      * intros [|i] a b; cbn; [congruence|]. apply I1.
      * intros r [[= ->]|Hr]%elem_of_cons; right; [by left|by apply I2].
Qed.

(** ** Concrete executions *)

(** A slow client among two, and one that arrives late. *)
Definition busy : list (action string) :=
  [Connect 0; Connect 1; Begin "p1"; Try 0 0; Try 0 1; Deliver 0; Begin "p2"; Connect 2; Try 1 1].

Definition state_of {E} (as_ : list (action E)) : Broker.t E := default NewBroker (play as_).

Lemma busy_runs : run busy (state_of busy).
Proof. apply play_run. vm_compute. reflexivity. Qed.

Lemma publish_never_waits_witness :
  publications (state_of busy) !! 1%nat = Some (mk_publication "p2" {[0%nat]}) ∧
  (∀ c, (length (buffered (state_of busy) c) <= capacity)%nat) ∧
  ∀ i p c, publications (state_of busy) !! i = Some p → c ∈ waiting p →
    ∃ s', next (Try i c) (state_of busy) = Some s' ∧ backlog (state_of busy) = S (backlog s') ∧
      clients s' = clients (state_of busy).
Proof.
  split; [vm_compute; reflexivity|].
  apply (publish_never_waits busy (state_of busy) busy_runs). vm_compute. reflexivity.
Defined.

Lemma told_at_most_once_witness :
  written (state_of busy) !! 2%nat = Some ["p2"] ∧
  NoDup (default [] (written (state_of busy) !! 2%nat)) ∧
  ∀ e, e ∈ default [] (written (state_of busy) !! 2%nat) → e ∈ begun busy.
Proof.
  split; [vm_compute; reflexivity|].
  apply (told_at_most_once busy (state_of busy) 2 busy_runs).
  apply (bool_decide_unpack _). vm_compute. exact I.
Defined.

Definition leaving : list (action string) := [Connect 1; Begin "p"; Unregister 1; Close 1; Try 0 1].

Lemma only_departures_panic_witness : panicked (state_of leaving) = true ∧ closed_under_way leaving.
Proof.
  split; [vm_compute; reflexivity|].
  apply (only_departures_panic leaving (state_of leaving)); [apply play_run|]; vm_compute; reflexivity.
Defined.
