(* ===== verification/Kube.v ===== *)
(** * Objects of the Kubernetes API, as far as the program reads them

The types of k8s.io/api that internal/cluster converts: one Module per type,
with the fields the conversion reads and those the informer cache strips, which
nothing reads ([list string] stands for their content).  Pointers and optional
structs are options; the enumerations stay strings.  Quantities are the
library's: they enter through the two accessors the program calls. *)
From S2P Require Import Prelude GoLib Model.

(** resource.Quantity *)
Class Quantities : Type := {
  Quantity : Type;
  MilliValue : Quantity → Z;
  Value : Quantity → Z;
}.

Abbreviation ResourceList := (gmap string Quantity).

Module OwnerReference.
Record t : Type := mk { Kind : string; Name : string; Controller : option bool }.
End OwnerReference.

Module ObjectMeta.
Record t : Type := mk {
  Name : string;
  Namespace : string;
  Labels : gmap string string;
  Annotations : gmap string string;
  CreationTimestamp : time;
  DeletionTimestamp : option time;
  OwnerReferences : list OwnerReference.t;
  ManagedFields : list string;
}.

(** Clearing the managed fields, and setting the annotations. *)
Definition strip (annotations : gmap string string) (m : t) : t :=
  mk (Name m) (Namespace m) (Labels m) annotations (CreationTimestamp m) (DeletionTimestamp m)
    (OwnerReferences m) [].
End ObjectMeta.

Module Condition.
Record t : Type := mk { Type_ : string; Status : string }.
End Condition.

Module V1Taint.
Record t : Type := mk { Key : string; Value : string; Effect : string }.
End V1Taint.

Module V1Toleration.
Record t : Type := mk { Key : string; Operator : string; Value : string; Effect : string }.
End V1Toleration.

Module V1Node.
Record t `{Quantities} : Type := mk {
  Meta : ObjectMeta.t;
  Unschedulable : bool;
  Taints : list V1Taint.t;
  Capacity : ResourceList;
  Allocatable : ResourceList;
  Conditions : list Condition.t;
  Images : list string;
}.
Arguments mk {_}.
End V1Node.

(** The requirements of node selectors and of label selectors have one shape. *)
Module Requirement.
Record t : Type := mk { Key : string; Operator : string; Values : list string }.
End Requirement.

Module V1LabelSelector.
Record t : Type := mk { MatchLabels : gmap string string; MatchExpressions : list Requirement.t }.
End V1LabelSelector.

Module V1NodeSelectorTerm.
Record t : Type := mk { MatchExpressions : list Requirement.t; MatchFields : list Requirement.t }.
End V1NodeSelectorTerm.

(** The required terms of an affinity; the preferred ones are not read. *)
Module V1PodAffinityTerm.
Record t : Type := mk {
  LabelSelector : option V1LabelSelector.t;
  Namespaces : list string;
  NamespaceSelector : option V1LabelSelector.t;
  TopologyKey : string;
}.
End V1PodAffinityTerm.

Module V1NodeAffinity.
Record t : Type := mk { Required : option (list V1NodeSelectorTerm.t) }.
End V1NodeAffinity.

Module V1PodAffinity.
Record t : Type := mk { Required : list V1PodAffinityTerm.t }.
End V1PodAffinity.

Module Affinity.
Record t : Type := mk {
  NodeAffinity : option V1NodeAffinity.t;
  PodAffinity : option V1PodAffinity.t;
  PodAntiAffinity : option V1PodAffinity.t;
}.
End Affinity.

Module V1SpreadConstraint.
Record t : Type := mk {
  MaxSkew : Z;
  TopologyKey : string;
  WhenUnsatisfiable : string;
  LabelSelector : option V1LabelSelector.t;
  MinDomains : option Z;
}.
End V1SpreadConstraint.

Module Container.
Record t `{Quantities} : Type := mk { Requests : ResourceList; RestartPolicy : option string }.
Arguments mk {_}.
End Container.

Definition ContainerRestartPolicyAlways : string := "Always".

Module Volume.
Record t : Type := mk { PersistentVolumeClaim : option string }.
End Volume.

Module V1Pod.
Record t `{Quantities} : Type := mk {
  Meta : ObjectMeta.t;
  NodeName : string;
  NodeSelector : gmap string string;
  Containers : list Container.t;
  InitContainers : list Container.t;
  Overhead : option ResourceList;
  Priority : option Z;
  PriorityClassName : string;
  Tolerations : list V1Toleration.t;
  Volumes : list Volume.t;
  Affinity : option Affinity.t;
  TopologySpreadConstraints : list V1SpreadConstraint.t;
  Phase : string;
  Conditions : list Condition.t;
  ContainerStatuses : list string;
  InitContainerStatuses : list string;
  EphemeralContainerStatuses : list string;
}.
Arguments mk {_}.
End V1Pod.

Module V1PDB.
Record t : Type := mk {
  Meta : ObjectMeta.t;
  Selector : option V1LabelSelector.t;
  DisruptionsAllowed : Z;
  CurrentHealthy : Z;
  DesiredHealthy : Z;
  ExpectedPods : Z;
}.
End V1PDB.

Module V1ReplicaSet.
Record t : Type := mk { Meta : ObjectMeta.t; Template : list string }.
End V1ReplicaSet.

(** metrics.k8s.io: what was measured of a node, and of the containers of a pod. *)
Module NodeMetrics.
Record t `{Quantities} : Type := mk { Name : string; Usage : ResourceList }.
Arguments mk {_}.
End NodeMetrics.

Module PodMetrics.
Record t `{Quantities} : Type := mk { Namespace : string; Name : string; Containers : list ResourceList }.
Arguments mk {_}.
End PodMetrics.
