(* ===== verification/Collect.v ===== *)
(** * Reading the cluster (internal/cluster)

The conversion of API objects into the domain model (convert.go), the reader
over the informer cache with what it strips on the way in (collector.go), the
reader that asks the API server page by page (direct.go), and the usage that is
attached (cluster/metrics).  The API server and the cache are arguments: the
objects they hold, and the errors their calls return. *)
From S2P Require Import Prelude GoLib Model Cluster Kube.

(** ** convert.go *)

Section convert.
Context `{Quantities}.

Definition convertResourceList (rl : ResourceList) : Resources.t :=
  Resources.mk
    (match rl !! "cpu" with Some q => MilliValue q | None => 0 end)
    (match rl !! "memory" with Some q => Value q | None => 0 end)
    (match rl !! "pods" with Some q => Value q | None => 0 end).

(** [Status] of the first condition of the type. *)
Definition condition_true (type_ : string) (cs : list Condition.t) : bool :=
  match List.find (λ c, (Condition.Type_ c =? type_)%string) cs with
  | Some c => (Condition.Status c =? "True")%string
  | None => false
  end.

Definition convertTaint (t : V1Taint.t) : Taint.t :=
  Taint.mk (V1Taint.Key t) (V1Taint.Value t) (V1Taint.Effect t).

Definition convertNode (n : V1Node.t) : Node.t :=
  Node.mk (ObjectMeta.Name (V1Node.Meta n)) (ObjectMeta.Labels (V1Node.Meta n))
    (ObjectMeta.Annotations (V1Node.Meta n)) (convertTaint <$> V1Node.Taints n)
    (convertResourceList (V1Node.Capacity n)) (convertResourceList (V1Node.Allocatable n))
    (V1Node.Unschedulable n) (condition_true "Ready" (V1Node.Conditions n))
    (ObjectMeta.CreationTimestamp (V1Node.Meta n)) None.

Definition convertRequirement (r : Requirement.t) : SelectorRequirement.t :=
  SelectorRequirement.mk (Requirement.Key r) (Requirement.Operator r) (Requirement.Values r).

Definition convertSelectorRequirements (rs : list Requirement.t) : list SelectorRequirement.t :=
  convertRequirement <$> rs.

Definition convertLabelSelector (s : option V1LabelSelector.t) : option LabelSelector.t :=
  (λ s, LabelSelector.mk (V1LabelSelector.MatchLabels s)
          (convertRequirement <$> V1LabelSelector.MatchExpressions s)) <$> s.

Definition convertTerm (t : V1NodeSelectorTerm.t) : NodeSelectorTerm.t :=
  NodeSelectorTerm.mk (convertSelectorRequirements (V1NodeSelectorTerm.MatchExpressions t))
    (convertSelectorRequirements (V1NodeSelectorTerm.MatchFields t)).

Definition convertNodeAffinity (a : option Affinity.t) : option NodeAffinity.t :=
  a ← a; na ← Affinity.NodeAffinity a; terms ← V1NodeAffinity.Required na;
  match convertTerm <$> terms with
  | [] => None
  | terms => Some (NodeAffinity.mk terms)
  end.

Definition convertPodAffinityTerm (t : V1PodAffinityTerm.t) : PodAffinityTerm.t :=
  PodAffinityTerm.mk (convertLabelSelector (V1PodAffinityTerm.LabelSelector t))
    (V1PodAffinityTerm.TopologyKey t) (V1PodAffinityTerm.Namespaces t).

Definition convertPodAffinityTerms (ts : list V1PodAffinityTerm.t) : list PodAffinityTerm.t :=
  convertPodAffinityTerm <$> ts.

(** The terms of one side of the affinity; none when it is nil. *)
Definition side (a : option V1PodAffinity.t) : list PodAffinityTerm.t :=
  match a with Some a => convertPodAffinityTerms (V1PodAffinity.Required a) | None => [] end.

Definition convertPodAffinity (a : option Affinity.t) : option PodAffinity.t :=
  a ← a;
  match side (Affinity.PodAffinity a), side (Affinity.PodAntiAffinity a) with
  | [], [] => None
  | near, apart => Some (PodAffinity.mk near apart)
  end.

Definition maxResources (a b : Resources.t) : Resources.t :=
  Resources.mk
    (if Resources.MilliCPU a <? Resources.MilliCPU b then Resources.MilliCPU b else Resources.MilliCPU a)
    (if Resources.MemoryBytes a <? Resources.MemoryBytes b then Resources.MemoryBytes b else Resources.MemoryBytes a)
    (if Resources.Pods a <? Resources.Pods b then Resources.Pods b else Resources.Pods a).

Definition requests_of (c : Container.t) : Resources.t := convertResourceList (Container.Requests c).

(** A sidecar: an init container that is restarted. *)
Definition is_sidecar (c : Container.t) : bool :=
  match Container.RestartPolicy c with
  | Some p => (p =? ContainerRestartPolicyAlways)%string
  | None => false
  end.

(** One init container of the loop: [appSum] and [initMax] so far. *)
Definition init_step (acc : Resources.t * Resources.t) (c : Container.t) : Resources.t * Resources.t :=
  let '(appSum, initMax) := acc in
  let r := requests_of c in
  if is_sidecar c then (Resources.Add appSum r, initMax) else (appSum, maxResources initMax r).

Definition effectiveRequests (p : V1Pod.t) : Resources.t :=
  let appSum := fold_left (λ s c, Resources.Add s (requests_of c)) (V1Pod.Containers p) Resources.empty in
  let '(appSum, initMax) := fold_left init_step (V1Pod.InitContainers p) (appSum, Resources.empty) in
  let effective := maxResources appSum initMax in
  match V1Pod.Overhead p with
  | Some o => Resources.Add effective (convertResourceList o)
  | None => effective
  end.

Definition podReady (p : V1Pod.t) : bool := condition_true "Ready" (V1Pod.Conditions p).

Definition convertToleration (t : V1Toleration.t) : Toleration.t :=
  Toleration.mk (V1Toleration.Key t) (V1Toleration.Operator t) (V1Toleration.Value t) (V1Toleration.Effect t).

Definition convertSpread (c : V1SpreadConstraint.t) : TopologySpreadConstraint.t :=
  TopologySpreadConstraint.mk (V1SpreadConstraint.MaxSkew c) (V1SpreadConstraint.TopologyKey c)
    (V1SpreadConstraint.WhenUnsatisfiable c) (convertLabelSelector (V1SpreadConstraint.LabelSelector c))
    (V1SpreadConstraint.MinDomains c).

Definition DoNotDisruptAnnotation : string := "karpenter.sh/do-not-disrupt".
Definition SafeToEvictAnnotation : string := "cluster-autoscaler.kubernetes.io/safe-to-evict".

Definition hands_off (annotations : gmap string string) : bool :=
  (label annotations DoNotDisruptAnnotation =? "true")%string ||
  (label annotations SafeToEvictAnnotation =? "false")%string.

(** [owner] is what the resolver answers for the pod. *)
Definition convertPod (p : V1Pod.t) (owner : option OwnerRef.t) : Pod.t :=
  let m := V1Pod.Meta p in
  Pod.mk (ObjectMeta.Namespace m) (ObjectMeta.Name m) (V1Pod.NodeName p) (ObjectMeta.Labels m) (V1Pod.Phase p)
    (ObjectMeta.CreationTimestamp m) (effectiveRequests p) (V1Pod.NodeSelector p)
    (convertToleration <$> V1Pod.Tolerations p) (convertNodeAffinity (V1Pod.Affinity p))
    (convertPodAffinity (V1Pod.Affinity p)) (convertSpread <$> V1Pod.TopologySpreadConstraints p)
    (podReady p) owner (V1Pod.PriorityClassName p) (default 0 (V1Pod.Priority p))
    (bool_decide (is_Some (ObjectMeta.DeletionTimestamp m)))
    (existsb (λ v, bool_decide (is_Some (Volume.PersistentVolumeClaim v))) (V1Pod.Volumes p))
    (hands_off (ObjectMeta.Annotations m)) None.

Definition convertPDB (p : V1PDB.t) : PodDisruptionBudget.t :=
  PodDisruptionBudget.mk (ObjectMeta.Namespace (V1PDB.Meta p)) (ObjectMeta.Name (V1PDB.Meta p))
    (convertLabelSelector (V1PDB.Selector p)) (V1PDB.DisruptionsAllowed p) (V1PDB.CurrentHealthy p)
    (V1PDB.DesiredHealthy p) (V1PDB.ExpectedPods p).

(** ** Owners *)

Definition is_controller (r : OwnerReference.t) : bool := default false (OwnerReference.Controller r).

Definition controller_of (refs : list OwnerReference.t) : option OwnerReference.t := List.find is_controller refs.

Definition named (r : OwnerReference.t) : OwnerRef.t := OwnerRef.mk (OwnerReference.Kind r) (OwnerReference.Name r).

(** What a ReplicaSet that was read, or could not be, says of the pods it owns. *)
Definition through (r : OwnerReference.t) (rs : option V1ReplicaSet.t) : OwnerRef.t :=
  match rs with
  | None => named r
  | Some rs =>
      match controller_of (ObjectMeta.OwnerReferences (V1ReplicaSet.Meta rs)) with
      | Some up => named up
      | None => named r
      end
  end.

(** [Collector.ownerResolver]; [get] is the lookup of a ReplicaSet by namespace
and name, [None] where it fails. *)
Definition ownerResolver (get : string → string → option V1ReplicaSet.t) (p : V1Pod.t) : option OwnerRef.t :=
  r ← controller_of (ObjectMeta.OwnerReferences (V1Pod.Meta p));
  Some (if negb (OwnerReference.Kind r =? "ReplicaSet")%string then named r
        else through r (get (ObjectMeta.Namespace (V1Pod.Meta p)) (OwnerReference.Name r))).

End convert.

(** ** What the cache strips (applyTransform) *)

Section strip.
Context `{Quantities}.

Definition keep (k : string) (from to : gmap string string) : gmap string string :=
  match from !! k with Some v => <[k := v]> to | None => to end.

Definition kept_annotations (a : gmap string string) : gmap string string :=
  keep SafeToEvictAnnotation a (keep DoNotDisruptAnnotation a ∅).

Definition strip_pod (p : V1Pod.t) : V1Pod.t :=
  V1Pod.mk (ObjectMeta.strip (kept_annotations (ObjectMeta.Annotations (V1Pod.Meta p))) (V1Pod.Meta p))
    (V1Pod.NodeName p) (V1Pod.NodeSelector p) (V1Pod.Containers p) (V1Pod.InitContainers p) (V1Pod.Overhead p)
    (V1Pod.Priority p) (V1Pod.PriorityClassName p) (V1Pod.Tolerations p) (V1Pod.Volumes p) (V1Pod.Affinity p)
    (V1Pod.TopologySpreadConstraints p) (V1Pod.Phase p) (V1Pod.Conditions p) [] [] [].

Definition strip_node (n : V1Node.t) : V1Node.t :=
  V1Node.mk (ObjectMeta.strip (ObjectMeta.Annotations (V1Node.Meta n)) (V1Node.Meta n)) (V1Node.Unschedulable n)
    (V1Node.Taints n) (V1Node.Capacity n) (V1Node.Allocatable n) (V1Node.Conditions n) [].

Definition strip_replicaset (r : V1ReplicaSet.t) : V1ReplicaSet.t :=
  V1ReplicaSet.mk (ObjectMeta.strip ∅ (V1ReplicaSet.Meta r)) [].

End strip.

(** ** Usage (metrics/metricsserver.go) *)

Module Metrics.
Section metrics.
Context `{Quantities}.

(** What the metrics API answers, or an error: to the probe, about nodes and
about pods.  The source that collects nothing fails every probe. *)
Record t : Type := mk {
  probe : option string;
  nodes : string + list NodeMetrics.t;
  pods : string + list PodMetrics.t;
}.

Definition Noop : t := mk (Some "no usage source") (inr []) (inr []).

Definition Available (m : t) : bool := bool_decide (probe m = None).

(** [Cpu().MilliValue()] and [Memory().Value()]: zero when it is not listed. *)
Definition measured (u : ResourceList) : Resources.t :=
  Resources.mk (match u !! "cpu" with Some q => MilliValue q | None => 0 end)
    (match u !! "memory" with Some q => Value q | None => 0 end) 0.

Definition NodeUsage (m : t) : string + gmap string Resources.t :=
  match nodes m with
  | inl err => inl ("list node metrics: " +:+ err)
  | inr l => inr (fold_left (λ out i, <[NodeMetrics.Name i := measured (NodeMetrics.Usage i)]> out) l ∅)
  end.

Definition add_container (r : Resources.t) (u : ResourceList) : Resources.t :=
  Resources.mk (int64_add (Resources.MilliCPU r) (Resources.MilliCPU (measured u)))
    (int64_add (Resources.MemoryBytes r) (Resources.MemoryBytes (measured u))) (Resources.Pods r).

Definition pod_metrics_key (i : PodMetrics.t) : string := PodMetrics.Namespace i +:+ "/" +:+ PodMetrics.Name i.

Definition PodUsage (m : t) : string + gmap string Resources.t :=
  match pods m with
  | inl err => inl ("list pod metrics: " +:+ err)
  | inr l => inr (fold_left (λ out i,
      <[pod_metrics_key i := fold_left add_container (PodMetrics.Containers i) Resources.empty]> out) l ∅)
  end.

End metrics.
End Metrics.

(** ** The collector *)

Module Collector.
Section collector.
Context `{Quantities}.

(** The informer cache: its lists, or the error of listing them, and its
ReplicaSets by namespace and name. *)
Record t : Type := mk {
  nodes : string + list V1Node.t;
  pods : string + list V1Pod.t;
  pdbs : string + list V1PDB.t;
  replicasets : string → string → option V1ReplicaSet.t;
}.

Definition on_list {A} (f : A → A) (l : string + list A) : string + list A :=
  match l with inl err => inl err | inr l => inr (f <$> l) end.

(** The cache after the transforms. *)
Definition transformed (c : t) : t :=
  mk (on_list strip_node (nodes c)) (on_list strip_pod (pods c)) (pdbs c)
    (λ ns name, strip_replicaset <$> replicasets c ns name).

(** Pods that have ended hold nothing. *)
Definition running (p : V1Pod.t) : bool :=
  negb ((V1Pod.Phase p =? PodSucceeded)%string || (V1Pod.Phase p =? PodFailed)%string).

Definition node_with (u : option Resources.t) (n : Node.t) : Node.t :=
  match u with
  | None => n
  | Some _ => Node.mk (Node.Name n) (Node.Labels n) (Node.Annotations n) (Node.Taints n) (Node.Capacity n)
                (Node.Allocatable n) (Node.Unschedulable n) (Node.Ready n) (Node.CreatedAt n) u
  end.

Definition pod_with (u : option Resources.t) (p : Pod.t) : Pod.t :=
  match u with
  | None => p
  | Some _ => Pod.mk (Pod.Namespace p) (Pod.Name p) (Pod.NodeName p) (Pod.Labels p) (Pod.Phase p)
                (Pod.CreatedAt p) (Pod.Requests p) (Pod.NodeSelector p) (Pod.Tolerations p) (Pod.NodeAffinity p)
                (Pod.PodAffinity p) (Pod.TopologySpread p) (Pod.Ready p) (Pod.Owner p) (Pod.PriorityClass p)
                (Pod.Priority p) (Pod.Terminating p) (Pod.HasPersistentVol p) (Pod.DoNotDisrupt p) u
  end.

(** A failure leaves the snapshot without usage: it is logged, and no error. *)
Definition attachUsage (m : Metrics.t) (s : ClusterSnapshot.t) : ClusterSnapshot.t :=
  if negb (Metrics.Available m) then s
  else match Metrics.NodeUsage m with
  | inl _ => s
  | inr nodeUsage =>
      match Metrics.PodUsage m with
      | inl _ => s
      | inr podUsage =>
          ClusterSnapshot.mk (ClusterSnapshot.TakenAt s)
            ((λ n, node_with (nodeUsage !! Node.Name n) n) <$> ClusterSnapshot.Nodes s)
            ((λ p, pod_with (podUsage !! Pod.Key p) p) <$> ClusterSnapshot.Pods s)
            (ClusterSnapshot.PDBs s) true
      end
  end.

Definition converted (now : time) (ns : list V1Node.t) (ps : list V1Pod.t) (bs : list V1PDB.t)
    (owner : V1Pod.t → option OwnerRef.t) : ClusterSnapshot.t :=
  ClusterSnapshot.mk now (convertNode <$> ns) ((λ p, convertPod p (owner p)) <$> List.filter running ps)
    (convertPDB <$> bs) false.

Definition Snapshot (now : time) (m : Metrics.t) (c : t) : string + ClusterSnapshot.t :=
  match nodes c, pods c, pdbs c with
  | inl err, _, _ => inl ("list nodes: " +:+ err)
  | _, inl err, _ => inl ("list pods: " +:+ err)
  | _, _, inl err => inl ("list poddisruptionbudgets: " +:+ err)
  | inr ns, inr ps, inr bs => inr (attachUsage m (converted now ns ps bs (ownerResolver (replicasets c))))
  end.

End collector.
End Collector.

(** ** The direct reader *)

Module Direct.
Section direct.
Context `{Quantities}.

(** A list of the API server, page by page; [inl] is the error of the call for
the page after those. *)
Abbreviation paged A := (list (list A) * option string)%type.

Record t : Type := mk {
  nodes : paged V1Node.t;
  pods : paged V1Pod.t;
  pdbs : paged V1PDB.t;
  replicasets : string → string → option V1ReplicaSet.t;
  podByName : string → string → string + option V1Pod.t;
}.

(** [eachNodePage] and the like: every page is handed on as it comes, so an error
leaves those before it read; the snapshot is then given up. *)
Definition each_page {A} (l : paged A) : string + list A :=
  match l.2 with Some err => inl err | None => inr (concat l.1) end.

Definition owner_key (p : V1Pod.t) (r : OwnerReference.t) : string :=
  ObjectMeta.Namespace (V1Pod.Meta p) +:+ "/" +:+ OwnerReference.Name r.

(** The answer to a list call: the items of a page and the token for the next; both
empty tokens stand for an end, that of the list and that of the listing. *)
Abbreviation lister A := (string → string + (list A * string))%type.

(** The loop of [eachNodePage], [eachPodPage] and [eachPDBPage]: what is handed on, page
by page; [None] when the server has not come to an end in [fuel] calls. *)
Fixpoint pages {A} (fuel : nat) (List : lister A) (Continue : string) : option (paged A) :=
  match fuel with
  | O => None
  | S fuel =>
      match List Continue with
      | inl err => Some ([], Some err)
      | inr (items, next) =>
          if (next =? "")%string then Some ([items], None)
          else
            match pages fuel List next with
            | None => None
            | Some (rest, err) => Some (items :: rest, err)
            end
      end
  end.

Record server : Type := {
  list_nodes : lister V1Node.t;
  list_pods : lister V1Pod.t;
  list_pdbs : lister V1PDB.t;
  get_replicaset : string → string → option V1ReplicaSet.t;
  get_pod : string → string → string + option V1Pod.t;
}.

(** What a snapshot reads; the calls after a failed one are not made, nor looked at. *)
Definition read (fuel : nat) (s : server) : option t :=
  match pages fuel (list_nodes s) "", pages fuel (list_pods s) "", pages fuel (list_pdbs s) "" with
  | Some ns, Some ps, Some bs => Some (mk ns ps bs (get_replicaset s) (get_pod s))
  | _, _, _ => None
  end.

(** [Direct.ownerResolver], with the owners [seen] so far. *)
Definition ownerResolver (get : string → string → option V1ReplicaSet.t) (p : V1Pod.t)
    (seen : gmap string OwnerRef.t) : option OwnerRef.t * gmap string OwnerRef.t :=
  match controller_of (ObjectMeta.OwnerReferences (V1Pod.Meta p)) with
  | None => (None, seen)
  | Some r =>
      if negb (OwnerReference.Kind r =? "ReplicaSet")%string then (Some (named r), seen)
      else
        let key := owner_key p r in
        match seen !! key with
        | Some cached => (Some cached, seen)
        | None =>
            let owner := through r (get (ObjectMeta.Namespace (V1Pod.Meta p)) (OwnerReference.Name r)) in
            (Some owner, <[key := owner]> seen)
        end
  end.

(** One pod of the callback of [eachPodPage]. *)
Definition read_pod (get : string → string → option V1ReplicaSet.t)
    (acc : list Pod.t * gmap string OwnerRef.t) (p : V1Pod.t) : list Pod.t * gmap string OwnerRef.t :=
  let '(out, seen) := acc in
  if negb (Collector.running p) then (out, seen)
  else let '(owner, seen) := ownerResolver get p seen in (out ++ [convertPod p owner], seen).

Definition Snapshot (now : time) (d : t) : string + ClusterSnapshot.t :=
  match each_page (nodes d), each_page (pods d), each_page (pdbs d) with
  | inl err, _, _ => inl ("list nodes: " +:+ err)
  | _, inl err, _ => inl ("list pods: " +:+ err)
  | _, _, inl err => inl ("list poddisruptionbudgets: " +:+ err)
  | inr ns, inr ps, inr bs =>
      inr (ClusterSnapshot.mk now (convertNode <$> ns) (fold_left (read_pod (replicasets d)) ps ([], ∅)).1
             (convertPDB <$> bs) false)
  end.

(** The pod is there and is not going; [None] is the not-found answer. *)
Definition PodPresent (d : t) (namespace name : string) : string + bool :=
  match podByName d namespace name with
  | inl err => inl ("get pod " +:+ namespace +:+ "/" +:+ name +:+ ": " +:+ err)
  | inr None => inr false
  | inr (Some p) => inr (bool_decide (ObjectMeta.DeletionTimestamp (V1Pod.Meta p) = None))
  end.

End direct.
End Direct.

(** ** The executor's adapter (internal/executor/k8s.go)

[Patch] answers a merge patch of the one field [spec.unschedulable] of a node. *)

Module K8sCluster.
Section adapter.
Context `{Quantities}.

Record t : Type := mk { reader : Direct.t; Patch : string → bool → option string }.

Definition Snapshot (now : time) (k : t) : string + ClusterSnapshot.t := Direct.Snapshot now (reader k).

Definition PodPresent (k : t) (namespace name : string) : string + bool := Direct.PodPresent (reader k) namespace name.

Definition setUnschedulable (k : t) (node : string) (value : bool) : option string :=
  match Patch k node value with
  | Some err => Some ("patch node " +:+ node +:+ ": " +:+ err)
  | None => None
  end.

Definition Cordon (k : t) (node : string) : option string := setUnschedulable k node true.
Definition Uncordon (k : t) (node : string) : option string := setUnschedulable k node false.

End adapter.
End K8sCluster.
