(* ===== verification/CollectProps.v ===== *)
(** * What the readers of the cluster guarantee

The planner reads through a stripped informer cache and the executor reads the
API server: they see one cluster.  And the footprint of a pod, against the rule
the scheduler documents. *)
From S2P Require Import Prelude GoLib Model Cluster IndexFacts CapacityFacts Kube Collect.

#[local] Arguments String.append : simpl nomatch.

(** ** What is stripped is never read *)

Section readers.
Context `{Quantities}.

Lemma keep_hit k from to : keep k from to !! k = from !! k ∨ (from !! k = None ∧ keep k from to = to).
Proof. unfold keep. destruct (from !! k); [left; by rewrite lookup_insert_eq|by right]. Qed.

Lemma hands_off_kept a : hands_off (kept_annotations a) = hands_off a.
Proof.
  assert (H1 : kept_annotations a !! SafeToEvictAnnotation = a !! SafeToEvictAnnotation).
  { unfold kept_annotations. destruct (keep_hit SafeToEvictAnnotation a (keep DoNotDisruptAnnotation a ∅))
      as [->|[-> ->]]; [done|]. unfold keep. by destruct (a !! DoNotDisruptAnnotation). }
  assert (H2 : kept_annotations a !! DoNotDisruptAnnotation = a !! DoNotDisruptAnnotation).
  { unfold kept_annotations, keep at 1. destruct (a !! SafeToEvictAnnotation);
      rewrite ?lookup_insert_ne by done; unfold keep;
      destruct (a !! DoNotDisruptAnnotation); by rewrite ?lookup_insert_eq. }
  unfold hands_off, label. by rewrite H1, H2.
Qed.

Lemma convert_stripped p o : convertPod (strip_pod p) o = convertPod p o.
Proof. unfold convertPod. simpl. by rewrite hands_off_kept. Qed.

Lemma owner_stripped get p :
  ownerResolver (λ ns name, strip_replicaset <$> get ns name) (strip_pod p) = ownerResolver get p.
Proof.
  unfold ownerResolver. simpl. destruct (controller_of _) as [r|]; [|done]. simpl.
  destruct (negb _); [done|]. by destruct (get _ _).
Qed.

Lemma converted_stripped now ns ps bs get :
  Collector.converted now (strip_node <$> ns) (strip_pod <$> ps) bs
    (ownerResolver (λ n name, strip_replicaset <$> get n name)) =
  Collector.converted now ns ps bs (ownerResolver get).
Proof.
  unfold Collector.converted. f_equal; [by rewrite <- list_fmap_compose|].
  induction ps as [|p ps IH]; [done|]. rewrite fmap_cons. cbn [List.filter].
  change (Collector.running (strip_pod p)) with (Collector.running p).
  destruct (Collector.running p); [|done]. rewrite !fmap_cons, IH. f_equal.
  by rewrite owner_stripped, convert_stripped.
Qed.

Lemma stripped_snapshot now m c :
  Collector.Snapshot now m (Collector.transformed c) = Collector.Snapshot now m c.
Proof.
  unfold Collector.Snapshot, Collector.transformed, Collector.on_list. simpl.
  destruct (Collector.nodes c), (Collector.pods c), (Collector.pdbs c); try done.
  by rewrite converted_stripped.
Qed.

(** Whatever the informer cache drops on the way in, managed fields,
annotations, statuses, images and templates, the snapshot is the one the full
objects give. *)
Theorem stripping_changes_nothing now m c :
  Collector.Snapshot now m (Collector.transformed c) = Collector.Snapshot now m c.
Proof. apply stripped_snapshot. Qed.

(** ** Cordons

A merge patch leaves every field but the one it names, and every node but its own. *)
Definition patched_node (name : string) (value : bool) (n : V1Node.t) : V1Node.t :=
  if (ObjectMeta.Name (V1Node.Meta n) =? name)%string
  then V1Node.mk (V1Node.Meta n) value (V1Node.Taints n) (V1Node.Capacity n) (V1Node.Allocatable n)
         (V1Node.Conditions n) (V1Node.Images n)
  else n.

Definition patched (name : string) (value : bool) (d : Direct.t) : Direct.t :=
  let ps : list (list V1Node.t) := (λ page : list V1Node.t, patched_node name value <$> page) <$> (Direct.nodes d).1 in
  Direct.mk (ps, (Direct.nodes d).2)
    (Direct.pods d) (Direct.pdbs d) (Direct.replicasets d) (Direct.podByName d).

(** The cluster once the adapter has cordoned a node, or not. *)
Definition after_cordon (k : K8sCluster.t) (name : string) : Direct.t :=
  match K8sCluster.Cordon k name with
  | Some _ => K8sCluster.reader k
  | None => patched name true (K8sCluster.reader k)
  end.

Definition with_schedulable (name : string) (value : bool) (n : Node.t) : Node.t :=
  if (Node.Name n =? name)%string
  then Node.mk (Node.Name n) (Node.Labels n) (Node.Annotations n) (Node.Taints n) (Node.Capacity n)
         (Node.Allocatable n) value (Node.Ready n) (Node.CreatedAt n) (Node.Usage n)
  else n.

Lemma convert_patched name value n :
  convertNode (patched_node name value n) = with_schedulable name value (convertNode n).
Proof. unfold patched_node, with_schedulable. cbn [Node.Name convertNode]. by destruct (_ =? name)%string. Qed.

Lemma snapshot_patched now name value d :
  Direct.Snapshot now (patched name value d) =
  match Direct.Snapshot now d with
  | inl err => inl err
  | inr s => inr (ClusterSnapshot.mk (ClusterSnapshot.TakenAt s) (with_schedulable name value <$> ClusterSnapshot.Nodes s)
                    (ClusterSnapshot.Pods s) (ClusterSnapshot.PDBs s) (ClusterSnapshot.HasUsageData s))
  end.
Proof.
  unfold Direct.Snapshot, Direct.each_page. cbn. destruct (Direct.nodes d).2; [done|].
  destruct (Direct.pods d).2; [done|]. destruct (Direct.pdbs d).2; [done|]. cbn. f_equal. f_equal.
  rewrite <-list_fmap_compose. induction (Direct.nodes d).1 as [|page pages IH]; [done|].
  cbn. rewrite !fmap_app, IH. f_equal. rewrite <-list_fmap_compose. apply list_fmap_ext. intros i n _. apply convert_patched.
Qed.

(** What the guard reads after a cordon is the cluster it read before, with that node
unschedulable and nothing else changed; after a refused one it is the very same. *)
Theorem cordon_is_read now k name :
  Direct.Snapshot now (after_cordon k name) =
  match K8sCluster.Cordon k name, K8sCluster.Snapshot now k with
  | None, inr s => inr (ClusterSnapshot.mk (ClusterSnapshot.TakenAt s) (with_schedulable name true <$> ClusterSnapshot.Nodes s)
                          (ClusterSnapshot.Pods s) (ClusterSnapshot.PDBs s) (ClusterSnapshot.HasUsageData s))
  | _, r => r
  end.
Proof.
  unfold after_cordon, K8sCluster.Snapshot. destruct (K8sCluster.Cordon k name); [done|]. apply snapshot_patched.
Qed.

(** An uncordon undoes the cordon of a node that was schedulable. *)
Theorem uncordon_restores name d :
  (∀ page n, page ∈ (Direct.nodes d).1 → n ∈ page → ObjectMeta.Name (V1Node.Meta n) = name → V1Node.Unschedulable n = false) →
  patched name false (patched name true d) = d.
Proof.
  intros Hs. destruct d as [[ps err] pods pdbs rs pod]. unfold patched. cbn in *. f_equal. f_equal.
  rewrite <-list_fmap_compose. rewrite <-(list_fmap_id ps) at 2. apply list_fmap_ext. intros i page Hi%list_elem_of_lookup_2.
  cbn. rewrite <-list_fmap_compose. rewrite <-(list_fmap_id page) at 2. apply list_fmap_ext. intros j n Hn%list_elem_of_lookup_2.
  cbn. unfold patched_node. destruct (String.eqb_spec (ObjectMeta.Name (V1Node.Meta n)) name) as [He|He]; cbn.
  - rewrite (proj2 (String.eqb_eq _ _) He). specialize (Hs page n Hi Hn He). destruct n. cbn in *. by rewrite Hs.
  - by rewrite (proj2 (String.eqb_neq _ _) He).
Qed.

(** ** Page by page *)

(** The pages that a server gives from a token on. *)
Inductive serves {A} (List : string → string + (list A * string)) : string → list (list A) → Prop :=
| serves_last tok items : List tok = inr (items, "") → serves List tok [items]
| serves_more tok items next rest :
    List tok = inr (items, next) → next ≠ "" → serves List next rest → serves List tok (items :: rest).

Lemma pages_serves {A} fuel (List : string → string + (list A * string)) tok ps :
  Direct.pages fuel List tok = Some (ps, None) ↔ serves List tok ps ∧ (length ps <= fuel)%nat.
Proof.
  split.
  - revert tok ps. induction fuel as [|fuel IH]; intros tok ps; [done|]. cbn [Direct.pages].
    destruct (List tok) as [err|[items next]] eqn:E; [done|]. destruct (String.eqb_spec next "") as [->|Hn].
    + intros [= <-]. split; [by constructor|cbn; lia].
    + destruct (Direct.pages fuel List next) as [[rest [e|]]|] eqn:Ep; try done. intros [= <-].
      destruct (IH _ _ Ep) as [Hs Hl]. split; [by econstructor|cbn; lia].
  - intros [Hs Hl]. revert fuel Hl. induction Hs as [tok items He|tok items next rest He Hn Hs IH];
      intros [|fuel] Hl; cbn in Hl; try lia; cbn [Direct.pages]; rewrite He; [done|].
    destruct (String.eqb_spec next ""); [done|]. by rewrite IH by lia.
Qed.

(** Whatever the number of calls allowed, a listing that has ended is not changed by
allowing more. *)
Lemma pages_more {A} fuel fuel' (List : string → string + (list A * string)) tok r :
  (fuel <= fuel')%nat → Direct.pages fuel List tok = Some r → Direct.pages fuel' List tok = Some r.
Proof.
  revert fuel' tok r. induction fuel as [|fuel IH]; intros [|fuel'] tok r Hf; try done; [lia|]. cbn [Direct.pages].
  destruct (List tok) as [err|[items next]]; [done|]. destruct (next =? "")%string; [done|].
  destruct (Direct.pages fuel List next) as [q|] eqn:E; [|done]. by rewrite (IH fuel' next q ltac:(lia) E).
Qed.

(** A snapshot through a server that gives its lists in pages is that of the whole
lists, in as many calls as there are pages. *)
Theorem pages_are_the_list now (s : Direct.server) fuel ns ps bs :
  serves (Direct.list_nodes s) "" ns → serves (Direct.list_pods s) "" ps → serves (Direct.list_pdbs s) "" bs →
  (length ns <= fuel)%nat → (length ps <= fuel)%nat → (length bs <= fuel)%nat →
  Direct.Snapshot now <$> Direct.read fuel s =
  Some (Direct.Snapshot now (Direct.mk ([concat ns], None) ([concat ps], None) ([concat bs], None)
                               (Direct.get_replicaset s) (Direct.get_pod s))).
Proof.
  intros Hn Hp Hb Ln Lp Lb. unfold Direct.read.
  rewrite (proj2 (pages_serves fuel _ "" ns)), (proj2 (pages_serves fuel _ "" ps)), (proj2 (pages_serves fuel _ "" bs)) by done.
  cbn. unfold Direct.Snapshot, Direct.each_page. cbn. by rewrite !app_nil_r.
Qed.

(** A call that fails, for whichever page, fails the snapshot: no node is taken to be
gone because a page was not read. *)
Theorem lost_page_no_snapshot now (d : Direct.t) :
  (Direct.nodes d).2 ≠ None ∨ (Direct.pods d).2 ≠ None ∨ (Direct.pdbs d).2 ≠ None →
  ∃ err, Direct.Snapshot now d = inl err.
Proof.
  intros He. unfold Direct.Snapshot, Direct.each_page.
  destruct (Direct.nodes d).2; [by eexists|]. destruct (Direct.pods d).2; [by eexists|].
  destruct (Direct.pdbs d).2; [by eexists|]. naive_solver.
Qed.

(** ** The two readers *)

(** The owners the direct reader has seen are those a lookup would give. *)
Definition faithful (get : string → string → option V1ReplicaSet.t) (seen : gmap string OwnerRef.t) : Prop :=
  ∀ p r, avoids "/" (ObjectMeta.Namespace (V1Pod.Meta p)) = true → OwnerReference.Kind r = "ReplicaSet" →
    ∀ o, seen !! Direct.owner_key p r = Some o →
    o = through r (get (ObjectMeta.Namespace (V1Pod.Meta p)) (OwnerReference.Name r)).

Lemma owner_key_inj p q r s :
  avoids "/" (ObjectMeta.Namespace (V1Pod.Meta p)) = true → avoids "/" (ObjectMeta.Namespace (V1Pod.Meta q)) = true →
  Direct.owner_key p r = Direct.owner_key q s →
  ObjectMeta.Namespace (V1Pod.Meta p) = ObjectMeta.Namespace (V1Pod.Meta q) ∧
  OwnerReference.Name r = OwnerReference.Name s.
Proof. intros Hp Hq E. by apply (split_at "/"%char) in E. Qed.

Lemma through_same r s rs :
  OwnerReference.Kind r = OwnerReference.Kind s → OwnerReference.Name r = OwnerReference.Name s →
  through r rs = through s rs.
Proof. intros Hk Hn. unfold through, named. by rewrite Hk, Hn. Qed.

Lemma resolver_faithful get p seen :
  avoids "/" (ObjectMeta.Namespace (V1Pod.Meta p)) = true → faithful get seen →
  (Direct.ownerResolver get p seen).1 = ownerResolver get p ∧ faithful get (Direct.ownerResolver get p seen).2.
Proof.
  intros Hp Hf. unfold Direct.ownerResolver, ownerResolver.
  destruct (controller_of _) as [r|]; [|done]. simpl.
  destruct (String.eqb_spec (OwnerReference.Kind r) "ReplicaSet") as [Hk|Hk]; [|done]. simpl.
  destruct (seen !! Direct.owner_key p r) as [o|] eqn:E; simpl.
  { split; [|done]. f_equal. by apply Hf. }
  split; [done|]. intros q s Hq Hs o.
  destruct (decide (Direct.owner_key p r = Direct.owner_key q s)) as [Ek|Ek].
  - rewrite Ek, lookup_insert_eq. intros [= <-].
    destruct (owner_key_inj p q r s Hp Hq Ek) as [-> En]. rewrite En. apply through_same; congruence.
  - rewrite lookup_insert_ne by done. by apply Hf.
Qed.

Lemma read_pods_faithful get ps out seen :
  (∀ p, p ∈ ps → avoids "/" (ObjectMeta.Namespace (V1Pod.Meta p)) = true) → faithful get seen →
  (fold_left (Direct.read_pod get) ps (out, seen)).1 =
  out ++ ((λ p, convertPod p (ownerResolver get p)) <$> List.filter Collector.running ps).
Proof.
  revert out seen. induction ps as [|p ps IH]; intros out seen Hn Hf; [by rewrite app_nil_r|].
  assert (Hp : avoids "/" (ObjectMeta.Namespace (V1Pod.Meta p)) = true) by (apply Hn; left).
  assert (Hps : ∀ q, q ∈ ps → avoids "/" (ObjectMeta.Namespace (V1Pod.Meta q)) = true)
    by (intros q Hq; apply Hn; by right).
  cbn [fold_left List.filter]. unfold Direct.read_pod at 2.
  destruct (Collector.running p); simpl; [|by apply IH].
  destruct (resolver_faithful get p seen Hp Hf) as [E1 E2].
  destruct (Direct.ownerResolver get p seen) as [o seen']. simpl in *. subst o.
  rewrite IH by done. by rewrite <- app_assoc.
Qed.

(** The API server and the cache hold the same objects. *)
Record same_cluster (d : Direct.t) (c : Collector.t) : Prop := {
  same_nodes : Direct.each_page (Direct.nodes d) = Collector.nodes c;
  same_pods : Direct.each_page (Direct.pods d) = Collector.pods c;
  same_pdbs : Direct.each_page (Direct.pdbs d) = Collector.pdbs c;
  same_replicasets : ∀ ns name, Direct.replicasets d ns name = Collector.replicasets c ns name;
}.

(** C29: the planner and the executor see one cluster: where the API server and the
cache hold the same objects, whatever the pages they come in and whatever the
cache strips, the snapshot the executor reads is the planner's without usage,
and an error of the one is the same error of the other. *)
Theorem readers_agree now m d c :
  same_cluster d c →
  (∀ p, p ∈ concat (Direct.pods d).1 → avoids "/" (ObjectMeta.Namespace (V1Pod.Meta p)) = true) →
  Collector.Snapshot now m (Collector.transformed c) =
  match Direct.Snapshot now d with inl err => inl err | inr s => inr (Collector.attachUsage m s) end.
Proof.
  intros [Hn Hp Hb Hr] Hs. rewrite stripped_snapshot.
  unfold Collector.Snapshot, Direct.Snapshot. rewrite <- Hn, <- Hp, <- Hb.
  destruct (Direct.each_page (Direct.nodes d)); [done|].
  unfold Direct.each_page in *. destruct (Direct.pods d) as [pages [err|]]; [done|]. simpl in *.
  destruct (match (Direct.pdbs d).2 with Some _ => _ | None => _ end); [done|]. do 2 f_equal.
  unfold Collector.converted. f_equal. rewrite read_pods_faithful; [|done|].
  - apply list_fmap_ext. intros i p _. f_equal. unfold ownerResolver.
    destruct (controller_of _); [|done]. simpl. by rewrite Hr.
  - intros p r _ _ o. by rewrite lookup_empty.
Qed.

(** ** The footprint of a pod *)

Definition total_of (f : Resources.t → Z) (cs : list Container.t) : Z := foldr (λ c n, f (requests_of c) + n) 0 cs.

Definition sidecars (p : V1Pod.t) : list Container.t := List.filter is_sidecar (V1Pod.InitContainers p).

Definition overhead_of (p : V1Pod.t) : Resources.t :=
  match V1Pod.Overhead p with Some o => convertResourceList o | None => Resources.empty end.

(** The documented rule of the scheduler: init containers start in order, and a
plain one runs beside the sidecars started before it. *)
Fixpoint init_peak (f : Resources.t → Z) (cs : list Container.t) (beside : Z) : Z :=
  match cs with
  | [] => 0
  | c :: cs =>
      if is_sidecar c then init_peak f cs (beside + f (requests_of c))
      else Z.max (beside + f (requests_of c)) (init_peak f cs beside)
  end.

Definition scheduler_request (f : Resources.t → Z) (p : V1Pod.t) : Z :=
  Z.max (total_of f (V1Pod.Containers p) + total_of f (sidecars p)) (init_peak f (V1Pod.InitContainers p) 0) +
  f (overhead_of p).

(** No plain init container starts after a sidecar. *)
Fixpoint plain_first (cs : list Container.t) : bool :=
  match cs with
  | [] => true
  | c :: cs => if is_sidecar c then forallb is_sidecar cs else plain_first cs
  end.

(** What a pod asks for, summed over everything, is far from the bounds. *)
Definition modest (p : V1Pod.t) : Prop :=
  ∀ f, f ∈ dims →
    Forall (λ c, 0 <= f (requests_of c)) (V1Pod.Containers p ++ V1Pod.InitContainers p) ∧
    0 <= f (overhead_of p) ∧
    total_of f (V1Pod.Containers p ++ V1Pod.InitContainers p) + f (overhead_of p) < 2 ^ 62.

Lemma dim_max f a b : f ∈ dims → f (maxResources a b) = Z.max (f a) (f b).
Proof.
  intros Hf. each_dim Hf; unfold maxResources; simpl;
    match goal with |- context [?a <? ?b] => destruct (Z.ltb_spec a b) end; lia.
Qed.

Lemma dim_empty f : f ∈ dims → f Resources.empty = 0.
Proof. intros Hf. by each_dim Hf. Qed.

Lemma total_of_app f a b : total_of f (a ++ b) = total_of f a + total_of f b.
Proof. induction a; simpl; lia. Qed.

Lemma total_of_pos f cs : Forall (λ c, 0 <= f (requests_of c)) cs → 0 <= total_of f cs.
Proof. induction 1; simpl; lia. Qed.

Lemma app_sum f cs s :
  f ∈ dims → Forall (λ c, 0 <= f (requests_of c)) cs → 0 <= f s → f s + total_of f cs < 2 ^ 62 →
  f (fold_left (λ s c, Resources.Add s (requests_of c)) cs s) = f s + total_of f cs.
Proof.
  intros Hf Hc. revert s. induction Hc as [|c cs Hz Hc IH]; intros s Hs Hb; simpl in *; [lia|].
  pose proof (total_of_pos f cs Hc). rewrite IH; rewrite ?dim_add by (done || lia); lia.
Qed.

Lemma init_sum f cs s m :
  f ∈ dims → Forall (λ c, 0 <= f (requests_of c)) cs → 0 <= f s → f s + total_of f cs < 2 ^ 62 →
  let '(s', m') := fold_left init_step cs (s, m) in
  f s' = f s + total_of f (List.filter is_sidecar cs) ∧
  f m' = foldr (λ c n, Z.max (f (requests_of c)) n) (f m) (List.filter (λ c, negb (is_sidecar c)) cs).
Proof.
  intros Hf Hc. revert s m. induction Hc as [|c cs Hz Hc IH]; intros s m Hs Hb; simpl in *; [split; [lia|done]|].
  pose proof (total_of_pos f cs Hc). destruct (is_sidecar c); simpl.
  - specialize (IH (Resources.Add s (requests_of c)) m). rewrite dim_add in IH by (done || lia).
    specialize (IH ltac:(lia) ltac:(lia)). destruct (fold_left init_step cs _) as [s' m']. split; [lia|tauto].
  - specialize (IH s (maxResources m (requests_of c)) Hs ltac:(lia)).
    destruct (fold_left init_step cs _) as [s' m']. destruct IH as [I1 I2]. split; [done|].
    rewrite I2, dim_max by done. clear.
    induction (List.filter (λ c, negb (is_sidecar c)) cs) as [|x xs IH]; simpl; lia.
Qed.

(** The greatest plain init container. *)
Definition greatest_init (f : Resources.t → Z) (p : V1Pod.t) : Z :=
  foldr (λ c n, Z.max (f (requests_of c)) n) 0 (List.filter (λ c, negb (is_sidecar c)) (V1Pod.InitContainers p)).

Lemma effective_closed f p :
  f ∈ dims → modest p →
  f (effectiveRequests p) =
  Z.max (total_of f (V1Pod.Containers p) + total_of f (sidecars p)) (greatest_init f p) + f (overhead_of p).
Proof.
  intros Hf Hm. destruct (Hm f Hf) as ([Hc Hi]%Forall_app & Ho & Hb). rewrite total_of_app in Hb.
  pose proof (total_of_pos f _ Hc). pose proof (total_of_pos f _ Hi).
  assert (Hg : ∀ cs, Forall (λ c, 0 <= f (requests_of c)) cs →
    0 <= foldr (λ c n, Z.max (f (requests_of c)) n) 0 (List.filter (λ c, negb (is_sidecar c)) cs) <= total_of f cs ∧
    0 <= total_of f (List.filter is_sidecar cs) <= total_of f cs).
  { induction 1 as [|c cs Hz Hcs IH]; simpl; [lia|]. destruct (is_sidecar c); simpl; lia. }
  destruct (Hg _ Hi) as [G1 G2]. unfold effectiveRequests, greatest_init, sidecars.
  set (a := fold_left _ (V1Pod.Containers p) _).
  assert (Ha : f a = total_of f (V1Pod.Containers p)).
  { subst a. rewrite app_sum; rewrite ?dim_empty; (done || lia). }
  pose proof (init_sum f (V1Pod.InitContainers p) a Resources.empty Hf Hi ltac:(lia) ltac:(lia)) as Hs.
  rewrite dim_empty in Hs by done.
  destruct (fold_left init_step _ _) as [s' m']. destruct Hs as [Hs Hm'].
  assert (E : f (maxResources s' m') = Z.max (total_of f (V1Pod.Containers p) +
    total_of f (List.filter is_sidecar (V1Pod.InitContainers p)))
    (foldr (λ c n, Z.max (f (requests_of c)) n) 0
       (List.filter (λ c, negb (is_sidecar c)) (V1Pod.InitContainers p)))).
  { rewrite dim_max by done. lia. }
  unfold overhead_of in *. destruct (V1Pod.Overhead p) as [o|].
  - rewrite dim_add by (done || lia). lia.
  - rewrite dim_empty in * by done. lia.
Qed.

Lemma init_peak_above f cs beside :
  Forall (λ c, 0 <= f (requests_of c)) cs → 0 <= beside →
  foldr (λ c n, Z.max (f (requests_of c)) n) 0 (List.filter (λ c, negb (is_sidecar c)) cs) <= init_peak f cs beside.
Proof.
  intros Hc. revert beside. induction Hc as [|c cs Hz Hc IH]; intros b Hb; simpl; [lia|].
  destruct (is_sidecar c); simpl; [apply IH; lia|]. specialize (IH b Hb). lia.
Qed.

Lemma init_peak_sidecars f cs beside : forallb is_sidecar cs = true → init_peak f cs beside = 0.
Proof.
  revert beside. induction cs as [|c cs IH]; intros b; simpl; [done|].
  intros [-> Hc]%andb_true_iff. by apply IH.
Qed.

Lemma init_peak_plain f cs :
  plain_first cs = true →
  init_peak f cs 0 =
  foldr (λ c n, Z.max (f (requests_of c)) n) 0 (List.filter (λ c, negb (is_sidecar c)) cs).
Proof.
  induction cs as [|c cs IH]; simpl; [done|]. destruct (is_sidecar c); simpl.
  - intros Hs. rewrite init_peak_sidecars by done.
    rewrite filter_none; [done|]. rewrite forallb_elem in Hs. intros x Hx. by rewrite Hs.
  - intros Hp. rewrite IH by done. lia.
Qed.

(** What a pod is taken to need is never more than the scheduler reserves for
it, in every dimension, and is exactly that when its plain init containers come
before its sidecars. *)
Theorem requests_match_scheduler p :
  modest p → ∀ f, f ∈ dims →
  f (effectiveRequests p) <= scheduler_request f p ∧
  (plain_first (V1Pod.InitContainers p) = true → f (effectiveRequests p) = scheduler_request f p).
Proof.
  intros Hm f Hf. rewrite effective_closed by done. destruct (Hm f Hf) as ([_ Hi]%Forall_app & _ & _).
  unfold scheduler_request, greatest_init. split.
  - pose proof (init_peak_above f _ 0 Hi ltac:(lia)). lia.
  - intros Hp. by rewrite init_peak_plain.
Qed.

End readers.

(** ** Concrete objects *)

(** Quantities in thousandths of a core, and in bytes. *)
Definition whole : Quantities := {| Quantity := Z; MilliValue := λ q, q; Value := λ q, q |}.

Section objects.
#[local] Existing Instance whole.

Definition rl (cpu : Z) : ResourceList := <["cpu" := cpu : Quantity]> ∅.

Definition meta (name : string) (refs : list OwnerReference.t) : ObjectMeta.t :=
  ObjectMeta.mk name "shop" ∅ (<["note" := "x"]> (<[DoNotDisruptAnnotation := "true"]> ∅)) 1 None refs ["kubectl"].

Definition v1pod (name phase : string) (app inits : list Container.t) (refs : list OwnerReference.t) : V1Pod.t :=
  V1Pod.mk (meta name refs) "a" ∅ app inits None None "" [] [] None [] phase [Condition.mk "Ready" "True"]
    ["image"] [] [].

Definition by_set : list OwnerReference.t := [OwnerReference.mk "ReplicaSet" "web-7f" (Some true)].

Definition v1pods : list V1Pod.t :=
  [v1pod "web-1" "Running" [Container.mk (rl 200) None] [] by_set;
   v1pod "old" "Succeeded" [] [] [];
   v1pod "web-2" "Running" [Container.mk (rl 200) None] [] by_set].

Definition v1nodes : list V1Node.t :=
  [V1Node.mk (meta "a" []) false [] (rl 4000) (rl 3900) [Condition.mk "Ready" "True"] ["image"]].

Definition sets (ns name : string) : option V1ReplicaSet.t :=
  if (name =? "web-7f")%string
  then Some (V1ReplicaSet.mk (meta "web-7f" [OwnerReference.mk "Deployment" "web" (Some true)]) ["template"])
  else None.

Definition cached : Collector.t := Collector.mk (inr v1nodes) (inr v1pods) (inr []) sets.

(** The same objects, the pods in two pages. *)
Definition direct : Direct.t :=
  Direct.mk ([v1nodes], None) ([take 1 v1pods; drop 1 v1pods], None) ([[]], None) sets (λ _ _, inr None).

Definition metered : Metrics.t :=
  Metrics.mk None (inr [NodeMetrics.mk "a" (rl 700)]) (inr [PodMetrics.mk "shop" "web-1" [rl 50; rl 20]]).

Definition seen_owners (r : string + ClusterSnapshot.t) : list (option string) :=
  match r with
  | inl _ => []
  | inr s => (λ p, o ← Pod.Owner p; Some (OwnerRef.Name o)) <$> ClusterSnapshot.Pods s
  end.

Lemma readers_agree_witness :
  seen_owners (Direct.Snapshot 5 direct) = [Some "web"; Some "web"] ∧
  Collector.Snapshot 5 metered (Collector.transformed cached) =
  match Direct.Snapshot 5 direct with inl err => inl err | inr s => inr (Collector.attachUsage metered s) end.
Proof.
  split; [vm_compute; reflexivity|]. apply (readers_agree 5 metered direct cached).
  - split; reflexivity.
  - intros p Hp. cbn in Hp. repeat (apply elem_of_cons in Hp as [->|Hp]; [reflexivity|]).
    by apply elem_of_nil in Hp.
Defined.

(** A sidecar, and an init container that starts after it. *)
Definition sidecar (cpu : Z) : Container.t := Container.mk (rl cpu) (Some ContainerRestartPolicyAlways).
Definition plain (cpu : Z) : Container.t := Container.mk (rl cpu) None.

Definition with_sidecar : V1Pod.t := v1pod "w" "Running" [plain 100] [plain 800; sidecar 300] [].
Definition late_init : V1Pod.t := v1pod "l" "Running" [plain 100] [sidecar 300; plain 800] [].

Definition modest_b (p : V1Pod.t) : bool :=
  forallb (λ f : Resources.t → Z,
    forallb (λ c, 0 <=? f (requests_of c)) (V1Pod.Containers p ++ V1Pod.InitContainers p) &&
    (0 <=? f (overhead_of p)) &&
    (total_of f (V1Pod.Containers p ++ V1Pod.InitContainers p) + f (overhead_of p) <? 2 ^ 62)) dims.

Lemma modest_b_sound p : modest_b p = true → modest p.
Proof.
  unfold modest_b. rewrite forallb_elem. intros Hb f Hf.
  apply Hb in Hf. apply andb_true_iff in Hf as [[H1 H2]%andb_true_iff H3].
  rewrite forallb_elem in H1. split_and!; [|by apply Z.leb_le|by apply Z.ltb_lt].
  apply Forall_forall. intros c Hc. apply Z.leb_le. by apply H1.
Qed.

Lemma requests_match_scheduler_witness :
  Resources.MilliCPU (effectiveRequests with_sidecar) = 800 ∧
  (Resources.MilliCPU (effectiveRequests with_sidecar) <= scheduler_request Resources.MilliCPU with_sidecar ∧
   (plain_first (V1Pod.InitContainers with_sidecar) = true →
    Resources.MilliCPU (effectiveRequests with_sidecar) = scheduler_request Resources.MilliCPU with_sidecar)).
Proof.
  split; [vm_compute; reflexivity|].
  apply (requests_match_scheduler with_sidecar (modest_b_sound with_sidecar eq_refl) Resources.MilliCPU).
  left.
Defined.

(** Where a plain init container starts after a sidecar, the pod is taken to need
less than the scheduler reserves: the planner can find room that is not there. *)
Lemma late_init_understated :
  modest late_init ∧
  Resources.MilliCPU (effectiveRequests late_init) = 800 ∧
  scheduler_request Resources.MilliCPU late_init = 1100.
Proof. split; [by apply modest_b_sound|]. vm_compute. split; reflexivity. Qed.

End objects.
