(* ===== verification/CliArgs.v ===== *)
(** * The arguments of the command line (cmd/dencer/main.go, internal/cli/commands.go)

Flags before or after the node or step they qualify, lists of names and of
steps, and the flags every command takes. *)
From S2P Require Import Prelude GoLib GoText GoTime GoFlag.

(** ** Reordering *)

Definition joinArgs (flags positional : list string) : list string :=
  match positional with
  | [] => flags
  | _ => flags ++ "--" :: positional
  end.

(** The name as [reorderArgs] looks it up: without any of its leading dashes. *)
Definition flag_name (a : string) : string := TrimLeft a "-".

Definition is_dashed (a : string) : bool := (1 <? String.length a)%nat && starts_with "-" a.

(** Whether the flag [a] takes the argument after it. *)
Definition takes_next (fs : FlagSet) (a : string) : bool :=
  let name := flag_name a in
  if bool_decide (is_Some (Cut name "="%char)) then false
  else match Lookup fs name with
       | None => false
       | Some k => negb (IsBoolFlag k)
       end.

(** The loop of [reorderArgs]. *)
Fixpoint reorder (fs : FlagSet) (args flags positional : list string) : list string :=
  match args with
  | [] => joinArgs flags positional
  | a :: args =>
      if (a =? "--")%string then joinArgs flags (positional ++ args)
      else if is_dashed a then
        if takes_next fs a then
          match args with
          | [] => joinArgs (flags ++ [a]) positional
          | v :: args => reorder fs args (flags ++ [a; v]) positional
          end
        else reorder fs args (flags ++ [a]) positional
      else reorder fs args flags (positional ++ [a])
  end.

Definition reorderArgs (fs : FlagSet) (args : list string) : list string := reorder fs args [] [].

(** ** The flags of every command *)

(** [bind] *)
Definition global_flags : FlagSet :=
  [("server", KString); ("token", KString); ("namespace", KString); ("n", KString); ("release", KString);
   ("kubeconfig", KString); ("context", KString); ("output", KString); ("o", KString); ("timeout", KDuration);
   ("insecure-skip-tls-verify", KBool)].

Module Config.
Record t : Type := mk {
  Server : string; Token : string; Namespace : string; Release : string; Kubeconfig : string; Context : string;
  Timeout : duration; Insecure : bool;
}.
End Config.

Definition config_of (flags : list (string * value)) : Config.t :=
  Config.mk (get_string ["server"] "" flags) (get_string ["token"] "" flags)
    (get_string ["namespace"; "n"] "k8s-dencer" flags) (get_string ["release"] "k8s-dencer" flags)
    (get_string ["kubeconfig"] "" flags) (get_string ["context"] "" flags)
    (get_duration "timeout" (30 * Second) flags) (get_bool "insecure-skip-tls-verify" false flags).

Inductive Format : Type := FormatText | FormatJSON | FormatYAML.

#[global] Instance Format_eq_dec : EqDecision Format.
Proof. solve_decision. Defined.

(** [globals.parsed] *)
Definition output_format (flags : list (string * value)) : string + Format :=
  let format := get_string ["output"; "o"] "text" flags in
  if (format =? "text")%string then inr FormatText
  else if (format =? "json")%string then inr FormatJSON
  else if (format =? "yaml")%string then inr FormatYAML
  else inl ("unknown output format " +:+ quoted format +:+ "; want text, json or yaml").

(** ** Lists *)

Definition splitCommas (s : string) : list string :=
  if (TrimSpace s =? "")%string then []
  else List.filter (λ p, negb (p =? "")%string) (TrimSpace <$> Split_on ","%char s).

(** ** ParseSteps *)

Definition add_step (n : Z) (acc : gset Z * list Z) : gset Z * list Z :=
  let '(seen, out) := acc in if bool_decide (n ∈ seen) then acc else ({[n]} ∪ seen, out ++ [n]).

(** [for n := a; n <= b; n++].  A bound that is the greatest integer is never
passed: [None], the loop does not end. *)
Fixpoint add_range (fuel : nat) (n b : Z) (acc : gset Z * list Z) : option (gset Z * list Z) :=
  if b <? n then Some acc
  else match fuel with
       | O => None
       | S fuel => add_range fuel (int64_add n 1) b (add_step n acc)
       end.

(** What one part asks for: an error, or bounds. *)
Definition parse_part (part : string) : string + Z * Z :=
  match Cut part "-"%char with
  | None =>
      match Atoi part with
      | None => inl (quoted part +:+ " is not a step number")
      | Some n => inr (n, n)
      end
  | Some (lo, hi) =>
      match Atoi (TrimSpace lo), Atoi (TrimSpace hi) with
      | Some a, Some b =>
          if b <? a then inl ("range " +:+ quoted part +:+ " counts backwards") else inr (a, b)
      | _, _ => inl (quoted part +:+ " is not a step range")
      end
  end.

(** A single number is added without a loop. *)
Definition add_part (part : string) (bounds : Z * Z) (acc : gset Z * list Z) : option (gset Z * list Z) :=
  let '(a, b) := bounds in
  match Cut part "-"%char with
  | None => Some (add_step a acc)
  | Some _ => add_range (Z.to_nat (b - a + 1)) a b acc
  end.

Fixpoint parse_parts (parts : list string) (acc : gset Z * list Z) : option (string + list Z) :=
  match parts with
  | [] => Some (inr acc.2)
  | part :: parts =>
      let part := TrimSpace part in
      if (part =? "")%string then parse_parts parts acc
      else match parse_part part with
           | inl err => Some (inl err)
           | inr bounds =>
               match add_part part bounds acc with
               | None => None
               | Some acc => parse_parts parts acc
               end
           end
  end.

(** [None]: it does not return. *)
Definition ParseSteps (spec : string) : option (string + list Z) :=
  match parse_parts (Split_on ","%char spec) (∅, []) with
  | None => None
  | Some (inl err) => Some (inl err)
  | Some (inr []) => Some (inl "no steps selected")
  | Some (inr out) => Some (inr (sort_by Z.ltb out))
  end.

Example ParseSteps_examples :
  map ParseSteps ["1,3-5"; " 5 , 1 - 2,1"; "3-1"; ""; "x"; "-2"; "2-"] =
  [Some (inr [1; 3; 4; 5]); Some (inr [1; 2; 5]);
   Some (inl ("range " +:+ quoted "3-1" +:+ " counts backwards")); Some (inl "no steps selected");
   Some (inl (quoted "x" +:+ " is not a step number")); Some (inl (quoted "-2" +:+ " is not a step range"));
   Some (inl (quoted "2-" +:+ " is not a step range"))].
Proof. by vm_compute. Qed.
