(* ===== verification/CliArgsProps.v ===== *)
(** * What the arguments come to

Flags and the node or step they qualify in any order; the steps a list of numbers
and ranges names. *)
From S2P Require Import Prelude GoLib GoText GoTime GoFlag CliArgs.

#[local] Arguments String.append : simpl nomatch.

(** ** Flags and arguments in any order *)

(** What an operator writes: an argument, a flag that stands alone, a flag with its
value behind [=], a flag followed by its value. *)
Inductive item : Type :=
| Arg (a : string)
| Lone (dashes name : string)
| Joined (dashes name v : string)
| Followed (dashes name v : string).

Definition words_of (i : item) : list string :=
  match i with
  | Arg a => [a]
  | Lone dashes name => [dashes +:+ name]
  | Joined dashes name v => [dashes +:+ name +:+ String "="%char v]
  | Followed dashes name v => [dashes +:+ name; v]
  end.

Definition args_of (i : item) : list string := match i with Arg a => [a] | _ => [] end.

Definition flags_of (fs : FlagSet) (i : item) : list (string * value) :=
  match i with
  | Arg _ => []
  | Lone _ name => [(name, VBool true)]
  | Joined _ name v | Followed _ name v => match Lookup fs name ≫= λ k, set_value k v with Some x => [(name, x)] | None => [] end
  end.

(** A name begins with no dash and holds no equals sign. *)
Definition plain_name (name : string) : bool :=
  negb (name =? "")%string && negb (starts_with "-" name) && no_char "=" name.

Definition dashes_ok (d : string) : bool := (d =? "-")%string || (d =? "--")%string.

(** The flags are ones of [fs], used as their types are; an argument does not look
like a flag. *)
Definition item_ok (fs : FlagSet) (i : item) : bool :=
  match i with
  | Arg a => negb (is_dashed a)
  | Lone d name => dashes_ok d && plain_name name && bool_decide (Lookup fs name = Some KBool)
  | Joined d name v =>
      dashes_ok d && plain_name name && bool_decide (is_Some (Lookup fs name ≫= λ k, set_value k v))
  | Followed d name v =>
      dashes_ok d && plain_name name && bool_decide (is_Some (Lookup fs name ≫= λ k, set_value k v)) &&
      negb (bool_decide (Lookup fs name = Some KBool))
  end.

Lemma starts_with_cons c c' s : starts_with c (String c' s) = Ascii.eqb c' c.
Proof. done. Qed.

Lemma plain_name_parts name :
  plain_name name = true → ∃ c s, name = String c s ∧ Ascii.eqb c "-" = false ∧ Ascii.eqb c "=" = false ∧ no_char "=" name = true.
Proof.
  unfold plain_name. destruct name as [|c s]; [done|]. cbn. intros [Hd [He Hn]%andb_true_iff]%andb_true_iff.
  exists c, s. rewrite negb_true_iff in Hd, He. by rewrite He, Hn.
Qed.

Lemma dashes_ok_cases d : dashes_ok d = true → d = "-" ∨ d = "--".
Proof. unfold dashes_ok. rewrite orb_true_iff, !String.eqb_eq. done. Qed.

(** A flag without a value, as the two readers see it. *)
Lemma lone_shape d name :
  dashes_ok d = true → plain_name name = true →
  shape_of (d +:+ name) = FlagName name None ∧ is_dashed (d +:+ name) = true ∧ (d +:+ name =? "--")%string = false ∧
  flag_name (d +:+ name) = name ∧ Cut name "=" = None.
Proof.
  intros Hd (c & s & -> & Hc & He & Hn)%plain_name_parts. pose proof (Cut_none _ _ Hn) as HC.
  destruct (dashes_ok_cases d Hd) as [-> | ->]; cbn -[Cut]; rewrite ?Hc, ?He, ?HC; cbn -[Cut]; split_and!; try done.
  all: by rewrite ?Hc, ?He, ?andb_false_r.
Qed.

Lemma joined_shape d name v :
  dashes_ok d = true → plain_name name = true →
  let a := d +:+ name +:+ String "="%char v in
  shape_of a = FlagName name (Some v) ∧ is_dashed a = true ∧ (a =? "--")%string = false ∧
  Cut (flag_name a) "=" = Some (name, v).
Proof.
  intros Hd (c & s & -> & Hc & He & Hn)%plain_name_parts. pose proof (Cut_at _ "="%char v Hn) as HC.
  change (String c s +:+ String "=" v) with (String c (s +:+ String "=" v)) in HC.
  destruct (dashes_ok_cases d Hd) as [-> | ->]; cbn -[Cut]; rewrite ?Hc, ?He; cbn -[Cut]; rewrite ?Hc, ?HC; split_and!; try done.
  all: by rewrite ?Hc, ?He, ?orb_false_r, ?HC, ?andb_false_r.
Qed.

(** ** Parsing what was reordered *)

Lemma takes_next_lone fs d name k :
  dashes_ok d = true → plain_name name = true → Lookup fs name = Some k →
  takes_next fs (d +:+ name) = negb (IsBoolFlag k).
Proof.
  intros Hd Hn Hk. destruct (lone_shape d name Hd Hn) as (_ & _ & _ & E & HC).
  unfold takes_next. by rewrite E, HC, Hk.
Qed.

Lemma takes_next_joined fs d name v :
  dashes_ok d = true → plain_name name = true → takes_next fs (d +:+ name +:+ String "="%char v) = false.
Proof.
  intros Hd Hn. destruct (joined_shape d name v Hd Hn) as (_ & _ & _ & E). unfold takes_next. by rewrite E.
Qed.

(** Only the words of flags, in their order; only the arguments, in theirs. *)
Definition flag_words (i : item) : list string := match i with Arg _ => [] | _ => words_of i end.

Lemma reorder_items fs items flags positional :
  forallb (item_ok fs) items = true →
  reorder fs (items ≫= words_of) flags positional = joinArgs (flags ++ (items ≫= flag_words)) (positional ++ (items ≫= args_of)).
Proof.
  revert flags positional. induction items as [|i items IH]; intros flags positional; cbn [forallb mbind list_bind reorder].
  { by rewrite !app_nil_r. }
  intros [Hi Hs]%andb_true_iff. destruct i as [a|d name|d name v|d name v]; cbn [item_ok] in Hi.
  - cbn [words_of app reorder]. rewrite (proj1 (negb_true_iff _) Hi).
    destruct (String.eqb_spec a "--") as [->|_]; [done|]. rewrite IH by done. cbn. by rewrite <- app_assoc.
  - apply andb_true_iff in Hi as [[Hd Hn]%andb_true_iff Hk%bool_decide_eq_true].
    cbn [words_of app reorder]. destruct (lone_shape d name Hd Hn) as (_ & -> & -> & _).
    rewrite (takes_next_lone fs d name KBool) by done. cbn. rewrite IH by done. by rewrite <- app_assoc.
  - apply andb_true_iff in Hi as [[Hd Hn]%andb_true_iff Hk%bool_decide_eq_true].
    cbn [words_of app reorder]. destruct (joined_shape d name v Hd Hn) as (_ & -> & -> & _).
    rewrite takes_next_joined by done. rewrite IH by done. by rewrite <- app_assoc.
  - apply andb_true_iff in Hi as [[[Hd Hn]%andb_true_iff Hk%bool_decide_eq_true]%andb_true_iff Hb%negb_true_iff].
    cbn [words_of app reorder]. destruct (lone_shape d name Hd Hn) as (_ & -> & -> & _).
    destruct (Lookup fs name) as [k|] eqn:E; [|by destruct Hk].
    rewrite (takes_next_lone fs d name k) by done. assert (IsBoolFlag k = false) as ->.
    { apply bool_decide_eq_false in Hb. by destruct k. }
    cbn. rewrite IH by done. by rewrite <- app_assoc.
Qed.

(** The flags first: each is read with its value, up to whatever is left. *)
Lemma Parse_flags fs items rest flags args :
  forallb (item_ok fs) items = true → Parse fs rest = inr (flags, args) →
  Parse fs ((items ≫= flag_words) ++ rest) = inr ((items ≫= flags_of fs) ++ flags, args).
Proof.
  intros Hs Hr. induction items as [|i items IH]; [done|]. cbn [forallb] in Hs.
  apply andb_true_iff in Hs as [Hi Hs]. specialize (IH Hs). cbn [mbind list_bind].
  destruct i as [a|d name|d name v|d name v]; cbn [item_ok flag_words words_of flags_of app] in *.
  - done.
  - apply andb_true_iff in Hi as [[Hd Hn]%andb_true_iff Hk%bool_decide_eq_true].
    destruct (lone_shape d name Hd Hn) as (Hsh & _). cbn [Parse]. rewrite Hsh, Hk. cbn [IsBoolFlag]. by rewrite IH.
  - apply andb_true_iff in Hi as [[Hd Hn]%andb_true_iff Hk%bool_decide_eq_true].
    destruct (joined_shape d name v Hd Hn) as (Hsh & _). cbn [Parse]. rewrite Hsh.
    destruct (Lookup fs name) as [k|]; [|by destruct Hk]. cbn [mbind option_bind] in *.
    destruct (set_value k v); [|by destruct Hk]. by rewrite IH.
  - apply andb_true_iff in Hi as [[[Hd Hn]%andb_true_iff Hk%bool_decide_eq_true]%andb_true_iff Hb%negb_true_iff].
    destruct (lone_shape d name Hd Hn) as (Hsh & _). cbn [Parse app]. rewrite Hsh.
    destruct (Lookup fs name) as [k|]; [|by destruct Hk]. cbn [mbind option_bind] in *.
    assert (IsBoolFlag k = false) as ->. { apply bool_decide_eq_false in Hb. by destruct k. }
    destruct (set_value k v); [|by destruct Hk]. by rewrite IH.
Qed.

(** Flags and arguments may come in any order: after [reorderArgs], parsing sets
the flags in the order they were written and leaves exactly the arguments, in
theirs. *)
Theorem order_of_arguments_free fs items :
  forallb (item_ok fs) items = true →
  Parse fs (reorderArgs fs (items ≫= words_of)) = inr (items ≫= flags_of fs, items ≫= args_of).
Proof.
  intros Hs. unfold reorderArgs. rewrite reorder_items by done. cbn [app].
  destruct (items ≫= args_of) as [|a args]; cbn [joinArgs].
  - rewrite <- (app_nil_r (items ≫= flag_words)), <- (app_nil_r (items ≫= flags_of fs)). by apply Parse_flags.
  - rewrite <- (app_nil_r (items ≫= flags_of fs)). by apply Parse_flags.
Qed.

Definition drain_flags : FlagSet := global_flags ++ [("dry-run", KBool); ("watch", KBool); ("yes", KBool)].

Lemma order_of_arguments_free_witness :
  Parse drain_flags (reorderArgs drain_flags ["node-3"; "--dry-run"; "--context"; "prod"]) =
  inr ([("dry-run", VBool true); ("context", VString "prod")], ["node-3"]).
Proof.
  exact (order_of_arguments_free drain_flags [Arg "node-3"; Lone "--" "dry-run"; Followed "--" "context" "prod"] eq_refl).
Defined.

(** A flag whose value is missing takes the separator [reorderArgs] inserts: the
mistake is not reported. *)
Lemma missing_value_swallows_separator :
  Parse drain_flags ["--context"] = inl (NeedsArgument "context") ∧
  Parse drain_flags (reorderArgs drain_flags ["node-3"; "--context"]) = inr ([("context", VString "--")], ["node-3"]).
Proof. by vm_compute. Qed.

(** ** The steps a list names *)

(** What the loops keep: the numbers with the property [P], each once. *)
Definition tracked (P : Z → Prop) (acc : gset Z * list Z) : Prop :=
  NoDup acc.2 ∧ (∀ n, n ∈ acc.1 ↔ n ∈ acc.2) ∧ ∀ n, n ∈ acc.2 ↔ P n.

Lemma tracked_ext P Q acc : (∀ n, P n ↔ Q n) → tracked P acc → tracked Q acc.
Proof. intros HPQ (H1 & H2 & H3). split_and!; [done|done|]. intros n. by rewrite H3. Qed.

Lemma add_step_tracked P n acc : tracked P acc → tracked (λ m, P m ∨ m = n) (add_step n acc).
Proof.
  destruct acc as [seen out]. intros (H1 & H2 & H3). cbn in *. unfold add_step. case_bool_decide as Hn.
  - split_and!; [done|done|]. intros m. rewrite H3. split; [by left|]. intros [?| ->]; [done|]. by apply H3, H2.
  - split_and!; cbn.
    + apply NoDup_app. split_and!; [done| |apply NoDup_singleton].
      intros m Hm ->%list_elem_of_singleton. by apply Hn, H2.
    + intros m. rewrite elem_of_union, elem_of_app, H2, elem_of_singleton, list_elem_of_singleton. naive_solver.
    + intros m. by rewrite elem_of_app, H3, list_elem_of_singleton.
Qed.

Lemma add_range_endless fuel n acc : in_int64 n → add_range fuel n (2 ^ 63 - 1) acc = None.
Proof.
  revert n acc. induction fuel as [|fuel IH]; intros n acc Hn; cbn [add_range];
    rewrite (proj2 (Z.ltb_ge _ _)) by (unfold in_int64 in Hn; lia); [done|].
  apply IH, wrap64_range.
Qed.

Lemma add_range_tracked fuel n b acc acc' P :
  in_int64 n → in_int64 b → tracked P acc → add_range fuel n b acc = Some acc' → tracked (λ m, P m ∨ n <= m <= b) acc'.
Proof.
  revert n acc P. induction fuel as [|fuel IH]; intros n acc P Hn Hb HP; cbn [add_range].
  - destruct (Z.ltb_spec b n); [|done]. intros [= <-]. revert HP. apply tracked_ext. intros m. split; [by left|]. intros [?|?]; [done|lia].
  - destruct (Z.ltb_spec b n).
    { intros [= <-]. revert HP. apply tracked_ext. intros m. split; [by left|]. intros [?|?]; [done|lia]. }
    destruct (decide (n = 2 ^ 63 - 1)) as [->|Hmax].
    { assert (b = 2 ^ 63 - 1) as -> by (unfold in_int64 in Hb; lia). by rewrite add_range_endless by apply wrap64_range. }
    unfold int64_add. rewrite wrap64_id by (unfold in_int64 in *; lia). intros E.
    apply (IH _ _ (λ m, P m ∨ m = n)) in E; [|unfold in_int64 in *; lia|done|by apply add_step_tracked].
    revert E. apply tracked_ext. intros m. split; [intros [[?|?]|?]|intros [?|?]]; try (by left); [right; lia|right; lia|by left; left|].
    destruct (decide (m = n)); [by left; right|right; lia].
Qed.

Lemma add_range_returns fuel n b acc :
  in_int64 n → b < 2 ^ 63 - 1 → b - n < Z.of_nat fuel → ∃ acc', add_range fuel n b acc = Some acc'.
Proof.
  revert n acc. induction fuel as [|fuel IH]; intros n acc Hn Hb Hf; cbn [add_range].
  - rewrite (proj2 (Z.ltb_lt b n)) by lia. by eexists.
  - destruct (Z.ltb_spec b n); [by eexists|]. unfold int64_add. unfold in_int64 in Hn.
    rewrite wrap64_id by (unfold in_int64; lia). apply IH; unfold in_int64; lia.
Qed.

(** A part names the numbers between its bounds. *)
Definition names (part : string) (n : Z) : Prop :=
  TrimSpace part ≠ "" ∧ ∃ a b, parse_part (TrimSpace part) = inr (a, b) ∧ a <= n <= b.

Lemma Atoi_range s n : Atoi s = Some n → in_int64 n.
Proof.
  unfold Atoi. intros (v & _ & H)%bind_Some.
  destruct ((- 2 ^ 63 <=? v) && (v <? 2 ^ 63)) eqn:E; [|done]. injection H as ->.
  apply andb_true_iff in E as [H1%Z.leb_le H2%Z.ltb_lt]. done.
Qed.

Lemma parse_part_range part a b : parse_part part = inr (a, b) → in_int64 a ∧ in_int64 b.
Proof.
  unfold parse_part. destruct (Cut part "-") as [[lo hi]|].
  - destruct (Atoi (TrimSpace lo)) as [a'|] eqn:Ea, (Atoi (TrimSpace hi)) as [b'|] eqn:Eb; try done.
    destruct (b' <? a'); [done|]. intros [= <- <-]. split; by eapply Atoi_range.
  - destruct (Atoi part) as [n|] eqn:E; [|done]. intros [= <- <-]. split; by eapply Atoi_range.
Qed.

Lemma add_part_tracked part a b acc acc' P :
  parse_part part = inr (a, b) → tracked P acc → add_part part (a, b) acc = Some acc' →
  tracked (λ m, P m ∨ a <= m <= b) acc'.
Proof.
  intros Hp HP. destruct (parse_part_range _ _ _ Hp) as [Ha Hb]. unfold add_part.
  destruct (Cut part "-") as [[lo hi]|] eqn:E; [by apply add_range_tracked|].
  intros [= <-]. assert (a = b) as <-.
  { unfold parse_part in Hp. rewrite E in Hp. destruct (Atoi part); [|done]. by injection Hp as -> ->. }
  eapply tracked_ext; [|by apply add_step_tracked]. intros m. split; (intros [?|?]; [by left|right; lia]).
Qed.

Lemma named_first part parts n :
  (∃ p, p ∈ part :: parts ∧ names p n) ↔ names part n ∨ ∃ p, p ∈ parts ∧ names p n.
Proof.
  split.
  - intros (p & [-> |Hp]%elem_of_cons & Hn); [by left|]. right. by exists p.
  - intros [Hn|(p & Hp & Hn)]; [exists part; split; [by left|done]|exists p; split; [by right|done]].
Qed.

Lemma names_bounds part a b n :
  TrimSpace part ≠ "" → parse_part (TrimSpace part) = inr (a, b) → names part n ↔ a <= n <= b.
Proof.
  intros Hne Hp. split.
  - intros (_ & a' & b' & E & Hn). rewrite Hp in E. by injection E as <- <-.
  - intros Hn. split; [done|]. by exists a, b.
Qed.

Lemma parse_parts_tracked parts acc out P :
  tracked P acc → parse_parts parts acc = Some (inr out) →
  NoDup out ∧ ∀ n, n ∈ out ↔ P n ∨ ∃ part, part ∈ parts ∧ names part n.
Proof.
  revert acc P. induction parts as [|part parts IH]; intros acc P HP; cbn [parse_parts].
  - intros [= <-]. destruct HP as (H1 & _ & H3). split; [done|]. intros n. rewrite H3. split; [by left|].
    intros [?|(? & Hin & _)]; [done|by apply elem_of_nil in Hin].
  - cbv zeta. destruct (String.eqb_spec (TrimSpace part) "") as [E|E].
    { intros H. destruct (IH _ _ HP H) as [H1 H2]. split; [done|]. intros n. rewrite H2, named_first.
      assert (¬ names part n) by (by intros [? _]). tauto. }
    destruct (parse_part (TrimSpace part)) as [err|[a b]] eqn:Hp; [done|].
    destruct (add_part _ _ acc) as [acc'|] eqn:Ha; [|done]. intros H.
    destruct (IH _ _ (add_part_tracked _ _ _ _ _ _ Hp HP Ha) H) as [H1 H2]. split; [done|]. intros n.
    rewrite H2, named_first, (names_bounds part a b) by done. tauto.
Qed.

Lemma ParseSteps_spec spec l :
  ParseSteps spec = Some (inr l) →
  l ≠ [] ∧ Sorted Z.lt l ∧ ∀ n, n ∈ l ↔ ∃ part, part ∈ Split_on "," spec ∧ names part n.
Proof.
  unfold ParseSteps. destruct (parse_parts _ _) as [[err|out]|] eqn:E; [done| |done].
  assert (H0 : tracked (λ _, False) (∅ : gset Z, [])).
  { split_and!; cbn; [constructor| |].
    - intros n. by rewrite elem_of_nil, elem_of_empty.
    - intros n. by rewrite elem_of_nil. }
  destruct (parse_parts_tracked _ _ _ _ H0 E) as [Hd Hin]. destruct out as [|x out]; [done|].
  intros Hl. assert (l = sort_by Z.ltb (x :: out)) as -> by congruence. split_and!.
  + intros H. pose proof (length_sort_by Z.ltb (x :: out)) as Hp. by rewrite H in Hp.
  + apply sorted_strict.
    * apply (sort_by_sorted Z.ltb). intros a b. rewrite Z.ltb_lt, Z.ltb_ge. lia.
    * rewrite (sort_by_perm Z.ltb (x :: out)). done.
  + intros n. rewrite (elem_of_sort_by Z.ltb n (x :: out)), Hin. tauto.
Qed.

Lemma sorted_nodup l : Sorted Z.lt l → NoDup l.
Proof.
  intros Hl. apply Sorted_StronglySorted in Hl; [|intros a b c; lia].
  induction Hl as [|n l _ IH Hn]; constructor; [|done]. rewrite Forall_forall in Hn. intros Hin. specialize (Hn n Hin). lia.
Qed.

Lemma ParseSteps_ascending spec l : ParseSteps spec = Some (inr l) → Sorted Z.lt l ∧ NoDup l.
Proof. intros (_ & Hs & _)%ParseSteps_spec. split; [done|]. by apply sorted_nodup. Qed.

(** When a list of steps is accepted, the result is not empty, ascending without
repetition, and holds exactly the numbers its parts name; and it is always read to
the end, unless a range goes up to the greatest integer. *)
Theorem steps_named spec :
  (∀ l, ParseSteps spec = Some (inr l) →
     l ≠ [] ∧ Sorted Z.lt l ∧ ∀ n, n ∈ l ↔ ∃ part, part ∈ Split_on "," spec ∧ names part n) ∧
  ((∀ part a b, part ∈ Split_on "," spec → parse_part (TrimSpace part) = inr (a, b) → b ≠ 2 ^ 63 - 1) →
   ParseSteps spec ≠ None).
Proof.
  split.
  - intros l. apply ParseSteps_spec.
  - intros Hmax. unfold ParseSteps. 
    enough (Hp : ∀ parts acc, (∀ p, p ∈ parts → p ∈ Split_on "," spec) → parse_parts parts acc ≠ None).
    { specialize (Hp _ (∅, []) (λ p Hp, Hp)). by repeat case_match. }
    induction parts as [|part parts IH]; intros acc Hsub; cbn [parse_parts]; [done|]. cbv zeta.
    assert (Hrest : ∀ p, p ∈ parts → p ∈ Split_on "," spec) by (intros; apply Hsub; by right).
    destruct (_ =? "")%string; [by apply IH|].
    destruct (parse_part (TrimSpace part)) as [err|[a b]] eqn:Ep; [done|].
    destruct (parse_part_range _ _ _ Ep) as [Ha Hb].
    assert (b ≠ 2 ^ 63 - 1) as Hne by (eapply Hmax; [apply Hsub; by left|done]).
    unfold add_part. destruct (Cut _ _) as [[lo hi]|]; [|by apply IH].
    destruct (add_range_returns (Z.to_nat (b - a + 1)) a b acc) as [acc' ->]; [done| | |by apply IH];
      unfold in_int64 in *; lia.
Qed.

(** A range up to the greatest integer: the counter wraps round below it. *)
Lemma endless_range spec lo hi a :
  Split_on "," spec = [spec] → TrimSpace spec = spec → spec ≠ "" → Cut spec "-" = Some (lo, hi) →
  parse_part spec = inr (a, 2 ^ 63 - 1) → ParseSteps spec = None.
Proof.
  intros H1 H2 H3 H4 H5. unfold ParseSteps. rewrite H1. cbn [parse_parts]. cbv zeta.
  rewrite H2, (proj2 (String.eqb_neq _ _) H3), H5. unfold add_part. rewrite H4.
  rewrite add_range_endless; [done|]. by destruct (parse_part_range _ _ _ H5).
Qed.

Example endless_range_example : ParseSteps "1-9223372036854775807" = None.
Proof. by apply (endless_range _ "1" "9223372036854775807" 1); vm_compute. Qed.

(** ** Writing steps and reading them back *)

Fixpoint all_digits (s : string) : bool :=
  match s with EmptyString => true | String c s => is_digit c && all_digits s end.

(** What begins with a digit begins with no space, read from either end. *)
Definition no_digit_first (p : string) : bool := match p with String c _ => negb (is_digit c) | EmptyString => false end.

Lemma leading_space_digit ss c s :
  forallb no_digit_first ss = true → is_digit c = true → leading_space ss (String c s) = None.
Proof.
  intros Hss Hc. unfold leading_space. rewrite filter_none; [done|]. intros p Hp.
  rewrite forallb_elem in Hss. specialize (Hss p Hp). destruct p as [|c' p]; [done|]. cbn in Hss. cbn.
  destruct (Ascii.ascii_dec c' c) as [->|]; [|done]. by rewrite Hc in Hss.
Qed.

Lemma spaces_no_digit : forallb no_digit_first spaces = true ∧ forallb no_digit_first (str_rev <$> spaces) = true.
Proof. split; by vm_compute. Qed.

Lemma leading_space_empty ss : forallb no_digit_first ss = true → leading_space ss "" = None.
Proof.
  intros Hss. unfold leading_space. rewrite filter_none; [done|]. intros p Hp.
  rewrite forallb_elem in Hss. specialize (Hss p Hp). by destruct p.
Qed.

Lemma trim_left_digits ss fuel s :
  forallb no_digit_first ss = true → all_digits s = true → trim_left ss fuel s = s.
Proof.
  intros Hss Hs. destruct fuel as [|fuel]; [done|]. cbn. destruct s as [|c s]; [by rewrite leading_space_empty|].
  cbn in Hs. apply andb_true_iff in Hs as [Hc _]. by rewrite leading_space_digit.
Qed.

Lemma str_rev_app_digits s acc : all_digits (str_rev_app s acc) = all_digits s && all_digits acc.
Proof.
  revert acc. induction s as [|c s IH]; intros acc; [done|]. cbn. rewrite IH. cbn.
  by destruct (is_digit c), (all_digits s).
Qed.

Lemma str_rev_app_app s t acc : str_rev_app (str_rev_app s t) acc = str_rev_app t (s +:+ acc).
Proof. revert t acc. induction s as [|c s IH]; intros t acc; [done|]. cbn. by rewrite IH. Qed.

Lemma str_rev_involutive s : str_rev (str_rev s) = s.
Proof. unfold str_rev. rewrite str_rev_app_app. cbn. apply str_app_nil_r. Qed.

Lemma TrimSpace_digits s : all_digits s = true → TrimSpace s = s.
Proof.
  intros Hs. destruct spaces_no_digit as [H1 H2]. unfold TrimSpace. rewrite (trim_left_digits spaces _ s H1 Hs).
  rewrite (trim_left_digits (str_rev <$> spaces) _ (str_rev s) H2); [apply str_rev_involutive|].
  unfold str_rev. by rewrite str_rev_app_digits, Hs.
Qed.

Lemma pretty_digit r : (r < 10)%N → is_digit (pretty_N_char r) = true ∧ Z.of_N (Ascii.N_of_ascii (pretty_N_char r)) = 48 + Z.of_N r.
Proof.
  intros Hr. assert (r ∈ N.of_nat <$> seq 0 10) as Hin.
  { apply list_elem_of_fmap. exists (N.to_nat r). split; [lia|]. apply elem_of_seq. lia. }
  repeat (apply elem_of_cons in Hin as [->|Hin]; [done|]). by apply elem_of_nil in Hin.
Qed.

Lemma digits_pretty x s :
  digits 0 (pretty_N_go x s) = digits (Z.of_N x) s ∧ (all_digits s = true → all_digits (pretty_N_go x s) = true).
Proof.
  revert s. induction (N.lt_wf_0 x) as [x _ IH]; intros s.
  destruct (N.eq_0_gt_0_cases x) as [->|Hx]; [done|].
  rewrite pretty_N_go_step by done.
  destruct (IH (x `div` 10)%N (N.div_lt x 10 Hx eq_refl) (String (pretty_N_char (x `mod` 10)) s)) as [-> Hd].
  pose proof (N.mod_lt x 10 ltac:(done)) as Hr. pose proof (N.div_mod x 10 ltac:(done)) as Hx10.
  destruct (pretty_digit _ Hr) as [H1 H2]. split.
  - cbn [digits]. rewrite H2. generalize dependent (x `mod` 10)%N. intros r Hd Hr Hx10 H1 H2.
    assert ((48 <=? 48 + Z.of_N r) && (48 + Z.of_N r <=? 57) = true) as ->.
    { apply andb_true_iff. split; apply Z.leb_le; lia. }
    f_equal. generalize dependent (x `div` 10)%N. intros q. lia.
  - intros Hs. apply Hd. cbn. by rewrite H1.
Qed.

Lemma all_digits_no_char c s : is_digit c = false → all_digits s = true → no_char c s = true.
Proof.
  intros Hc. induction s as [|c' s IH]; [done|]. cbn. intros [Hd Hs]%andb_true_iff. rewrite IH by done.
  destruct (Ascii.eqb_spec c' c) as [->|]; [by rewrite Hc in Hd|done].
Qed.

(** A step number as it is printed. *)
Lemma printed_number n :
  0 <= n < 2 ^ 63 →
  all_digits (pretty n) = true ∧ pretty n ≠ "" ∧ digits 0 (pretty n) = Some n.
Proof.
  intros Hn. destruct n as [|p|p]; [done| |lia].
  change (pretty (Z.pos p)) with (pretty_N_go (N.pos p) "").
  destruct (digits_pretty (N.pos p) "") as [Hd Ha]. split_and!; [by apply Ha| |done].
  intros E. rewrite E in Hd. discriminate Hd.
Qed.

Lemma parse_printed n : 0 <= n < 2 ^ 63 → parse_part (pretty n) = inr (n, n) ∧ Cut (pretty n) "-" = None.
Proof.
  intros Hn. destruct (printed_number n Hn) as (Hd & Hne & Hv).
  assert (Cut (pretty n) "-" = None) as HC by (by apply Cut_none, all_digits_no_char).
  split; [|done]. unfold parse_part. rewrite HC. unfold Atoi.
  destruct (pretty n) as [|c s] eqn:E; [done|]. cbn [all_digits] in Hd. apply andb_true_iff in Hd as [Hc _].
  assert (Ascii.eqb c "-" = false) as -> by (by destruct (Ascii.eqb_spec c "-") as [->|]).
  assert (Ascii.eqb c "+" = false) as -> by (by destruct (Ascii.eqb_spec c "+") as [->|]).
  unfold unsigned. cbn [String.eqb]. rewrite Hv. cbn [mbind option_bind].
  rewrite (proj2 (andb_true_iff _ _)); [done|]. split; [apply Z.leb_le|apply Z.ltb_lt]; lia.
Qed.

Lemma parse_printed_parts l seen out :
  (∀ n, n ∈ l → 0 <= n < 2 ^ 63) → NoDup l → (∀ n, n ∈ l → n ∉ seen) →
  parse_parts (pretty <$> l) (seen, out) = Some (inr (out ++ l)).
Proof.
  revert seen out. induction l as [|n l IH]; intros seen out Hr Hd Hs; cbn [fmap list_fmap parse_parts]; [by rewrite app_nil_r|].
  apply NoDup_cons in Hd as [Hn Hd]. assert (0 <= n < 2 ^ 63) as Hrn by (apply Hr; by left).
  destruct (printed_number n Hrn) as (Hdig & Hne & _). cbv zeta. rewrite TrimSpace_digits by done.
  rewrite (proj2 (String.eqb_neq _ _) Hne). destruct (parse_printed n Hrn) as [-> HC]. unfold add_part. rewrite HC.
  unfold add_step. rewrite bool_decide_eq_false_2 by (apply Hs; by left). fold (fmap (M := list) (@pretty Z _)).
  rewrite IH; [by rewrite <- app_assoc|intros; apply Hr; by right|done|].
  intros m Hm [->%elem_of_singleton|Hin]%elem_of_union; [done|]. revert Hin. apply Hs. by right.
Qed.

Lemma sort_ascending l : Sorted Z.lt l → sort_by Z.ltb l = l.
Proof.
  intros Hl. apply (Sorted_unique Z.le).
  - eapply Sorted_weaken; [|apply (sort_by_sorted Z.ltb)]; [|intros a b; rewrite Z.ltb_lt, Z.ltb_ge; lia].
    intros a b. unfold in_order. by rewrite Z.ltb_ge.
  - eapply Sorted_weaken; [|done]. intros a b. lia.
  - apply sort_by_perm.
Qed.

(** Steps written out as the command line prints them, ascending with commas
between, are read back as the same steps. *)
Theorem steps_round_trip l :
  l ≠ [] → Sorted Z.lt l → (∀ n, n ∈ l → 0 <= n < 2 ^ 63) →
  ParseSteps (join "," (pretty <$> l)) = Some (inr l).
Proof.
  intros Hne Hl Hr. unfold ParseSteps. rewrite (Split_on_join ","%char).
  - rewrite parse_printed_parts; [|done| |intros; apply not_elem_of_empty].
    + cbn [app]. destruct l; [done|]. by rewrite sort_ascending.
    + by apply sorted_nodup.
  - by destruct l.
  - intros w (n & -> & Hn)%list_elem_of_fmap. apply all_digits_no_char; [done|]. apply printed_number. by apply Hr.
Qed.

Lemma steps_round_trip_witness : ParseSteps "1,3,12" = Some (inr [1; 3; 12]).
Proof.
  apply (steps_round_trip [1; 3; 12]); [done|repeat constructor|].
  intros n Hn. repeat (apply elem_of_cons in Hn as [->|Hn]; [lia|]). by apply elem_of_nil in Hn.
Defined.
