(* ===== verification/Api.v ===== *)
(** * The API (internal/api/rest/rest.go and its remaining handlers)

The routes with the permission each requires, the handlers that are in no other
file, and a request from the middleware to the answer.  Matching a
URL against a pattern is the standard library's: a request is a route with its
path values, query and body already decoded. *)
From S2P Require Import Prelude GoLib Float64 GoTime Model Cluster Window WorkingPlacement Analyzer Store RunStore Reclaim PlanStore Samples Recommend Auth Admission Reports Graph.

(** ** The server *)

Module Service.

(** [core] holds the plans and, with an executor, the runs; the optional stores
are [None] in a store without them, [windows] where nothing reads them. *)
Record t : Type := mk {
  core : Server.t;
  timeline : option Timeline.t;
  ledger : option Ledger.t;
  recoveries : option Recoveries.t;
  windows : option (string + list WindowState.t);
  table : Table.t;
  podDetailLimit : Z;
  clusterLabel : string;
  version : string;
}.

Definition set_core (c : Server.t) (s : t) : t :=
  mk c (timeline s) (ledger s) (recoveries s) (windows s) (table s) (podDetailLimit s) (clusterLabel s) (version s).

End Service.

(** ** handleVersion *)

Module versionInfo.
Record t : Type := mk {
  version : string; latestPlan : option (string * time * time); identity : option string; clusterLabel : string;
}.
End versionInfo.

Definition handleVersion (up : faults) (who : option Identity.t) (s : Service.t) : versionInfo.t :=
  versionInfo.mk (Service.version s)
    (match ask up CLatest (PlanStore.Latest (Server.store (Service.core s))) with
     | inr rec => Some (Plan.ID (Record.Plan rec), Plan.GeneratedAt (Record.Plan rec), Record.StoredAt rec)
     | inl _ => None
     end)
    (Identity.Username <$> who) (Service.clusterLabel s).

(** ** reclamations.go *)

Definition reclamationWindow : duration := 30 * 24 * Hour.

Module Valuation.
Record t : Type := mk { ours : Reclaimed.t; theirs : Reclaimed.t }.
End Valuation.

Definition machine (r : Reclamation.t) : PricedNode.t :=
  PricedNode.mk (Reclamation.InstanceType r) (Reclamation.CapacityType r).

(** The nodes that left, ours and those something else removed. *)
Definition priceOf (table : Table.t) (recent : list Reclamation.t) : option Valuation.t :=
  if Table.Empty table then None
  else
    let gone := List.filter (λ r, bool_decide (Reclamation.Outcome r = Some ReclaimedGone)) recent in
    Some (Valuation.mk
      (Value table (machine <$> List.filter (λ r, negb (Reclamation.External r)) gone))
      (Value table (machine <$> List.filter Reclamation.External gone))).

Module reclamationsReport.
Record t : Type := mk {
  awaiting : list Reclamation.t; recent : list Reclamation.t; observedWorking : bool; detected : string;
  stats : ReclamationStats.t; pricing : option Valuation.t;
}.
End reclamationsReport.

(** [None]: the store tracks no reclamations. *)
Definition handleReclamations (up : faults) (now : time) (s : Service.t) : response + option reclamationsReport.t :=
  match Service.ledger s with
  | None => inr None
  | Some l =>
      match ask up CPending (inr (Ledger.PendingReclamations l)) with
      | inl e => inl (fail_with e)
      | inr pending =>
      match ask up CReclamations (inr (Ledger.Reclamations 50 l)) with
      | inl e => inl (fail_with e)
      | inr recent =>
      match ask up CSummary (inr (Ledger.ReclamationSummary (time_Add now (- reclamationWindow)) l,
                                  Ledger.ReclamationSummary 0 l)) with
      | inl e => inl (fail_with e)
      | inr (stats, ever) =>
          match ask up CLatest (PlanStore.Latest (Server.store (Service.core s))) with
          | inl _ =>
              inr (Some (reclamationsReport.mk pending recent (0 <? ReclamationStats.Reclaimed ever) "" stats
                           (priceOf (Service.table s) recent)))
          | inr rec =>
              with_snapshot rec (λ snap,
                inr (Some (reclamationsReport.mk pending recent (0 <? ReclamationStats.Reclaimed ever)
                             (default "" (DetectReclaimer snap)) stats (priceOf (Service.table s) recent))))
          end
      end end end
  end.

(** ** stability.go, windows.go *)

Definition stabilityWindow : duration := 14 * 24 * Hour.

Definition handleStability (up : faults) (now : time) (s : Service.t) : response + option (list NodeStability.t) :=
  match Service.timeline s with
  | None => inr None
  | Some l =>
      match ask up CStability (inr (Timeline.NodeStabilitySince (time_Add now (- stabilityWindow)) l)) with
      | inl e => inl (fail_with e)
      | inr rows => inr (Some rows)
      end
  end.

(** The states come with whether any window is open. *)
Definition handleWindows (s : Service.t) : response + option (bool * list WindowState.t) :=
  match Service.windows s with
  | None => inr None
  | Some (inl msg) => inl (fail_with (Broken (Fault.mk msg false false None)))
  | Some (inr states) => inr (Some (Any states, states))
  end.

(** ** history.go *)

Module historyReport.
Record t : Type := mk {
  hours : Z; samples : list Sample.t; plans : list Summary.t; reclamations : list Reclamation.t; runs : list Run.t;
}.
End historyReport.

Definition resolved_after (since : time) (r : Reclamation.t) : bool :=
  match Reclamation.ResolvedAt r with Some t => After t since | None => false end.

Definition finished_since (since : time) (r : Run.t) : bool :=
  match Run.FinishedAt r with Some t => negb (Before t since) | None => false end.

(** What a part of the history shows when its read fails: nothing. *)
Definition or_nothing {A} (up : faults) (c : store_call) (l : list A) : list A :=
  match ask up c (inr l) with inr l => l | inl _ => [] end.

(** [hours] is [None] when the query is not a number, and absent when empty. *)
Definition handleHistory (up : faults) (now : time) (hours : option (option Z)) (s : Service.t) :
    response + historyReport.t :=
  match (match hours with
         | None => Some 168
         | Some None => None
         | Some (Some v) => if (v <? 1) || (24 * 31 <? v) then None else Some v
         end) with
  | None => inl (writeError 400 "hours must be between 1 and 744")
  | Some hours =>
      let since := time_Add now (- (hours * Hour)) in
      match (match Service.timeline s with
             | None => inr []
             | Some l => ask up CSamples (inr (Timeline.Samples since l))
             end) with
      | inl e => inl (fail_with e)
      | inr samples =>
          inr (historyReport.mk hours samples
            (List.filter (λ p, After (Summary.GeneratedAt p) since)
               (or_nothing up CList (PlanStore.List 200 (Server.store (Service.core s)))))
            (match Service.ledger s with
             | None => []
             | Some l => List.filter (λ r, After (Reclamation.DrainedAt r) since || resolved_after since r)
                           (or_nothing up CReclamations (Ledger.Reclamations 500 l))
             end)
            (match Server.runs (Service.core s) with
             | None => []
             | Some rs => List.filter (finished_since since) (or_nothing up CRecentRuns (RunStore.RecentRuns 200 rs))
             end))
      end
  end.

(** ** handleGraph *)

Definition handleGraph (up : faults) (id : string) (s : Service.t) : response + Payload.t :=
  with_record up id (Service.core s) (λ rec, with_snapshot rec (λ snap,
    let p := BuildWith (Record.Plan rec) snap (Record.Analysis rec) (Service.podDetailLimit s) in
    inr (Payload.mk (Payload.PlanID p) (Payload.Elements p)
           (Stats.set_forecast (forecast (Service.table s) rec) (Payload.stats p)) (Payload.Aggregated p)))).

(** The recoveries a step's detail adds, when the store has any of them. *)
Definition step_recoveries (up : faults) (d : stepDetail.t) (s : Service.t) : option (gmap string Recovery.t) :=
  match Service.recoveries s, stepDetail.workloads d with
  | Some rs, Some ws =>
      match ask up CRecovery (inr (Recoveries.RecoveryFor ws rs)) with
      | inr known => if bool_decide (size known = 0%nat) then None else Some known
      | inl _ => None
      end
  | _, _ => None
  end.

(** ** Routes *)

Inductive call : Type :=
| GetAuthInfo | GetVersion | GetReclamations | GetWindows | GetStability | GetPreflight | GetResilience
| GetRightsizing | GetHistory (hours : option (option Z)) | GetRecommendations
| PostWhatif (req : option whatifRequest.t) | GetPlans (limit : option Z) | GetLatestPlan | GetPlan (id : string)
| GetStep (id : string) (seq : option Z) | GetGraph (id : string) | GetSnapshot (id : string)
| GetConstraints (id : string) | GetPodConstraints (id namespace pod : string) | GetEvents
| GetRun (runID : string) | GetRuns | GetPlanRuns (id : string)
| PostExecute (id : string) (req : option executeRequest.t) | PostConverge (req : option convergeRequest.t)
| PostDrain (req : option drainRequest.t) | PostStop (runID : string).

Definition pattern (c : call) : string :=
  match c with
  | GetAuthInfo => "GET /api/v1/authinfo" | GetVersion => "GET /api/v1/version"
  | GetReclamations => "GET /api/v1/reclamations" | GetWindows => "GET /api/v1/windows"
  | GetStability => "GET /api/v1/stability" | GetPreflight => "GET /api/v1/preflight"
  | GetResilience => "GET /api/v1/resilience" | GetRightsizing => "GET /api/v1/rightsizing"
  | GetHistory _ => "GET /api/v1/history" | GetRecommendations => "GET /api/v1/recommendations"
  | PostWhatif _ => "POST /api/v1/whatif" | GetPlans _ => "GET /api/v1/plans"
  | GetLatestPlan => "GET /api/v1/plans/latest" | GetPlan _ => "GET /api/v1/plans/{id}"
  | GetStep _ _ => "GET /api/v1/plans/{id}/steps/{seq}" | GetGraph _ => "GET /api/v1/plans/{id}/graph"
  | GetSnapshot _ => "GET /api/v1/plans/{id}/snapshot" | GetConstraints _ => "GET /api/v1/plans/{id}/constraints"
  | GetPodConstraints _ _ _ => "GET /api/v1/plans/{id}/constraints/{namespace}/{pod}"
  | GetEvents => "GET /api/v1/events" | GetRun _ => "GET /api/v1/runs/{runId}" | GetRuns => "GET /api/v1/runs"
  | GetPlanRuns _ => "GET /api/v1/plans/{id}/runs" | PostExecute _ _ => "POST /api/v1/plans/{id}/execute"
  | PostConverge _ => "POST /api/v1/converge" | PostDrain _ => "POST /api/v1/drain"
  | PostStop _ => "POST /api/v1/runs/{runId}/stop"
  end.

(** The permission a route is registered with; the one open route has none. *)
Definition requires (c : call) : option Resource.t :=
  match c with
  | GetAuthInfo => None
  | PostExecute _ _ | PostConverge _ | PostDrain _ | PostStop _ => Some ExecuteConsolidations
  | _ => Some ReadPlans
  end.

(** ** Serving *)

Inductive answer : Type :=
| Plain (r : response)
| Refused (r : Refusal.t)
| AAuthInfo | AEvents
| AVersion (v : versionInfo.t) | AReclamations (r : option reclamationsReport.t)
| AWindows (w : option (bool * list WindowState.t)) | AStability (l : option (list NodeStability.t))
| APreflight (r : preflightReport.t) | AResilience (r : resilienceReport.t)
| ARightsizing (r : option rightsizingReport.t) | AHistory (r : historyReport.t)
| ARecommendations (r : time * list Recommendation.t) | AWhatif (r : whatifReport.t)
| APlans (l : list Summary.t) | APlan (r : planReport.t)
| AStep (d : stepDetail.t) (recovery : option (gmap string Recovery.t)) | AGraph (p : Payload.t)
| ASnapshot (s : option ClusterSnapshot.t) | AConstraints (a : option Analysis.t) | APodConstraints (pc : PodConstraints.t).

Definition answered {A} (k : A → answer) (r : response + A) : answer :=
  match r with inl r => Plain r | inr a => k a end.

(** What the handlers read that is not the server's: which calls fail, the
identifier the store draws for a run, and the clock. *)
Module world.
Record t : Type := mk { up : faults; newID : string; now : time }.
End world.

Definition read `{MapRange} (w : world.t) (c : call) (who : option Identity.t) (s : Service.t) : answer :=
  let up := world.up w in
  let now := world.now w in
  let core := Service.core s in
  match c with
  | GetAuthInfo => AAuthInfo
  | GetEvents => AEvents
  | GetVersion => AVersion (handleVersion up who s)
  | GetReclamations => answered AReclamations (handleReclamations up now s)
  | GetWindows => answered AWindows (handleWindows s)
  | GetStability => answered AStability (handleStability up now s)
  | GetPreflight => answered APreflight (handlePreflight up core)
  | GetResilience => answered AResilience (handleResilience up core)
  | GetRightsizing => answered ARightsizing (handleRightsizing up core)
  | GetHistory hours => answered AHistory (handleHistory up now hours s)
  | GetRecommendations => answered ARecommendations (handleRecommendations up core)
  | PostWhatif req => answered AWhatif (handleWhatif up now req core)
  | GetPlans limit => answered APlans (handleListPlans up limit core)
  | GetLatestPlan => answered APlan (handleLatestPlan up core)
  | GetPlan id => answered APlan (handlePlan up id core)
  | GetStep id seq => answered (λ d, AStep d (step_recoveries up d s)) (handleStep up id seq core)
  | GetGraph id => answered AGraph (handleGraph up id s)
  | GetSnapshot id => answered ASnapshot (handleSnapshot up id core)
  | GetConstraints id => answered AConstraints (handleConstraints up id core)
  | GetPodConstraints id ns pod => answered APodConstraints (handlePodConstraints up id ns pod core)
  | GetRun runID => Plain (handleRun up runID core)
  | GetRuns => Plain (handleActiveRun up core)
  | GetPlanRuns id => Plain (handleRunsForPlan up id core)
  | PostExecute _ _ | PostConverge _ | PostDrain _ | PostStop _ => Plain Aborted
  end.

(** The handlers that write, [None] for the others. *)
Definition write (w : world.t) (c : call) (who : option Identity.t) (s : Server.t) : option outcome.t :=
  let up := world.up w in
  match c with
  | PostExecute id req => Some (handleExecute up (world.newID w) (world.now w) id req who s)
  | PostConverge req => Some (handleConverge up (world.newID w) (world.now w) req who s)
  | PostDrain req => Some (handleDrain up (world.newID w) (world.now w) req who s)
  | PostStop runID => Some (handleStopRun up runID who s)
  | _ => None
  end.

Definition handler `{MapRange} (w : world.t) (c : call) (who : option Identity.t) (s : Service.t) :
    answer * Service.t * list notice :=
  match write w c who (Service.core s) with
  | Some o => (Plain (outcome.answer o), Service.set_core (outcome.server o) s, outcome.published o)
  | None => (read w c who s, s, [])
  end.

(** One request: the guard, unless the route is open, and the handler. *)
Definition serve `{MapRange} (cfg : Config.t) (reviews : TokenReviews) (access : AccessReviews) (t0 t1 : time)
    (h : Header) (w : world.t) (c : call) (cache : tokenCache.t) (s : Service.t) :
    answer * Service.t * list notice * tokenCache.t :=
  match requires c with
  | None => (handler w c None s, cache)
  | Some res =>
      let '(g, cache) := Require cfg reviews access t0 t1 res h cache in
      match g with
      | Refuse r => (Refused r, s, [], cache)
      | Serve who => (handler w c who s, cache)
      end
  end.
