(* ===== verification/Settings.v ===== *)
(** * What the environment decides (cmd/planner, cmd/executor, cmd/ui-backend)

The settings the three services read from their environment, and how each
starts.  What a cluster, a database or a listener answers while they start is an
argument. *)
From stdpp Require Import gmap.
From S2P Require Import Prelude GoLib Float64 GoText GoTime GoFlag Cluster Planner Impact Safety Window Store RunStore Executor Reclaim PlanStore Samples Recommend Auth Admission Publish Reports Graph Dsn Api.

(** ** Reading a variable *)

(** A variable that is set and not empty. *)
Definition setting (e : environ) (key : string) : option string :=
  match e !! key with
  | Some raw => if (raw =? "")%string then None else Some raw
  | None => None
  end.

(** The readers fall back where a value does not parse. *)
Definition read_or {A} (parse : string → option A) (fallback : A) (e : environ) (key : string) : A :=
  match setting e key with
  | None => fallback
  | Some raw => default fallback (parse raw)
  end.

Definition text_env (e : environ) (key fallback : string) : string := read_or Some fallback e key.
Definition intEnv (e : environ) (key : string) (fallback : Z) : Z := read_or Atoi fallback e key.
Definition boolEnv (e : environ) (key : string) (fallback : bool) : bool := read_or ParseBool fallback e key.
Definition duration_env (e : environ) (key : string) (fallback : duration) : duration := read_or ParseDuration fallback e key.

(** A fraction: below 0 and above 1 is no value either. *)
Definition fraction (raw : string) : option float64 :=
  match ParseFloat raw with
  | Some v => if F64.ltb v F64.zero || F64.ltb F64.one v then None else Some v
  | None => None
  end.

Definition floatEnv (e : environ) (key : string) (fallback : float64) : float64 := read_or fraction fallback e key.

(** The [intEnv] of cmd/ui-backend: [None] is its panic. *)
Definition strict_int (e : environ) (key : string) (fallback : Z) : option Z :=
  let raw := Getenv e key in if (raw =? "")%string then Some fallback else Atoi raw.

(** The parts of a list that are not blank. *)
Definition parts (s : string) : list string :=
  List.filter (λ p, negb (p =? "")%string) (TrimSpace <$> Split_on ","%char s).

Definition splitList (s : string) : list string := if (TrimSpace s =? "")%string then [] else parts s.

Definition listEnv (e : environ) (key : string) : list string :=
  let raw := Getenv e key in if (raw =? "")%string then [] else parts raw.

(** ** The planner *)

Definition thresholds (e : environ) : Thresholds.t :=
  Impact.New (Thresholds.mk (intEnv e "YELLOW_PODS_MOVED" 0) (intEnv e "RED_PODS_MOVED" 0)
                (wrap32 (intEnv e "TIGHT_PDB_HEADROOM" 0))).

Definition planner_options (e : environ) : Options.t :=
  let d := Options.DefaultOptions in
  Options.mk (intEnv e "MAX_STEPS" 0) (Options.ExcludeNodeLabels d) (splitList (Getenv e "EXCLUDE_NAMESPACES"))
    (duration_env e "MIN_NODE_AGE" (Options.MinNodeAge d)) (Options.Now d)
    (floatEnv e "PACK_CEILING" (Options.PackCeiling d)).

(** [wall]: the clock, for the options that leave the moment open. *)
Definition publisher_config (e : environ) (wall : time) : Publisher.config :=
  Publisher.mk_config (greedy wall (planner_options e)) (thresholds e) (intEnv e "RETAIN_PLANS" 200)
    (Notifier.mk_config (has_sink (Getenv e "NOTIFY_WEBHOOK_URL")) (Getenv e "CLUSTER_LABEL") (Getenv e "NOTIFY_LINK_URL"))
    true true.

(** How a process ends, if it has. *)
Inductive outcome : Type := Returned (err : option string) | Panicked | Running.

(** What a service does, as far as others can tell. *)
Inductive act : Type := AMigrate | AWatch | AListen | ASynced | AReady | ACycle.

(** What wakes the loop of the planner. *)
Inductive turn : Type := Ticked | Ended | CacheFailed (err : option string) | ServerStopped (err : option string).

Module boot.

(** What answers while a service starts; [None] is no error.  [unmarshal]
gives the currency and the raw prices of a text of JSON. *)
Record t : Type := mk {
  kubeconfig : option string; metrics_client : option string; collector : option string; direct : option string;
  client : option string; window_reader : option string;
  dial : target → option string; migrate : option string; synced : bool; cause : string;
  unmarshal : string → string + (string * list (string * string));
}.

End boot.

(** [if err != nil { return err }], after what was done. *)
Definition or_fail (err : option string) (done_ : list act) (k : list act * outcome) : list act * outcome :=
  match err with Some e => (done_, Returned (Some e)) | None => k end.

Fixpoint planner_loop (turns : list turn) : list act * outcome :=
  match turns with
  | [] => ([], Running)
  | Ticked :: turns => let '(acts, o) := planner_loop turns in (ACycle :: acts, o)
  | Ended :: _ => ([], Returned None)
  | CacheFailed err :: _ | ServerStopped err :: _ => ([], Returned err)
  end.

(** [time.NewTicker] panics at an interval that is not positive. *)
Definition planner_run (e : environ) (b : boot.t) (turns : list turn) : list act * outcome :=
  let resync := duration_env e "RESYNC_PERIOD" (30 * Second) in
  or_fail (boot.kubeconfig b) [] (
  or_fail (if (text_env e "USAGE_SOURCE" "" =? "metrics-server")%string then boot.metrics_client b else None) [] (
  or_fail (boot.collector b) [] (
  match OpenFromEnv e (boot.dial b) with
  | inl err => ([], Returned (Some err))
  | inr _ =>
      or_fail (boot.migrate b) [] (
      if negb (boot.synced b) then ([AMigrate; AWatch; AListen], Returned (Some (boot.cause b)))
      else
        let started := [AMigrate; AWatch; AListen; ASynced; AReady] in
        if resync <=? 0 then (started, Panicked)
        else let '(acts, o) := planner_loop turns in (started ++ ACycle :: acts, o))
  end))).

(** ** The executor *)

(** [AllowRed] is in no variable. *)
Definition limits (e : environ) : Limits.t :=
  let d := Limits.DefaultLimits in
  Limits.mk (intEnv e "SAFETY_MAX_NODES_PER_RUN" (Limits.MaxNodesPerRun d))
    (intEnv e "SAFETY_MIN_READY_NODES" (Limits.MinReadyNodes d)) false.

Definition executor_planner_options (e : environ) : Options.t :=
  let d := Options.DefaultOptions in
  Options.mk (Options.MaxSteps d) (Options.ExcludeNodeLabels d) (splitList (Getenv e "EXCLUDE_NAMESPACES"))
    (duration_env e "MIN_NODE_AGE" (Options.MinNodeAge d)) (Options.Now d) (Options.PackCeiling d).

(** Every name but [Running] counts as [Ready]; only the message that prints it
shows which it was. *)
Definition readiness_of (name : string) : Readiness :=
  if (name =? "Running")%string then ReadinessRunning else ReadinessReady.

(** The options as [New] completes them. *)
Definition executor_options (e : environ) : ExecOptions.t :=
  ExecOptions.withDefaults
    (ExecOptions.mk (text_env e "POD_NAME" "executor") (limits e) true true
       (duration_env e "STEP_TIMEOUT" (10 * Minute)) (duration_env e "SETTLE_TIMEOUT" (5 * Minute))
       (duration_env e "CLUSTER_POLL_INTERVAL" (2 * Second)) true (executor_planner_options e) (thresholds e)
       (Some (readiness_of (text_env e "EXECUTOR_READINESS" "Ready")))).

(** What an attempt of [waitForSchema] finds, and the error of the context if it
ends before the next; [None]: the attempts have run out, and it still waits. *)
Fixpoint waitForSchema (attempts : list ((call_error + Run.t) * option string)) : option (option string) :=
  match attempts with
  | [] => None
  | (inr _, _) :: _ | (inl NotFound, _) :: _ => Some None
  | (inl (Broken _), Some err) :: _ => Some (Some err)
  | (inl (Broken _), None) :: attempts => waitForSchema attempts
  end.

(** The tickers are those of the window sweep and of the queue, each on a goroutine of
its own: a panic in either ends the process, and how far the rest had come by then
is not fixed. *)
Definition executor_run (e : environ) (b : boot.t) (attempts : list ((call_error + Run.t) * option string)) : list act * outcome :=
  match OpenFromEnv e (boot.dial b) with
  | inl err => ([], Returned (Some err))
  | inr _ =>
      match waitForSchema attempts with
      | None => ([], Running)
      | Some err =>
          or_fail err [] (or_fail (boot.kubeconfig b) [] (or_fail (boot.direct b) [] (or_fail (boot.window_reader b) [] (
          if duration_env e "WINDOW_SYNC_INTERVAL" (30 * Second) <=? 0 then ([], Panicked)
          else if duration_env e "QUEUE_POLL_INTERVAL" (3 * Second) <=? 0 then ([AReady], Panicked)
          else ([AReady; AListen], Running)))))
      end
  end.

(** ** The API *)

Definition authConfig (e : environ) : Config.t :=
  Config.mk (boolEnv e "AUTH_ENABLED" true) (boolEnv e "AUTH_ANONYMOUS_READ" false) (listEnv e "AUTH_AUDIENCES")
    (text_env e "POD_NAMESPACE" "") (text_env e "AUTH_OPERATOR_ROLE" "") DefaultTokenCacheTTL
    (OIDCInfo.mk (boolEnv e "AUTH_OIDC_ENABLED" false) (text_env e "AUTH_OIDC_ISSUER_URL" "")
       (text_env e "AUTH_OIDC_CLIENT_ID" "") (listEnv e "AUTH_OIDC_SCOPES"))
    (TrustedProxy.mk (boolEnv e "AUTH_TRUSTED_PROXY_ENABLED" false)
       (text_env e "AUTH_TRUSTED_PROXY_USER_HEADER" "X-Forwarded-User")
       (text_env e "AUTH_TRUSTED_PROXY_GROUPS_HEADER" "X-Forwarded-Groups")).

Definition errExecutorWithoutAuth : string :=
  "EXECUTOR_ENABLED is set but AUTH_ENABLED is false; an execute endpoint must never be reachable without authorization".

(** [buildGuard]: without authentication no client is built. *)
Definition buildGuard (cfg : Config.t) (b : boot.t) : option string :=
  if negb (Config.Enabled cfg) then None
  else match boot.kubeconfig b with Some err => Some err | None => boot.client b end.

(** What the database holds when the API starts. *)
Module stored.
Record t : Type := mk { plans : PlanStore.t; runs : RunStore.t; timeline : Timeline.t; ledger : Ledger.t; recoveries : Recoveries.t }.
End stored.

(** How the API starts: an error, a panic, or the service with its settings and
whether the tools of the agent ask for a token. *)
Inductive start : Type :=
| Refused_ (err : string)
| Crashed
| Serving (cfg : Config.t) (service : Service.t) (guarded_tools : bool).

(** [windows] is what the reader of maintenance windows gives, where there is a
cluster to read. *)
Definition backend_start (e : environ) (b : boot.t) (version : string) (windows : string + list WindowState.t)
    (db : stored.t) : start :=
  match OpenFromEnv e (boot.dial b) with
  | inl err => Refused_ err
  | inr _ =>
      match boot.migrate b with
      | Some err => Refused_ err
      | None =>
          let cfg := authConfig e in
          match buildGuard cfg b with
          | Some err => Refused_ err
          | None =>
              let executor := boolEnv e "EXECUTOR_ENABLED" false in
              if executor && negb (Config.Enabled cfg) then Refused_ errExecutorWithoutAuth
              else
                match strict_int e "GRAPH_POD_DETAIL_LIMIT" 0 with
                | None => Crashed
                | Some limit =>
                    if duration_env e "POLL_INTERVAL" (5 * Second) <=? 0 then Crashed
                    else
                      Serving cfg
                        (Service.mk (Server.mk (stored.plans db) (if executor then Some (stored.runs db) else None))
                           (Some (stored.timeline db)) (Some (stored.ledger db)) (Some (stored.recoveries db))
                           (match boot.kubeconfig b, boot.window_reader b with None, None => Some windows | _, _ => None end)
                           (match setting e "PRICING" with
                            | Some raw => match Table.UnmarshalJSON (boot.unmarshal b) raw with inr t => t | inl _ => Table.mk "" ∅ end
                            | None => Table.mk "" ∅
                            end)
                           (if limit =? 0 then DefaultPodDetailLimit else limit)
                           (text_env e "CLUSTER_LABEL" "") version)
                        (boolEnv e "AUTH_MCP_REQUIRE_TOKEN" false)
                end
          end
      end
  end.

(** ** Probes (internal/httpserver/server.go) *)

Module Health.

(** The names of the registered checks; what one finds is an argument. *)
Record t : Type := mk { ready : bool; checks : list string }.

Definition fresh : t := mk false [].
Definition AddCheck (name : string) (h : t) : t := mk (ready h) (checks h ++ [name]).
Definition SetReady (b : bool) (h : t) : t := mk b (checks h).

(** The first failure. *)
Fixpoint probe (found : string → option string) (names : list string) : option (string * string) :=
  match names with
  | [] => None
  | name :: names => match found name with Some err => Some (name, err) | None => probe found names end
  end.

(** [http.Error] ends its text with a line. *)
Definition unavailable (text : string) : Z * string := (503, text +:+ nl).

(** The answers of the four endpoints, [None] for any other path. *)
Definition answer (found : string → option string) (h : t) (path : string) : option (Z * string) :=
  if (path =? "/healthz")%string || (path =? "/startupz")%string then Some (200, "ok")
  else if (path =? "/readyz")%string then Some (if ready h then (200, "ready") else unavailable "not ready")
  else if (path =? "/dependenciesz")%string then
    Some (match probe found (checks h) with
          | Some (name, err) => unavailable (name +:+ ": " +:+ err)
          | None => (200, "ok")
          end)
  else None.

End Health.

(** The one check of cmd/ui-backend: a store without an active run is a working one. *)
Definition plan_store_check (active : call_error + Run.t) : option string :=
  match active with
  | inr _ | inl NotFound => None
  | inl (Broken f) => Some (Fault.msg f)
  end.
