(* ===== verification/CliConnect.v ===== *)
(** * How the command line reaches the backend (internal/cli/client.go)

The server and the token it uses: given, from the environment, or found through
the kubeconfig.  What the cluster lists, what a credential plugin attaches to a
request and what opening a port gives are arguments. *)
From S2P Require Import Prelude GoLib GoText GoTime Dsn CliArgs.

Abbreviation result A := (string + A)%type.

Definition defaultOperatorSA : string := "dencer-operator".

(** ** The token *)

Module RestConfig.

(** The fields read of [rest.Config]; a plugin by the name it is announced with. *)
Record t : Type := mk {
  Host : string; BearerToken : string; BearerTokenFile : string;
  ExecProvider : option string; AuthProvider : option string;
}.

End RestConfig.

(** What is there to read: a file, and the Authorization header that the transport
of a configuration puts on a request, or the error of building or using it. *)
Module local.
Record t : Type := mk { ReadFile : string → option string; authorization : RestConfig.t → result string }.
End local.

Definition bearer : string := "Bearer ".

Definition tokenViaTransport (l : local.t) (cfg : RestConfig.t) : result string :=
  match local.authorization l cfg with
  | inl err => inl err
  | inr h =>
      let tok := if HasPrefix h bearer then TrimPrefix h bearer else "" in
      if (tok =? "")%string then inl "credential plugin produced no bearer token" else inr tok
  end.

Definition plugin_error (ns err : string) : string :=
  "could not run your kubeconfig credential plugin: " +:+ err +:+ nl +:+
  "Pass a token explicitly:" +:+ nl +:+
  "  dencer --token " +:+ dquote_string +:+ "$(kubectl create token " +:+ defaultOperatorSA +:+ " -n " +:+ ns +:+ ")" +:+
  dquote_string +:+ " ..." +:+ nl +:+ "or set DENCER_TOKEN.".

Definition certificate_error : string :=
  "your kubeconfig authenticates with a client certificate, and the backend verifies" +:+ nl +:+
  "identity with TokenReview, which only accepts bearer tokens. A certificate proves who" +:+ nl +:+
  "you are to the API server but cannot be reviewed as a token." +:+ nl +:+ nl +:+
  "Mint one:" +:+ nl +:+
  "  dencer --token " +:+ dquote_string +:+ "$(kubectl create token dencer-operator -n k8s-dencer)" +:+ dquote_string +:+ " plan" +:+ nl +:+
  "or set DENCER_TOKEN once for the session.".

(** The token of the file, when there is one that is not blank. *)
Definition file_token (l : local.t) (cfg : RestConfig.t) : option string :=
  if (RestConfig.BearerTokenFile cfg =? "")%string then None
  else match local.ReadFile l (RestConfig.BearerTokenFile cfg) with
       | Some b => if (TrimSpace b =? "")%string then None else Some (TrimSpace b)
       | None => None
       end.

Definition resolveToken (l : local.t) (cfg : RestConfig.t) (ns : string) : result string :=
  if negb (RestConfig.BearerToken cfg =? "")%string then inr (RestConfig.BearerToken cfg)
  else match file_token l cfg with
  | Some tok => inr tok
  | None =>
      match RestConfig.ExecProvider cfg, RestConfig.AuthProvider cfg with
      | Some _, _ | None, Some _ =>
          match tokenViaTransport l cfg with
          | inl err => inl (plugin_error ns err)
          | inr tok => inr tok
          end
      | None, None => inl certificate_error
      end
  end.

(** ** The backend *)

(** [intstr.IntOrString] *)
Inductive IntOrString : Type := FromInt (n : Z) | FromString (s : string).

Definition IntValue (p : IntOrString) : Z :=
  match p with FromInt n => n | FromString s => default 0 (Atoi s) end.

Module ServicePort.
Record t : Type := mk { Port : Z; TargetPort : IntOrString }.
End ServicePort.

Module KService.
Record t : Type := mk { Name : string; Ports : list ServicePort.t; Selector : gmap string string }.
End KService.

Module KPod.
Record t : Type := mk { Name : string; Phase : string }.
End KPod.

(** What the API server answers for the namespace of the release. *)
Module cluster.
Record t : Type := mk {
  services : string → result (list KService.t); service : string → option KService.t;
  pods : string → result (list KPod.t);
}.
End cluster.

Definition base_labels : string := "app.kubernetes.io/name=k8s-dencer,app.kubernetes.io/component=ui-backend".
Definition scoped_labels (release : string) : string := base_labels +:+ ",app.kubernetes.io/instance=" +:+ release.

(** The loop over the selectors; [None]: none of them lists a service. *)
Fixpoint labelled (c : cluster.t) (ns : string) (selectors : list string) : option (result KService.t) :=
  match selectors with
  | [] => None
  | sel :: selectors =>
      match cluster.services c sel with
      | inl err => Some (inl ("list services in " +:+ ns +:+ ": " +:+ err))
      | inr [] => labelled c ns selectors
      | inr [svc] => Some (inr svc)
      | inr items =>
          Some (inl ("found " +:+ pretty (Z.of_nat (length items)) +:+ " k8s-dencer backends in namespace " +:+ ns +:+ " (" +:+
                     join ", " (KService.Name <$> items) +:+ ")" +:+ nl +:+ "Pass --release to choose one"))
      end
  end.

Definition findBackendService (c : cluster.t) (ns release : string) : result KService.t :=
  match labelled c ns [scoped_labels release; base_labels] with
  | Some r => r
  | None =>
      match cluster.service c (release +:+ "-ui-backend") with
      | Some svc => inr svc
      | None =>
          inl ("no k8s-dencer ui-backend Service in namespace " +:+ ns +:+ nl +:+
               "Looked for labels " +:+ base_labels +:+ ". Pass --namespace if the release is elsewhere, or" +:+ nl +:+
               "--server if the backend is reachable directly")
      end
  end.

(** In the order the map is ranged over. *)
Definition labelSelector `{MapRange} (m : gmap string string) : string :=
  join "," ((λ '(k, v), k +:+ "=" +:+ v) <$> entries m).

Definition target_port (svc : KService.t) : Z :=
  match KService.Ports svc with
  | [] => 8080
  | p :: _ =>
      let v := IntValue (ServicePort.TargetPort p) in
      if negb (v =? 0) then wrap32 v else ServicePort.Port p
  end.

(** What is forwarded: a pod, a port of it, and the host of the API server as the
address is put together from it. *)
Module forwarding.
Record t : Type := mk { host : string; path : string; port : Z }.
End forwarding.

Definition api_host (cfg : RestConfig.t) : string := TrimLeft (RestConfig.Host cfg) "htps:/".

(** [forward], up to opening the port. *)
Definition forward `{MapRange} (cfg : RestConfig.t) (c : cluster.t) (ns release : string) : result forwarding.t :=
  match findBackendService c ns release with
  | inl err => inl err
  | inr svc =>
      match cluster.pods c (labelSelector (KService.Selector svc)) with
      | inl err => inl ("list backend pods: " +:+ err)
      | inr pods =>
          match List.find (λ p, (KPod.Phase p =? "Running")%string) pods with
          | None => inl ("no running " +:+ KService.Name svc +:+ " pod in namespace " +:+ ns)
          | Some target =>
              inr (forwarding.mk (api_host cfg)
                     ("/api/v1/namespaces/" +:+ ns +:+ "/pods/" +:+ KPod.Name target +:+ "/portforward") (target_port svc))
          end
      end
  end.

(** ** Connect *)

Module Client.
Record t : Type := mk { base : string; token : string }.
End Client.

(** The kubeconfig that applies, the cluster it leads to, and the local port that
forwarding gives. *)
Module reach.
Record t : Type := mk {
  restConfig : Config.t → result RestConfig.t; cluster_of : RestConfig.t → result cluster.t;
  open_port : forwarding.t → result Z;
}.
End reach.

Definition first_token (cfg : Config.t) (e : environ) : string :=
  if (Config.Token cfg =? "")%string then Getenv e "DENCER_TOKEN" else Config.Token cfg.

Definition Connect `{MapRange} (cfg : Config.t) (e : environ) (l : local.t) (r : reach.t) : result Client.t :=
  if negb (Config.Server cfg =? "")%string then
    inr (Client.mk (TrimRight (Config.Server cfg) "/") (first_token cfg e))
  else
    match reach.restConfig r cfg with
    | inl err => inl ("no usable kubeconfig: " +:+ err)
    | inr rc =>
        match (if (first_token cfg e =? "")%string then resolveToken l rc (Config.Namespace cfg)
               else inr (first_token cfg e)) with
        | inl err => inl err
        | inr token =>
            match reach.cluster_of r rc with
            | inl err => inl ("kubernetes client: " +:+ err)
            | inr c =>
                match forward rc c (Config.Namespace cfg) (Config.Release cfg) with
                | inl err => inl err
                | inr f =>
                    match reach.open_port r f with
                    | inl err => inl err
                    | inr local => inr (Client.mk ("http://localhost:" +:+ pretty local) token)
                    end
                end
            end
        end
    end.

(** ** One request *)

(** The Authorization header; none without a token. *)
Definition authorization_header (c : Client.t) : option string :=
  if (Client.token c =? "")%string then None else Some (bearer +:+ Client.token c).

(** [decode] gives the field [error] of a body of JSON; [status_text] is
[http.StatusText]. *)
Definition apiError (decode : string → string) (status_text : Z → string) (status : Z) (raw : string) : string :=
  let msg := if (decode raw =? "")%string then TrimSpace raw else decode raw in
  if status =? 401 then
    "not authenticated: " +:+ msg +:+ nl +:+ "The token was rejected. Mint a fresh one:" +:+ nl +:+
    "  export DENCER_TOKEN=" +:+ dquote_string +:+ "$(kubectl create token dencer-operator -n k8s-dencer)" +:+ dquote_string
  else if status =? 403 then
    "not authorized: " +:+ msg +:+ nl +:+ "Execution needs 'create consolidations.dencer.io';" +:+ nl +:+
    "reading needs 'get plans.dencer.io'. Both are checked against cluster RBAC"
  else if status =? 404 then "not found: " +:+ msg
  else (if (msg =? "")%string then status_text status else msg) +:+ " (HTTP " +:+ pretty status +:+ ")".

(** How an exchange ends, before its body is decoded. *)
Inductive exchange : Type := TimedOut | Unreachable (err : string) | Response (status : Z) (raw : string).

(** The body to decode, or the error. *)
Definition do_request {A} (decode_error : string → string) (status_text : Z → string) (decode : string → result A) (c : Client.t)
    (path : string) (x : exchange) : result A :=
  match x with
  | TimedOut => inl ("timed out talking to " +:+ Client.base c)
  | Unreachable err => inl ("cannot reach " +:+ Client.base c +:+ ": " +:+ err)
  | Response status raw =>
      if 400 <=? status then inl (apiError decode_error status_text status raw)
      else match decode raw with
           | inl err => inl ("unexpected response from " +:+ path +:+ ": " +:+ err)
           | inr a => inr a
           end
  end.

(** * Which backend, and with what token *)

(** ** Tokens *)

Lemma file_token_some l cfg tok : file_token l cfg = Some tok → tok ≠ "".
Proof.
  unfold file_token. destruct (_ =? "")%string; [done|]. destruct (local.ReadFile l _) as [b|]; [|done].
  by destruct (String.eqb_spec (TrimSpace b) ""); [|intros [= <-]].
Qed.

Lemma resolveToken_some l cfg ns tok : resolveToken l cfg ns = inr tok → tok ≠ "".
Proof.
  unfold resolveToken. destruct (String.eqb_spec (RestConfig.BearerToken cfg) "") as [|Hb]; [|by intros [= <-]].
  destruct (file_token l cfg) as [t|] eqn:Hf; [intros [= <-]; by eapply file_token_some|].
  assert (Hp : match tokenViaTransport l cfg with inl err => inl (plugin_error ns err) | inr tok => inr tok end = inr tok → tok ≠ "").
  { unfold tokenViaTransport. destruct (local.authorization l cfg) as [err|h]; [done|].
    destruct (String.eqb_spec (if HasPrefix h bearer then TrimPrefix h bearer else "") ""); [done|]. by intros [= <-]. }
  destruct (RestConfig.ExecProvider cfg), (RestConfig.AuthProvider cfg); try done; apply Hp.
Qed.

(** The token of a client is the one that was given, else that of the environment,
else, where no server is named, one that the kubeconfig gives; so a client that goes
through the cluster never sends a request without one, and a client of a named
server asks neither the kubeconfig nor the cluster for anything. *)
Theorem token_order `{MapRange} cfg e l r c :
  Connect cfg e l r = inr c →
  (Config.Token cfg ≠ "" → Client.token c = Config.Token cfg) ∧
  (Config.Token cfg = "" → Getenv e "DENCER_TOKEN" ≠ "" → Client.token c = Getenv e "DENCER_TOKEN") ∧
  (Config.Server cfg = "" →
   (∃ tok, authorization_header c = Some (bearer +:+ tok) ∧ tok ≠ "") ∧
   (Config.Token cfg = "" → Getenv e "DENCER_TOKEN" = "" →
    ∃ rc, reach.restConfig r cfg = inr rc ∧ resolveToken l rc (Config.Namespace cfg) = inr (Client.token c))) ∧
  (Config.Server cfg ≠ "" →
   Client.base c = TrimRight (Config.Server cfg) "/" ∧ ∀ l' r', Connect cfg e l' r' = inr c).
Proof.
  unfold Connect, first_token, authorization_header.
  destruct (String.eqb_spec (Config.Server cfg) "") as [Hs|Hs]; cbn [negb].
  - destruct (reach.restConfig r cfg) as [|rc]; [done|].
    set (given := if (Config.Token cfg =? "")%string then Getenv e "DENCER_TOKEN" else Config.Token cfg).
    destruct (if (given =? "")%string then _ else _) as [|token] eqn:Ht; [done|].
    destruct (reach.cluster_of r rc); [done|]. destruct (forward _ _ _ _); [done|]. destruct (reach.open_port _ _); [done|].
    intros [= <-]. cbn [Client.token Client.base].
    assert (Hne : token ≠ "").
    { destruct (String.eqb_spec given ""); [by eapply resolveToken_some|]. by injection Ht as <-. }
    assert (Hgiven : given ≠ "" → token = given).
    { intros Hg. destruct (String.eqb_spec given ""); [done|]. by injection Ht. }
    split_and!.
    + intros Hc. rewrite Hgiven; subst given; destruct (String.eqb_spec (Config.Token cfg) ""); done.
    + intros Hc He. rewrite Hgiven; subst given; rewrite Hc; done.
    + intros _. split; [exists token; by rewrite (proj2 (String.eqb_neq _ _) Hne)|].
      intros Hc He. exists rc. split; [done|]. subst given. rewrite Hc, He in Ht. exact Ht.
    + done.
  - intros [= <-]. cbn [Client.token Client.base]. split_and!.
    + by intros ->%String.eqb_neq.
    + by intros -> _.
    + done.
    + done.
Qed.

(** ** The backend *)

(** The service found is the only one the release's labels list; or, when they
list none, the only one of the product's labels; or, when these list none either,
the one of the name an old release had.  More than one is never chosen from. *)
Theorem backend_found_iff c ns release svc :
  findBackendService c ns release = inr svc ↔
  cluster.services c (scoped_labels release) = inr [svc] ∨
  cluster.services c (scoped_labels release) = inr [] ∧
  (cluster.services c base_labels = inr [svc] ∨
   cluster.services c base_labels = inr [] ∧ cluster.service c (release +:+ "-ui-backend") = Some svc).
Proof.
  unfold findBackendService. cbn [labelled].
  destruct (cluster.services c (scoped_labels release)) as [|[|s1 [|s2 l]]]; [naive_solver| |naive_solver|naive_solver].
  destruct (cluster.services c base_labels) as [|[|s1 [|s2 l]]]; [naive_solver| |naive_solver|naive_solver].
  destruct (cluster.service c _); naive_solver.
Qed.

(** ** The host of the API server *)

(** What is cut off is not the scheme but every leading letter of it: the host is
right exactly when it begins with no such letter. *)
Lemma api_host_kept cfg c h :
  RestConfig.Host cfg = "https://" +:+ String c h → (api_host cfg = String c h ↔ in_set "htps:/" c = false).
Proof.
  intros E. unfold api_host. rewrite E.
  assert (TrimLeft ("https://" +:+ String c h) "htps:/" = if in_set "htps:/" c then TrimLeft h "htps:/" else String c h) as ->
    by done.
  destruct (in_set "htps:/" c); [|by split]. split; [|done]. intros Hl. exfalso.
  assert (Hlen : ∀ s, (String.length (TrimLeft s "htps:/") <= String.length s)%nat).
  { intros s. induction s as [|x s IH]; [done|]. cbn [TrimLeft]. destruct (in_set "htps:/" x); cbn [String.length]; lia. }
  specialize (Hlen h). rewrite Hl in Hlen. cbn in Hlen. lia.
Qed.

Lemma api_host_cut :
  api_host (RestConfig.mk "https://prod.example.com:6443" "" "" None None) = "rod.example.com:6443".
Proof. by vm_compute. Qed.

(** ** Examples *)

Definition backend_service : KService.t :=
  KService.mk "dencer-ui-backend" [ServicePort.mk 8080 (FromString "http")] {["app" := "dencer"]}.

Definition k3d : cluster.t :=
  cluster.mk (λ sel, inr (if (sel =? base_labels)%string then [backend_service] else [])) (λ _, None)
    (λ _, inr [KPod.mk "old" "Succeeded"; KPod.mk "new" "Running"]).

Definition by_plugin : RestConfig.t := RestConfig.mk "https://10.0.0.1:6443" "" "" (Some "aws") None.

Definition laptop : local.t := local.mk (λ _, None) (λ _, inr "Bearer t0k").

Definition through_cluster : reach.t := reach.mk (λ _, inr by_plugin) (λ _, inr k3d) (λ f, inr (40000 + forwarding.port f)).

Definition no_flags : Config.t := config_of [].

Definition any_order : MapRange := {| range l := l; range_perm l := Permutation_refl l |}.

Lemma token_order_witness :
  @Connect any_order no_flags ∅ laptop through_cluster = inr (Client.mk "http://localhost:48080" "t0k") ∧
  ∃ rc, reach.restConfig through_cluster no_flags = inr rc ∧ resolveToken laptop rc "k8s-dencer" = inr "t0k".
Proof.
  split; [by vm_compute|].
  apply (@token_order any_order no_flags ∅ laptop through_cluster (Client.mk "http://localhost:48080" "t0k"));
    by vm_compute.
Defined.
