(* ===== verification/CliClient.v ===== *)
(** * The client of the API (internal/cli/commands.go)

What the command line knows of the API: the documents it decodes, one request per
method of [Client], and what a method makes of the answer.  A command is a
program over these requests, the terminal and the clock. *)
From S2P Require Import Prelude GoLib Float64 GoText Cluster Analyzer Store CliArgs.

(** ** Documents *)

Module PlanEnvelope.
Record t : Type := mk {
  Plan : option Plan.t; Strategy : string; StoredAt : time; Ratings : gmap string Z;
  CPUReclaimableMilli : Z; MemReclaimableBytes : Z; ReclaimableByCapacity : gmap string Z;
}.
End PlanEnvelope.

Module RunEnvelope.
Record t : Type := mk { Run : option Run.t; Events : list RunEvent.t }.
End RunEnvelope.

Module StepEnvelope.
Record t : Type := mk { PlanID : string; Step : PlanStep.t; Constraints : list PodConstraints.t }.
End StepEnvelope.

(** The anonymous struct of [RunStatus]. *)
Module RunsEnvelope.
Record t : Type := mk { Active : option Run.t; Latest : option Run.t }.
End RunsEnvelope.

Module ReclamationPricing.
Record t : Type := mk {
  Currency : string; PerHour : float64; PerMonth : float64; PricedNodes : Z; UnpricedNodes : Z;
  ExternalPerMonth : float64; ExternalPriced : Z;
}.
End ReclamationPricing.

Module ReclamationStats.
Record t : Type := mk {
  Awaiting : Z; Reclaimed : Z; Returned : Z; MedianReclamationSeconds : float64; WindowDays : Z;
  ReclaimedCPUMilli : Z; ReclaimedMemBytes : Z; UncountedNodes : Z; ExternallyReclaimed : Z;
  Pricing : option ReclamationPricing.t;
}.
End ReclamationStats.

Module Reclaimer.
Record t : Type := mk { ObservedWorking : bool; Detected : string }.
End Reclaimer.

Module ReclamationsEnvelope.
Record t : Type := mk {
  Tracking : bool; Reclaimer : option Reclaimer.t; Awaiting : list Reclamation.t; Recent : list Reclamation.t;
  Stats : ReclamationStats.t;
}.
End ReclamationsEnvelope.

Module PreflightBlocker.
Record t : Type := mk { Pod : string; Kind : string; Explanation : string }.
End PreflightBlocker.

Module PreflightNode.
Record t : Type := mk {
  Node : string; Ready : bool; Cordoned : bool; Pods : Z; Drainable : bool; Blockers : list PreflightBlocker.t;
}.
End PreflightNode.

Module PreflightEnvelope.
Record t : Type := mk { TakenAt : time; PlanID : string; Nodes : list PreflightNode.t; Drainable : Z; Total : Z }.
End PreflightEnvelope.

Module ResilienceFinding.
Record t : Type := mk { Kind : string; Pod : string; Node : string; Explanation : string }.
End ResilienceFinding.

Module ResilienceEnvelope.
Record t : Type := mk { TakenAt : time; PlanID : string; Findings : list ResilienceFinding.t; Pods : Z }.
End ResilienceEnvelope.

Module WhatifHomeless.
Record t : Type := mk { Pod : string; Why : list string }.
End WhatifHomeless.

Module WhatifEnvelope.
Record t : Type := mk {
  Removed : list string; Displaced : Z; Fits : bool; Homeless : list WhatifHomeless.t; BasedOn : string; TakenAt : time;
}.
End WhatifEnvelope.

Module RightsizingRow.
Record t : Type := mk {
  Workload : string; Pods : Z; RequestedMilli : Z; UsedMilli : Z; RequestedBytes : Z; UsedBytes : Z;
}.
End RightsizingRow.

Module RightsizingEnvelope.
Record t : Type := mk {
  Available : bool; Reason : string; TakenAt : time; Workloads : list RightsizingRow.t;
  TotalRequestedMilli : Z; TotalUsedMilli : Z;
}.
End RightsizingEnvelope.

Module Recommendation.
Record t : Type := mk { Kind : string; Severity : string; Workload : string; Why : string; Fix : string }.
End Recommendation.

Module RecommendationsEnvelope.
Record t : Type := mk { TakenAt : time; Recommendations : list Recommendation.t }.
End RecommendationsEnvelope.

(** What [--output json] and [yaml] encode; [DNoRuns] is the map of two nils. *)
Inductive document : Type :=
| DPlan (env : PlanEnvelope.t) | DStep (env : StepEnvelope.t) | DPod (pc : PodConstraints.t) | DRun (env : RunEnvelope.t)
| DNoRuns | DWhatif (env : WhatifEnvelope.t) | DRightsizing (env : RightsizingEnvelope.t)
| DRecommendations (env : RecommendationsEnvelope.t) | DResilience (env : ResilienceEnvelope.t)
| DPreflight (env : PreflightEnvelope.t) | DReclamations (env : ReclamationsEnvelope.t).

(** ** Requests

[Connect] finds the backend; [Encode] writes a document; [Stdin] is what the standard input holds; [Tick]
waits for the ticker and tells whether the context was done first. *)
Inductive request : Type :=
| Connect (cfg : Config.t)
| GetPlan (id : string)
| GetStep (planID : string) (seq : Z)
| GetPodConstraints (planID ns pod : string)
| PostExecute (planID : string) (steps : list Z) (dryRun : bool)
| GetRun (id : string)
| GetRuns
| GetReclamations
| PostConverge (maxNodes : Z) (maxImpact : string) (dryRun : bool)
| GetPreflight
| GetResilience
| PostDrain (node : string) (dryRun : bool)
| PostStop (runID : string)
| PostWhatif (nodes : list string) (zone : string)
| GetRightsizing
| GetRecommendations
| Stdin
| Tick
| Now
| Out (text : string)
| Encode (f : Format) (d : document).

Abbreviation result A := (string + A)%type.

Definition answer (c : request) : Type :=
  match c with
  | Connect _ | Encode _ _ => option string
  | GetPlan _ => result PlanEnvelope.t
  | GetStep _ _ => result StepEnvelope.t
  | GetPodConstraints _ _ _ => result PodConstraints.t
  | PostExecute _ _ _ | PostConverge _ _ _ | PostDrain _ _ | PostStop _ => result string
  | GetRun _ => result RunEnvelope.t
  | GetRuns => result RunsEnvelope.t
  | GetReclamations => result ReclamationsEnvelope.t
  | GetPreflight => result PreflightEnvelope.t
  | GetResilience => result ResilienceEnvelope.t
  | PostWhatif _ _ => result WhatifEnvelope.t
  | GetRightsizing => result RightsizingEnvelope.t
  | GetRecommendations => result RecommendationsEnvelope.t
  | Stdin => string
  | Tick => bool
  | Now => time
  | Out _ => ()
  end.

(** ** What goes over the wire

The method, the path relative to the server, and the document that is sent, as the
map it is encoded from. *)
Inductive json : Type :=
| JBool (b : bool) | JInt (n : Z) | JString (s : string) | JInts (l : list Z) | JStrings (l : list string).

Abbreviation body := (list (string * json)).

Module Wire.

Record t : Type := mk { method : string; path : string; sent : option body }.

Definition get (path : string) : t := mk "GET" path None.
Definition post (path : string) (b : body) : t := mk "POST" path (Some b).

Definition Plan (id : string) : t := get ("/api/v1/plans/" +:+ id).
Definition Step (planID : string) (seq : Z) : t := get ("/api/v1/plans/" +:+ planID +:+ "/steps/" +:+ pretty seq).
Definition PodConstraints (planID ns pod : string) : t :=
  get ("/api/v1/plans/" +:+ planID +:+ "/constraints/" +:+ ns +:+ "/" +:+ pod).
Definition Execute (planID : string) (steps : list Z) (dryRun : bool) : t :=
  post ("/api/v1/plans/" +:+ planID +:+ "/execute") [("steps", JInts steps); ("dryRun", JBool dryRun)].
Definition Run (id : string) : t := get ("/api/v1/runs/" +:+ id).
Definition RunStatus : t := get "/api/v1/runs".
Definition Reclamations : t := get "/api/v1/reclamations".
Definition Converge (maxNodes : Z) (maxImpact : string) (dryRun : bool) : t :=
  post "/api/v1/converge" [("maxNodes", JInt maxNodes); ("maxImpact", JString maxImpact); ("dryRun", JBool dryRun)].
Definition Preflight : t := get "/api/v1/preflight".
Definition Resilience : t := get "/api/v1/resilience".
Definition Drain (node : string) (dryRun : bool) : t :=
  post "/api/v1/drain" [("node", JString node); ("dryRun", JBool dryRun)].
Definition Stop (runID : string) : t := post ("/api/v1/runs/" +:+ runID +:+ "/stop") [].
Definition Whatif (nodes : list string) (zone : string) : t :=
  post "/api/v1/whatif"
    ((if (0 <? Z.of_nat (length nodes)) then [("removeNodes", JStrings nodes)] else []) ++
     (if negb (zone =? "")%string then [("removeZone", JString zone)] else [])).
Definition Rightsizing : t := get "/api/v1/rightsizing".
Definition Recommend : t := get "/api/v1/recommendations".

End Wire.

Definition wire (c : request) : option Wire.t :=
  match c with
  | GetPlan id => Some (Wire.Plan id)
  | GetStep planID seq => Some (Wire.Step planID seq)
  | GetPodConstraints planID ns pod => Some (Wire.PodConstraints planID ns pod)
  | PostExecute planID steps dryRun => Some (Wire.Execute planID steps dryRun)
  | GetRun id => Some (Wire.Run id)
  | GetRuns => Some Wire.RunStatus
  | GetReclamations => Some Wire.Reclamations
  | PostConverge maxNodes maxImpact dryRun => Some (Wire.Converge maxNodes maxImpact dryRun)
  | GetPreflight => Some Wire.Preflight
  | GetResilience => Some Wire.Resilience
  | PostDrain node dryRun => Some (Wire.Drain node dryRun)
  | PostStop runID => Some (Wire.Stop runID)
  | PostWhatif nodes zone => Some (Wire.Whatif nodes zone)
  | GetRightsizing => Some Wire.Rightsizing
  | GetRecommendations => Some Wire.Recommend
  | Connect _ | Stdin | Tick | Now | Out _ | Encode _ _ => None
  end.

Definition endpoint (c : request) : option (string * string) :=
  match wire c with Some w => Some (Wire.method w, Wire.path w) | None => None end.

(** ** Programs *)

Inductive prog (A : Type) : Type :=
| Ret (a : A)
| Call (c : request) (k : answer c → prog A).

Arguments Ret {A} a.
Arguments Call {A} c k.

Fixpoint bind {A B} (p : prog A) (f : A → prog B) : prog B :=
  match p with
  | Ret a => f a
  | Call c k => Call c (λ r, bind (k r) f)
  end.

Definition call (c : request) : prog (answer c) := Call c Ret.

(** [if err != nil { return err }] *)
Definition bind_ok {A B} (p : prog (result A)) (f : A → prog (result B)) : prog (result B) :=
  bind p (λ r, match r with inl err => Ret (inl err) | inr a => f a end).

Declare Scope cli_scope.
Delimit Scope cli_scope with cli.
Notation "'do' x '<-' p ';;' q" := (bind p (λ x, q)) (at level 60, x name, p at level 59, right associativity) : cli_scope.
Notation "'try' x '<-' p ';;' q" := (bind_ok p (λ x, q)) (at level 60, x name, p at level 59, right associativity) : cli_scope.
Notation "p ';;;' q" := (bind p (λ _, q)) (at level 60, right associativity) : cli_scope.

#[local] Open Scope cli_scope.

Definition print (text : string) : prog () := call (Out text).
Definition println (text : string) : prog () := print (text +:+ nl).

(** ** The world

What answers: a function of everything that happened before. *)
Inductive occurrence : Type := Ev (c : request) (r : answer c).

Abbreviation history := (list occurrence).

Definition world : Type := ∀ (h : history) (c : request), answer c.

(** The result, and everything that happened. *)
Fixpoint run {A} (w : world) (h : history) (p : prog A) : A * history :=
  match p with
  | Ret a => (a, h)
  | Call c k => let r := w h c in run w (h ++ [Ev c r]) (k r)
  end.

(** ** Methods of the client that do more than ask *)

Module Client.

Definition Plan (id : string) : prog (result (PlanEnvelope.t * Plan.t)) :=
  try out <- call (GetPlan id) ;;
  match PlanEnvelope.Plan out with
  | None => Ret (inl "no plan available yet")
  | Some p => Ret (inr (out, p))
  end.

Definition Run (id : string) : prog (result (RunEnvelope.t * Run.t)) :=
  try out <- call (GetRun id) ;;
  match RunEnvelope.Run out with
  | None => Ret (inl ("run " +:+ id +:+ " not found"))
  | Some r => Ret (inr (out, r))
  end.

(** The statuses [Wait] takes for the end of a run. *)
Definition ended (s : RunStatus) : bool :=
  bool_decide (s = RunSucceeded) || bool_decide (s = RunFailed) || bool_decide (s = RunBlocked).

Fixpoint each {A} (f : A → prog ()) (l : list A) : prog () :=
  match l with
  | [] => Ret ()
  | x :: l => f x ;;; each f l
  end.

(** [polls] bounds the number of requests; [None] when they are used up.  [seen] is
how many events have been reported. *)
Fixpoint Wait (polls : nat) (runID : string) (onEvent : RunEvent.t → prog ()) (seen : nat) : prog (result (option Run.t)) :=
  match polls with
  | O => Ret (inr None)
  | S polls =>
      try env <- Run runID ;;
      let events := RunEnvelope.Events env.1 in
      each onEvent (drop (min seen (length events)) events) ;;;
      if ended (Run.Status env.2) then Ret (inr (Some env.2))
      else
        do done_ <- call Tick ;;
        if (done_ : bool) then
          Ret (inl ("stopped watching run " +:+ runID +:+ "; it is still running in the cluster"))
        else Wait polls runID onEvent (length events)
  end.

End Client.
