(* ===== verification/CliRender.v ===== *)
(** * What the command line prints (internal/cli/render.go)

Texts as functions of the documents, of whether colour is on, and of the readings
of the clock.  [text/tabwriter] is modelled as the tables use it: cells ended by
tabs, padded with two spaces or more to the column. *)
From S2P Require Import Prelude GoLib Float64 GoText GoTime Model Cluster Fixtures Analyzer Store CliArgs CliClient.

(** ** Colour *)

Definition esc : string := String (Ascii.ascii_of_nat 27) "[".

Definition paint (colour : bool) (code s : string) : string :=
  if colour then esc +:+ code +:+ "m" +:+ s +:+ esc +:+ "0m" else s.

Definition green (colour : bool) (s : string) : string := paint colour "32" s.
Definition yellow (colour : bool) (s : string) : string := paint colour "33" s.
Definition red (colour : bool) (s : string) : string := paint colour "31" s.
Definition dim (colour : bool) (s : string) : string := paint colour "2" s.
Definition bold (colour : bool) (s : string) : string := paint colour "1" s.

(** [terminal]: standard output is one. *)
Definition wantsColour (NO_COLOR TERM : string) (terminal : bool) : bool :=
  if negb (NO_COLOR =? "")%string || (TERM =? "dumb")%string then false else terminal.

Definition impactMark (colour : bool) (i : ImpactRating) : string :=
  match i with
  | ImpactGreen => green colour "● Green "
  | ImpactYellow => yellow colour "▲ Yellow"
  | ImpactRed => red colour "■ Red   "
  | ImpactOther s => s
  end.

Definition statusMark (colour : bool) (s : RunStatus) : string :=
  match s with
  | RunSucceeded => green colour "Succeeded"
  | RunFailed => red colour "Failed"
  | RunBlocked => yellow colour "Blocked"
  | _ => status_string s
  end.

(** Every turn drops at least two bytes, so the length of the text is fuel enough. *)
Fixpoint strip (fuel : nat) (s : string) : string :=
  match fuel with
  | O => s
  | S fuel =>
      match String.index 0 esc s with
      | None => s
      | Some i =>
          match Cut (str_drop i s) "m"%char with
          | None => s
          | Some (_, after) => strip fuel (str_take i s +:+ after)
          end
      end
  end.

Definition stripANSI (s : string) : string := strip (String.length s) s.

(** ** Numbers and durations *)

Definition formatMilli (milli : Z) : string :=
  if Z.rem milli 1000 =? 0 then pretty (Z.quot milli 1000)
  else fixed 1 (F64.div (F64.of_Z milli) (F64.of_Z 1000)).

(** The loop of [formatBytes]. *)
Fixpoint bytes_loop (fuel : nat) (n dv exp : Z) : Z * Z :=
  match fuel with
  | O => (dv, exp)
  | S fuel => if 1024 <=? n then bytes_loop fuel (n / 1024) (dv * 1024) (exp + 1) else (dv, exp)
  end.

Definition byte_units : list string := ["KiB"; "MiB"; "GiB"; "TiB"].

(** [None]: the index of the unit is out of range. *)
Definition formatBytes (b : Z) : option string :=
  if b <? 1024 then Some (pretty b +:+ " B")
  else
    let '(dv, exp) := bytes_loop 6 (b / 1024) 1024 0 in
    let v := F64.div (F64.of_Z b) (F64.of_Z dv) in
    unit_ ← byte_units !! Z.to_nat exp;
    Some (if F64.eqb v (F64.of_Z (F64.to_Z v)) then pretty (F64.to_Z v) +:+ " " +:+ unit_
          else fixed 1 v +:+ " " +:+ unit_).

(** [Duration.Hours], [Minutes], [Seconds]: the whole units and the rest. *)
Definition in_units (unit_ : duration) (d : duration) : float64 :=
  F64.add (F64.of_Z (Z.quot d unit_)) (F64.div (F64.of_Z (Z.rem d unit_)) (F64.of_Z unit_)).

Definition humanDuration (d : duration) : string :=
  if 48 * Hour <=? d then pretty (F64.to_Z (F64.div (in_units Hour d) (F64.of_Z 24))) +:+ "d"
  else if 2 * Hour <=? d then pretty (F64.to_Z (in_units Hour d)) +:+ "h"
  else if Minute <=? d then pretty (F64.to_Z (in_units Minute d)) +:+ "m"
  else pretty (F64.to_Z (in_units Second d)) +:+ "s".

Definition money (currency : string) (v : float64) : string :=
  if (currency =? "")%string then fixed 2 v else fixed 2 v +:+ " " +:+ currency.

Definition truncate (s : string) (n : nat) : string :=
  if (String.length s <=? n)%nat then s
  else if (n <=? 1)%nat then str_take n s
  else str_take (n - 1) s +:+ "…".

(** [d.Round(time.Second)]: half away from zero, saturating. *)
Definition round_second (d : duration) : duration :=
  let r := Z.rem d Second in
  if d <? 0 then
    if Second <=? - r + - r then Z.max (d - r - Second) (- 2 ^ 63) else d - r
  else if Second <=? r + r then Z.min (d - r + Second) (2 ^ 63 - 1) else d - r.

Definition time_since (now t : time) : duration := time_Sub now t.

Definition countOlderThan (rs : list Reclamation.t) (d : duration) (now : time) : Z :=
  Z.of_nat (length (List.filter (λ r, d <? Reclamation.Age r now) rs)).

(** ** Tables *)

Definition tab : Ascii.ascii := Ascii.ascii_of_nat 9.

(** The last cell of a line is in no column. *)
Definition in_column (column : nat) (line : list string) : bool := (column + 1 <? length line)%nat.

(** A line with its cells padded to the widths known. *)
Fixpoint write_line (widths : list Z) (line : list string) : string :=
  match line, widths with
  | [], _ => ""
  | c :: line, w :: widths => c +:+ spaces_of (w - RuneCountInString c) +:+ write_line widths line
  | c :: line, [] => c +:+ write_line [] line
  end.

(** [Writer.format]: a block of lines with a cell in the next column gets its width
and is formatted to the right of it; the lines between blocks are written. *)
Fixpoint format (fuel : nat) (widths : list Z) (lines : list (list string)) : list string :=
  match fuel with
  | O => write_line widths <$> lines
  | S fuel =>
      let column := length widths in
      let flush block :=
        match block with
        | [] => []
        | _ => format fuel (widths ++ [foldr (λ line w, Z.max (RuneCountInString (nth column line "") + 2) w) 0 block]) block
        end in
      (fix blocks (lines block : list (list string)) : list string :=
         match lines with
         | [] => flush block
         | line :: lines =>
             if in_column column line then blocks lines (block ++ [line])
             else flush block ++ write_line widths line :: blocks lines []
         end) lines []
  end.

(** What is printed through a [tabwriter] and flushed. *)
Definition tabulate (s : string) : string :=
  let lines := Split_on tab <$> Split_on newline s in
  join nl (format (foldr (λ l n, max (length l) n) 0%nat lines) [] lines).

Definition row (cells : list string) : string := join (String tab "") cells +:+ nl.

Example tabulate_example :
  tabulate (row ["A"; "BB"; "C"] +:+ row ["long"; "b"; "c"]) = "A     BB  C" +:+ nl +:+ "long  b   c" +:+ nl.
Proof. by vm_compute. Qed.

(** ** Plans and steps *)

(** [fmt.Fprintln] *)
Definition line (s : string) : string := s +:+ nl.

Definition count_of (m : gmap string Z) (k : string) : Z := default 0 (m !! k).

Definition reclaimSummary (env : PlanEnvelope.t) (p : Plan.t) : option string :=
  let n := pretty (Plan.ReclaimedNodes p) in
  if PlanEnvelope.CPUReclaimableMilli env <=? 0 then Some (n +:+ " reclaimable")
  else
    mem ← formatBytes (PlanEnvelope.MemReclaimableBytes env);
    let spot := count_of (PlanEnvelope.ReclaimableByCapacity env) "spot" in
    let od := count_of (PlanEnvelope.ReclaimableByCapacity env) "on-demand" in
    Some (n +:+ " reclaimable (" +:+ formatMilli (PlanEnvelope.CPUReclaimableMilli env) +:+ " cores, " +:+ mem +:+
          (if (0 <? spot) || (0 <? od) then "; " +:+ pretty spot +:+ " spot, " +:+ pretty od +:+ " on-demand" else "") +:+ ")").

(** The clock is read for each age. *)
Definition freshness (t1 t2 : time) (env : PlanEnvelope.t) (p : Plan.t) : string :=
  let confirmed := round_second (time_since t1 (PlanEnvelope.StoredAt env)) in
  let computed := round_second (time_since t2 (Plan.GeneratedAt p)) in
  if IsZeroTime (PlanEnvelope.StoredAt env) then duration_string computed +:+ " old"
  else if int64_sub computed confirmed <? Minute then duration_string computed +:+ " old"
  else "confirmed " +:+ duration_string confirmed +:+ " ago, unchanged for " +:+ duration_string computed.

Definition firstRunnable (p : Plan.t) : option PlanStep.t :=
  List.find (λ s, negb (bool_decide (PlanStep.Impact s = ImpactRed))) (Plan.Steps p).

Definition countRed (p : Plan.t) : Z :=
  Z.of_nat (length (List.filter (λ s, bool_decide (PlanStep.Impact s = ImpactRed)) (Plan.Steps p))).

Definition count {A} (l : list A) : string := pretty (Z.of_nat (length l)).

Definition step_row (colour : bool) (s : PlanStep.t) : string :=
  row [pretty (PlanStep.SequenceNumber s); impactMark colour (PlanStep.Impact s); PlanStep.TargetNode s;
       count (PlanStep.Moves s); truncate (PlanStep.Rationale s) 58].

Definition next_action (colour : bool) (p : Plan.t) : string :=
  match firstRunnable p with
  | None => ""
  | Some next =>
      nl +:+ bold colour "Next:" +:+ " drain " +:+ PlanStep.TargetNode next +:+ " (" +:+
      TrimSpace (stripANSI (impactMark colour (PlanStep.Impact next))) +:+ ")" +:+ nl +:+
      "  dencer run --steps " +:+ pretty (PlanStep.SequenceNumber next) +:+ nl
  end.

Definition PrintPlan (colour : bool) (t1 t2 : time) (env : PlanEnvelope.t) (p : Plan.t) (awaiting : Z) : option string :=
  worth ← reclaimSummary env p;
  let head :=
    bold colour ("plan " +:+ Plan.ID p) +:+ "  " +:+
    dim colour (freshness t1 t2 env p +:+ ", " +:+ PlanEnvelope.Strategy env) +:+ nl +:+
    pretty (Plan.NodesBefore p) +:+ " nodes now, " +:+ pretty (Plan.NodesAfter p) +:+ " after, " +:+
    bold colour worth +:+ nl +:+ nl in
  Some (match Plan.Steps p with
        | [] => head +:+ line "No steps. Nothing to consolidate — every node is either needed or undrainable."
        | steps =>
            head +:+
            tabulate (row ["STEP"; "IMPACT"; "DRAINS"; "PODS"; "WHY"] +:+ sconcat (step_row colour <$> steps)) +:+
            next_action colour p +:+
            (if 0 <? countRed p then
               nl +:+ red colour "■" +:+ " " +:+ pretty (countRed p) +:+ " step(s) are Red and need an open MaintenanceWindow." +:+ nl
             else "") +:+
            (if 0 <? awaiting then
               nl +:+ yellow colour "▲" +:+ " " +:+ pretty awaiting +:+
               " previously drained node(s) are still awaiting reclamation." +:+ nl +:+ line "  dencer reclamations"
             else "")
        end).

Definition reason_line (r : ImpactReason.t) : string :=
  line ("  - " +:+ ImpactReason.Kind r +:+
        (if (ImpactReason.Subject r =? "")%string then "" else " " +:+ ImpactReason.Subject r) +:+
        (if (ImpactReason.Detail r =? "")%string then "" else ": " +:+ ImpactReason.Detail r)).

Definition move_row (m : Move.t) : string :=
  row ["  " +:+ Move.Namespace m +:+ "/" +:+ Move.Pod m; Move.FromNode m; Move.ToNode m].

Definition PrintStep (colour : bool) (env : StepEnvelope.t) : string :=
  let s := StepEnvelope.Step env in
  let blocked := List.filter (λ pc, negb (PodConstraints.Movable pc)) (StepEnvelope.Constraints env) in
  bold colour ("step " +:+ pretty (PlanStep.SequenceNumber s)) +:+ "  " +:+ impactMark colour (PlanStep.Impact s) +:+ nl +:+
  "drains " +:+ PlanStep.TargetNode s +:+ ", moving " +:+ count (PlanStep.Moves s) +:+ " pod(s)" +:+ nl +:+ nl +:+
  line (PlanStep.Rationale s) +:+
  (match PlanStep.Reasons s with
   | [] => ""
   | reasons => nl +:+ line (bold colour "Because") +:+ sconcat (reason_line <$> reasons)
   end) +:+
  (match PlanStep.Moves s with
   | [] => ""
   | moves => nl +:+ line (bold colour "Moves") +:+ tabulate (row ["  POD"; "FROM"; "TO"] +:+ sconcat (move_row <$> moves))
   end) +:+
  (match blocked with
   | [] => ""
   | _ => nl +:+ yellow colour "▲" +:+ " " +:+ count blocked +:+
          " of the pods on this node cannot move. Run 'dencer why <ns>/<pod>' for one." +:+ nl
   end).

Definition constraintLine (c : Constraint.t) : string :=
  let head := kind_string (Constraint.kind c) +:+
              (if (Constraint.Subject c =? "")%string then "" else " " +:+ Constraint.Subject c) in
  if (Constraint.Explanation c =? "")%string then head else head +:+ ": " +:+ Constraint.Explanation c.

(** A heading with the constraints under it, or nothing. *)
Definition constraint_section (title mark : string) (cs : list Constraint.t) : string :=
  match cs with
  | [] => ""
  | _ => nl +:+ line title +:+ sconcat ((λ c, line ("  " +:+ mark +:+ " " +:+ constraintLine c)) <$> cs)
  end.

Definition PrintPodConstraints (colour : bool) (pc : PodConstraints.t) : string :=
  bold colour (PodConstraints.Key pc) +:+ "  " +:+
  (if PodConstraints.Movable pc then green colour "● can move" else red colour "■ cannot move") +:+ nl +:+
  (if (PodConstraints.NodeName pc =? "")%string then "" else line ("on " +:+ PodConstraints.NodeName pc)) +:+
  constraint_section (bold colour "Blocked by") (red colour "■") (PodConstraints.Blockers pc) +:+
  constraint_section (bold colour "Also constrained by") (dim colour "·")
    (List.filter (λ c, negb (Constraint.Blocking c)) (PodConstraints.Constraints pc)) +:+
  nl +:+ count (PodConstraints.CandidateNodes pc) +:+ " node(s) could take it" +:+
  (if PodConstraints.Movable pc && bool_decide (PodConstraints.CandidateNodes pc = []) then
     " — " +:+ yellow colour "effectively stuck" +:+ ": nothing forbids moving it, but nowhere has room"
   else "") +:+ nl.

(** ** Runs *)

(** [Format("15:04:05")] of a time in UTC *)
Definition clock (t : time) : string :=
  let tod := t / Second mod 86400 in
  pad2 (tod / 3600) +:+ ":" +:+ pad2 (tod / 60 mod 60) +:+ ":" +:+ pad2 (tod mod 60).

Definition PrintEvent (colour : bool) (ev : RunEvent.t) : string :=
  let mark := match RunEvent.Level ev with
              | EventBlocked => yellow colour "▲" | EventError => red colour "■" | EventInfo => " "
              end in
  let where_ := if (RunEvent.Pod ev =? "")%string then RunEvent.Node ev else RunEvent.Pod ev in
  let rule := if (RunEvent.Rule ev =? "")%string then "" else " [" +:+ RunEvent.Rule ev +:+ "]" in
  "  " +:+ mark +:+ " " +:+ dim colour (clock (RunEvent.At ev)) +:+ " " +:+ pad_right 8 (RunEvent.Action ev) +:+ " " +:+
  pad_right 28 (truncate where_ 28) +:+ " " +:+ RunEvent.Message ev +:+ dim colour rule +:+ nl.

(** [%v] of a slice of numbers *)
Definition show_ints (l : list Z) : string := "[" +:+ join " " (pretty <$> l) +:+ "]".

Definition PrintRun (colour : bool) (env : RunEnvelope.t) (r : Run.t) : string :=
  bold colour ("run " +:+ Run.ID r) +:+ "  " +:+ statusMark colour (Run.Status r) +:+ nl +:+
  "plan " +:+ Run.PlanID r +:+ ", steps " +:+ show_ints (Run.Steps r) +:+ ", by " +:+ Run.Actor r +:+ nl +:+
  (if (Run.Summary r =? "")%string then "" else line (Run.Summary r)) +:+
  (match RunEnvelope.Events env with
   | [] => ""
   | events => nl +:+ line (bold colour "Audit trail") +:+ sconcat (PrintEvent colour <$> events)
   end).

(** ** What became of drained nodes *)

(** One row of the awaiting table: the node, how long ago, the run. *)
Definition awaiting_row (colour : bool) (now : time) (r : Reclamation.t) : string :=
  let age := Reclamation.Age r now in
  row [(if 24 * Hour <? age then yellow colour "▲ " else "  ") +:+ Reclamation.Node r;
       humanDuration age +:+ " ago"; Reclamation.RunID r].

Definition awaiting_section (colour : bool) (now : time) (awaiting : list Reclamation.t) : string :=
  match awaiting with
  | [] => ""
  | _ =>
      let stale := countOlderThan awaiting (24 * Hour) now in
      line (bold colour "Awaiting reclamation") +:+
      tabulate (row ["  NODE"; "DRAINED"; "RUN"] +:+ sconcat (awaiting_row colour now <$> awaiting)) +:+
      (if 0 <? stale then
         nl +:+ yellow colour "▲" +:+ " " +:+ pretty stale +:+ " node(s) drained over a day ago and still present." +:+ nl +:+
         line "  Draining frees capacity; something else has to remove the machine." +:+
         line "  If nothing is going to, uncordon them: kubectl uncordon <node>"
       else "") +:+ nl
  end.

Definition reclaimer_section (colour : bool) (r : option Reclaimer.t) : string :=
  match r with
  | Some r =>
      if Reclaimer.ObservedWorking r then ""
      else if negb (Reclaimer.Detected r =? "")%string then
        yellow colour "▲" +:+ " " +:+ Reclaimer.Detected r +:+
        " is present but has never been observed removing a node here." +:+ nl +:+ nl
      else
        yellow colour "▲" +:+ " No node removal has ever been observed here, and no autoscaler is visible." +:+ nl +:+
        line "  (A managed control plane's autoscaler would be invisible to this check.)" +:+
        line "  Until something removes them, drained nodes stay allocated — and billed." +:+ nl
  | None => ""
  end.

Definition observed_section (colour : bool) (s : ReclamationStats.t) : string :=
  bold colour "Observed" +:+ " (last " +:+ pretty (ReclamationStats.WindowDays s) +:+ " days)" +:+ nl +:+
  "  " +:+ green colour (pretty (ReclamationStats.Reclaimed s)) +:+ " reclaimed" +:+
  (if (0 <? ReclamationStats.Reclaimed s) && F64.ltb F64.zero (ReclamationStats.MedianReclamationSeconds s) then
     ", median " +:+ humanDuration (wrap64 (F64.to_Z (ReclamationStats.MedianReclamationSeconds s) * Second))
   else "") +:+ nl +:+
  (if 0 <? ReclamationStats.Returned s then
     "  " +:+ pretty (ReclamationStats.Returned s) +:+ " returned to service instead" +:+ nl else "").

Definition ledger_section (colour : bool) (s : ReclamationStats.t) : option string :=
  if (0 <? ReclamationStats.ReclaimedCPUMilli s) || (0 <? ReclamationStats.ReclaimedMemBytes s) then
    mem ← formatBytes (ReclamationStats.ReclaimedMemBytes s);
    Some (nl +:+ bold colour "Ledger:" +:+ " " +:+ formatMilli (ReclamationStats.ReclaimedCPUMilli s) +:+ " cores, " +:+
          mem +:+ " actually returned" +:+ nl +:+
          (if 0 <? ReclamationStats.UncountedNodes s then
             "  (+" +:+ pretty (ReclamationStats.UncountedNodes s) +:+
             " node(s) reclaimed before capacity was recorded; their savings are real but unmeasured)" +:+ nl
           else ""))
  else Some "".

Definition worth_section (colour : bool) (p : option ReclamationPricing.t) : string :=
  match p with
  | Some p =>
      if 0 <? ReclamationPricing.PricedNodes p then
        "  " +:+ bold colour "Worth:" +:+ " " +:+ money (ReclamationPricing.Currency p) (ReclamationPricing.PerMonth p) +:+
        "/month no longer spent, across " +:+ pretty (ReclamationPricing.PricedNodes p) +:+ " node(s)" +:+ nl +:+
        (if 0 <? ReclamationPricing.UnpricedNodes p then
           "  (" +:+ pretty (ReclamationPricing.UnpricedNodes p) +:+
           " node(s) unpriced — add their machine type to uiBackend.pricing)" +:+ nl
         else "")
      else ""
  | None => ""
  end.

Definition external_section (s : ReclamationStats.t) : string :=
  if 0 <? ReclamationStats.ExternallyReclaimed s then
    nl +:+ "  " +:+ pretty (ReclamationStats.ExternallyReclaimed s) +:+
    " node(s) left the cluster without k8s-dencer draining them —" +:+ nl +:+
    line "  an autoscaler, or someone with kubectl. Not counted as this tool's doing." +:+
    match ReclamationStats.Pricing s with
    | Some p =>
        if 0 <? ReclamationPricing.ExternalPriced p then
          "  (worth " +:+ money (ReclamationPricing.Currency p) (ReclamationPricing.ExternalPerMonth p) +:+
          "/month, which the cluster saved and this tool did not)" +:+ nl
        else ""
    | None => ""
    end
  else "".

Definition PrintReclamations (colour : bool) (now : time) (env : ReclamationsEnvelope.t) : option string :=
  let s := ReclamationsEnvelope.Stats env in
  if negb (ReclamationsEnvelope.Tracking env) then Some (line "Reclamation tracking is not available on this backend.")
  else if bool_decide (ReclamationsEnvelope.Awaiting env = []) && (ReclamationStats.Reclaimed s =? 0) &&
          (ReclamationStats.Returned s =? 0)
  then Some (line "No nodes have been drained yet.")
  else
    ledger ← ledger_section colour s;
    Some (awaiting_section colour now (ReclamationsEnvelope.Awaiting env) +:+
          reclaimer_section colour (ReclamationsEnvelope.Reclaimer env) +:+ observed_section colour s +:+ ledger +:+
          worth_section colour (ReclamationStats.Pricing s) +:+ external_section s).

(** ** Reports *)

Definition blocker_lines (colour : bool) (b : PreflightBlocker.t) : string :=
  line ("    " +:+ PreflightBlocker.Pod b +:+ "  " +:+ dim colour ("[" +:+ PreflightBlocker.Kind b +:+ "]")) +:+
  line ("      " +:+ PreflightBlocker.Explanation b).

Definition node_lines (colour : bool) (n : PreflightNode.t) : string :=
  line (red colour "■" +:+ " " +:+ bold colour (PreflightNode.Node n) +:+ "  (" +:+ pretty (PreflightNode.Pods n) +:+ " pods)") +:+
  sconcat (blocker_lines colour <$> PreflightNode.Blockers n).

Definition PrintPreflight (colour : bool) (now : time) (env : PreflightEnvelope.t) : string :=
  let blocked := List.filter (λ n, negb (PreflightNode.Drainable n)) (PreflightEnvelope.Nodes env) in
  bold colour (pretty (PreflightEnvelope.Drainable env) +:+ " of " +:+ pretty (PreflightEnvelope.Total env) +:+ " nodes will drain cleanly") +:+
  "  " +:+ dim colour ("as of " +:+ humanDuration (time_since now (PreflightEnvelope.TakenAt env)) +:+ " ago") +:+ nl +:+ nl +:+
  sconcat (node_lines colour <$> blocked) +:+
  match blocked with
  | [] => line "Every node can be drained. A rolling node replacement will not wedge on today's state."
  | _ => nl +:+ "A rotation will stall at " +:+ count blocked +:+ " node(s) unless the blockers above are resolved first." +:+ nl +:+
         line "State changes; re-run this immediately before upgrading."
  end.

(** The findings under a heading per run of one kind; [kind] is the last heading. *)
Fixpoint finding_lines (colour : bool) (kind : string) (fs : list ResilienceFinding.t) : string :=
  match fs with
  | [] => ""
  | f :: fs =>
      (if (ResilienceFinding.Kind f =? kind)%string then "" else line (bold colour (ResilienceFinding.Kind f))) +:+
      "  " +:+ yellow colour "▲" +:+ " " +:+ ResilienceFinding.Pod f +:+
      (if (ResilienceFinding.Node f =? "")%string then "" else dim colour (" on " +:+ ResilienceFinding.Node f)) +:+ nl +:+
      "    " +:+ ResilienceFinding.Explanation f +:+ nl +:+ finding_lines colour (ResilienceFinding.Kind f) fs
  end.

Definition PrintResilience (colour : bool) (now : time) (env : ResilienceEnvelope.t) : string :=
  match ResilienceEnvelope.Findings env with
  | [] =>
      line (bold colour "No availability findings.") +:+
      "Every pod can be evicted and every PodDisruptionBudget has headroom (" +:+ pretty (ResilienceEnvelope.Pods env) +:+
      " pods analysed)." +:+ nl
  | fs =>
      bold colour (count fs +:+ " availability finding(s)") +:+ "  " +:+
      dim colour ("across " +:+ pretty (ResilienceEnvelope.Pods env) +:+ " pods, as of " +:+
                  humanDuration (time_since now (ResilienceEnvelope.TakenAt env)) +:+ " ago") +:+ nl +:+ nl +:+
      finding_lines colour "" fs +:+ nl +:+
      line "Each finding names a pod a node loss would hurt — voluntarily drained or not."
  end.

Definition homeless_lines (colour : bool) (h : WhatifHomeless.t) : string :=
  line ("  " +:+ red colour "■" +:+ " " +:+ WhatifHomeless.Pod h) +:+
  sconcat ((λ why, line ("      " +:+ why)) <$> WhatifHomeless.Why h).

Definition PrintWhatif (colour : bool) (env : WhatifEnvelope.t) : string :=
  "Simulated losing " +:+ count (WhatifEnvelope.Removed env) +:+ " node(s): " +:+ join ", " (WhatifEnvelope.Removed env) +:+ nl +:+
  pretty (WhatifEnvelope.Displaced env) +:+ " pod(s) displaced." +:+ nl +:+ nl +:+
  if WhatifEnvelope.Fits env then
    line (bold colour (green colour "Everything fits.")) +:+
    line "The constraint engine found every displaced pod a legal home on the surviving nodes." +:+
    line (dim colour "A fit here is the engine's answer, not a promise about the scheduler on the day.")
  else
    line (bold colour (red colour (count (WhatifEnvelope.Homeless env) +:+ " pod(s) would have nowhere legal to go:"))) +:+
    sconcat (homeless_lines colour <$> WhatifEnvelope.Homeless env).

Definition sizing_row (r : RightsizingRow.t) : option string :=
  req ← formatBytes (RightsizingRow.RequestedBytes r);
  used ← formatBytes (RightsizingRow.UsedBytes r);
  Some (row [RightsizingRow.Workload r; pretty (RightsizingRow.Pods r); formatMilli (RightsizingRow.RequestedMilli r);
             formatMilli (RightsizingRow.UsedMilli r); req; used]).

Definition PrintRightsizing (colour : bool) (now : time) (env : RightsizingEnvelope.t) : option string :=
  if negb (RightsizingEnvelope.Available env) then
    Some (line "No usage data." +:+ line ("  " +:+ RightsizingEnvelope.Reason env))
  else
    rows ← mapM sizing_row (take 15 (RightsizingEnvelope.Workloads env));
    let more := Z.of_nat (length (RightsizingEnvelope.Workloads env)) - 15 in
    Some (bold colour ("Cluster requests " +:+ formatMilli (RightsizingEnvelope.TotalRequestedMilli env) +:+
                       " cores, observed use " +:+ formatMilli (RightsizingEnvelope.TotalUsedMilli env) +:+ " cores") +:+ "  " +:+
          dim colour ("as of " +:+ humanDuration (time_since now (RightsizingEnvelope.TakenAt env)) +:+ " ago") +:+ nl +:+ nl +:+
          tabulate (row ["WORKLOAD"; "PODS"; "CPU REQ"; "CPU USED"; "MEM REQ"; "MEM USED"] +:+ sconcat rows) +:+
          (if 0 <? more then "…and " +:+ pretty more +:+ " more (use -o json for all)" +:+ nl else "") +:+
          line (dim colour (nl +:+ "Sorted by absolute CPU excess. Usage is a point-in-time sample, not a peak;")) +:+
          line (dim colour "shrink requests against your own percentiles, not against this single reading.")).

Definition recommendation_lines (colour : bool) (r : Recommendation.t) : string :=
  line (ToUpper (Recommendation.Severity r) +:+ " " +:+ bold colour (Recommendation.Workload r) +:+ "  " +:+
        dim colour ("[" +:+ Recommendation.Kind r +:+ "]")) +:+
  line ("  " +:+ Recommendation.Why r) +:+
  (if (Recommendation.Fix r =? "")%string then ""
   else sconcat ((λ l, line ("    " +:+ dim colour l)) <$> Split_on newline (Recommendation.Fix r))) +:+ nl.

Definition PrintRecommendations (colour : bool) (now : time) (env : RecommendationsEnvelope.t) : string :=
  match RecommendationsEnvelope.Recommendations env with
  | [] =>
      line (bold colour "Nothing to recommend.") +:+
      line "Every workload has requests, replicas and a governed disruption budget."
  | recs =>
      bold colour (count recs +:+ " recommendation(s)") +:+ "  " +:+
      dim colour ("as of " +:+ humanDuration (time_since now (RecommendationsEnvelope.TakenAt env)) +:+ " ago") +:+ nl +:+ nl +:+
      sconcat (recommendation_lines colour <$> recs)
  end.

(** * What printing loses

Sizes that have no unit, and colour, which carries nothing on its own. *)

(** ** Sizes *)

Lemma leb_div k b : 0 <= k → (1024 <=? b / 2 ^ k) = (2 ^ (k + 10) <=? b).
Proof.
  intros Hk. rewrite Z.pow_add_r by lia. assert (0 < 2 ^ k) by (apply Z.pow_pos_nonneg; lia).
  destruct (Z.leb_spec (2 ^ k * 2 ^ 10) b) as [Hb|Hb].
  - apply Z.leb_le, Z.div_le_lower_bound; lia.
  - apply Z.leb_gt, Z.div_lt_upper_bound; lia.
Qed.

Lemma div_again k b : 0 <= k → b / 2 ^ k / 1024 = b / 2 ^ (k + 10).
Proof. intros Hk. rewrite Z.pow_add_r, Z.div_div by (try apply Z.pow_pos_nonneg; lia). done. Qed.

(** The unit is the power of 1024 below the size. *)
Lemma bytes_loop_step fuel b k dv e :
  0 <= k →
  bytes_loop (S fuel) (b / 2 ^ k) dv e =
  if 2 ^ (k + 10) <=? b then bytes_loop fuel (b / 2 ^ (k + 10)) (dv * 1024) (e + 1) else (dv, e).
Proof. intros Hk. cbn [bytes_loop]. by rewrite leb_div, div_again. Qed.

Lemma bytes_loop_exp b :
  1024 <= b < 2 ^ 63 → 0 <= (bytes_loop 6 (b / 1024) 1024 0).2 ∧ ((bytes_loop 6 (b / 1024) 1024 0).2 < 4 ↔ b < 2 ^ 50).
Proof.
  intros Hb. assert (E : b / 1024 = b / 2 ^ 10) by done. rewrite E. rewrite !bytes_loop_step by lia.
  cbn [Z.add Pos.add Pos.succ].
  repeat match goal with |- context [if ?x <=? b then _ else _] => destruct (Z.leb_spec x b) end; cbn [bytes_loop snd]; lia.
Qed.

Lemma byte_units_lookup e : 0 <= e → (byte_units !! Z.to_nat e = None ↔ 4 <= e).
Proof. intros He. rewrite lookup_ge_None. cbn. lia. Qed.

(** Every size below a pebibyte is printed with its unit; from there on the index
of the unit is out of range, and printing the page panics. *)
Theorem formatBytes_panics_iff b : b < 2 ^ 63 → (formatBytes b = None ↔ 2 ^ 50 <= b).
Proof.
  intros Hb. unfold formatBytes. destruct (Z.ltb_spec b 1024); [split; [done|lia]|].
  destruct (bytes_loop_exp b) as [He Hlt]; [lia|]. destruct (bytes_loop _ _ _ _) as [dv e]. cbn [snd] in *.
  pose proof (byte_units_lookup e He) as Hu. destruct (byte_units !! Z.to_nat e); cbn [mbind option_bind].
  - split; [done|]. intros H50. apply proj2 in Hu. by assert (Some s = None) by (apply Hu; lia).
  - split; [|done]. intros _. destruct Hu as [Hu _]. specialize (Hu eq_refl). lia.
Qed.

Lemma formatBytes_panics_iff_witness : formatBytes (2 ^ 50) = None.
Proof. by apply (formatBytes_panics_iff (2 ^ 50)). Defined.

(** ** Colour *)

(** A mark says the same without its colour: the glyph and the word are left. *)
Lemma marks_without_colour :
  (λ r, stripANSI (impactMark true r)) <$> [ImpactGreen; ImpactYellow; ImpactRed] =
  impactMark false <$> [ImpactGreen; ImpactYellow; ImpactRed] ∧
  NoDup (impactMark false <$> [ImpactGreen; ImpactYellow; ImpactRed]).
Proof. split; [by vm_compute|]. apply (bool_decide_unpack _). by vm_compute. Qed.

(** A table counts the codes of a colour as width: its heading is set apart from its
column. *)
Lemma colour_moves_columns :
  let table colour := tabulate (row ["IMPACT"; "DRAINS"] +:+ row [impactMark colour ImpactGreen; "worker-3"]) in
  stripANSI (table true) ≠ table false.
Proof. by vm_compute. Qed.
