(* ===== verification/CliCommands.v ===== *)
(** * The commands (cmd/dencer/main.go, internal/cli/confirm.go)

Each command as a program: its flags, what it asks of the API, what it shows, the
consent it asks for, and how it ends. *)
From S2P Require Import Prelude GoLib GoText GoFlag Cluster Analyzer Store CliArgs CliClient CliRender.

#[local] Open Scope cli_scope.

(** ** Consent (confirm.go) *)

(** The steps of the plan that are wanted, once for each time they are. *)
Definition wanted (plan : Plan.t) (want : list Z) : list PlanStep.t :=
  Plan.Steps plan ≫= λ s, replicate (length (List.filter (Z.eqb (PlanStep.SequenceNumber s)) want)) s.

Definition wanted_line (s : PlanStep.t) : string :=
  line ("  step " +:+ pretty (PlanStep.SequenceNumber s) +:+ "  " +:+ pad_right 6 (rating_string (PlanStep.Impact s)) +:+
        "  drain " +:+ PlanStep.TargetNode s +:+ " (" +:+ count (PlanStep.Moves s) +:+ " pods)").

Definition confirm_text (plan : Plan.t) (want : list Z) : string :=
  let steps := wanted plan want in
  let moves := Z.of_nat (length (steps ≫= PlanStep.Moves)) in
  let red := List.filter (λ s, (rating_string (PlanStep.Impact s) =? "Red")%string) steps in
  "About to run " +:+ count want +:+ " step(s) against plan " +:+ Plan.ID plan +:+ ":" +:+ nl +:+ nl +:+
  sconcat (wanted_line <$> steps) +:+
  nl +:+ pretty moves +:+ " pod(s) will be evicted through the eviction API." +:+ nl +:+
  (match red with
   | [] => ""
   | _ => line (count red +:+ " step(s) are Red and will be refused unless a MaintenanceWindow is open.")
   end) +:+
  nl +:+ "Continue? [y/N] ".

(** Whether the first line of the input consents. *)
Definition explicit_yes (input : string) : bool :=
  let '(answer, ended) := ReadString input in
  if ended && (answer =? "")%string then false
  else let answer := ToLower (TrimSpace answer) in (answer =? "y")%string || (answer =? "yes")%string.

Definition ask_yes (question : string) : prog bool :=
  print question ;;; do input <- call Stdin ;; Ret (explicit_yes input).

Definition Confirm (plan : Plan.t) (want : list Z) : prog bool := ask_yes (confirm_text plan want).

Definition converge_text (plan : option Plan.t) (maxNodes : Z) (maxImpact : string) : string :=
  line "You are approving a policy, not a list of steps." +:+ nl +:+
  line "The executor will repeatedly: observe the cluster, plan ONE drain against" +:+
  line "live state, run the full Safety Guard, drain, wait for recovery — until no" +:+
  line "worthwhile step remains or a bound below is reached." +:+ nl +:+
  line ("  bound: at most " +:+ pretty maxNodes +:+ " node(s) drained") +:+
  line ("  bound: nothing rated above " +:+ maxImpact +:+ " is executed") +:+
  line "  rail:  every round must free a node, or the run stops" +:+
  line "  rail:  no node is drained twice in one run" +:+
  (match plan with
   | Some p =>
       nl +:+ line ("For context only (targets are re-chosen live): the current plan frees " +:+ pretty (Plan.ReclaimedNodes p) +:+ " node(s).")
   | None => ""
   end) +:+
  nl +:+ "Approve this policy? [y/N] ".

Definition ConfirmConverge (plan : option Plan.t) (maxNodes : Z) (maxImpact : string) : prog bool :=
  ask_yes (converge_text plan maxNodes maxImpact).

Definition Ask (question : string) : prog bool := ask_yes (question +:+ " [y/N] ").

(** [fmt.Scanln(&answer)], its error ignored: the first word of the first line. *)
Fixpoint word_of (fuel : nat) (s : string) : string :=
  match fuel, s with
  | O, _ | _, EmptyString => EmptyString
  | S fuel, String c rest =>
      match leading_space spaces s with
      | Some _ => EmptyString
      | None => String c (word_of fuel rest)
      end
  end.

Definition first_line (input : string) : string :=
  match Cut input newline with Some (l, _) => l | None => input end.

Definition Scanln (input : string) : string :=
  let l := first_line input in
  let l := trim_left spaces (String.length l) l in
  word_of (String.length l) l.

(** The prompt of [cmdDrain]. *)
Definition drain_text (node : string) : string :=
  "Drain " +:+ node +:+ " through the guard chain? Evicted pods are not restored if this aborts. [y/N] ".

Definition drain_yes (input : string) : bool :=
  let answer := ToLower (TrimSpace (Scanln input)) in (answer =? "y")%string || (answer =? "yes")%string.

(** ** How a command ends *)

(** [Exited] is [flag.ExitOnError]'s; [Watching] is a run followed for as long as was
bounded; [Panics] an index out of range; [Endless] a list of steps without end. *)
Inductive exit : Type :=
| Done
| Failed (msg : string)
| Exited (e : parse_error)
| Watching
| Panics
| Endless.

(** The status of the process; [None] while it has none. *)
Definition exit_code (e : exit) : option Z :=
  match e with
  | Done | Exited Help => Some 0
  | Failed _ => Some 1
  | Exited _ | Panics => Some 2
  | Watching | Endless => None
  end.

Definition bind_exit {A} (p : prog (result A)) (f : A → prog exit) : prog exit :=
  do r <- p ;; match r with inl err => Ret (Failed err) | inr a => f a end.

Notation "'attempt' x '<-' p ';;' q" := (bind_exit p (λ x, q)) (at level 60, x name, p at level 59, right associativity) : cli_scope.

Definition with_flags (fs : FlagSet) (args : list string) (f : list (string * value) → list string → prog exit) : prog exit :=
  match Parse fs args with
  | inl e => Ret (Exited e)
  | inr (flags, rest) => f flags rest
  end.

(** [connect]: the format is checked before anything talks to the network. *)
Definition connect (flags : list (string * value)) (f : Format → prog exit) : prog exit :=
  match output_format flags with
  | inl err => Ret (Failed err)
  | inr format =>
      do err <- call (Connect (config_of flags)) ;;
      match (err : option string) with Some err => Ret (Failed err) | None => f format end
  end.

Definition encode (format : Format) (d : document) : prog exit :=
  do err <- call (Encode format d) ;;
  match (err : option string) with Some err => Ret (Failed err) | None => Ret Done end.

Definition show (text : string) : prog exit := print text ;;; Ret Done.

(** A text whose printing panics; what was printed before it is left out. *)
Definition show_or_panic (text : option string) : prog exit :=
  match text with Some t => show t | None => Ret Panics end.

Section commands.
Context (colour : bool).

(** A document as the format asks: text if it is text. *)
Definition present (format : Format) (d : document) (text : prog exit) : prog exit :=
  match format with FormatText => text | _ => encode format d end.

(** Following a run to its end, and how the command ends by it. *)
Definition follow (polls : nat) (runID : string) : prog exit :=
  attempt final <- Client.Wait polls runID (λ ev, print (PrintEvent colour ev)) 0 ;;
  match (final : option Run.t) with
  | None => Ret Watching
  | Some r =>
      print nl ;;;
      match Run.Status r with
      | RunSucceeded => show (line ("Succeeded. " +:+ Run.Summary r))
      | RunBlocked => Ret (Failed ("blocked by the Safety Guard: " +:+ Run.Summary r))
      | s => Ret (Failed ("run " +:+ status_string s +:+ ": " +:+ Run.Summary r))
      end
  end.

(** The end of a command that queued a run. *)
Definition watch_or_leave (polls : nat) (watch : bool) (runID : string) : prog exit :=
  if watch then follow polls runID
  else show (line ("Follow it with: dencer status --run " +:+ runID)).

(** ** Commands that only look *)

Definition plan_flags : FlagSet := global_flags ++ [("id", KString)].

(** The awaiting count is best effort: an error of the backend counts as none. *)
Definition cmdPlan (args : list string) : prog exit :=
  with_flags plan_flags args (λ flags _,
    connect flags (λ format,
      attempt env <- Client.Plan (get_string ["id"] "latest" flags) ;;
      present format (DPlan env.1)
        (do rec <- call GetReclamations ;;
         let awaiting :=
           match (rec : result ReclamationsEnvelope.t) with
           | inr rec => if ReclamationsEnvelope.Tracking rec then ReclamationStats.Awaiting (ReclamationsEnvelope.Stats rec) else 0
           | inl _ => 0
           end in
         do t1 <- call Now ;; do t2 <- call Now ;;
         show_or_panic (PrintPlan colour t1 t2 env.1 env.2 awaiting)))).

Definition cmdExplain (args : list string) : prog exit :=
  with_flags global_flags (reorderArgs global_flags args) (λ flags rest,
    match rest with
    | [] => Ret (Failed "which step? e.g. dencer explain 3")
    | arg :: _ =>
        match ParseSteps arg with
        | None => Ret Endless
        | Some (inr [seq]) =>
            connect flags (λ format,
              attempt plan <- Client.Plan "latest" ;;
              attempt env <- call (GetStep (Plan.ID plan.2) seq) ;;
              present format (DStep env) (show (PrintStep colour env)))
        | Some _ => Ret (Failed (quoted arg +:+ " is not a single step number"))
        end
    end).

Definition cmdWhy (args : list string) : prog exit :=
  with_flags global_flags (reorderArgs global_flags args) (λ flags rest,
    match rest with
    | [] => Ret (Failed "which pod? e.g. dencer why shop/web-7d9f-abcde")
    | arg :: _ =>
        let bad := Ret (Failed ("want namespace/pod, got " +:+ quoted arg)) in
        match Cut arg "/"%char with
        | None => bad
        | Some (ns, pod) =>
            if (ns =? "")%string || (pod =? "")%string then bad
            else connect flags (λ format,
              attempt plan <- Client.Plan "latest" ;;
              attempt pc <- call (GetPodConstraints (Plan.ID plan.2) ns pod) ;;
              present format (DPod pc) (show (PrintPodConstraints colour pc)))
        end
    end).

Definition whatif_flags : FlagSet := global_flags ++ [("without-nodes", KString); ("without-zone", KString)].

Definition cmdWhatif (args : list string) : prog exit :=
  with_flags whatif_flags args (λ flags _,
    let nodes := get_string ["without-nodes"] "" flags in
    let zone := get_string ["without-zone"] "" flags in
    if (nodes =? "")%string && (zone =? "")%string then
      Ret (Failed "remove something: --without-nodes a,b or --without-zone z")
    else connect flags (λ format,
      attempt env <- call (PostWhatif (splitCommas nodes) zone) ;;
      present format (DWhatif env)
        (print (PrintWhatif colour env) ;;;
         Ret (if WhatifEnvelope.Fits env then Done else Failed "the simulated cluster cannot hold its workloads")))).

(** The four reports without flags of their own. *)
Definition cmdRightsizing (args : list string) : prog exit :=
  with_flags global_flags args (λ flags _, connect flags (λ format,
    attempt env <- call GetRightsizing ;;
    present format (DRightsizing env) (do now <- call Now ;; show_or_panic (PrintRightsizing colour now env)))).

Definition cmdRecommend (args : list string) : prog exit :=
  with_flags global_flags args (λ flags _, connect flags (λ format,
    attempt env <- call GetRecommendations ;;
    present format (DRecommendations env) (do now <- call Now ;; show (PrintRecommendations colour now env)))).

Definition cmdAudit (args : list string) : prog exit :=
  with_flags global_flags args (λ flags _, connect flags (λ format,
    attempt env <- call GetResilience ;;
    present format (DResilience env) (do now <- call Now ;; show (PrintResilience colour now env)))).

Definition cmdPreflight (args : list string) : prog exit :=
  with_flags global_flags args (λ flags _, connect flags (λ format,
    attempt env <- call GetPreflight ;;
    present format (DPreflight env) (do now <- call Now ;; show (PrintPreflight colour now env)))).

Definition cmdReclamations (args : list string) : prog exit :=
  with_flags global_flags args (λ flags _, connect flags (λ format,
    attempt env <- call GetReclamations ;;
    present format (DReclamations env) (do now <- call Now ;; show_or_panic (PrintReclamations colour now env)))).

Definition status_flags : FlagSet := global_flags ++ [("run", KString)].

Definition show_run (format : Format) (runID : string) : prog exit :=
  attempt env <- Client.Run runID ;;
  present format (DRun env.1) (show (PrintRun colour env.1 env.2)).

Definition cmdStatus (args : list string) : prog exit :=
  with_flags status_flags args (λ flags _, connect flags (λ format,
    let runID := get_string ["run"] "" flags in
    if negb (runID =? "")%string then show_run format runID
    else
      attempt runs <- call GetRuns ;;
      match RunsEnvelope.Active runs, RunsEnvelope.Latest runs with
      | Some active, _ => show_run format (Run.ID active)
      | None, Some latest =>
          match format with
          | FormatText => print (line "No run in flight. The most recent one:" +:+ nl)
          | _ => Ret ()
          end ;;; show_run format (Run.ID latest)
      | None, None => present format DNoRuns (show (line "No run in flight, and none has ever run."))
      end)).

(** ** Commands that act *)

Definition acting : FlagSet := [("dry-run", KBool); ("watch", KBool); ("yes", KBool)].

Definition run_flags : FlagSet := global_flags ++ ("steps", KString) :: acting.

(** [plan.Plan.ID] is read after the method has refused a plan that is not there. *)
Definition cmdRun (polls : nat) (args : list string) : prog exit :=
  with_flags run_flags args (λ flags _,
    let steps := get_string ["steps"] "" flags in
    let dryRun := get_bool "dry-run" false flags in
    if (steps =? "")%string then Ret (Failed "which steps? e.g. dencer run --steps 1,3-5")
    else match ParseSteps steps with
         | None => Ret Endless
         | Some (inl err) => Ret (Failed err)
         | Some (inr want) =>
             connect flags (λ _,
               attempt plan <- Client.Plan "latest" ;;
               do confirmed <- (if dryRun || get_bool "yes" false flags then Ret true else Confirm plan.2 want) ;;
               if negb (confirmed : bool) then show (line "Nothing was run.")
               else
                 attempt runID <- call (PostExecute (Plan.ID plan.2) want dryRun) ;;
                 print (line ("run " +:+ runID +:+ " queued for steps " +:+ show_ints want +:+
                              if dryRun then " (dry run: nothing will be cordoned or evicted)" else "")) ;;;
                 watch_or_leave polls (get_bool "watch" true flags) runID)
         end).

Definition converge_flags : FlagSet := global_flags ++ [("max-nodes", KInt); ("max-impact", KString)] ++ acting.

Definition cmdConverge (polls : nat) (args : list string) : prog exit :=
  with_flags converge_flags args (λ flags _,
    let maxNodes := get_int "max-nodes" 0 flags in
    let maxImpact := get_string ["max-impact"] "Green" flags in
    let dryRun := get_bool "dry-run" false flags in
    if maxNodes <? 1 then
      Ret (Failed "how many nodes may this run drain? e.g. dencer converge --max-nodes 5")
    else if negb (maxImpact =? "Green")%string && negb (maxImpact =? "Yellow")%string then
      Ret (Failed "--max-impact must be Green or Yellow; Red always requires a maintenance window")
    else connect flags (λ _,
      do plan <- Client.Plan "latest" ;;
      let plan := match plan with inr p => Some p.2 | inl _ => None end in
      do confirmed <- (if dryRun || get_bool "yes" false flags then Ret true else ConfirmConverge plan maxNodes maxImpact) ;;
      if negb (confirmed : bool) then show (line "Nothing was run.")
      else
        attempt runID <- call (PostConverge maxNodes maxImpact dryRun) ;;
        print (line ("converge run " +:+ runID +:+ " queued (up to " +:+ pretty maxNodes +:+ " nodes, ceiling " +:+ maxImpact +:+ ")" +:+
                     if dryRun then " (dry run: one round is rehearsed, nothing is touched)" else "")) ;;;
        watch_or_leave polls (get_bool "watch" true flags) runID)).

Definition drain_flags : FlagSet := global_flags ++ acting.

Definition cmdDrain (polls : nat) (args : list string) : prog exit :=
  with_flags drain_flags (reorderArgs drain_flags args) (λ flags rest,
    let dryRun := get_bool "dry-run" false flags in
    match rest with
    | [node] =>
        connect flags (λ _,
          do confirmed <- (if dryRun || get_bool "yes" false flags then Ret true
                           else print (drain_text node) ;;; do input <- call Stdin ;; Ret (drain_yes input)) ;;
          if negb (confirmed : bool) then show (line "Nothing was drained.")
          else
            attempt runID <- call (PostDrain node dryRun) ;;
            print (line ("drain of " +:+ node +:+ " queued as run " +:+ runID +:+ if dryRun then " (dry run)" else "")) ;;;
            watch_or_leave polls (get_bool "watch" true flags) runID)
    | _ => Ret (Failed "which node? e.g. dencer drain worker-3")
    end).

Definition stop_flags : FlagSet := global_flags ++ [("run", KString); ("yes", KBool)].

Definition stop_question (runID : string) : string :=
  "Stop run " +:+ runID +:+ " after its current step? Evictions already in flight will finish — a pod that has been evicted cannot be recalled.".

Definition stop_run (yes : bool) (runID : string) : prog exit :=
  do ok <- (if yes then Ret true else Ask (stop_question runID)) ;;
  if negb (ok : bool) then show (line "Nothing was stopped.")
  else attempt note <- call (PostStop runID) ;; show (line note).

Definition cmdStop (args : list string) : prog exit :=
  with_flags stop_flags (reorderArgs stop_flags args) (λ flags _, connect flags (λ _,
    let runID := get_string ["run"] "" flags in
    let yes := get_bool "yes" false flags in
    if negb (runID =? "")%string then stop_run yes runID
    else
      attempt runs <- call GetRuns ;;
      match RunsEnvelope.Active runs with
      | None => show (line "No run in flight; nothing to stop.")
      | Some active => stop_run yes (Run.ID active)
      end)).

(** ** The program *)

Definition usage : string :=
"dencer — inspect and run Kubernetes node-consolidation plans.

Usage:
  dencer <command> [flags]

Commands:
  plan                  the current plan, one line per step
  explain <step>        why a step is rated as it is, and what it moves
  why <ns>/<pod>        why a pod can or cannot move
  run --steps 1,3-5     execute selected steps and watch them
  converge              closed loop: re-plan after every drain, inside bounds
  status                the run in flight, or the last one
  stop                  ask the run in flight to end after its current step
  reclamations          what actually became of the nodes you drained
  preflight             will every node drain? run before a node-pool rotation
  audit                 what cannot survive a node loss, and why
  recommend             what is missing — PDBs, replicas, requests — with fixes
  rightsizing           requests vs observed usage, per workload
  whatif --without-nodes a,b | --without-zone z
                        simulate losing nodes or a zone: does everything still fit?
  drain <node>          guarded drain of one node: the rails, not bare kubectl
  version               the version of this binary (also --version)

Global flags:
  --server URL          backend base URL. Default: port-forward via kubeconfig
  --token TOKEN         bearer token. Default: $DENCER_TOKEN, then kubeconfig
  -n, --namespace NS    release namespace (default k8s-dencer)
  --release NAME        Helm release name (default k8s-dencer)
  --kubeconfig PATH     kubeconfig to use
  --context NAME        kubeconfig context to use
  -o, --output FORMAT   text (default), json or yaml
  --timeout DURATION    per-request timeout (default 30s)

Examples:
  dencer plan
  dencer explain 3
  dencer why shop/web-7d9f-abcde
  dencer run --steps 1,2 --dry-run
  dencer converge --max-nodes 5 --max-impact Green
  dencer whatif --without-zone eu-west-1a
  dencer drain worker-3 --dry-run
  dencer reclamations
  dencer plan -o json | jq '.plan.steps[] | select(.impact==" +:+ dquote +:+
"Red" +:+ dquote +:+
")'
".

(** [run], given the arguments after the program's name. *)
Definition dencer (version : string) (polls : nat) (argv : list string) : prog exit :=
  match argv with
  | [] => show usage
  | cmd :: args =>
      let named names := existsb (String.eqb cmd) names in
      if named ["-h"; "--help"; "help"] then show usage
      else if named ["version"; "--version"] then show (line ("dencer " +:+ version))
      else if named ["plan"] then cmdPlan args
      else if named ["explain"] then cmdExplain args
      else if named ["why"] then cmdWhy args
      else if named ["converge"] then cmdConverge polls args
      else if named ["run"] then cmdRun polls args
      else if named ["status"] then cmdStatus args
      else if named ["stop"] then cmdStop args
      else if named ["preflight"] then cmdPreflight args
      else if named ["audit"; "resilience"] then cmdAudit args
      else if named ["recommend"; "recommendations"] then cmdRecommend args
      else if named ["rightsizing"; "rightsize"] then cmdRightsizing args
      else if named ["whatif"] then cmdWhatif args
      else if named ["drain"] then cmdDrain polls args
      else if named ["reclamations"; "reclaim"] then cmdReclamations args
      else Ret (Failed ("unknown command " +:+ quoted cmd +:+ nl +:+ nl +:+ usage))
  end.

End commands.
