(* ===== verification/CliProps.v ===== *)
(** * What the command line promises

Nothing that acts on the cluster is asked for without consent to exactly that; a
command that followed a run ends well only if the run did; events are shown once
each, in order; the paths are those of the API. *)
From S2P Require Import Prelude GoLib GoText GoFlag Cluster Store CliArgs CliClient CliRender CliCommands.

#[local] Open Scope cli_scope.

(** ** Running programs *)

Lemma cli_run_bind {A B} w h (p : prog A) (f : A → prog B) :
  run w h (bind p f) = run w (run w h p).2 (f (run w h p).1).
Proof. revert h. induction p as [a|c k IH]; intros h; [done|]. cbn. apply IH. Qed.

(** ** What a program keeps

A property of histories that survives the requests of a kind survives the programs
made of them. *)
Class Stable (P : history → Prop) (q : request → bool) : Prop :=
  stable h c r : q c = true → P h → P (h ++ [Ev c r]).

Definition keeps (P : history → Prop) {A} (p : prog A) : Prop := ∀ w h, P h → P (run w h p).2.

Section keeps.
Context (P : history → Prop).

Lemma keeps_ret {A} (a : A) : keeps P (Ret a).
Proof. by intros w h. Qed.

Lemma keeps_quiet {q} {S : Stable P q} {A} c (k : answer c → prog A) :
  q c = true → (∀ r, keeps P (k r)) → keeps P (Call c k).
Proof. intros Hc Hk w h Hs. cbn. apply Hk. by apply S. Qed.

Lemma keeps_bind {A B} (p : prog A) (f : A → prog B) : keeps P p → (∀ a, keeps P (f a)) → keeps P (bind p f).
Proof. intros Hp Hf w h Hs. rewrite cli_run_bind. by apply Hf, Hp. Qed.

Lemma keeps_bind_ok {A B} (p : prog (result A)) (f : A → prog (result B)) :
  keeps P p → (∀ a, keeps P (f a)) → keeps P (bind_ok p f).
Proof. intros Hp Hf. apply keeps_bind; [done|]. intros [err|a]; [apply keeps_ret|apply Hf]. Qed.

Lemma keeps_bind_exit {A} (p : prog (result A)) (f : A → prog exit) :
  keeps P p → (∀ a, keeps P (f a)) → keeps P (bind_exit p f).
Proof. intros Hp Hf. apply keeps_bind; [done|]. intros [err|a]; [apply keeps_ret|apply Hf]. Qed.

End keeps.

(** The requests that neither queue a run nor stop one. *)
Definition looks (c : request) : bool :=
  match c with PostExecute _ _ _ | PostConverge _ _ _ | PostDrain _ _ | PostStop _ => false | _ => true end.

Create HintDb cli.
#[export] Hint Resolve keeps_ret : cli.

Ltac keeps_step :=
  match goal with
  | |- keeps _ (Ret _) => apply keeps_ret
  | |- keeps _ (Call _ _) => apply (keeps_quiet _ (q := looks)); [reflexivity|intros ?]
  | |- keeps _ (call _) => apply (keeps_quiet _ (q := looks)); [reflexivity|intros ?]
  | |- keeps _ (bind _ _) => apply keeps_bind; [|intros ?]
  | |- keeps _ (bind_ok _ _) => apply keeps_bind_ok; [|intros ?]
  | |- keeps _ (bind_exit _ _) => apply keeps_bind_exit; [|intros ?]
  | |- keeps _ _ => progress unfold print, println, show, show_or_panic, encode, present, Client.Plan, Client.Run, show_run, connect, with_flags
  | |- keeps _ (match ?x with _ => _ end) => destruct x
  end.
Ltac keeps_tac := repeat (first [solve [eauto with cli] | keeps_step]); try done.

Section looking.
Context (P : history → Prop) {HP : Stable P looks} (colour : bool).

Lemma keeps_each {A} (f : A → prog ()) l : (∀ x, keeps P (f x)) → keeps P (Client.each f l).
Proof. intros Hf. induction l as [|x l IH]; cbn; [apply keeps_ret|]. by apply keeps_bind. Qed.

Lemma keeps_wait polls id f seen : (∀ ev, keeps P (f ev)) → keeps P (Client.Wait polls id f seen).
Proof.
  intros Hf. revert seen. induction polls as [|polls IH]; intros seen; cbn; [apply keeps_ret|].
  keeps_tac. by apply keeps_each.
Qed.

Lemma keeps_follow polls id : keeps P (follow colour polls id).
Proof.
  unfold follow. apply keeps_bind_exit; [apply keeps_wait; intros ev; keeps_tac|]. intros [r|]; keeps_tac.
Qed.

Lemma keeps_watch polls watch id : keeps P (watch_or_leave colour polls watch id).
Proof. unfold watch_or_leave. destruct watch; [apply keeps_follow|keeps_tac]. Qed.

Lemma keeps_look args :
  keeps P (cmdPlan colour args) ∧ keeps P (cmdExplain colour args) ∧ keeps P (cmdWhy colour args) ∧
  keeps P (cmdWhatif colour args) ∧ keeps P (cmdRightsizing colour args) ∧ keeps P (cmdRecommend colour args) ∧
  keeps P (cmdAudit colour args) ∧ keeps P (cmdPreflight colour args) ∧ keeps P (cmdReclamations colour args) ∧
  keeps P (cmdStatus colour args).
Proof.
  unfold cmdPlan, cmdExplain, cmdWhy, cmdWhatif, cmdRightsizing, cmdRecommend, cmdAudit, cmdPreflight, cmdReclamations, cmdStatus.
  split_and!; keeps_tac.
Qed.

End looking.

#[export] Hint Extern 0 (keeps _ (watch_or_leave _ _ _ _)) => apply (keeps_watch _) : cli.

(** ** Consent *)

(** The history ends with the question and a consenting answer. *)
Definition just_asked (text : string) (yes : string → bool) (h : history) : Prop :=
  ∃ h0 input, h = h0 ++ [Ev (Out text) (); Ev Stdin input] ∧ yes input = true.

(** What must have been asked for a request to be made. *)
Definition asked (h : history) (c : request) : Prop :=
  match c with
  | PostExecute planID steps false => ∃ plan, Plan.ID plan = planID ∧ just_asked (confirm_text plan steps) explicit_yes h
  | PostConverge maxNodes maxImpact false => ∃ plan, just_asked (converge_text plan maxNodes maxImpact) explicit_yes h
  | PostDrain node false => just_asked (drain_text node) drain_yes h
  | PostStop runID => just_asked (stop_question runID +:+ " [y/N] ") explicit_yes h
  | _ => True
  end.

(** Every request of the history was asked for. *)
Definition safe (h : history) : Prop := ∀ h1 c r h2, h = h1 ++ Ev c r :: h2 → asked h1 c.

Lemma safe_nil : safe [].
Proof. intros [|? ?] ? ? ? [=]. Qed.

Lemma safe_snoc h c r : safe h → asked h c → safe (h ++ [Ev c r]).
Proof.
  intros Hs Hok h1 c' r' h2 E. destruct h2 as [|e h2 _] using rev_ind.
  - apply app_inj_tail in E as [-> E]. by injection E as ->.
  - rewrite app_comm_cons, app_assoc in E. apply app_inj_tail in E as [-> _]. by eapply Hs.
Qed.

#[export] Instance safe_stable : Stable safe looks.
Proof. intros h c r Hc Hs. apply safe_snoc; [done|]. by destruct c. Qed.

Lemma keeps_consent {A} text yes (f : bool → prog A) :
  (∀ w h input, yes input = true → safe (h ++ [Ev (Out text) (); Ev Stdin input]) →
     safe (run w (h ++ [Ev (Out text) (); Ev Stdin input]) (f true)).2) →
  keeps safe (f false) →
  keeps safe (bind (print text ;;; do input <- call Stdin ;; Ret (yes input)) f).
Proof.
  intros Ht Hf w h Hs. cbn. set (input := w _ Stdin : string).
  destruct (w h (Out text)). rewrite <- app_assoc. cbn [app].
  assert (safe (h ++ [Ev (Out text) (); Ev Stdin input])) as Hs'.
  { change [Ev (Out text) (); Ev Stdin input] with ([Ev (Out text) ()] ++ [Ev Stdin input]). rewrite app_assoc.
    apply safe_snoc; [by apply safe_snoc|done]. }
  destruct (yes input) eqn:E; [by apply Ht|by apply Hf].
Qed.

(** ** Where a flag comes from *)

(** The flag an argument sets. *)
Definition sets (a : string) : option string := match shape_of a with FlagName name _ => Some name | _ => None end.

Lemma cons_flag_ok name v r flags rest :
  cons_flag name v r = inr (flags, rest) → ∃ flags', r = inr (flags', rest) ∧ flags = (name, v) :: flags'.
Proof. destruct r as [e|[flags' rest']]; [done|]. intros [= <- <-]. by eexists. Qed.

Lemma Parse_sets fs n args flags rest name v :
  (length args <= n)%nat → Parse fs args = inr (flags, rest) → (name, v) ∈ flags → ∃ a, a ∈ args ∧ sets a = Some name.
Proof.
  revert args flags. induction n as [|n IH]; intros args flags Hn; (destruct args as [|a args]; [intros [= <- _] []%elem_of_nil|]);
    cbn [length] in Hn; [lia|].
  assert (Hhere : ∀ given k args' flags', shape_of a = FlagName k given → (length args' <= n)%nat →
    (∀ b, b ∈ args' → b ∈ args) → Parse fs args' = inr (flags', rest) → ∀ x, (name, v) ∈ (k, x) :: flags' →
    ∃ b, b ∈ a :: args ∧ sets b = Some name).
  { intros given k args' flags' Hsh Hlen Hsub Hp x [E|Hin]%elem_of_cons.
    - injection E as -> ->. exists a. split; [by left|]. unfold sets. by rewrite Hsh.
    - destruct (IH args' flags' Hlen Hp Hin) as (b & Hb & Hs). exists b. split; [right; by apply Hsub|done]. }
  cbn [Parse]. destruct (shape_of a) as [| | |k given] eqn:Hsh; [intros [= <- _] []%elem_of_nil|intros [= <- _] []%elem_of_nil|done|].
  destruct (Lookup fs k) as [kd|]; [|by destruct (existsb _ _)].
  destruct given as [g|].
  - destruct (set_value kd g); [|done]. intros (flags' & Hp & ->)%cons_flag_ok. exact (Hhere _ _ args flags' eq_refl ltac:(lia) (λ _ H, H) Hp _).
  - destruct (IsBoolFlag kd).
    + intros (flags' & Hp & ->)%cons_flag_ok. exact (Hhere _ _ args flags' eq_refl ltac:(lia) (λ _ H, H) Hp _).
    + destruct args as [|b args]; [done|]. destruct (set_value kd b); [|done].
      intros (flags' & Hp & ->)%cons_flag_ok. 
      refine (Hhere _ _ args flags' eq_refl _ _ Hp _); [cbn in Hn; lia|intros c Hc; by right].
Qed.

Lemma reorder_elem fs n args flags positional a :
  (length args <= n)%nat → a ∈ reorder fs args flags positional → a = "--" ∨ a ∈ args ∨ a ∈ flags ∨ a ∈ positional.
Proof.
  assert (Hj : ∀ l1 l2, a ∈ joinArgs l1 l2 → a = "--" ∨ a ∈ l1 ∨ a ∈ l2).
  { intros l1 [|x l2]; cbn [joinArgs]; [tauto|]. rewrite elem_of_app, elem_of_cons. tauto. }
  revert args flags positional. induction n as [|n IH]; intros args flags positional Hn;
    (destruct args as [|b args]; [intros H; apply Hj in H; tauto|]); cbn [length] in Hn; [lia|].
  cbn [reorder]. destruct (b =? "--")%string.
  { intros H. apply Hj in H. rewrite elem_of_app in H. rewrite elem_of_cons. tauto. }
  destruct (is_dashed b).
  - destruct (takes_next fs b).
    + destruct args as [|v args].
      * intros H. apply Hj in H. rewrite elem_of_app in H. tauto.
      * intros H. apply IH in H; [|cbn in Hn; lia]. rewrite elem_of_app, !elem_of_cons, elem_of_nil in H. rewrite !elem_of_cons. tauto.
    + intros H. apply IH in H; [|lia]. rewrite elem_of_app, elem_of_cons, elem_of_nil in H. rewrite elem_of_cons. tauto.
  - intros H. apply IH in H; [|lia]. rewrite elem_of_app, elem_of_cons, elem_of_nil in H. rewrite elem_of_cons. tauto.
Qed.

(** A flag no argument sets keeps its default. *)
Lemma unset_bool fs args flags rest name d :
  (∀ a, a ∈ args → sets a ≠ Some name) → Parse fs args = inr (flags, rest) → get_bool name d flags = d.
Proof.
  intros Hno Hp. unfold get_bool, last_of. destruct (last _) as [[k v]|] eqn:E; [|done]. exfalso.
  apply last_Some in E as [l E]. assert ((k, v) ∈ List.filter (λ f, existsb (String.eqb f.1) [name]) flags) as Hin.
  { rewrite E. apply elem_of_app. right. by left. }
  apply filter_elem in Hin as [Hin Hk]. cbn in Hk. rewrite orb_false_r in Hk. apply String.eqb_eq in Hk as ->.
  destruct (Parse_sets fs (length args) args flags rest name v) as (a & Ha & Hs); [lia|done|done|]. by apply (Hno a).
Qed.

Lemma unset_reordered fs args name :
  (∀ a, a ∈ args → sets a ≠ Some name) → ∀ a, a ∈ reorderArgs fs args → sets a ≠ Some name.
Proof.
  intros Hno a Ha. destruct (reorder_elem fs (length args) args [] [] a) as [-> |[Hin|[[]%elem_of_nil|[]%elem_of_nil]]]; [lia|done|done|].
  by apply Hno.
Qed.

(** ** The commands *)

Section consent.
Context (colour : bool) (polls : nat).

(** A request that acts, unless it rehearses. *)
Lemma keeps_act {A} (dry : bool) text yes c (k : answer c → prog A) (no : prog A) :
  (dry = true → ∀ h, asked h c) →
  (dry = false → ∀ h input, yes input = true → asked (h ++ [Ev (Out text) (); Ev Stdin input]) c) →
  (∀ r, keeps safe (k r)) → keeps safe no →
  keeps safe (do ok <- (if dry || false then Ret true else print text ;;; do input <- call Stdin ;; Ret (yes input)) ;;
              if negb (ok : bool) then no else Call c k).
Proof.
  intros Hq Ha Hk Hno. destruct dry; cbn [orb].
  - intros w h Hs. cbn. apply Hk. apply safe_snoc; [done|]. by apply Hq.
  - apply keeps_consent; [|done]. intros w h input Hy Hs. cbn. apply Hk. apply safe_snoc; [done|]. by apply Ha.
Qed.

Lemma asked_after text yes h input :
  yes input = true → just_asked text yes (h ++ [Ev (Out text) (); Ev Stdin input]).
Proof. intros Hy. by exists h, input. Qed.

Context (args : list string) (no_yes : ∀ a, a ∈ args → sets a ≠ Some "yes").

Lemma keeps_run : keeps safe (cmdRun colour polls args).
Proof.
  unfold cmdRun, with_flags. destruct (Parse run_flags args) as [e|[flags rest]] eqn:Hp; [apply keeps_ret|].
  pose proof (unset_bool _ _ _ _ "yes" false no_yes Hp) as Hy.
  destruct (_ =? "")%string; [apply keeps_ret|]. destruct (ParseSteps _) as [[err|want]|]; [apply keeps_ret| |apply keeps_ret].
  unfold connect. destruct (output_format flags) as [err|fmt]; [apply keeps_ret|].
  apply keeps_bind; [keeps_tac|]. intros [err|]; [apply keeps_ret|].
  apply keeps_bind_exit; [keeps_tac|]. intros plan. rewrite Hy. unfold Confirm, ask_yes.
  apply keeps_act; [by intros ->| | |keeps_tac].
  - intros -> h input Hi. exists plan.2. split; [done|]. by apply asked_after.
  - intros r. destruct r; keeps_tac.
Qed.

Lemma keeps_converge : keeps safe (cmdConverge colour polls args).
Proof.
  unfold cmdConverge, with_flags. destruct (Parse converge_flags args) as [e|[flags rest]] eqn:Hp; [apply keeps_ret|].
  pose proof (unset_bool _ _ _ _ "yes" false no_yes Hp) as Hy.
  destruct (_ <? 1); [apply keeps_ret|]. destruct (_ && _)%bool; [apply keeps_ret|].
  unfold connect. destruct (output_format flags) as [err|fmt]; [apply keeps_ret|].
  apply keeps_bind; [keeps_tac|]. intros [err|]; [apply keeps_ret|].
  apply keeps_bind; [keeps_tac|]. intros plan. cbv zeta. rewrite Hy. unfold ConfirmConverge, ask_yes.
  apply keeps_act; [by intros ->| | |keeps_tac].
  - intros -> h input Hi. eexists. by apply asked_after.
  - intros r. destruct r; keeps_tac.
Qed.

Lemma keeps_drain : keeps safe (cmdDrain colour polls args).
Proof.
  unfold cmdDrain, with_flags. destruct (Parse drain_flags _) as [e|[flags rest]] eqn:Hp; [apply keeps_ret|].
  pose proof (unset_bool _ _ _ _ "yes" false (unset_reordered _ _ _ no_yes) Hp) as Hy. cbv zeta.
  destruct rest as [|node [|? ?]]; [apply keeps_ret| |apply keeps_ret].
  unfold connect. destruct (output_format flags) as [err|fmt]; [apply keeps_ret|].
  apply keeps_bind; [keeps_tac|]. intros [err|]; [apply keeps_ret|]. rewrite Hy.
  apply keeps_act; [by intros ->| | |keeps_tac].
  - intros -> h input Hi. by apply asked_after.
  - intros r. destruct r; keeps_tac.
Qed.

Lemma keeps_stop_run runID : keeps safe (stop_run false runID).
Proof.
  unfold stop_run, Ask, ask_yes. apply (keeps_act false); [done| | |keeps_tac].
  - intros _ h input Hi. by apply asked_after.
  - intros r. destruct r; keeps_tac.
Qed.

Lemma keeps_stop : keeps safe (cmdStop args).
Proof.
  unfold cmdStop, with_flags. destruct (Parse stop_flags _) as [e|[flags rest]] eqn:Hp; [apply keeps_ret|].
  pose proof (unset_bool _ _ _ _ "yes" false (unset_reordered _ _ _ no_yes) Hp) as Hy.
  unfold connect. destruct (output_format flags) as [err|fmt]; [apply keeps_ret|].
  apply keeps_bind; [keeps_tac|]. intros [err|]; [apply keeps_ret|]. cbv zeta. rewrite Hy.
  destruct (negb _); [apply keeps_stop_run|]. apply keeps_bind_exit; [keeps_tac|]. intros runs.
  destruct (RunsEnvelope.Active runs); [apply keeps_stop_run|keeps_tac].
Qed.

End consent.

(** C13: unless an argument sets [--yes], whatever the API, the terminal and the
clock answer, the command line asks for a run, a converging run, a drain or a stop
only right after it has shown what it is about to ask for, these steps of this
plan, these bounds, this node or run, and has read an explicit yes; rehearsals
apart. *)
Theorem nothing_unasked colour version polls argv w h1 c r h2 :
  (∀ a, a ∈ argv → sets a ≠ Some "yes") →
  (run w [] (dencer colour version polls argv)).2 = h1 ++ Ev c r :: h2 →
  asked h1 c.
Proof.
  intros Hno. revert h1 c r h2. change (safe (run w [] (dencer colour version polls argv)).2).
  enough (Hk : keeps safe (dencer colour version polls argv)) by (exact (Hk w [] safe_nil)).
  unfold dencer. destruct argv as [|cmd args]; [keeps_tac|]. cbv zeta.
  assert (Hargs : ∀ a, a ∈ args → sets a ≠ Some "yes") by (intros a Ha; apply Hno; by right).
  destruct (keeps_look safe colour args) as (?&?&?&?&?&?&?&?&?&?).
  repeat (destruct (existsb _ _); [first [done | by apply keeps_run | by apply keeps_converge | by apply keeps_drain
    | by apply keeps_stop | by keeps_tac]|]).
  apply keeps_ret.
Qed.

(** ** How a command that queued a run ends *)

Definition queues (c : request) : bool :=
  match c with PostExecute _ _ _ | PostConverge _ _ _ | PostDrain _ _ => true | _ => false end.

Definition ok_of (r : result string) : option string := match r with inr id => Some id | inl _ => None end.

(** The run the API says it queued, where it was asked for one. *)
Definition run_queued (e : occurrence) : option string :=
  let '(Ev c r) := e in
  match c as c return answer c → option string with
  | PostExecute _ _ _ | PostConverge _ _ _ | PostDrain _ _ => ok_of
  | _ => λ _, None
  end r.

Definition queued (id : string) (e : occurrence) : Prop := run_queued e = Some id.

(** The run was seen to have succeeded. *)
Definition succeeded (id : string) (h : history) : Prop :=
  ∃ env r, Ev (GetRun id) (inr env) ∈ h ∧ RunEnvelope.Run env = Some r ∧ Run.Status r = RunSucceeded.

(** Every run queued, but for those excepted, was seen to have succeeded. *)
Definition settled (but : string → Prop) (h : history) : Prop := ∀ e id, e ∈ h → queued id e → but id ∨ succeeded id h.

Lemma succeeded_app id h t : succeeded id h → succeeded id (h ++ t).
Proof. intros (env & r & Hin & Hr). exists env, r. split; [|done]. apply elem_of_app. by left. Qed.

#[export] Instance settled_stable but : Stable (settled but) looks.
Proof.
  intros h c r Hc Hs e id [Hin|Hin]%elem_of_app Hq.
  - destruct (Hs e id Hin Hq) as [?|?]; [by left|right]. by apply succeeded_app.
  - apply list_elem_of_singleton in Hin as ->. exfalso. unfold queued in Hq. by destruct c.
Qed.

Definition none : string → Prop := λ _, False.

(** [Done] only when every run queued has succeeded. *)
Definition settles (p : prog exit) : Prop :=
  ∀ w h, settled none h → (run w h p).1 = Done → settled none (run w h p).2.

Lemma settles_keeps p : keeps (settled none) p → settles p.
Proof. intros Hp w h Hs _. by apply Hp. Qed.

Lemma settles_bind {A} (p : prog A) (f : A → prog exit) :
  keeps (settled none) p → (∀ a, settles (f a)) → settles (bind p f).
Proof. intros Hp Hf w h Hs. rewrite cli_run_bind. apply Hf. by apply Hp. Qed.

Lemma run_bind_ok {A B} w h (p : prog (result A)) (f : A → prog (result B)) :
  run w h (bind_ok p f) = match (run w h p).1 with inl err => (inl err, (run w h p).2) | inr a => run w (run w h p).2 (f a) end.
Proof. unfold bind_ok. rewrite cli_run_bind. by destruct (run w h p).1. Qed.

Lemma run_bind_exit {A} w h (p : prog (result A)) (f : A → prog exit) :
  run w h (bind_exit p f) = match (run w h p).1 with inl err => (Failed err, (run w h p).2) | inr a => run w (run w h p).2 (f a) end.
Proof. unfold bind_exit. rewrite cli_run_bind. by destruct (run w h p).1. Qed.

(** What [Wait] returns is what the API answered. *)
Lemma run_grows {A} w h (p : prog A) : ∃ t, (run w h p).2 = h ++ t.
Proof.
  revert h. induction p as [a|c k IH]; intros h; cbn; [exists []; by rewrite app_nil_r|].
  destruct (IH (w h c) (h ++ [Ev c (w h c)])) as [t ->]. eexists. by rewrite <- app_assoc.
Qed.

Lemma Wait_result w h polls id f seen r :
  (run w h (Client.Wait polls id f seen)).1 = inr (Some r) →
  ∃ env, Ev (GetRun id) (inr env) ∈ (run w h (Client.Wait polls id f seen)).2 ∧ RunEnvelope.Run env = Some r ∧
    Client.ended (Run.Status r) = true.
Proof.
  revert h seen. induction polls as [|polls IH]; intros h seen; [done|]. cbn [Client.Wait].
  rewrite run_bind_ok. unfold Client.Run. rewrite !run_bind_ok. cbn.
  destruct (w h (GetRun id)) as [err|env] eqn:Ew; [done|]. cbn.
  destruct (RunEnvelope.Run env) as [r'|] eqn:Er; [|done]. cbn. rewrite cli_run_bind. 
  match goal with |- context [run w (h ++ ?ev) (Client.each f ?l)] =>
    destruct (run_grows w (h ++ ev) (Client.each f l)) as [t Ht]; rewrite Ht end.
  destruct (Client.ended (Run.Status r')) eqn:Ee.
  - intros [= <-]. exists env. split_and!; [|done|done]. cbn. apply elem_of_app. left. apply elem_of_app. right. by left.
  - cbn. destruct (w _ Tick); [done|]. apply IH.
Qed.

(** After a run was queued, following it ends well only if it succeeded. *)
Lemma follow_settles colour w h polls id :
  settled (λ id', id' = id) h → (run w h (follow colour polls id)).1 = Done → settled none (run w h (follow colour polls id)).2.
Proof.
  intros Hs Hd. pose proof (keeps_follow (settled (λ id', id' = id)) colour polls id w h Hs) as Hk.
  revert Hd Hk. unfold follow. rewrite run_bind_exit. set (p := Client.Wait _ _ _ _).
  destruct (run w h p).1 as [err|[r|]] eqn:E; [done| |done].
  destruct (Wait_result _ _ _ _ _ _ _ E) as (env & Hin & Hr & _). fold p in Hin. rewrite cli_run_bind.
  match goal with |- context [run w (run w h p).2 (print nl)] =>
    destruct (run_grows w (run w h p).2 (print nl)) as [t Ht]; rewrite Ht end.
  destruct (Run.Status r) eqn:Est; try done. intros _ Hk.
  match goal with |- context [run w ?h' ?q] => destruct (run_grows w h' q) as [t' Ht']; rewrite Ht' in Hk |- * end.
  assert (succeeded id (((run w h p).2 ++ t) ++ t')) as Hsucc by (by apply succeeded_app, succeeded_app; exists env, r).
  intros e id' He Hq. right. by destruct (Hk e id' He Hq) as [-> |?].
Qed.

Lemma settled_queue h c (r : answer c) id :
  settled none h → (∀ id', queued id' (Ev c r) → id' = id) → settled (λ id', id' = id) (h ++ [Ev c r]).
Proof.
  intros Hs Hid e id' [He|He]%elem_of_app Hq.
  - destruct (Hs e id' He Hq) as [[]|?]. right. by apply succeeded_app.
  - apply list_elem_of_singleton in He as ->. left. by apply Hid.
Qed.

(** A request for a run, its notice, and the watch. *)
Lemma settles_request colour polls (c : request) (r : answer c) (res : result string) text w h :
  run_queued (Ev c r) = ok_of res → settled none h →
  let p := match res with
           | inl err => Ret (Failed err)
           | inr runID => print (text runID) ;;; watch_or_leave colour polls true runID
           end in
  (run w (h ++ [Ev c r]) p).1 = Done → settled none (run w (h ++ [Ev c r]) p).2.
Proof.
  intros Hq Hs. cbv zeta. destruct res as [err|id]; [done|].
  rewrite cli_run_bind. apply follow_settles. apply (settled_stable _ _ (Out (text id))); [done|].
  apply settled_queue; [done|]. intros id' Hid. unfold queued in Hid. rewrite Hq in Hid. by injection Hid.
Qed.

Section ending.
Context (colour : bool) (polls : nat) (args : list string) (no_watch : ∀ a, a ∈ args → sets a ≠ Some "watch").

Lemma settles_run : settles (cmdRun colour polls args).
Proof.
  unfold cmdRun, with_flags. destruct (Parse run_flags args) as [e|[flags rest]] eqn:Hp; [done|].
  rewrite (unset_bool _ _ _ _ "watch" true no_watch Hp). cbv zeta.
  destruct (_ =? "")%string; [done|]. destruct (ParseSteps _) as [[err|want]|]; [done| |done].
  unfold connect. destruct (output_format flags) as [err|fmt]; [done|].
  apply settles_bind; [keeps_tac|]. intros [err|]; [done|].
  apply settles_bind; [keeps_tac|]. intros [err|plan]; [done|].
  apply settles_bind; [unfold Confirm, ask_yes; keeps_tac|]. intros [|]; cbn [negb]; [|apply settles_keeps; keeps_tac].
  intros w h Hs. cbn -[run watch_or_leave]. set (d := get_bool "dry-run" false flags). cbn [run].
  by apply (settles_request colour polls (PostExecute (Plan.ID plan.2) want d) _ _
    (λ runID, line ("run " +:+ runID +:+ " queued for steps " +:+ show_ints want +:+
                    if d then " (dry run: nothing will be cordoned or evicted)" else ""))).
Qed.

Lemma settles_converge : settles (cmdConverge colour polls args).
Proof.
  unfold cmdConverge, with_flags. destruct (Parse converge_flags args) as [e|[flags rest]] eqn:Hp; [done|].
  rewrite (unset_bool _ _ _ _ "watch" true no_watch Hp). cbv zeta.
  destruct (_ <? 1); [done|]. destruct (_ && _)%bool; [done|].
  unfold connect. destruct (output_format flags) as [err|fmt]; [done|].
  apply settles_bind; [keeps_tac|]. intros [err|]; [done|]. apply settles_bind; [keeps_tac|]. intros plan.
  apply settles_bind; [unfold ConfirmConverge, ask_yes; keeps_tac|].
  intros [|]; cbn [negb]; [|apply settles_keeps; keeps_tac].
  intros w h Hs. cbn -[run watch_or_leave]. cbn [run].
  set (n := get_int "max-nodes" 0 flags). set (i := get_string ["max-impact"] "Green" flags).
  set (d := get_bool "dry-run" false flags).
  by apply (settles_request colour polls (PostConverge n i d) _ _
    (λ runID, line ("converge run " +:+ runID +:+ " queued (up to " +:+ pretty n +:+ " nodes, ceiling " +:+ i +:+ ")" +:+
                    if d then " (dry run: one round is rehearsed, nothing is touched)" else ""))).
Qed.

Lemma settles_drain : settles (cmdDrain colour polls args).
Proof.
  unfold cmdDrain, with_flags. destruct (Parse drain_flags _) as [e|[flags rest]] eqn:Hp; [done|].
  rewrite (unset_bool _ _ _ _ "watch" true (unset_reordered _ _ _ no_watch) Hp). cbv zeta.
  destruct rest as [|node [|? ?]]; [done| |done].
  unfold connect. destruct (output_format flags) as [err|fmt]; [done|].
  apply settles_bind; [keeps_tac|]. intros [err|]; [done|].
  apply settles_bind; [keeps_tac|]. intros [|]; cbn [negb]; [|apply settles_keeps; keeps_tac].
  intros w h Hs. cbn -[run watch_or_leave]. cbn [run]. set (d := get_bool "dry-run" false flags).
  by apply (settles_request colour polls (PostDrain node d) _ _
    (λ runID, line ("drain of " +:+ node +:+ " queued as run " +:+ runID +:+ if d then " (dry run)" else ""))).
Qed.

End ending.

(** Stopping queues nothing. *)
#[export] Instance settled_stable_stop but : Stable (settled but) (λ c, negb (queues c)).
Proof.
  intros h c r Hc Hs e id [Hin|Hin]%elem_of_app Hq.
  - destruct (Hs e id Hin Hq) as [?|?]; [by left|right]. by apply succeeded_app.
  - apply list_elem_of_singleton in Hin as ->. exfalso. unfold queued in Hq. by destruct c.
Qed.

Lemma settled_stop args : keeps (settled none) (cmdStop args).
Proof.
  assert (Hr : ∀ yes id, keeps (settled none) (stop_run yes id)).
  { intros yes id. unfold stop_run, Ask, ask_yes. apply keeps_bind; [destruct yes; keeps_tac|].
    intros [|]; cbn [negb]; [|keeps_tac]. apply keeps_bind_exit; [|intros; keeps_tac].
    apply (keeps_quiet _ (q := λ c, negb (queues c))); [done|]. intros; apply keeps_ret. }
  unfold cmdStop. keeps_tac; apply Hr.
Qed.

(** C35: unless an argument sets [--watch], whatever the API answers, the command line
exits with success only if every run it queued was seen to have succeeded: a run
that was refused by the guard, failed, or is no longer followed makes it fail. *)
Theorem done_means_succeeded colour version polls argv w id e :
  (∀ a, a ∈ argv → sets a ≠ Some "watch") →
  (run w [] (dencer colour version polls argv)).1 = Done →
  e ∈ (run w [] (dencer colour version polls argv)).2 → queued id e →
  succeeded id (run w [] (dencer colour version polls argv)).2.
Proof.
  intros Hno Hd He Hq.
  enough (Hk : settles (dencer colour version polls argv)).
  { assert (settled none []) as H0 by (intros ? ? []%elem_of_nil). by destruct (Hk w [] H0 Hd e id He Hq). }
  clear Hd He Hq. unfold dencer. destruct argv as [|cmd args]; [apply settles_keeps; keeps_tac|]. cbv zeta.
  assert (Hargs : ∀ a, a ∈ args → sets a ≠ Some "watch") by (intros a Ha; apply Hno; by right).
  destruct (keeps_look (settled none) colour args) as (?&?&?&?&?&?&?&?&?&?).
  repeat (destruct (existsb _ _); [first [by apply settles_run | by apply settles_converge | by apply settles_drain
    | by apply settles_keeps, settled_stop | by apply settles_keeps | by apply settles_keeps; keeps_tac]|]).
  done.
Qed.

(** ** Following a run *)

(** The texts printed. *)
Definition printed (h : history) : list string := omap (λ e, match e with Ev (Out t) _ => Some t | _ => None end) h.

(** The trails the API answered for a run, in order. *)
Definition trails (id : string) (h : history) : list (list RunEvent.t) :=
  omap (λ e, match e with
             | Ev (GetRun id') r =>
                 if (id' =? id)%string then
                   match (r : result RunEnvelope.t) with
                   | inr env => (λ _, RunEnvelope.Events env) <$> RunEnvelope.Run env
                   | inl _ => None
                   end
                 else None
             | _ => None
             end) h.

(** Each trail goes on from the one before. *)
Fixpoint growing (before : list RunEvent.t) (ts : list (list RunEvent.t)) : Prop :=
  match ts with
  | [] => True
  | t :: ts => before `prefix_of` t ∧ growing t ts
  end.

Lemma printed_app h t : printed (h ++ t) = printed h ++ printed t.
Proof. apply omap_app. Qed.

Lemma trails_app id h t : trails id (h ++ t) = trails id h ++ trails id t.
Proof. apply omap_app. Qed.

Lemma run_each {A} w (f : A → string) l h :
  ∃ t, (run w h (Client.each (λ x, print (f x)) l)).2 = h ++ t ∧ printed t = f <$> l ∧ ∀ id, trails id t = [].
Proof.
  revert h. induction l as [|x l IH]; intros h; [exists []; by rewrite app_nil_r|]. cbn [Client.each].
  rewrite cli_run_bind. cbn. destruct (IH (h ++ [Ev (Out (f x)) (w h (Out (f x)))])) as (t & -> & Hp & Ht).
  exists (Ev (Out (f x)) (w h (Out (f x))) :: t). rewrite <- app_assoc. split_and!; [done|by apply (f_equal (cons (f x)))|exact Ht].
Qed.

Lemma growing_last before evs ts :
  growing evs ts → ∃ l, default before (last (evs :: ts)) = (evs ++ l) ∧ default evs (last ts) = (evs ++ l).
Proof.
  revert before evs. induction ts as [|t ts IH]; intros before evs Hg; [by exists []; rewrite app_nil_r|].
  destruct Hg as [[l ->] Hg]. destruct (IH evs _ Hg) as (l' & E1 & E2). exists (l ++ l').
  rewrite app_assoc. split; [|done]. rewrite <- E1. change (last (evs :: (evs ++ l) :: ts)) with (last ((evs ++ l) :: ts)).
  rewrite !last_cons. by destruct (last ts).
Qed.

(** What [Wait] prints, from [seen] events on. *)
Lemma Wait_prints w polls id f before h :
  ∃ t, (run w h (Client.Wait polls id (λ ev, print (f ev)) (length before))).2 = h ++ t ∧
    (growing before (trails id t) → printed t = f <$> drop (length before) (default before (last (trails id t)))).
Proof.
  revert before h. induction polls as [|polls IH]; intros before h.
  { exists []. rewrite app_nil_r. split; [done|]. intros _. cbn. by rewrite drop_all. }
  cbn [Client.Wait]. rewrite run_bind_ok. unfold Client.Run. rewrite !run_bind_ok. cbn [run call].
  set (e := Ev (GetRun id) (w h (GetRun id))).
  destruct (w h (GetRun id)) as [err|env] eqn:Ew.
  { cbn. exists [e]. split; [done|]. intros _. unfold e. cbn. rewrite String.eqb_refl. cbn. by rewrite drop_all. }
  cbn [fst snd run]. destruct (RunEnvelope.Run env) as [r|] eqn:Er.
  2: { cbn. exists [e]. split; [done|]. intros _. unfold e. cbn. rewrite String.eqb_refl, Er. cbn. by rewrite drop_all. }
  cbn [fst snd run]. rewrite cli_run_bind. set (evs := RunEnvelope.Events env).
  destruct (run_each w f (drop (min (length before) (length evs)) evs) (h ++ [e])) as (t1 & -> & Hp1 & Ht1).
  assert (He : ∀ t, trails id (e :: t) = evs :: trails id t).
  { intros t. unfold e. cbn. rewrite String.eqb_refl, Er. done. }
  assert (Hev : before `prefix_of` evs → printed t1 = f <$> drop (length before) evs).
  { intros Hpre. rewrite Hp1. apply prefix_length in Hpre. by rewrite Nat.min_l. }
  destruct (Client.ended (Run.Status r)).
  { exists (e :: t1). cbn [run snd]. rewrite <- app_assoc. split; [done|]. rewrite He, Ht1. intros [Hpre _].
    change (printed t1 = f <$> drop (length before) evs). by apply Hev. }
  rewrite cli_run_bind. cbn [run call]. set (tick := Ev Tick _). destruct (w _ Tick).
  { exists (e :: t1 ++ [tick]). cbn [run snd]. rewrite <- !app_assoc. split; [done|]. rewrite He, trails_app, Ht1. intros [Hpre _].
    change (printed (t1 ++ [tick]) = f <$> drop (length before) evs). rewrite printed_app. cbn. rewrite app_nil_r. by apply Hev. }
  cbn [fst snd]. destruct (IH evs (((h ++ [e]) ++ t1) ++ [tick])) as (t2 & -> & Hp2).
  exists (e :: t1 ++ tick :: t2). split; [by rewrite <- !app_assoc|]. rewrite He, trails_app, Ht1.
  change (trails id (tick :: t2)) with (trails id t2). cbn [app growing]. intros [Hpre Hg].
  change (printed (t1 ++ tick :: t2) = f <$> drop (length before) (default before (last (evs :: trails id t2)))).
  rewrite printed_app. change (printed (tick :: t2)) with (printed t2). rewrite (Hp2 Hg), (Hev Hpre), <- fmap_app. f_equal.
  destruct (growing_last before evs (trails id t2) Hg) as (l & -> & ->). destruct Hpre as [l0 E0].
  rewrite !drop_app_le, drop_all; [done|by rewrite E0, length_app; lia|done].
Qed.

(** Following a run prints the events of its audit trail once each and in order,
however the polls fall, as long as the trail only grows; and it returns a run only
when it has one of the statuses it takes for an end. *)
Theorem events_printed_once colour w polls id :
  let '(r, h) := run w [] (Client.Wait polls id (λ ev, print (PrintEvent colour ev)) 0) in
  (growing [] (trails id h) → printed h = PrintEvent colour <$> default [] (last (trails id h))) ∧
  (∀ r', r = inr (Some r') → Client.ended (Run.Status r') = true ∧ r' ∈ omap (λ e, match e with
     | Ev (GetRun _) r => match (r : result RunEnvelope.t) with inr env => RunEnvelope.Run env | inl _ => None end
     | _ => None end) h).
Proof.
  destruct (run w [] _) as [r h] eqn:E. split.
  - destruct (Wait_prints w polls id (PrintEvent colour) [] []) as (t & Ht & Hp). cbn [length drop] in Ht, Hp.
    rewrite E in Ht. cbn in Ht. by subst h.
  - intros r' ->. pose proof (Wait_result w [] polls id (λ ev, print (PrintEvent colour ev)) 0 r') as H.
    rewrite E in H. destruct (H eq_refl) as (env & Hin & Hr & He). split; [done|].
    apply list_elem_of_omap. by eexists.
Qed.

(** A run whose status is [Stopped], or that its store keeps as running after it was
stopped, is followed for as long as the operator looks on. *)
Lemma stopped_run_followed (w : world) polls id f env r h seen :
  RunEnvelope.Run env = Some r → Client.ended (Run.Status r) = false →
  (∀ h, w h (GetRun id) = inr env) → (∀ h, w h Tick = false) →
  (run w h (Client.Wait polls id f seen)).1 = inr None.
Proof.
  intros Hr He Hg Ht. revert h seen. induction polls as [|polls IH]; intros h seen; [done|].
  cbn [Client.Wait]. rewrite run_bind_ok. unfold Client.Run. rewrite !run_bind_ok. cbn [run call].
  rewrite Hg. cbn [fst snd run]. rewrite Hr. cbn [fst snd run]. rewrite cli_run_bind. rewrite He. rewrite cli_run_bind.
  cbn [run call]. rewrite Ht. cbn [fst snd]. apply IH.
Qed.

(** ** A session *)

Definition ex_plan : Plan.t :=
  Plan.mk "p1" 0 PlanValid 0 [PlanStep.set_rating ImpactGreen "Room elsewhere." [] (PlanStep.fresh 1 "node-3" [])] 3 2 0 Float64.F64.zero.

Definition ex_run (s : RunStatus) : Run.t :=
  Run.mk "r1" "p1" [1] false s false "" "" "" None "ada" [] 0 None None "" "".

Definition ex_event : RunEvent.t := RunEvent.entry 1 "node-3" "" EventInfo "drain" "" "drained".

(** The operator says [yes]; the run succeeds at the second poll. *)
Definition ex_world (yes : string) : world := λ h c,
  match c return answer c with
  | GetPlan _ => inr (PlanEnvelope.mk (Some ex_plan) "greedy" 0 ∅ 0 0 ∅)
  | PostExecute _ _ _ | PostConverge _ _ _ | PostDrain _ _ => inr "r1"
  | GetRun _ => inr (RunEnvelope.mk (Some (ex_run (if (length h <? 8)%nat then RunRunning else RunSucceeded))) [ex_event])
  | Stdin => yes
  | Connect _ | Encode _ _ => None
  | Tick => false
  | Now => 0
  | Out _ => ()
  | _ => inl "no"
  end.

Definition session : history := (run (ex_world ("Yes" +:+ nl)) [] (dencer false "dev" 5 ["run"; "--steps"; "1"])).2.

Lemma nothing_unasked_witness : asked (take 4 session) (PostExecute "p1" [1] false).
Proof.
  refine (nothing_unasked false "dev" 5 ["run"; "--steps"; "1"] (ex_world ("Yes" +:+ nl)) (take 4 session)
    (PostExecute "p1" [1] false) (inr "r1") (drop 5 session) _ _).
  - intros a Ha. repeat (apply elem_of_cons in Ha as [->|Ha]; [done|]). by apply elem_of_nil in Ha.
  - by vm_compute.
Defined.

Lemma done_means_succeeded_witness : succeeded "r1" session.
Proof.
  refine (done_means_succeeded false "dev" 5 ["run"; "--steps"; "1"] (ex_world ("Yes" +:+ nl)) "r1"
    (Ev (PostExecute "p1" [1] false) (inr "r1")) _ _ _ _).
  - intros a Ha. repeat (apply elem_of_cons in Ha as [->|Ha]; [done|]). by apply elem_of_nil in Ha.
  - by vm_compute.
  - apply list_elem_of_lookup. exists 4%nat. by vm_compute.
  - done.
Defined.

(** What [dencer drain] takes for consent that no other prompt does. *)
Lemma drain_prompt_is_laxer :
  drain_yes ("y, no wait" +:+ nl) = false ∧ drain_yes ("y no wait" +:+ nl) = true ∧ explicit_yes ("y no wait" +:+ nl) = false.
Proof. by vm_compute. Qed.
