(* ===== verification/CliApiProps.v ===== *)
(** * The command line against the API

Every request of the client is one of the API's routes, and the run it queues is
the one that was confirmed. *)
From S2P Require Import Prelude GoLib GoText Float64 Cluster Fixtures Analyzer Store RunStore PlanStore Auth PlanStoreProps Admission AdmissionProps CliArgs CliArgsProps CliClient CliCommands.
From S2P Require Reports Api.

(** ** Routes *)

(** The route each request is meant for. *)
Definition as_call (c : request) : option Api.call :=
  match c with
  | GetPlan id => Some (if (id =? "latest")%string then Api.GetLatestPlan else Api.GetPlan id)
  | GetStep planID seq => Some (Api.GetStep planID (Some seq))
  | GetPodConstraints planID ns pod => Some (Api.GetPodConstraints planID ns pod)
  | PostExecute planID steps dry => Some (Api.PostExecute planID (Some (executeRequest.mk steps dry)))
  | GetRun id => Some (Api.GetRun id)
  | GetRuns => Some Api.GetRuns
  | GetReclamations => Some Api.GetReclamations
  | PostConverge n impact dry => Some (Api.PostConverge (Some (convergeRequest.mk n impact dry)))
  | GetPreflight => Some Api.GetPreflight
  | GetResilience => Some Api.GetResilience
  | PostDrain node dry => Some (Api.PostDrain (Some (drainRequest.mk node dry)))
  | PostStop runID => Some (Api.PostStop runID)
  | PostWhatif nodes zone => Some (Api.PostWhatif (Some (Reports.whatifRequest.mk nodes zone)))
  | GetRightsizing => Some Api.GetRightsizing
  | GetRecommendations => Some Api.GetRecommendations
  | Connect _ | Stdin | Tick | Now | Out _ | Encode _ _ => None
  end.

(** A segment of a pattern takes the segment it spells, or any that is not empty. *)
Definition segment_matches (p s : string) : bool :=
  if HasPrefix p "{" then negb (s =? "")%string else (p =? s)%string.

Fixpoint segments_match (ps ss : list string) : bool :=
  match ps, ss with
  | [], [] => true
  | p :: ps, s :: ss => segment_matches p s && segments_match ps ss
  | _, _ => false
  end.

Definition path_matches (pattern path : string) : bool :=
  segments_match (Split_on "/" pattern) (Split_on "/" path).

(** The values that go into the path hold no slash and are not empty. *)
Definition plain (s : string) : bool := no_char "/" s && negb (s =? "")%string.

Definition values (c : request) : list string :=
  match c with
  | GetPlan id | PostExecute id _ _ | GetRun id | PostStop id | GetStep id _ => [id]
  | GetPodConstraints id ns pod => [id; ns; pod]
  | _ => []
  end.

Lemma Split_on_path (w s : string) :
  no_char "/" w = true → Split_on "/" (w +:+ "/" +:+ s) = w :: Split_on "/" s.
Proof. apply Split_on_app. Qed.

Lemma pretty_plain (n : Z) : no_char "/" (pretty n) = true ∧ pretty n ≠ "".
Proof.
  assert (H : ∀ p : N, (0 < p)%N → all_digits (pretty_N_go p "") = true ∧ pretty_N_go p "" ≠ "").
  { intros p Hp. destruct (digits_pretty p "") as [E Ha]. split; [by apply Ha|]. intros H. rewrite H in E.
    cbn in E. assert (Z.of_N p = 0) by congruence. lia. }
  destruct n as [|p|p]; [done| |].
  - change (pretty (Z.pos p)) with (pretty_N_go (N.pos p) ""). destruct (H (N.pos p)) as [Hd Hn]; [lia|].
    split; [by apply all_digits_no_char|done].
  - change (pretty (Z.neg p)) with (String "-" (pretty_N_go (N.pos p) "")). destruct (H (N.pos p)) as [Hd Hn]; [lia|].
    split; [|done]. cbn. by apply all_digits_no_char.
Qed.

(** The path is [ws] with slashes between. *)
Ltac split_path ws :=
  match goal with
  | |- segments_match _ (Split_on _ ?path) = true =>
      change path with (join "/" ws); rewrite (Split_on_join "/"%char ws);
      [|done|intros w Hw; repeat (apply elem_of_cons in Hw as [->|Hw]; [done|]); by apply elem_of_nil in Hw];
      match goal with |- segments_match (Split_on _ ?pat) _ = true => let p := eval vm_compute in (Split_on "/" pat) in
        change (Split_on "/" pat) with p end;
      cbn [segments_match]; unfold segment_matches; cbn [HasPrefix String.prefix]; cbn -[String.eqb pretty]; cbn -[pretty]
  end.

(** Whatever it asks of the API, the client uses the method and the path of a route
the API serves, as long as the identifiers it was given hold no slash. *)
Theorem client_speaks_api c m path :
  endpoint c = Some (m, path) → forallb plain (values c) = true →
  ∃ r, as_call c = Some r ∧ path_matches (Api.pattern r) (m +:+ " " +:+ path) = true.
Proof.
  intros E Hv. unfold path_matches.
  destruct c; try discriminate E; injection E as <- <-; (eexists; split; [reflexivity|]); cbn [values forallb] in Hv;
    unfold plain in Hv; rewrite ?andb_true_r, ?andb_true_iff, ?negb_true_iff in Hv; try reflexivity.
  - destruct Hv as [Hs Hn]. destruct (String.eqb_spec id "latest") as [->|_]; [vm_compute; reflexivity|].
    split_path ["GET "; "api"; "v1"; "plans"; id]. by rewrite Hn.
  - destruct Hv as [Hs Hn]. destruct (pretty_plain seq) as [Hp Hne]. apply String.eqb_neq in Hne.
    split_path ["GET "; "api"; "v1"; "plans"; planID; "steps"; pretty seq]. by rewrite Hn, Hne.
  - destruct Hv as [[Hs Hn] [[Hs' Hn'] [Hs'' Hn'']]].
    split_path ["GET "; "api"; "v1"; "plans"; planID; "constraints"; ns; pod]. by rewrite Hn, Hn', Hn''.
  - destruct Hv as [Hs Hn]. split_path ["POST "; "api"; "v1"; "plans"; planID; "execute"]. by rewrite Hn.
  - destruct Hv as [Hs Hn]. split_path ["GET "; "api"; "v1"; "runs"; id]. by rewrite Hn.
  - destruct Hv as [Hs Hn]. split_path ["POST "; "api"; "v1"; "runs"; runID; "stop"]. by rewrite Hn.
Qed.

(** ** Documents

A member of an object, by the tag of a field; a field without one keeps its zero. *)
Definition member (tag : string) (b : body) : option json := snd <$> List.find (λ m, (m.1 =? tag)%string) b.

Definition ints_of (tag : string) (b : body) : option (list Z) :=
  match member tag b with None => Some [] | Some (JInts l) => Some l | Some _ => None end.
Definition int_of (tag : string) (b : body) : option Z :=
  match member tag b with None => Some 0 | Some (JInt n) => Some n | Some _ => None end.
Definition text_of (tag : string) (b : body) : option string :=
  match member tag b with None => Some "" | Some (JString s) => Some s | Some _ => None end.
Definition texts_of (tag : string) (b : body) : option (list string) :=
  match member tag b with None => Some [] | Some (JStrings l) => Some l | Some _ => None end.
Definition flag_of (tag : string) (b : body) : option bool :=
  match member tag b with None => Some false | Some (JBool f) => Some f | Some _ => None end.

(** What each handler decodes, by the tags of its request. *)
Definition read_execute (b : body) : option executeRequest.t :=
  steps ← ints_of "steps" b; dryRun ← flag_of "dryRun" b; Some (executeRequest.mk steps dryRun).
Definition read_converge (b : body) : option convergeRequest.t :=
  maxNodes ← int_of "maxNodes" b; maxImpact ← text_of "maxImpact" b; dryRun ← flag_of "dryRun" b;
  Some (convergeRequest.mk maxNodes maxImpact dryRun).
Definition read_drain (b : body) : option drainRequest.t :=
  node ← text_of "node" b; dryRun ← flag_of "dryRun" b; Some (drainRequest.mk node dryRun).
Definition read_whatif (b : body) : option Reports.whatifRequest.t :=
  nodes ← texts_of "removeNodes" b; zone ← text_of "removeZone" b; Some (Reports.whatifRequest.mk nodes zone).

(** The handler's request, put where the route has one. *)
Definition with_body (r : Api.call) (b : option body) : Api.call :=
  match r with
  | Api.PostExecute planID _ => Api.PostExecute planID (b ≫= read_execute)
  | Api.PostConverge _ => Api.PostConverge (b ≫= read_converge)
  | Api.PostDrain _ => Api.PostDrain (b ≫= read_drain)
  | Api.PostWhatif _ => Api.PostWhatif (b ≫= read_whatif)
  | r => r
  end.

(** What the client sends is what the handler of the route reads: no field is lost
between the names the one writes and those the other looks for. *)
Theorem documents_arrive c w r :
  wire c = Some w → as_call c = Some r → with_body r (Wire.sent w) = r.
Proof.
  destruct c; try discriminate; intros [= <-] [= <-]; try reflexivity; [by destruct (id =? "latest")%string|].
  unfold Wire.Whatif. destruct nodes as [|n nodes]; cbn; destruct (String.eqb_spec zone "") as [->|]; done.
Qed.

(** ** What is queued *)

Lemma count_one (n : Z) l : NoDup l → n ∈ l → length (List.filter (Z.eqb n) l) = 1%nat.
Proof.
  intros Hnd. induction Hnd as [|x l Hx Hd IH]; intros Hn; [by apply elem_of_nil in Hn|]. cbn.
  destruct (Z.eqb_spec n x) as [->|Hne].
  - cbn. f_equal. rewrite filter_none; [done|]. intros y Hy. apply Z.eqb_neq. by intros ->.
  - apply IH. by apply elem_of_cons in Hn as [?|?].
Qed.

Lemma count_none (n : Z) l : n ∉ l → List.filter (Z.eqb n) l = [].
Proof. intros Hn. apply filter_none. intros y Hy. apply Z.eqb_neq. by intros ->. Qed.

(** The prompt lists the wanted steps, each once. *)
Lemma wanted_once plan want :
  NoDup want → NoDup (PlanStep.SequenceNumber <$> Plan.Steps plan) →
  (∀ n, n ∈ want → n ∈ PlanStep.SequenceNumber <$> Plan.Steps plan) →
  PlanStep.SequenceNumber <$> wanted plan want ≡ₚ want.
Proof.
  intros Hw Hd Hsub. apply NoDup_Permutation; [|done|].
  - clear Hsub. unfold wanted. induction (Plan.Steps plan) as [|s l IH]; [constructor|]. cbn in Hd |- *.
    apply NoDup_cons in Hd as [Hs Hd]. rewrite fmap_app. apply NoDup_app. split_and!; [| |by apply IH].
    + destruct (decide (PlanStep.SequenceNumber s ∈ want)) as [Hin|Hin].
      * rewrite count_one by done. apply NoDup_singleton.
      * rewrite count_none by done. constructor.
    + intros x Hx Hy. apply Hs. apply list_elem_of_fmap in Hx as (s' & -> & Hx%elem_of_replicate_inv). subst s'.
      apply list_elem_of_fmap in Hy as (s' & -> & Hy). apply list_elem_of_bind in Hy as (s'' & Hy%elem_of_replicate_inv & Hin).
      subst s''. apply list_elem_of_fmap. by exists s'.
  - intros n. unfold wanted. split.
    + intros (s & -> & Hin)%list_elem_of_fmap. apply list_elem_of_bind in Hin as (s' & Hin & _).
      destruct (decide (PlanStep.SequenceNumber s' ∈ want)) as [H|H].
      * apply elem_of_replicate_inv in Hin as ->. done.
      * rewrite count_none in Hin by done. by apply elem_of_nil in Hin.
    + intros Hn. pose proof (Hsub n Hn) as (s & -> & Hs)%list_elem_of_fmap. apply list_elem_of_fmap. exists s.
      split; [done|]. apply list_elem_of_bind. exists s. split; [|done]. rewrite count_one by done. by left.
Qed.

Lemma read_row_id s r : Plan.ID (Record.Plan (PlanStore.read_row s r)) = PlanStore.id r.
Proof. done. Qed.

Lemma ByID_id i s rec : PlanStore.ByID i s = inr rec → Plan.ID (Record.Plan rec) = i.
Proof.
  unfold PlanStore.ByID. destruct (List.find _ _) as [r|] eqn:E; [|done]. intros [= <-].
  apply List.find_some in E as [_ E]. rewrite read_row_id. by apply String.eqb_eq.
Qed.

Lemma record_id up i s rec : i ≠ "latest" → i ≠ "" → record up i s = inr rec → Plan.ID (Record.Plan rec) = i.
Proof.
  intros H1 H2. unfold record. rewrite (proj2 (String.eqb_neq _ _) H1), (proj2 (String.eqb_neq _ _) H2). cbn.
  unfold ask. destruct (up CByID); [done|]. destruct (PlanStore.ByID _ _) as [[]|] eqn:E; [done|done|].
  intros [= <-]. by eapply ByID_id.
Qed.

(** C21: when the API admits the run the command line asks for, the run queued is of
the plan that was shown, of exactly the steps that were typed, ascending, rehearsal
or not as was said; and the prompt has listed each of those steps of the plan
exactly once. *)
Theorem confirmed_is_queued up who s spec want planID dry rec t :
  ParseSteps spec = Some (inr want) → planID ≠ "latest" → planID ≠ "" → record up planID s = inr rec →
  NoDup (PlanStep.SequenceNumber <$> Plan.Steps (Record.Plan rec)) →
  admit_execute up planID (Some (executeRequest.mk want dry)) who s = inr t →
  Run.PlanID (ticket.run t) = planID ∧ Run.Steps (ticket.run t) = want ∧ Run.DryRun (ticket.run t) = dry ∧
  PlanStep.SequenceNumber <$> wanted (Record.Plan rec) want ≡ₚ want.
Proof.
  intros Hp H1 H2 Hrec Hd. destruct (ParseSteps_ascending _ _ Hp) as [Hsort Hnd].
  unfold admit_execute. destruct (Server.runs s) as [runs|]; [|done]. rewrite Hrec. cbn [executeRequest.Steps executeRequest.DryRun].
  pose proof (validate_spec want (Record.Plan rec)) as Hv. destruct (validateSteps _ _) as [err|steps]; [done|].
  destruct Hv as (_ & Hfound & Hs & Hin). intros [[= <-] _]%none_active_ok. cbn.
  assert (steps = want) as ->.
  { apply (Sorted_unique Z.le); [by eapply Sorted_weaken; [|done]; intros; lia..|].
    apply NoDup_Permutation; [|done|done]. by apply sorted_nodup. }
  split_and!; [by eapply record_id|done|done|]. apply wanted_once; [done|done|]. intros n Hn.
  destruct (Hfound n Hn) as [st Hst]. apply List.find_some in Hst as [Hst Hseq%Z.eqb_eq].
  apply list_elem_of_fmap. exists st. split; [done|]. by apply list_elem_of_In.
Qed.

(** ** Witnesses *)

Lemma client_speaks_api_witness :
  ∃ r, as_call (GetPodConstraints "p1" "shop" "web-1") = Some r ∧
    path_matches (Api.pattern r) "GET /api/v1/plans/p1/constraints/shop/web-1" = true.
Proof. exact (client_speaks_api (GetPodConstraints "p1" "shop" "web-1") _ _ eq_refl eq_refl). Defined.

Definition latest_of (s : PlanStore.t) : string := match PlanStore.Latest s with inr r => Plan.ID (Record.Plan r) | inl _ => "" end.

Lemma confirmed_is_queued_witness :
  ∃ t, admit_execute up_all (latest_of two_plans) (Some (executeRequest.mk [1; 2] true)) None deployment = inr t ∧
    Run.Steps (ticket.run t) = [1; 2] ∧ Run.DryRun (ticket.run t) = true.
Proof.
  destruct (record up_all (latest_of two_plans) deployment) as [|rec] eqn:Hr; [by vm_compute in Hr|].
  destruct (admit_execute up_all (latest_of two_plans) (Some (executeRequest.mk [1; 2] true)) None deployment) as [|t] eqn:Ht;
    [by vm_compute in Ht|].
  exists t. split; [done|].
  destruct (confirmed_is_queued up_all None deployment "2,1-2" [1; 2] (latest_of two_plans) true rec t) as (_ & H1 & H2 & _).
  - by vm_compute.
  - by vm_compute.
  - by vm_compute.
  - done.
  - vm_compute in Hr. injection Hr as <-. refine (bool_decide_unpack _ _). by vm_compute.
  - done.
  - by split.
Defined.
