(* ===== verification/ApiProps.v ===== *)
(** * What a request to the API can do *)
From S2P Require Import Prelude GoLib Float64 GoTime Model Cluster Fixtures WorkingPlacement Analyzer Store RunStore RunStoreProps Reclaim PlanStore PlanStoreProps Samples Recommend Auth AuthProps Executor Admission AdmissionProps Reports Graph Api.

(** ** Who may change what *)

(** Every run of [b] is one of [a], by identifier and actor, or was asked for by [who]. *)
Definition runs_from (who : option Identity.t) (a b : option RunStore.t) : Prop :=
  ∀ rs x, b = Some rs → x ∈ RunStore.rows rs →
    Run.Actor (RunStore.run x) = Identity.Username (actor_of who) ∨
    ∃ rs' y, a = Some rs' ∧ y ∈ RunStore.rows rs' ∧ Run.ID (RunStore.run y) = Run.ID (RunStore.run x) ∧
      Run.Actor (RunStore.run y) = Run.Actor (RunStore.run x).

Lemma runs_from_refl who a : runs_from who a a.
Proof. intros rs x -> Hx. right. by exists rs, x. Qed.

Lemma request_runs up newID now r who s :
  let o := handle_request up newID now r who s in
  runs_from who (Server.runs s) (Server.runs (outcome.server o)) ∧ Server.store (outcome.server o) = Server.store s.
Proof.
  cbn zeta. destruct (request_effect up newID now r who s) as [(-> & _)|(t & runs & Ht & Hr & _ & -> & _)];
    [split; [apply runs_from_refl|done]|]. split; [|done]. cbn. intros rs x [= <-].
  unfold queued. cbn. intros [Hx|Hx]%elem_of_app; [right; by exists runs, x|left].
  apply list_elem_of_singleton in Hx as ->. cbn. by apply (admitted_actor _ _ _ _ _ Ht).
Qed.

Lemma stop_runs up runID who s :
  let o := handleStopRun up runID who s in
  runs_from who (Server.runs s) (Server.runs (outcome.server o)) ∧ Server.store (outcome.server o) = Server.store s.
Proof.
  cbn zeta. unfold handleStopRun. destruct (Server.runs s) as [runs|] eqn:Hr;
    [|split; [cbn; rewrite Hr; apply runs_from_refl|done]].
  destruct (ask _ _ _) as [e|run]; [split; [cbn; rewrite Hr; apply runs_from_refl|done]|].
  destruct (up CRequestStop); [split; [cbn; rewrite Hr; apply runs_from_refl|done]|]. split; [|done].
  cbn. intros rs x [= <-]. cbn. intros (y & -> & Hy)%list_elem_of_fmap. right. exists runs, y. split_and!; [done|done| |];
    by destruct (_ && _).
Qed.

Lemma write_effect w c who s o :
  write w c who s = Some o →
  requires c = Some ExecuteConsolidations ∧ runs_from who (Server.runs s) (Server.runs (outcome.server o)) ∧
  Server.store (outcome.server o) = Server.store s.
Proof.
  destruct c; try done; intros [= <-]; (split; [done|]).
  - apply (request_runs _ _ _ (Execute _ _)).
  - apply (request_runs _ _ _ (Converge _)).
  - apply (request_runs _ _ _ (Drain _)).
  - apply stop_runs.
Qed.

(** A request that changes something was let through by the guard, and its handler
is one that writes. *)
Lemma serve_writes `{MapRange} cfg reviews access t0 t1 h w c cache s :
  let '(_, s', published, _) := serve cfg reviews access t0 t1 h w c cache s in
  (s' = s ∧ published = []) ∨
  requires c = Some ExecuteConsolidations ∧
  ∃ who o, (Require cfg reviews access t0 t1 ExecuteConsolidations h cache).1 = Serve who ∧
    write w c who (Service.core s) = Some o ∧ s' = Service.set_core (outcome.server o) s ∧ published = outcome.published o.
Proof.
  unfold serve, handler.
  assert (Hread : ∀ who, requires c ≠ Some ExecuteConsolidations → write w c who (Service.core s) = None).
  { intros who Hr. destruct (write w c who (Service.core s)) eqn:E; [|done]. by apply write_effect in E as [? _]. }
  destruct (requires c) as [res|] eqn:Hres; [|rewrite Hread by done; by left].
  destruct (Require cfg reviews access t0 t1 res h cache) as [[who|r] cache'] eqn:E; [|by left].
  destruct (write w c who (Service.core s)) as [o|] eqn:Hw; [|by left]. right.
  assert (res = ExecuteConsolidations) as -> by (apply write_effect in Hw as [? _]; congruence). split; [done|].
  exists who, o. by rewrite E.
Qed.

(** With authentication on, who the guard lets through has an identity and the grant. *)
Lemma served_granted cfg reviews access t0 t1 h cache who :
  Config.Enabled cfg = true → (Require cfg reviews access t0 t1 ExecuteConsolidations h cache).1 = Serve who →
  ∃ id, who = Some id ∧ established cfg reviews t0 h cache id ∧ granted cfg access id ExecuteConsolidations.
Proof.
  intros He Hr. assert (∃ id, who = Some id) as [id ->].
  { revert Hr. unfold Require. rewrite He. cbn [negb]. destruct (Authenticate _ _ _ _ _ _) as [[i err] c'].
    cbn. unfold decide_gate, forbidden, unauthorized, unavailable. repeat case_match; intros; simplify_eq; by eexists. }
  exists id. split; [done|].
  by destruct (proj1 (Require_serves cfg reviews access t0 t1 ExecuteConsolidations h cache id He) Hr) as [[? ?]|(_ & _ & _ & ?)].
Qed.

(** C6: with authentication on, a request that changes anything the API keeps, or
that makes it tell the browsers of a run, comes from an identity that its
credential establishes and that the cluster grants the right to execute, also
where anonymous reading is allowed; plans are never changed, and each run there
is afterwards was there before, with the same actor, or names the caller. *)
Theorem changes_need_the_grant (H : MapRange) cfg reviews access t0 t1 h w c cache s :
  Config.Enabled cfg = true →
  let '(_, s', published, _) := serve cfg reviews access t0 t1 h w c cache s in
  s' ≠ s ∨ published ≠ [] →
  requires c = Some ExecuteConsolidations ∧
  ∃ id, established cfg reviews t0 h cache id ∧ granted cfg access id ExecuteConsolidations ∧
    Server.store (Service.core s') = Server.store (Service.core s) ∧
    runs_from (Some id) (Server.runs (Service.core s)) (Server.runs (Service.core s')).
Proof.
  intros He. pose proof (serve_writes cfg reviews access t0 t1 h w c cache s) as Hs.
  destruct (serve _ _ _ _ _ _ _ _ _ _) as [[[a s'] published] cache']. intros Hc.
  destruct Hs as [[-> ->]|(Hq & who & o & Hr & Hw & -> & _)]; [by destruct Hc|]. split; [done|].
  destruct (served_granted _ _ _ _ _ _ _ _ He Hr) as (id & -> & ? & ?). exists id.
  apply write_effect in Hw as (_ & ? & ?). by split_and!.
Qed.

Definition service : Service.t :=
  Service.mk deployment (Some Timeline.empty) (Some []) (Some []) None (Table.mk "" ∅) DefaultPodDetailLimit "" "v1".

Definition one_instant : world.t := world.mk up_all "r1" 5.

Definition in_keys : MapRange := {| range l := l; range_perm l := Permutation_refl l |}.

Lemma changes_need_the_grant_witness :
  granted operator_cfg ops_may (reviewed alice) ExecuteConsolidations ∧
  let out := @serve in_keys operator_cfg one_token ops_may 0 0 with_token one_instant
    (PostExecute "latest" (Some (executeRequest.mk [2; 1; 2] false))) (NewAuthenticator operator_cfg) service in
  ∃ id, granted operator_cfg ops_may id ExecuteConsolidations ∧
    runs_from (Some id) (Server.runs deployment) (Server.runs (Service.core out.1.1.2)).
Proof.
  split.
  { split; [done|]. eexists. split; [done|]. by vm_compute. }
  pose proof (@changes_need_the_grant in_keys operator_cfg one_token ops_may 0 0 with_token one_instant
    (PostExecute "latest" (Some (executeRequest.mk [2; 1; 2] false))) (NewAuthenticator operator_cfg) service eq_refl) as H.
  cbn zeta. destruct (serve operator_cfg one_token ops_may 0 0 with_token one_instant _ _ service) as [[[ans s'] pub] c'] eqn:E.
  assert (Hp : pub ≠ []).
  { intros ->. apply (f_equal (λ o, length o.1.2)) in E. vm_compute in E. discriminate E. }
  destruct H as (_ & id & _ & Hg & _ & Hr); [by right|]. exists id. split; [exact Hg|exact Hr].
Defined.

(** Where anonymous reading is not configured, a request without credentials is
refused with 401 on every route but the one that tells how to sign in, and
neither the server nor the cache of credentials changes. *)
Theorem strangers_see_nothing (H : MapRange) cfg reviews access t0 t1 h w c cache s :
  Config.Enabled cfg = true → Config.AllowAnonymousRead cfg = false → no_credentials cfg h → c ≠ GetAuthInfo →
  ∃ r, serve cfg reviews access t0 t1 h w c cache s = (Refused r, s, [], cache) ∧ Refusal.status r = 401.
Proof.
  intros He Ha [Ht Hp] Hc. assert (∃ res, requires c = Some res) as [res Hres] by (destruct c; try done; by eexists).
  unfold serve, Require, Authenticate. rewrite Hres, He, Ht, Hp. cbn [negb String.eqb decide_gate]. rewrite Ha. by eexists.
Qed.

Lemma strangers_see_nothing_witness :
  let cfg := Config.mk true false [] "dencer" "dencer-operator" 0 (OIDCInfo.mk false "" "" []) (TrustedProxy.mk false "" "") in
  ∃ r, @serve in_keys cfg one_token ops_may 0 0 ∅ one_instant (GetPlan "latest") (NewAuthenticator cfg) service =
    (Refused r, service, [], NewAuthenticator cfg) ∧ Refusal.status r = 401.
Proof. cbn zeta. apply (@strangers_see_nothing in_keys); [done|done|split; by vm_compute|done]. Defined.

(** ** The picture *)

(** The picture of a plan counts right at either level of detail: a node's element
carries the number of pods that run on it, of those the analysis cannot move,
and of those that are pinned to it, finished or hands-off; pods have elements of their own, one for
each scheduled pod in order, exactly when there are not too many. *)
Theorem picture_counts plan snap analysis limit :
  let p := BuildWith plan snap analysis limit in
  Payload.Aggregated p = aggregated limit snap ∧
  ∃ nodes pods, Payload.Elements p = nodes ++ pods ∧
    pods = (if Payload.Aggregated p then [] else pod_element analysis <$> scheduled (ClusterSnapshot.Pods snap)) ∧
    Forall2 (λ n e, ∃ d, e = NodeElement (nodeID (Node.Name n)) d ∧ (Node.Name n ≠ "" →
      let here := List.filter (λ q, (Pod.NodeName q =? Node.Name n)%string) (ClusterSnapshot.Pods snap) in
      Data.PodCount d = Z.of_nat (length here) ∧
      Data.BlockedCount d = Z.of_nat (length (List.filter (λ q, blocked_in analysis (Pod.Key q)) here)) ∧
      Data.PinnedCount d = Z.of_nat (length (List.filter (λ q, negb (Pod.IsMovable q)) here))))
      (ClusterSnapshot.Nodes snap) nodes.
Proof.
  cbn zeta. split; [done|]. eexists _, _. split; [done|]. split; [done|].
  apply Forall2_fmap_r, Forall_Forall2_diag, Forall_forall. intros n _. eexists. split; [done|]. intros Hn.
  by apply occ_counts.
Qed.

Lemma read_plan_idle i s rec : PlanStore.ByID i s = inr rec → Plan.AlreadyReclaimable (Record.Plan rec) = 0.
Proof. unfold PlanStore.ByID. destruct (List.find _ _); [|done]. by intros [= <-]. Qed.

(** The headline figure of nodes that are free already is zero in every picture
the API serves, whatever the planner counted: the history has no column for it. *)
Theorem idle_nodes_never_shown up i s p :
  handleGraph up i s = inr p → Stats.AlreadyReclaimable (Payload.stats p) = 0.
Proof.
  unfold handleGraph, with_record, with_snapshot. destruct (record up i (Service.core s)) as [e|rec] eqn:Hr; [done|].
  apply record_found in Hr as [j Hj]. destruct (Record.Snapshot rec); [|done]. intros [= <-]. cbn. by eapply read_plan_idle.
Qed.

(** A plan that counted two idle nodes, stored and drawn. *)
Definition idle_plan : Plan.t := Plan.mk "p" 10 PlanValid 10 [] 3 1 2 F64.zero.

Definition idle_service : Service.t :=
  Service.mk (Server.mk (PlanStore.Save 1000 (Record.mk idle_plan (Some shop) None "" 0) PlanStore.empty).2 None)
    None None None None (Table.mk "" ∅) DefaultPodDetailLimit "" "v1".

Lemma idle_nodes_never_shown_witness :
  Stats.AlreadyReclaimable (buildStats idle_plan) = 2 ∧
  ∃ p, handleGraph up_all "latest" idle_service = inr p ∧ Stats.AlreadyReclaimable (Payload.stats p) = 0.
Proof.
  split; [done|]. destruct (handleGraph up_all "latest" idle_service) as [r|p] eqn:E; [by vm_compute in E|].
  exists p. split; [done|]. exact (idle_nodes_never_shown _ _ _ _ E).
Defined.
