(* ===== verification/SettingsProps.v ===== *)
(** * What no environment changes

A service that starts never offers what it was not given the right to; the
executor judges as the planner does; nothing is planned on half a cluster. *)
From Stdlib Require Import SpecFloat.
From stdpp Require Import gmap.
From S2P Require Import Prelude GoLib Float64 GoText GoTime GoFlag Model Cluster Fixtures WorkingPlacement Planner Impact Safety SafetyProps Window Store RunStore Effects Executor ExecutorFacts RunFacts Simulation ExecutorProps Reclaim PlanStore PlanStoreProps Samples Recommend Auth AuthProps Admission AdmissionProps Publish Reports Graph Dsn Api ApiProps Settings.

(** ** An API that can drain is never open *)

Lemma write_without_runs w c who s o :
  Server.runs s = None → write w c who s = Some o → outcome.server o = s ∧ outcome.published o = [].
Proof.
  assert (Hreq : ∀ r, Server.runs s = None → outcome.server (handle_request (world.up w) (world.newID w) (world.now w) r who s) = s ∧
    outcome.published (handle_request (world.up w) (world.newID w) (world.now w) r who s) = []).
  { intros r Hn. by destruct (request_effect (world.up w) (world.newID w) (world.now w) r who s)
      as [(? & ? & _)|(t & runs & _ & ? & _)]; [|congruence]. }
  intros Hn. destruct c; try done; intros [= <-].
  - by apply (Hreq (Execute _ _)).
  - by apply (Hreq (Converge _)).
  - by apply (Hreq (Drain _)).
  - unfold handleStopRun. by rewrite Hn.
Qed.

Lemma set_core_id s : Service.set_core (Service.core s) s = s.
Proof. by destruct s. Qed.

(** One request, with everything it meets. *)
Module visit.
Record t : Type := mk {
  reviews : TokenReviews; access : AccessReviews; t0 : time; t1 : time; header : Header; world : world.t; call : call;
}.
End visit.

Definition serve_visit `{MapRange} (cfg : Config.t) (v : visit.t) (st : Service.t * tokenCache.t) :
    answer * Service.t * list notice * tokenCache.t :=
  serve cfg (visit.reviews v) (visit.access v) (visit.t0 v) (visit.t1 v) (visit.header v) (visit.world v) (visit.call v)
    st.2 st.1.

Definition after_visits `{MapRange} (cfg : Config.t) (vs : list visit.t) (st : Service.t * tokenCache.t) :
    Service.t * tokenCache.t :=
  fold_left (λ st v, let '(_, s, _, cache) := serve_visit cfg v st in (s, cache)) vs st.

Lemma closed_visit `{MapRange} cfg v st :
  Server.runs (Service.core st.1) = None →
  let '(_, s', published, _) := serve_visit cfg v st in s' = st.1 ∧ published = [].
Proof.
  intros Hn. unfold serve_visit.
  pose proof (serve_writes cfg (visit.reviews v) (visit.access v) (visit.t0 v) (visit.t1 v) (visit.header v)
    (visit.world v) (visit.call v) st.2 st.1) as Hs.
  destruct (serve _ _ _ _ _ _ _ _ _ _) as [[[a s'] published] cache'].
  destruct Hs as [?|(_ & who & o & _ & Hw & -> & ->)]; [done|].
  destruct (write_without_runs _ _ _ _ _ Hn Hw) as [-> ->]. by rewrite set_core_id.
Qed.

Lemma closed_stays_closed `{MapRange} cfg vs st :
  Server.runs (Service.core st.1) = None → (after_visits cfg vs st).1 = st.1.
Proof.
  revert st. induction vs as [|v vs IH]; intros st Hn; [done|]. cbn [after_visits fold_left].
  pose proof (closed_visit cfg v st Hn) as Hv. destruct (serve_visit cfg v st) as [[[a s'] published] cache'].
  destruct Hv as [-> _]. exact (IH (st.1, cache') Hn).
Qed.

(** What [backend_start] settles when it serves. *)
Lemma backend_serving e b version windows db cfg svc tools :
  backend_start e b version windows db = Serving cfg svc tools →
  cfg = authConfig e ∧ tools = boolEnv e "AUTH_MCP_REQUIRE_TOKEN" false ∧
  (Server.runs (Service.core svc) = if boolEnv e "EXECUTOR_ENABLED" false then Some (stored.runs db) else None) ∧
  (boolEnv e "EXECUTOR_ENABLED" false = true → Config.Enabled cfg = true).
Proof.
  unfold backend_start. destruct (OpenFromEnv e (boot.dial b)); [done|]. destruct (boot.migrate b); [done|].
  destruct (buildGuard (authConfig e) b); [done|].
  destruct (_ && _) eqn:Hx; [done|]. destruct (strict_int _ _ _); [|done]. case_match; [done|].
  intros [= <- <- <-]. split_and!; [done|done|done|]. intros Ht. rewrite Ht in Hx. by apply negb_false_iff in Hx.
Qed.

(** C5: however it is configured, whatever it served before: once the API serves at
all, a request that changes what it keeps, or that announces a run, finds
authentication on and comes from an identity that its credential establishes and the
cluster grants the right to execute. *)
Theorem never_open (H : MapRange) e b version windows db cfg svc tools vs v :
  backend_start e b version windows db = Serving cfg svc tools →
  let st := after_visits cfg vs (svc, NewAuthenticator cfg) in
  let '(_, s', published, _) := serve_visit cfg v st in
  s' ≠ st.1 ∨ published ≠ [] →
  Config.Enabled cfg = true ∧
  ∃ id, established cfg (visit.reviews v) (visit.t0 v) (visit.header v) st.2 id ∧
    granted cfg (visit.access v) id ExecuteConsolidations.
Proof.
  intros Hs. destruct (backend_serving _ _ _ _ _ _ _ _ Hs) as (_ & _ & Hr & He). cbn zeta.
  set (st := after_visits cfg vs (svc, NewAuthenticator cfg)).
  destruct (boolEnv e "EXECUTOR_ENABLED" false) eqn:Hx.
  - pose proof (serve_writes cfg (visit.reviews v) (visit.access v) (visit.t0 v) (visit.t1 v) (visit.header v)
      (visit.world v) (visit.call v) st.2 st.1) as Hw.
    unfold serve_visit. destruct (serve _ _ _ _ _ _ _ _ _ _) as [[[a s'] published] cache']. intros Hc.
    destruct Hw as [[-> ->]|(_ & who & o & Hg & _)]; [by destruct Hc|].
    split; [by apply He|]. destruct (served_granted _ _ _ _ _ _ _ _ (He eq_refl) Hg) as (id & _ & ? & ?). by exists id.
  - assert (Hn : Server.runs (Service.core st.1) = None) by (subst st; by rewrite closed_stays_closed).
    pose proof (closed_visit cfg v st Hn) as Hv. destruct (serve_visit cfg v st) as [[[a s'] published] cache'].
    destruct Hv as [-> ->]. by intros [?|?].
Qed.

(** ** What a typing error does *)

Definition yes_words : list string := ["1"; "t"; "T"; "TRUE"; "true"; "True"].
Definition no_words : list string := ["0"; "f"; "F"; "FALSE"; "false"; "False"].

Lemma setting_Getenv e key : setting e key = if (Getenv e key =? "")%string then None else Some (Getenv e key).
Proof. unfold setting, Getenv. by destruct (e !! key). Qed.

Lemma existsb_word s ws : existsb (String.eqb s) ws = true ↔ s ∈ ws.
Proof.
  rewrite existsb_elem. split.
  - by intros (w & Hw & ->%String.eqb_eq).
  - intros Hs. exists s. split; [done|]. apply String.eqb_refl.
Qed.

Lemma word_apart s : s ∈ yes_words → s ∈ no_words → False.
Proof. intros Hy Hn. unfold yes_words, no_words in *. set_solver. Qed.

Lemma ParseBool_yes s : ParseBool s = Some true ↔ s ∈ yes_words.
Proof.
  unfold ParseBool. fold yes_words no_words. destruct (existsb (String.eqb s) yes_words) eqn:Hy.
  - by rewrite existsb_word in Hy.
  - rewrite <- existsb_word, Hy. destruct (existsb _ no_words); split; congruence.
Qed.

Lemma ParseBool_no s : ParseBool s = Some false ↔ s ∈ no_words.
Proof.
  unfold ParseBool. fold yes_words no_words. destruct (existsb (String.eqb s) yes_words) eqn:Hy.
  - split; [done|]. intros Hn. apply existsb_word in Hy. by destruct (word_apart s).
  - rewrite <- existsb_word. destruct (existsb _ no_words); split; congruence.
Qed.

(** A setting that is off unless said otherwise is on for a word that says yes, and
the other way around. *)
Lemma boolEnv_off e key : boolEnv e key false = true ↔ Getenv e key ∈ yes_words.
Proof.
  unfold boolEnv, read_or. rewrite setting_Getenv, <- ParseBool_yes.
  destruct (String.eqb_spec (Getenv e key) "") as [->|]; [cbn; split; congruence|].
  destruct (ParseBool (Getenv e key)) as [[]|]; cbn; split; congruence.
Qed.

Lemma boolEnv_on e key : boolEnv e key true = false ↔ Getenv e key ∈ no_words.
Proof.
  unfold boolEnv, read_or. rewrite setting_Getenv, <- ParseBool_no.
  destruct (String.eqb_spec (Getenv e key) "") as [->|]; [cbn; split; congruence|].
  destruct (ParseBool (Getenv e key)) as [[]|]; cbn; split; congruence.
Qed.

(** A mistyped setting opens nothing of the API: authentication is off only for a
word that says no, and anonymous reading, identities asserted by a proxy and the
routes that queue runs are on only for a word that says yes, the last only with
authentication on.  The tools of the agent ask for a token only for a word that says
yes. *)
Theorem settings_fail_safe e b version windows db cfg svc tools :
  backend_start e b version windows db = Serving cfg svc tools →
  (Config.Enabled cfg = false ↔ Getenv e "AUTH_ENABLED" ∈ no_words) ∧
  (Config.AllowAnonymousRead cfg = true ↔ Getenv e "AUTH_ANONYMOUS_READ" ∈ yes_words) ∧
  (TrustedProxy.Enabled (Config.TrustedProxy cfg) = true ↔ Getenv e "AUTH_TRUSTED_PROXY_ENABLED" ∈ yes_words) ∧
  (is_Some (Server.runs (Service.core svc)) ↔ Getenv e "EXECUTOR_ENABLED" ∈ yes_words) ∧
  (is_Some (Server.runs (Service.core svc)) → Config.Enabled cfg = true) ∧
  (tools = true ↔ Getenv e "AUTH_MCP_REQUIRE_TOKEN" ∈ yes_words).
Proof.
  intros Hs. destruct (backend_serving _ _ _ _ _ _ _ _ Hs) as (-> & -> & -> & He).
  rewrite <- !boolEnv_off, <- boolEnv_on. split_and!; try done.
  - destruct (boolEnv e "EXECUTOR_ENABLED" false); (split; [intros [? ?]; congruence|]); intros [=]. by eexists.
  - intros Hr. apply He. destruct (boolEnv e "EXECUTOR_ENABLED" false); [done|by destruct Hr].
Qed.

(** A word that is neither leaves the tools of the agent open. *)
Lemma mistyped_guard_is_open e : Getenv e "AUTH_MCP_REQUIRE_TOKEN" = "yes" → boolEnv e "AUTH_MCP_REQUIRE_TOKEN" false = false.
Proof. intros Hg. unfold boolEnv, read_or. by rewrite setting_Getenv, Hg. Qed.

(** ** The executor judges as the planner *)

Lemma New_positive t :
  1 <= Thresholds.YellowPodsMoved (Impact.New t) ∧ 1 <= Thresholds.RedPodsMoved (Impact.New t) ∧
  1 <= Thresholds.TightPDBHeadroom (Impact.New t).
Proof.
  unfold Impact.New. cbn. repeat match goal with |- context [?a <=? 0] => destruct (Z.leb_spec a 0) end; split_and!; lia.
Qed.

Lemma executor_classifier e : ExecOptions.Classifier (executor_options e) = thresholds e.
Proof.
  unfold executor_options, ExecOptions.withDefaults. cbn [ExecOptions.Classifier].
  destruct (New_positive (Thresholds.mk (intEnv e "YELLOW_PODS_MOVED" 0) (intEnv e "RED_PODS_MOVED" 0)
    (wrap32 (intEnv e "TIGHT_PDB_HEADROOM" 0)))) as (Hy & _ & _). fold (thresholds e) in Hy.
  by rewrite (proj2 (Z.eqb_neq _ _)) by lia.
Qed.

Lemma executor_planner e : ExecOptions.Planner (executor_options e) = executor_planner_options e.
Proof. unfold executor_options, ExecOptions.withDefaults. cbn [ExecOptions.Planner]. cbn. by rewrite andb_false_r. Qed.

(** In one environment the executor rates a step exactly as the planner that put
it on the screen, and plans with the same exclusions; it plans as the planner does
altogether exactly where no number of steps and no packing ceiling of its own is set
for the planner.  Thresholds are at least one. *)
Theorem executor_judges_as_planner e wall :
  let classifier := Publisher.Classifier (publisher_config e wall) in
  let ours := ExecOptions.Planner (executor_options e) in
  let theirs := planner_options e in
  ExecOptions.Classifier (executor_options e) = classifier ∧
  1 <= Thresholds.YellowPodsMoved classifier ∧ 1 <= Thresholds.RedPodsMoved classifier ∧
  1 <= Thresholds.TightPDBHeadroom classifier ∧
  Options.ExcludeNodeLabels ours = Options.ExcludeNodeLabels theirs ∧
  Options.ExcludeNamespaces ours = Options.ExcludeNamespaces theirs ∧
  Options.MinNodeAge ours = Options.MinNodeAge theirs ∧
  (ours = theirs ↔ intEnv e "MAX_STEPS" 0 = 0 ∧
                   floatEnv e "PACK_CEILING" (F64.lit 85 100) = F64.lit 85 100).
Proof.
  cbn zeta. rewrite executor_classifier, executor_planner. cbn [publisher_config Publisher.Classifier].
  split_and!; try done; try apply New_positive.
  unfold executor_planner_options, planner_options. cbn [Options.MaxSteps Options.PackCeiling Options.DefaultOptions].
  split; [by intros [= Hm Hc]|]. by intros [-> ->].
Qed.

(** A ceiling set for the planner is not the one a converging run plans with. *)
Lemma ceiling_not_shared :
  let e := {["PACK_CEILING" := "0.5"]} in
  Options.PackCeiling (planner_options e) = F64.lit 1 2 ∧
  Options.PackCeiling (ExecOptions.Planner (executor_options e)) = F64.lit 85 100.
Proof. by vm_compute. Qed.

(** ** A Red step takes a window *)


(** ** Nothing on half a cluster *)

Lemma loop_cycles turns : ∀ a, a ∈ (planner_loop turns).1 → a = ACycle.
Proof.
  induction turns as [|[]]; cbn; intros a Ha; try (by apply elem_of_nil in Ha).
  destruct (planner_loop turns) as [acts o]. cbn in *. apply elem_of_cons in Ha as [->|Ha]; [done|by apply IHturns].
Qed.

Definition started : list act := [AMigrate; AWatch; AListen; ASynced; AReady].

(** How far it got. *)
Lemma planner_acts e b turns :
  let acts := (planner_run e b turns).1 in
  acts = [] ∨ acts = [AMigrate; AWatch; AListen] ∨
  boot.synced b = true ∧
  (acts = started ∨
   0 < duration_env e "RESYNC_PERIOD" (30 * Second) ∧ ∃ cs, acts = started ++ cs ∧ ∀ c, c ∈ cs → c = ACycle).
Proof.
  cbn zeta. unfold planner_run, or_fail.
  destruct (boot.kubeconfig b); [by left|]. destruct (if (_ =? _)%string then _ else _); [by left|].
  destruct (boot.collector b); [by left|]. destruct (OpenFromEnv e (boot.dial b)); [by left|].
  destruct (boot.migrate b); [by left|]. destruct (boot.synced b); cbn [negb]; [|right; by left].
  right. right. split; [done|]. destruct (Z.leb_spec (duration_env e "RESYNC_PERIOD" (30 * Second)) 0); [by left|].
  right. split; [done|]. pose proof (loop_cycles turns) as Hc. destruct (planner_loop turns) as [acts o].
  exists (ACycle :: acts). split; [done|]. intros c [->|?]%elem_of_cons; [done|by apply Hc].
Qed.

(** Whatever fails while it starts and runs, the planner calls itself ready and
plans only after it has migrated the store and its cache of the cluster is
complete; and it plans only at a positive interval. *)
Theorem planner_waits_for_cluster e b turns l1 a l2 :
  (planner_run e b turns).1 = l1 ++ a :: l2 → a = AReady ∨ a = ACycle →
  boot.synced b = true ∧ AMigrate ∈ l1 ∧ ASynced ∈ l1 ∧
  (a = ACycle → AReady ∈ l1 ∧ 0 < duration_env e "RESYNC_PERIOD" (30 * Second)).
Proof.
  intros Ha Hk. destruct (planner_acts e b turns) as [E|[E|[Hs E]]]; rewrite Ha in E; [by destruct l1| |].
  { assert (a ∈ [AMigrate; AWatch; AListen]) as Hin by (rewrite <- E; set_solver). destruct Hk as [-> | ->]; set_solver. }
  split; [done|]. assert (∃ cs, l1 ++ a :: l2 = started ++ cs) as [cs Hcs] by (destruct E as [E|(_ & cs & E & _)]; [by exists []|by exists cs]).
  destruct l1 as [|x1 [|x2 [|x3 [|x4 l1]]]]; unfold started in Hcs; cbn in Hcs; simplify_eq;
    try (by destruct Hk). split_and!; [set_solver|set_solver|]. intros ->.
  destruct l1 as [|x5 l1]; [done|]. cbn in *. simplify_eq. split; [set_solver|].
  destruct E as [E|(? & _)]; [|done]. unfold started in E. cbn in E. simplify_eq. by destruct l1.
Qed.

(** ** The packing ceiling *)

(** What is read as a fraction is one, or it is no number at all, which is let
through and does what no ceiling does. *)
Lemma fraction_bounds raw v :
  fraction raw = Some v → F64.ltb v F64.zero = false ∧ F64.ltb F64.one v = false.
Proof.
  unfold fraction. destruct (ParseFloat raw) as [f|]; [|done]. destruct (_ || _) eqn:Ho; [done|].
  intros [= <-]. by apply orb_false_iff in Ho.
Qed.

Lemma no_number_no_ceiling snap :
  floatEnv {["PACK_CEILING" := "NaN"]} "PACK_CEILING" (F64.lit 85 100) = S754_nan ∧
  Placement.NewPlacementCeiling snap S754_nan = Placement.NewPlacement snap.
Proof. split; [by vm_compute|done]. Qed.

(** ** Probes *)

Lemma probe_none found names : Health.probe found names = None ↔ ∀ name, name ∈ names → found name = None.
Proof.
  induction names as [|n names IH]; cbn; [set_solver|]. destruct (found n) eqn:E; [|set_solver].
  split; [done|]. intros H. specialize (H n). rewrite E in H. by specialize (H (list_elem_of_here _ _)).
Qed.

(** What takes a replica out of the service is its own word alone: no dependency that
fails does, and each that fails shows where it can be asked for. *)
Lemma readiness_is_its_own found found' h :
  Health.answer found h "/readyz" = Health.answer found' h "/readyz" ∧
  Health.answer found h "/healthz" = Some (200, "ok") ∧
  (Health.answer found h "/dependenciesz" = Some (200, "ok") ↔ ∀ name, name ∈ Health.checks h → found name = None).
Proof.
  split_and!; [done|done|]. rewrite <- probe_none.
  change (Health.answer found h "/dependenciesz") with
    (Some (match Health.probe found (Health.checks h) with
           | Some (name, err) => Health.unavailable (name +:+ ": " +:+ err) | None => (200, "ok") end)).
  destruct (Health.probe found (Health.checks h)) as [[name err]|]; [|done]. split; intros Hp; discriminate Hp.
Qed.

(** ** Examples *)

Definition open_boot : boot.t := boot.mk None None None None None None (λ _, None) None true "" (λ _, inl "no table").

Definition draining_env : environ := {["EXECUTOR_ENABLED" := "true"; "POD_NAMESPACE" := "dencer"]}.

Definition first_install : stored.t := stored.mk two_plans RunStore.empty Timeline.empty [] [].

Definition backend : start := backend_start draining_env open_boot "v1" (inr []) first_install.

Definition execute_visit : visit.t :=
  visit.mk one_token ops_may 0 0 with_token one_instant (PostExecute "latest" (Some (executeRequest.mk [2; 1; 2] false))).

Definition backend_cfg : Config.t := match backend with Serving cfg _ _ => cfg | _ => authConfig ∅ end.
Definition backend_service : Service.t := match backend with Serving _ svc _ => svc | _ => service end.

Lemma never_open_witness :
  backend = Serving backend_cfg backend_service false ∧
  ∃ id, granted backend_cfg ops_may id ExecuteConsolidations.
Proof.
  split; [by vm_compute|].
  pose proof (never_open in_keys draining_env open_boot "v1" (inr []) first_install backend_cfg backend_service false
    [] execute_visit eq_refl) as H.
  cbn zeta in H. destruct (serve_visit _ _ _) as [[[ans s'] pub] c'] eqn:E.
  assert (Hp : pub ≠ []).
  { intros ->. apply (f_equal (λ o, length o.1.2)) in E. vm_compute in E. discriminate E. }
  destruct H as (_ & id & _ & Hg); [by right|]. by exists id.
Defined.

Lemma settings_fail_safe_witness :
  Config.Enabled backend_cfg = false ↔ "" ∈ no_words.
Proof.
  apply (settings_fail_safe draining_env open_boot "v1" (inr []) first_install backend_cfg backend_service false).
  by vm_compute.
Defined.






Lemma planner_waits_for_cluster_witness :
  boot.synced open_boot = true ∧ AMigrate ∈ started ∧ ASynced ∈ started.
Proof.
  destruct (planner_waits_for_cluster ∅ open_boot [Ticked; Ended] started ACycle [ACycle]) as (? & ? & ? & _);
    [by vm_compute|by right|done].
Defined.
